(* ===== verification/_CoqProject ===== *)
-Q . S2P
Prelude.v
Cache.v
Text.v
Substrate.v
Path.v
Tree.v
Safe.v
Faulty.v
Verity.v
Codec.v
Stream.v
Builds.v
Nodes.v
NodesTree.v
Cpio.v
CpioTree.v
Romfs.v
RomTree.v
Cramfs.v
CramTree.v
Squash.v
SquashTree.v
Udf.v
UdfTree.v
ErofsIndex.v
Erofs.v
ErofsPacked.v
ErofsTree.v
RockRidge.v
ElTorito.v
Iso.v
IsoSpec.v
IsoTree.v
AnyMedium.v
FaultyFs.v
ErofsTrust.v
