(* ===== verification/Prelude.v ===== *)
(** * lamfold: a verification development

    lamfold reads media file systems without ever writing them: cpio/initramfs,
    romfs, cramfs, SquashFS, UDF, EROFS and ISO 9660.  It runs in boot loaders,
    over media nobody has checked, so what counts is that no medium makes it
    panic, loop or hand out bytes that are not the file's, and that a good medium
    is read exactly.  Paths below are relative to [src/].

    ** The program and the files that model it

    The substrate, [crates/lamfold/src/]:
    - [error.rs]: [FoldError], its tokens and messages, in this file, with the outcomes
      of a computation, machine integers, byte fields, slices and loops;
    - [cache.rs]: [Cache], the byte-capacity LRU cache and the abstract list;
    - [source.rs], [read_cap.rs], [verify.rs], [frontend.rs]: [Substrate], byte
      sources, allocation caps, the verifier seam and the trait of all frontends;
    - [path.rs]: [Path], resolution and whole-file reads over any frontend;
    - [verity.rs]: [Verity], the fs-verity tree, digest and [MerkleVerifier];
    - [codec.rs] and [stream.rs]: [Codec] and [Stream], decompression by block of
      known size and by stream of unknown size, and [Builds], both registries in a
      build without some of the codecs.
    [Text] translates what the sources use of Rust's strings.

    The frontends, one crate each under [crates/], each an instance of
    [Substrate.FoldFrontend] over any [Substrate.BlockSource]:
    - [lamfold-cpio/src/cpio.rs]: [Cpio];  [lamfold-romfs/src/romfs.rs]: [Romfs];
      [lamfold-cramfs/src/cramfs.rs]: [Cramfs];
    - [lamfold-squash/src/squash.rs]: [Squash];  [lamfold-udf/src/udf.rs]: [Udf];
    - [lamfold-erofs/src/erofs.rs]: [ErofsIndex] (what works on bytes in memory:
      the cluster index, pcluster decoding, directory blocks, the feature check)
      and [Erofs] (the mounted volume);
    - [lamfold-iso/src/rock_ridge.rs], [el_torito.rs], [iso9660.rs]: [RockRidge],
      [ElTorito] and [Iso]; [IsoSpec] has the formats from the writer's side and
      the theorems about a volume.
    [Nodes] is the node table SquashFS, UDF and ISO 9660 share in shape: inodes met
    so far, interned by where they come from.

    Above them is the abstract specification.  [Tree] is a read-only file system with
    no format: directories of named trees, files of bytes and links, with the answers
    a session of reads, listings and queries by path should get ([tree_op]); the class
    [TreeFs] is what a frontend owes it, node by node, and [session_refines] lifts
    that through [Path].  [CpioTree], [RomTree], [CramTree], [SquashTree], [UdfTree],
    [ErofsTree] and [IsoTree] have, for their format, the relation between the bytes of
    a medium and the tree written on it (superblock or descriptors, inodes, directory
    data, the layouts of a file), and an instance of [TreeFs]; [NodesTree] is what the
    ones with a node table share, and [ErofsPacked] has EROFS's compressed data from the
    writer's side: map headers, full and compact indexes, and pclusters with the padding
    and the stream of each codec.  For media that hold no tree, the class [SafeFs] of
    [Safe] is what a frontend owes whatever is on them, and [session_safe] lifts it to
    sessions; [AnyMedium] has the instances of the seven frontends.  In the same way the
    class [FaultyFs] of [Faulty] is what a frontend owes a device whose reads fail, and
    the file [FaultyFs] has the instances.  [ErofsTrust] puts [Path], [Erofs] and the
    [MerkleVerifier] of [Verity] together.

    A frontend reads its source through [src_read]; the ones with tables or memos
    keep them in a record, and those operations run in [ST] over it.  [Path] calls
    a frontend through the class only, so its theorems hold for all of them, and the
    theorems of the trees instantiate them.  The verified [read_at] of
    [Erofs] calls a [Verifier], which [Verity] implements.  A definition has the
    name of its function; a method [f] of a frontend [x] is [x_f].

    ** How the code is translated

    - [Res] has the outcomes of Rust code: [Ok], [Err], [Panic] (an index or slice
      out of range, an [expect]), [Overflow] (a sum, difference, product or shift
      that leaves its type: a panic where overflow checks are on, a wrapped value
      otherwise) and [Diverge].
    - Integers are [Z] with their width at each operation: [addw], [mulw], [subw],
      [shl_one] where the code adds on-disk numbers as they come, [checked_add],
      [saturating_sub] and the like where it says so; wrapping is written out.
      Sums of indexes into buffers in memory are not bounded: a buffer is shorter
      than 2^63 bytes.  [usize] has 64 bits, except in [Substrate]'s read caps,
      which are for any width.
    - A [loop] or [while] is [loop] over a round function; it gives up, as
      [Diverge], after 2^64 rounds, more than any run here needs: the theorems that
      an operation [returns] exclude [Diverge], from a measure of each loop.  A
      bounded loop is a [Fixpoint] on its bound.  The limits of the code are its
      own: 16 symbolic links of a path, 8 hard-link hops of romfs, 64 volume
      descriptors, 16 continuation areas and 4096 extents of ISO 9660.  A member
      of an initramfs is never unpacked inside a member, so a depth of 2 is enough
      for [Cpio.insert_chain].
    - A [BTreeMap] is a [gmap], iterated in key order; a [Vec] is a list; a [String]
      is its UTF-8 bytes; a buffer written through [&mut] is passed and returned,
      and after an [Err] nothing is said about it.
    - A source answers reads as a function of the medium: the media do not change
      under a mounted volume.  Any read may fail; [ReliableSource] is a source whose
      reads inside the medium do not, and [Faulty.Ideal] makes one of any source.
    - All cargo features are on, except in [Builds].

    What is outside the repository is a parameter with the behaviour the code
    relies on: the decompressors ([Codec.Decoders], [DecoderLaws]: an output within
    its limit; [StoredDecoders] is a concrete instance), SHA-256 (32 bytes out, in
    [Verity]) and the [cpio_reader] crate's parser of the older cpio formats
    ([Cpio.CpioReader]).

    ** What the theorems show

    - Trust.  A verifier accepts a tampered block only with a SHA-256 collision in
      hand ([Verity.verify_block_sound]); the digest is that of the published
      descriptor ([fsverity_digest_correct]); every byte an EROFS read gives lies
      in a block the verifier accepted there ([Erofs.erofs_read_at_verified]); so a
      read through a Merkle verifier gives the trusted bytes
      ([erofs_merkle_read_trusted]), and a file read by path, wherever the medium
      makes the path lead, is the trusted one, at the size the medium records
      ([ErofsTrust.read_path_trusted]).  The one other way, in both, is a block that the
      medium serves for the file, that is accepted, and that collides with the very
      block of the trusted data it stands for ([Verity.forges]).
    - Any medium.  Every request of every session by path, on any medium and for each
      of the seven formats, is answered ([AnyMedium.every_request_answered]).  Node
      by node, for each frontend, probing, mounting and every operation, in any
      order, comes back ([cpio_open_sound], [romfs_total], [cramfs_total],
      [squash_total], [udf_total], [erofs_total], [iso_total]); where the code adds
      on-disk numbers without a check the statement has [Overflow] as the one other
      outcome, and for cramfs a read past what the pages inflate to.  Decompression
      stays within its cap ([Stream.decode_stream_bounded]); path resolution comes
      back whatever links there are ([Path.resolve_returns]).
    - Any device.  A failed read is never taken for data, for a missing entry or for
      the end of a file: up to the first request that ends with the device's error, a
      session goes as in a device that does not fail
      ([FaultyFs.device_errors_reported]).  The exception, stated there, is the LZMA
      configuration of EROFS, which mounting drops when it cannot be read.
    - Good media.  What a writer of the format lays out is read back: archives,
      file contents at any offset and in every layout, directories, names, links,
      compressed indexes, zisofs blocks, boot catalogs (the [_roundtrip],
      [_content] and [_lists] theorems).  Through paths: [read_path] gives the whole
      file ([Path.read_path_content]), and resolution is the walk it should be
      ([Path.resolve_iff_walk]).
    - Refinement.  A volume of each format, mounted, is the tree written on it: every
      session by path gets the answers of the abstract file system, errors included
      ([CpioTree.initramfs_refines_tree] and the seven [_refines_tree] theorems).  For
      cpio that holds of any bytes that mount ([CpioTree.cpio_refines_tree]); for
      EROFS with any verifier that accepts the blocks of the files, with data in any
      layout, compressed directories included.
    - Tables and caches.  The block cache is an LRU list
      ([Cache.cache_refines_lru]); EROFS's memo tables cannot be seen
      ([Erofs.erofs_memo_transparent]); handles are stable and stand for the inode
      they were given for ([Squash.squash_read_dir_spec],
      [IsoSpec.iso_listing_typed]).
    - Limits the code has: the tree never ends on tiny blocks
      ([Verity.merkle_root_diverges]), a block cut in its zero tail is accepted
      ([verify_block_trimmed]), a short cramfs page panics
      ([Cramfs.cramfs_read_at_short]), a UEFI boot catalog whose default entry is not
      bootable has no image whatever its sections have
      ([ElTorito.et_catalog_roundtrip]), and a full EROFS index has one block for each
      pcluster ([ErofsPacked.full_heads]).

    A theorem with hypotheses has a [_witness] that applies it to a concrete small
    volume, image or stream.

    ** Not modelled

    The crates' [lib.rs] only re-export.  The decoders and
    SHA-256 are not in the repository.  Allocation failure is not modelled (a
    reservation succeeds).  The [BlockCache] of [SubstrateCtx] is verified on its
    own: no frontend uses the one it is handed.  Tests, fixtures and build files
    are not part of the program. *)
From Stdlib Require Export ZArith Lia Bool.
From Stdlib Require Export Strings.Byte Strings.String.
From stdpp Require Export base tactics numbers list gmap sorting strings.
From stdpp Require Import pretty.

Declare Scope lam_scope.
Delimit Scope lam_scope with lam.
Open Scope lam_scope.
Open Scope Z_scope.

#[global] Arguments Z.add : simpl never.
#[global] Arguments Z.sub : simpl never.
#[global] Arguments Z.mul : simpl never.
#[global] Arguments Z.pow : simpl never.
#[global] Arguments Z.div : simpl never.
#[global] Arguments Z.modulo : simpl never.
#[global] Arguments Z.of_nat : simpl never.
#[global] Arguments Z.to_nat : simpl never.
#[global] Arguments Z.land : simpl never.
#[global] Arguments Z.lor : simpl never.
#[global] Arguments Z.lxor : simpl never.
#[global] Arguments Z.shiftl : simpl never.
#[global] Arguments Z.shiftr : simpl never.

(** ** Errors ([crates/lamfold/src/error.rs]) *)

Inductive FoldError : Type :=
| NotFound
| NotDirectory
| IsDirectory
| InvalidPath (w : string)
| Corrupt (w : string)
| Unsupported (w : string)
| FileTooLarge (size max : Z)
| Decompress (w : string)
| VerifyFailed (w : string)
| Io (w : string).

#[export] Instance FoldError_eq_dec : EqDecision FoldError.
Proof. solve_decision. Defined.

Definition as_token (e : FoldError) : string :=
  match e with
  | NotFound => "not_found"
  | NotDirectory => "not_directory"
  | IsDirectory => "is_directory"
  | InvalidPath _ => "invalid_path"
  | Corrupt _ => "corrupt"
  | Unsupported _ => "unsupported"
  | FileTooLarge _ _ => "file_too_large"
  | Decompress _ => "decompress"
  | VerifyFailed _ => "verify_failed"
  | Io _ => "io"
  end.

(** [impl Display for FoldError]. *)
Definition fmt (e : FoldError) : string :=
  match e with
  | NotFound => "not found"
  | NotDirectory => "not a directory"
  | IsDirectory => "is a directory"
  | InvalidPath w => "invalid path: " +:+ w
  | Corrupt w => "corrupt: " +:+ w
  | Unsupported w => "unsupported: " +:+ w
  | FileTooLarge size max => "file too large: " +:+ pretty size +:+ " bytes exceeds cap " +:+ pretty max
  | Decompress w => "decompress: " +:+ w
  | VerifyFailed w => "verify failed: " +:+ w
  | Io w => "io: " +:+ w
  end.

Lemma fmt_too_large : fmt (FileTooLarge 16777217 16777216) = "file too large: 16777217 bytes exceeds cap 16777216"%string.
Proof. reflexivity. Qed.

(** ** Outcomes of a Rust computation

    [Ok] and [Err] are the two constructors of [lamfold::Result].  [Panic] is a
    Rust panic: an out-of-range index or slice.  [Overflow] is arithmetic that
    leaves its machine type: a panic in a build with overflow checks, a wrap-around
    in one without.  [Diverge] is a loop that has used up the fuel its model was
    given; no theorem about results ever treats it as success. *)

Inductive Res (A : Type) : Type :=
| Ok (a : A)
| Err (e : FoldError)
| Panic
| Overflow
| Diverge.
Arguments Ok {A} a.
Arguments Err {A} e.
Arguments Panic {A}.
Arguments Overflow {A}.
Arguments Diverge {A}.

Definition bindR {A B} (m : Res A) (k : A -> Res B) : Res B :=
  match m with
  | Ok a => k a
  | Err e => Err e
  | Panic => Panic
  | Overflow => Overflow
  | Diverge => Diverge
  end.

Definition ok_or {A} (o : option A) (e : FoldError) : Res A :=
  match o with Some a => Ok a | None => Err e end.

(** [returns r]: the call comes back with a [Result], neither panicking nor
    running for ever. *)
Definition returns {A} (r : Res A) : Prop :=
  match r with Ok _ | Err _ => True | Panic | Overflow | Diverge => False end.

(** Stateful calls ([&mut self]): the state survives an error. *)
Definition ST (S A : Type) : Type := S -> Res A * S.

Definition retST {S A} (a : A) : ST S A := fun s => (Ok a, s).
Definition errST {S A} (e : FoldError) : ST S A := fun s => (Err e, s).
Definition bindST {S A B} (m : ST S A) (k : A -> ST S B) : ST S B :=
  fun s => match m s with
           | (Ok a, s') => k a s'
           | (Err e, s') => (Err e, s')
           | (Panic, s') => (Panic, s')
           | (Overflow, s') => (Overflow, s')
           | (Diverge, s') => (Diverge, s')
           end.
Definition getST {S} : ST S S := fun s => (Ok s, s).
Definition putST {S} (s' : S) : ST S unit := fun _ => (Ok tt, s').
Definition liftR {S A} (r : Res A) : ST S A := fun s => (r, s).

Notation "'let!' x := m 'in' k" := (bindR m (fun x => k))
  (at level 10, x pattern, m at level 100, k at level 200,
   format "'[v' 'let!'  x  :=  m  'in' '/' k ']'") : lam_scope.
Notation "'let*' x := m 'in' k" := (bindST m (fun x => k))
  (at level 10, x pattern, m at level 100, k at level 200,
   format "'[v' 'let*'  x  :=  m  'in' '/' k ']'") : lam_scope.

(** ** Bytes and machine integers *)

#[export] Instance byte_eq_dec : EqDecision byte := Byte.byte_eq_dec.

#[export] Program Instance byte_countable : Countable byte :=
  {| encode b := encode (Byte.to_N b);
     decode p := n ← decode p; Byte.of_N n |}.
Next Obligation.
  intros b. cbn beta. rewrite decode_encode. simpl. apply Byte.of_to_N.
Qed.

(** The value of a [u8]. *)
Definition u8 (b : byte) : Z := Z.of_N (Byte.to_N b).

(** [z as u8]. *)
Definition to_u8 (z : Z) : byte :=
  default x00 (Byte.of_N (Z.to_N (z mod 256))).

Definition zlen {A} (l : list A) : Z := Z.of_nat (length l).

(** Rust byte-string literals. *)
Definition bytes_of (s : string) : list byte := list_byte_of_string s.

(** [vec![0u8; n]]. *)
Definition zeros (n : Z) : list byte := replicate (Z.to_nat n) x00.

Definition u16_max : Z := 2 ^ 16.
Definition u32_max : Z := 2 ^ 32.
Definition u64_max : Z := 2 ^ 64.

(** Checked arithmetic of an overflow-checked build ([w] is the bit width). *)
Definition addw (w a b : Z) : Res Z := if a + b <? 2 ^ w then Ok (a + b) else Overflow.
Definition mulw (w a b : Z) : Res Z := if a * b <? 2 ^ w then Ok (a * b) else Overflow.
Definition subw (a b : Z) : Res Z := if b <=? a then Ok (a - b) else Overflow.

(** [checked_add] / [checked_mul]. *)
Definition checked_add (w a b : Z) : option Z :=
  if a + b <? 2 ^ w then Some (a + b) else None.
Definition checked_mul (w a b : Z) : option Z :=
  if a * b <? 2 ^ w then Some (a * b) else None.
Definition saturating_sub (a b : Z) : Z := Z.max 0 (a - b).
Definition div_ceil (a b : Z) : Z := (a + b - 1) / b.

(** [from_le_bytes] / [from_be_bytes] and the inverse [to_le_bytes]. *)
Fixpoint le_num (l : list byte) : Z :=
  match l with
  | [] => 0
  | b :: l' => u8 b + 256 * le_num l'
  end.
Definition be_num (l : list byte) : Z := le_num (rev l).

Fixpoint le_bytes (n : nat) (z : Z) : list byte :=
  match n with
  | O => []
  | S n' => to_u8 z :: le_bytes n' (z / 256)
  end.
Definition be_bytes (n : nat) (z : Z) : list byte := rev (le_bytes n z).

(** ** Slices *)

(** [l.get(i)], [l.get(lo..hi)] and [l.get(lo..)]. *)
Definition get {A} (l : list A) (i : Z) : option A :=
  if i <? 0 then None else l !! Z.to_nat i.
Definition sub {A} (l : list A) (lo n : Z) : list A :=
  take (Z.to_nat n) (drop (Z.to_nat lo) l).
Definition get_range {A} (l : list A) (lo hi : Z) : option (list A) :=
  if (0 <=? lo) && (lo <=? hi) && (hi <=? zlen l)
  then Some (sub l lo (hi - lo)) else None.
Definition get_from {A} (l : list A) (lo : Z) : option (list A) :=
  get_range l lo (zlen l).

(** [l[i]] and [&l[lo..hi]], which panic out of range. *)
Definition at_ {A} (l : list A) (i : Z) : Res A :=
  match get l i with Some a => Ok a | None => Panic end.
Definition slice {A} (l : list A) (lo hi : Z) : Res (list A) :=
  match get_range l lo hi with Some a => Ok a | None => Panic end.

(** [buf[lo..lo + data.len()].copy_from_slice(data)]. *)
Definition write_at {A} (buf : list A) (lo : Z) (data : list A) : Res (list A) :=
  if (0 <=? lo) && (lo + zlen data <=? zlen buf)
  then Ok (sub buf 0 lo ++ data ++ drop (Z.to_nat (lo + zlen data)) buf)
  else Panic.

(** [iter().position(|&b| p(b))]. *)
Fixpoint position {A} (p : A -> bool) (l : list A) : option Z :=
  match l with
  | [] => None
  | b :: l' => if p b then Some 0 else Z.succ <$> position p l'
  end.

(** [l.starts_with(pre)]. *)
Definition starts_with (l pre : list byte) : bool :=
  bool_decide (take (length pre) l = pre).

(** [b.get(o..o + n).map(from_le_bytes).ok_or(Corrupt(tok))], the shape of every
    bounds-checked field reader of the frontends. *)
Definition le_field (n : Z) (tok : string) (b : list byte) (o : Z) : Res Z :=
  ok_or (le_num <$> get_range b o (o + n)) (Corrupt tok).
Definition be_field (n : Z) (tok : string) (b : list byte) (o : Z) : Res Z :=
  ok_or (be_num <$> get_range b o (o + n)) (Corrupt tok).

(** [for i in i0..i0 + n { acc = body(i, acc)? }]. *)
Fixpoint for_loop {A} (n : nat) (i : Z) (body : Z -> A -> Res A) (acc : A) : Res A :=
  match n with
  | O => Ok acc
  | S n' => let! acc' := body i acc in for_loop n' (i + 1) body acc'
  end.

(** [loop { .. }] over a state: a round either goes on ([inl]) or breaks with a
    value ([inr]).  [steps k] is up to [2 ^ k] rounds, so the 64 of [loop] are
    enough for any loop with a measure that fits 64 bits. *)
Fixpoint steps {St R} (k : nat) (body : St -> Res (St + R)) (s : St) : Res (St + R) :=
  match k with
  | O => body s
  | S k' =>
      let! r := steps k' body s in
      match r with
      | inl s' => steps k' body s'
      | inr x => Ok (inr x)
      end
  end.
Definition loop {St R} (body : St -> Res (St + R)) (s : St) : Res R :=
  let! r := steps 64 body s in
  match r with
  | inl _ => Diverge
  | inr x => Ok x
  end.

(** The same in a stateful call: an error ends the loop, the state survives. *)
Definition loopST {S St R} (body : St -> ST S (St + R)) (s : St) : ST S R := fun f =>
  match loop (fun '(s, f) =>
    match body s f with
    | (Ok (inl s'), f') => Ok (inl (s', f'))
    | (Ok (inr x), f') => Ok (inr (Ok x, f'))
    | (Err e, f') => Ok (inr (Err e, f'))
    | (Panic, _) => Panic
    | (Overflow, _) => Overflow
    | (Diverge, _) => Diverge
    end) (s, f) with
  | Ok (r, f') => (r, f')
  | Err e => (Err e, f)
  | Panic => (Panic, f)
  | Overflow => (Overflow, f)
  | Diverge => (Diverge, f)
  end.

(** [1usize << k]. *)
Definition shl_one (k : Z) : Res Z := if k <? 64 then Ok (Z.shiftl 1 k) else Overflow.

(** ** Ordered iteration of a [BTreeMap], modelled as a [gmap]. *)
Definition btree_iter {K V} `{Countable K} (le : relation (K * V))
    `{!RelDecision le} (m : gmap K V) : list (K * V) :=
  merge_sort le (map_to_list m).

(** ** Lemmas: outcomes *)

Create HintDb lam.
Create HintDb zlen discriminated.

Lemma bindR_Ok {A B} (m : Res A) (k : A -> Res B) b :
  bindR m k = Ok b <-> exists a, m = Ok a /\ k a = Ok b.
Proof. destruct m; simpl; naive_solver. Qed.

Lemma bindR_assoc {A B C} (m : Res A) (f : A -> Res B) (g : B -> Res C) :
  bindR (bindR m f) g = bindR m (fun a => bindR (f a) g).
Proof. by destruct m. Qed.

Lemma bindR_ret {A} (m : Res A) : bindR m Ok = m.
Proof. by destruct m. Qed.

Lemma returns_bindR {A B} (m : Res A) (k : A -> Res B) :
  returns m -> (forall a, m = Ok a -> returns (k a)) -> returns (bindR m k).
Proof. destruct m; simpl; auto. Qed.

Lemma returns_ok_or {A} (o : option A) e : returns (ok_or o e).
Proof. by destruct o. Qed.

Lemma ok_or_Ok {A} (o : option A) e a : ok_or o e = Ok a <-> o = Some a.
Proof. destruct o; simpl; naive_solver. Qed.

Lemma bindST_Ok {S A B} (m : ST S A) (k : A -> ST S B) s b s' :
  bindST m k s = (Ok b, s') <-> exists a s1, m s = (Ok a, s1) /\ k a s1 = (Ok b, s').
Proof.
  unfold bindST. destruct (m s) as [[a|e| | |] s1]; naive_solver.
Qed.

#[export] Hint Resolve returns_ok_or : lam.

(** Step through a chain of binds that is known to succeed. *)
Ltac inv_ok :=
  repeat match goal with
  | H : Ok _ = Ok _ |- _ => injection H as H; try subst
  | H : Err _ = Ok _ |- _ => discriminate H
  | H : Panic = Ok _ |- _ => discriminate H
  | H : Overflow = Ok _ |- _ => discriminate H
  | H : Diverge = Ok _ |- _ => discriminate H
  | H : bindR _ _ = Ok _ |- _ =>
      let a := fresh "v" in let Ha := fresh "Hv" in
      apply bindR_Ok in H as (a & Ha & H); cbn beta in H
  | H : ok_or _ _ = Ok _ |- _ => apply ok_or_Ok in H
  end.

(** Split a [returns] goal along the binds of the program. *)
Ltac step_returns :=
  match goal with
  | |- returns (bindR _ _) => apply returns_bindR; [ | let v := fresh "v" in
        let Hv := fresh "Hv" in intros v Hv; cbn beta ]
  | |- returns (Ok _) => exact I
  | |- returns (Err _) => exact I
  | |- returns (if ?b then _ else _) => let H := fresh "Hif" in destruct b eqn:H
  | |- returns _ => solve [eauto with lam]
  end.

(** ** Lemmas: arithmetic *)

Lemma addw_Ok w a b c : addw w a b = Ok c <-> a + b < 2 ^ w /\ c = a + b.
Proof. unfold addw. case_match eqn:E; [apply Z.ltb_lt in E | apply Z.ltb_ge in E];
  naive_solver lia. Qed.

Lemma mulw_Ok w a b c : mulw w a b = Ok c <-> a * b < 2 ^ w /\ c = a * b.
Proof. unfold mulw. case_match eqn:E; [apply Z.ltb_lt in E | apply Z.ltb_ge in E];
  naive_solver lia. Qed.

Lemma subw_Ok a b c : subw a b = Ok c <-> b <= a /\ c = a - b.
Proof. unfold subw. case_match eqn:E; [apply Z.leb_le in E | apply Z.leb_gt in E];
  naive_solver lia. Qed.

Lemma addw_eq w a b : a + b < 2 ^ w -> addw w a b = Ok (a + b).
Proof. intros. by apply addw_Ok. Qed.
Lemma mulw_eq w a b : a * b < 2 ^ w -> mulw w a b = Ok (a * b).
Proof. intros. by apply mulw_Ok. Qed.
Lemma subw_eq a b : b <= a -> subw a b = Ok (a - b).
Proof. intros. by apply subw_Ok. Qed.

Lemma checked_add_Some w a b c :
  checked_add w a b = Some c <-> a + b < 2 ^ w /\ c = a + b.
Proof. unfold checked_add. case_match eqn:E; [apply Z.ltb_lt in E | apply Z.ltb_ge in E];
  naive_solver lia. Qed.

Lemma checked_mul_Some w a b c :
  checked_mul w a b = Some c <-> a * b < 2 ^ w /\ c = a * b.
Proof. unfold checked_mul. case_match eqn:E; [apply Z.ltb_lt in E | apply Z.ltb_ge in E];
  naive_solver lia. Qed.

Lemma div_ceil_spec a b : 0 < b -> 0 <= a -> b * (div_ceil a b - 1) < a \/ a = 0 /\ div_ceil a b = 0.
Proof.
  intros Hb Ha. unfold div_ceil. destruct (decide (a = 0)) as [->|].
  - right. split; [done|]. apply Z.div_small. lia.
  - left. pose proof (Z.div_mod (a + b - 1) b ltac:(lia)).
    pose proof (Z.mod_pos_bound (a + b - 1) b Hb). nia.
Qed.

Lemma div_ceil_ge a b : 0 < b -> a <= b * div_ceil a b.
Proof.
  intros Hb. unfold div_ceil.
  pose proof (Z.div_mod (a + b - 1) b ltac:(lia)).
  pose proof (Z.mod_pos_bound (a + b - 1) b Hb). nia.
Qed.

Lemma div_ceil_nonneg a b : 0 < b -> 0 <= a -> 0 <= div_ceil a b.
Proof. intros. apply Z.div_pos; lia. Qed.

(** ** Lemmas: bytes and integers *)

Lemma u8_range b : 0 <= u8 b < 256.
Proof. unfold u8. pose proof (Byte.to_N_bounded b). lia. Qed.

Lemma u8_inj a b : u8 a = u8 b -> a = b.
Proof.
  unfold u8. intros H%N2Z.inj.
  pose proof (Byte.of_to_N a). pose proof (Byte.of_to_N b). congruence.
Qed.

Lemma u8_to_u8 z : u8 (to_u8 z) = z mod 256.
Proof.
  unfold u8, to_u8. pose proof (Z.mod_pos_bound z 256 ltac:(lia)) as Hz.
  destruct (Byte.of_N (Z.to_N (z mod 256))) as [b|] eqn:E; simpl.
  - apply Byte.to_of_N in E. rewrite E. lia.
  - apply Byte.of_N_None_iff in E. lia.
Qed.

Lemma to_u8_u8 b : to_u8 (u8 b) = b.
Proof. apply u8_inj. rewrite u8_to_u8. apply Z.mod_small, u8_range. Qed.

Lemma zlen_nonneg {A} (l : list A) : 0 <= zlen l.
Proof. unfold zlen. lia. Qed.
Lemma zlen_nil A : zlen (@nil A) = 0.
Proof. done. Qed.
Lemma zlen_cons {A} (x : A) l : zlen (x :: l) = 1 + zlen l.
Proof. unfold zlen. simpl. lia. Qed.
Lemma zlen_app {A} (l k : list A) : zlen (l ++ k) = zlen l + zlen k.
Proof. unfold zlen. rewrite length_app. lia. Qed.
Lemma zlen_replicate {A} n (x : A) : zlen (replicate n x) = Z.of_nat n.
Proof. unfold zlen. by rewrite length_replicate. Qed.
Lemma zlen_zeros n : 0 <= n -> zlen (zeros n) = n.
Proof. intros. unfold zeros. rewrite zlen_replicate. lia. Qed.
Lemma zlen_rev {A} (l : list A) : zlen (rev l) = zlen l.
Proof. unfold zlen. by rewrite length_rev. Qed.
Lemma zlen_0_nil {A} (l : list A) : zlen l = 0 -> l = [].
Proof. destruct l; [done|]. rewrite zlen_cons. pose proof (zlen_nonneg l). lia. Qed.
Lemma zlen_fmap {A B} (f : A -> B) (l : list A) : zlen (f <$> l) = zlen l.
Proof. unfold zlen. by rewrite length_fmap. Qed.

#[export] Hint Rewrite zlen_nil @zlen_cons @zlen_app @zlen_replicate @zlen_rev
  @zlen_fmap : zlen.

Lemma le_num_range l : 0 <= le_num l < 256 ^ zlen l.
Proof.
  induction l as [|b l IH]; [done|]. rewrite zlen_cons. simpl.
  pose proof (u8_range b). pose proof (zlen_nonneg l).
  rewrite Z.pow_add_r, Z.pow_1_r by lia. lia.
Qed.

Lemma le_num_app l k : le_num (l ++ k) = le_num l + 256 ^ zlen l * le_num k.
Proof.
  induction l as [|b l IH]; [rewrite (zlen_nil byte), Z.pow_0_r; simpl; lia|].
  rewrite zlen_cons. simpl. rewrite IH.
  pose proof (zlen_nonneg l). rewrite Z.pow_add_r, Z.pow_1_r by lia. lia.
Qed.

Lemma length_le_bytes n z : length (le_bytes n z) = n.
Proof. revert z. induction n; simpl; auto. Qed.
Lemma zlen_le_bytes n z : zlen (le_bytes n z) = Z.of_nat n.
Proof. unfold zlen. by rewrite length_le_bytes. Qed.
Lemma zlen_be_bytes n z : zlen (be_bytes n z) = Z.of_nat n.
Proof. unfold be_bytes. by rewrite zlen_rev, zlen_le_bytes. Qed.

Lemma le_num_le_bytes n z : le_num (le_bytes n z) = z mod 256 ^ Z.of_nat n.
Proof.
  revert z. induction n as [|n IH]; intros z; simpl le_bytes.
  - simpl. by rewrite Z.mod_1_r.
  - simpl le_num. rewrite u8_to_u8, IH.
    rewrite Nat2Z.inj_succ, Z.pow_succ_r by lia.
    rewrite Z.rem_mul_r by lia. lia.
Qed.

Lemma le_bytes_le_num l : le_bytes (length l) (le_num l) = l.
Proof.
  induction l as [|b l IH]; simpl; [done|]. f_equal.
  - apply u8_inj. rewrite u8_to_u8.
    replace (u8 b + 256 * le_num l) with (u8 b + le_num l * 256) by lia.
    rewrite Z.mod_add by lia. apply Z.mod_small, u8_range.
  - etransitivity; [|exact IH]. f_equal.
    replace (u8 b + 256 * le_num l) with (u8 b + le_num l * 256) by lia.
    rewrite Z.div_add by lia.
    rewrite (Z.div_small (u8 b)) by apply u8_range. lia.
Qed.

Lemma be_num_be_bytes n z : be_num (be_bytes n z) = z mod 256 ^ Z.of_nat n.
Proof. unfold be_num, be_bytes. by rewrite rev_involutive, le_num_le_bytes. Qed.

Lemma be_num_range l : 0 <= be_num l < 256 ^ zlen l.
Proof. unfold be_num. rewrite <- zlen_rev. apply le_num_range. Qed.

(** ** Lemmas: slices *)

Lemma zlen_sub {A} (l : list A) lo n :
  0 <= lo -> 0 <= n -> lo + n <= zlen l -> zlen (sub l lo n) = n.
Proof. unfold zlen, sub. intros. rewrite length_take, length_drop. lia. Qed.

Lemma zlen_sub_le {A} (l : list A) lo n : 0 <= n -> zlen (sub l lo n) <= n.
Proof. unfold zlen, sub. intros. rewrite length_take. lia. Qed.

Lemma sub_lookup {A} (l : list A) lo n i :
  (i < Z.to_nat n)%nat -> sub l lo n !! i = l !! (Z.to_nat lo + i)%nat.
Proof. intros. unfold sub. by rewrite lookup_take_lt, lookup_drop by done. Qed.

Lemma sub_app_split {A} (l : list A) lo n m :
  0 <= lo -> 0 <= n -> 0 <= m -> sub l lo n ++ sub l (lo + n) m = sub l lo (n + m).
Proof.
  intros. unfold sub. rewrite !Z2Nat.inj_add by lia.
  rewrite <- drop_drop, <- take_take_drop. done.
Qed.

Lemma sub_sub {A} (l : list A) lo n a m :
  0 <= lo -> 0 <= a -> 0 <= m -> a + m <= n -> sub (sub l lo n) a m = sub l (lo + a) m.
Proof.
  intros. unfold sub. rewrite skipn_firstn_comm, take_take, drop_drop.
  f_equal; [lia|f_equal; lia].
Qed.

Lemma sub_all {A} (l : list A) : sub l 0 (zlen l) = l.
Proof. unfold sub, zlen. rewrite Nat2Z.id, drop_0. by apply take_ge. Qed.

Lemma sub_nil {A} (l : list A) lo : sub l lo 0 = [].
Proof. done. Qed.

Lemma sub_app_l {A} (l k : list A) lo n :
  0 <= lo -> 0 <= n -> lo + n <= zlen l -> sub (l ++ k) lo n = sub l lo n.
Proof.
  unfold sub, zlen. intros. rewrite drop_app_le by lia. apply take_app_le.
  rewrite length_drop. lia.
Qed.

Lemma sub_app_r {A} (l k : list A) lo n :
  zlen l <= lo -> sub (l ++ k) lo n = sub k (lo - zlen l) n.
Proof.
  unfold sub, zlen. intros. rewrite drop_app_ge by lia. do 2 f_equal. lia.
Qed.

Lemma sub_0_app {A} (l k : list A) : sub (l ++ k) 0 (zlen l) = l.
Proof. pose proof (zlen_nonneg l). rewrite sub_app_l by lia. apply sub_all. Qed.

Lemma get_range_Some {A} (l : list A) lo hi r :
  get_range l lo hi = Some r <-> 0 <= lo <= hi /\ hi <= zlen l /\ r = sub l lo (hi - lo).
Proof.
  unfold get_range. case_match eqn:E.
  - apply andb_true_iff in E as [[E1 E2]%andb_true_iff E3].
    apply Z.leb_le in E1, E2, E3. naive_solver lia.
  - apply andb_false_iff in E as [[E|E]%andb_false_iff|E]; apply Z.leb_gt in E;
      naive_solver lia.
Qed.

Lemma get_range_zlen {A} (l : list A) lo hi r :
  get_range l lo hi = Some r -> zlen r = hi - lo.
Proof. intros (?&?&->)%get_range_Some. apply zlen_sub; lia. Qed.

Lemma get_Some {A} (l : list A) i a :
  get l i = Some a <-> 0 <= i /\ l !! Z.to_nat i = Some a.
Proof.
  unfold get. case_match eqn:E; [apply Z.ltb_lt in E | apply Z.ltb_ge in E];
    naive_solver lia.
Qed.

Lemma get_is_Some {A} (l : list A) i : is_Some (get l i) <-> 0 <= i < zlen l.
Proof.
  unfold get, zlen. case_match eqn:E; [apply Z.ltb_lt in E | apply Z.ltb_ge in E].
  - split; [by intros [? ?]|lia].
  - rewrite lookup_lt_is_Some. lia.
Qed.

Lemma slice_Ok {A} (l : list A) lo hi r :
  slice l lo hi = Ok r <-> 0 <= lo <= hi /\ hi <= zlen l /\ r = sub l lo (hi - lo).
Proof.
  rewrite <- get_range_Some. unfold slice. destruct (get_range l lo hi); naive_solver.
Qed.

Lemma slice_eq {A} (l : list A) lo hi :
  0 <= lo <= hi -> hi <= zlen l -> slice l lo hi = Ok (sub l lo (hi - lo)).
Proof. intros. by apply slice_Ok. Qed.

Lemma at_Ok {A} (l : list A) i a : at_ l i = Ok a <-> get l i = Some a.
Proof. unfold at_. destruct (get l i); naive_solver. Qed.

Lemma returns_slice {A} (l : list A) lo hi :
  0 <= lo <= hi -> hi <= zlen l -> returns (slice l lo hi).
Proof. intros. by rewrite slice_eq. Qed.

Lemma returns_at {A} (l : list A) i : 0 <= i < zlen l -> returns (at_ l i).
Proof.
  intros [a Ha]%get_is_Some. unfold at_. by rewrite Ha.
Qed.

Lemma write_at_Ok {A} (buf data : list A) lo r :
  write_at buf lo data = Ok r <->
  0 <= lo /\ lo + zlen data <= zlen buf /\
  r = sub buf 0 lo ++ data ++ drop (Z.to_nat (lo + zlen data)) buf.
Proof.
  unfold write_at. case_match eqn:E.
  - apply andb_true_iff in E as [E1 E2]. apply Z.leb_le in E1, E2. naive_solver.
  - apply andb_false_iff in E as [E|E]; apply Z.leb_gt in E; naive_solver lia.
Qed.

Lemma zlen_drop {A} (l : list A) n : 0 <= n <= zlen l -> zlen (drop (Z.to_nat n) l) = zlen l - n.
Proof. unfold zlen. intros. rewrite length_drop. lia. Qed.

Lemma write_at_zlen {A} (buf data r : list A) lo :
  write_at buf lo data = Ok r -> zlen r = zlen buf.
Proof.
  intros (?&?&->)%write_at_Ok. pose proof (zlen_nonneg data).
  autorewrite with zlen. rewrite zlen_sub, zlen_drop by lia. lia.
Qed.

Lemma returns_write_at {A} (buf data : list A) lo :
  0 <= lo -> lo + zlen data <= zlen buf -> returns (write_at buf lo data).
Proof.
  intros. unfold write_at. rewrite (proj2 (Z.leb_le _ _)), (proj2 (Z.leb_le _ _)) by lia.
  done.
Qed.

Lemma write_at_eq {A} (buf data : list A) lo :
  0 <= lo -> lo + zlen data <= zlen buf ->
  write_at buf lo data = Ok (sub buf 0 lo ++ data ++ drop (Z.to_nat (lo + zlen data)) buf).
Proof. intros. by apply write_at_Ok. Qed.

(** Copying out of [c] from [off] into the front of [buf], as much as fits: the
    last step of a [read_at] over content that is in memory. *)
Lemma copy_out {A} (c buf : list A) off : 0 <= off <= zlen c ->
  let k := Z.min (zlen buf) (zlen c - off) in
  exists b : list A, slice c off (off + k) = Ok (sub c off k) /\ write_at buf 0 (sub c off k) = Ok b /\
    zlen b = zlen buf /\ 0 <= k /\ sub b 0 k = sub c off k.
Proof.
  intros Hoff k. pose proof (zlen_nonneg buf).
  assert (Hz : zlen (sub c off k) = k) by (apply zlen_sub; lia).
  exists (sub c off k ++ drop (Z.to_nat k) buf). split_and!.
  - rewrite slice_eq by lia. by replace (off + k - off) with k by lia.
  - rewrite write_at_eq by lia. by rewrite sub_nil, Hz.
  - rewrite zlen_app, zlen_drop by lia. lia.
  - lia.
  - pose proof (sub_0_app (sub c off k) (drop (Z.to_nat k) buf)) as Hs. by rewrite Hz in Hs.
Qed.

Lemma position_Some {A} (p : A -> bool) (l : list A) i :
  position p l = Some i ->
  0 <= i < zlen l /\ (exists b, l !! Z.to_nat i = Some b /\ p b = true) /\
  Forall (fun b => p b = false) (sub l 0 i).
Proof.
  revert i. induction l as [|b l IH]; intros i; simpl; [done|].
  rewrite zlen_cons. pose proof (zlen_nonneg l). destruct (p b) eqn:Hb.
  - intros [= <-]. split; [lia|]. split; [by exists b|]. constructor.
  - destruct (position p l) as [j|]; [|done]. intros [= <-].
    destruct (IH j eq_refl) as (?&(c&?&?)&HF). split; [lia|]. split.
    + exists c. rewrite Z2Nat.inj_succ by lia. done.
    + unfold sub in *. change (Z.to_nat 0) with 0%nat in *. rewrite drop_0 in *.
      rewrite Z2Nat.inj_succ by lia. by constructor.
Qed.

Lemma position_None {A} (p : A -> bool) (l : list A) :
  position p l = None -> Forall (fun b => p b = false) l.
Proof.
  induction l as [|b l IH]; simpl; [constructor|]. destruct (p b) eqn:Hb; [done|].
  destruct (position p l); [done|]. auto.
Qed.

Lemma position_first {A} (p : A -> bool) (l k : list A) b :
  Forall (fun x => p x = false) l -> p b = true ->
  position p (l ++ b :: k) = Some (zlen l).
Proof.
  intros Hl Hb. induction Hl as [|x l Hx _ IH]; simpl; [by rewrite Hb|].
  rewrite Hx, IH, zlen_cons. simpl. f_equal. lia.
Qed.

Lemma le_field_Ok n tok b o v :
  le_field n tok b o = Ok v <->
  0 <= o /\ 0 <= n /\ o + n <= zlen b /\ v = le_num (sub b o n).
Proof.
  unfold le_field. rewrite ok_or_Ok, fmap_Some. setoid_rewrite get_range_Some.
  replace (o + n - o) with n by lia. naive_solver lia.
Qed.

Lemma be_field_Ok n tok b o v :
  be_field n tok b o = Ok v <->
  0 <= o /\ 0 <= n /\ o + n <= zlen b /\ v = be_num (sub b o n).
Proof.
  unfold be_field. rewrite ok_or_Ok, fmap_Some. setoid_rewrite get_range_Some.
  replace (o + n - o) with n by lia. naive_solver lia.
Qed.

Lemma le_field_range n tok b o v :
  le_field n tok b o = Ok v -> 0 <= v < 256 ^ n.
Proof.
  intros (?&?&?&->)%le_field_Ok. pose proof (le_num_range (sub b o n)) as H3.
  by rewrite zlen_sub in H3 by lia.
Qed.

Lemma be_field_range n tok b o v :
  be_field n tok b o = Ok v -> 0 <= v < 256 ^ n.
Proof.
  intros (?&?&?&->)%be_field_Ok. pose proof (be_num_range (sub b o n)) as H3.
  by rewrite zlen_sub in H3 by lia.
Qed.

Lemma returns_le_field n tok b o : returns (le_field n tok b o).
Proof. apply returns_ok_or. Qed.
Lemma returns_be_field n tok b o : returns (be_field n tok b o).
Proof. apply returns_ok_or. Qed.
#[export] Hint Resolve returns_le_field returns_be_field : lam.

(** Clearing the low [k] bits. *)
Lemma land_lnot_ones x k : 0 <= k -> Z.land x (Z.lnot (Z.ones k)) = x - x mod 2 ^ k.
Proof. intros Hk. by rewrite <- Z.sub_land_same_l, Z.land_ones. Qed.

Lemma land_range x m : 0 <= m -> 0 <= Z.land x m <= m.
Proof.
  intros Hm. split; [apply Z.land_nonneg; by right|].
  assert (H : 0 <= Z.land m (Z.lnot x)) by (apply Z.land_nonneg; by left).
  rewrite <- Z.sub_land_same_l in H. rewrite (Z.land_comm m x) in H. lia.
Qed.

Lemma lor_lt_pow2 a b n : 0 <= n -> 0 <= a < 2 ^ n -> 0 <= b < 2 ^ n -> 0 <= Z.lor a b < 2 ^ n.
Proof.
  intros Hn Ha Hb. assert (H0 : 0 <= Z.lor a b) by (apply Z.lor_nonneg; lia). split; [done|].
  destruct (decide (Z.lor a b = 0)) as [->|]; [lia|].
  apply Z.log2_lt_pow2; [lia|]. rewrite Z.log2_lor by lia.
  assert (Hlog : forall x, 0 <= x < 2 ^ n -> x <> 0 -> Z.log2 x < n)
    by (intros x Hx Hx0; apply Z.log2_lt_pow2; lia).
  destruct (decide (a = 0)) as [->|], (decide (b = 0)) as [->|].
  - done.
  - rewrite Z.max_r by (apply Z.log2_nonneg). by apply Hlog.
  - rewrite Z.max_l by (apply Z.log2_nonneg). by apply Hlog.
  - apply Z.max_lub_lt; by apply Hlog.
Qed.

(** Shifting in [k] bits. *)
Lemma lor_shiftl_add a v k : 0 <= k -> 0 <= v < 2 ^ k -> Z.lor (Z.shiftl a k) v = a * 2 ^ k + v.
Proof.
  intros Hk Hv. rewrite <- Z.shiftl_mul_pow2 by done. symmetry.
  rewrite <- Z.lxor_lor, <- Z.add_nocarry_lxor; [done|..].
  all: apply Z.bits_inj'; intros i Hi; rewrite Z.land_spec, Z.shiftl_spec, Z.bits_0 by done.
  all: destruct (Z.ltb_spec i k); [by rewrite Z.testbit_neg_r by lia|].
  all: replace (Z.testbit v i) with false; [by rewrite andb_false_r|].
  all: destruct (decide (v = 0)) as [->|]; [by rewrite Z.bits_0|].
  all: rewrite Z.bits_above_log2; [done|lia|].
  all: apply (Z.lt_le_trans _ k); [apply Z.log2_lt_pow2; lia|done].
Qed.

Lemma get_sub {A} (l : list A) lo n j : 0 <= lo -> 0 <= j < n -> get (sub l lo n) j = get l (lo + j).
Proof.
  intros Hl Hj. unfold get. rewrite !(proj2 (Z.ltb_ge _ _)) by lia. rewrite sub_lookup by lia. f_equal. lia.
Qed.
Lemma get_front {A} (l : list A) n j : 0 <= j < n -> get (sub l 0 n) j = get l j.
Proof. intros Hj. by rewrite get_sub by lia. Qed.
Lemma get_app_r {A} (l k : list A) j : 0 <= j -> get (l ++ k) (zlen l + j) = get k j.
Proof.
  intros Hj. pose proof (zlen_nonneg l). unfold get. rewrite !(proj2 (Z.ltb_ge _ _)) by lia.
  rewrite lookup_app_r by (unfold zlen; lia). f_equal. unfold zlen. lia.
Qed.
Lemma get_app_l {A} (l k : list A) j : 0 <= j < zlen l -> get (l ++ k) j = get l j.
Proof.
  intros Hj. unfold get. destruct (j <? 0); [done|]. apply lookup_app_l. unfold zlen in Hj. lia.
Qed.

(** Lists of one length with the same elements, unless [C]. *)
Lemma get_ext_or {A} (C : Prop) (l : list A) : forall k, zlen l = zlen k ->
  (forall j x, 0 <= j -> get l j = Some x -> get k j = Some x \/ C) -> l = k \/ C.
Proof.
  assert (Hcons : forall x (m : list A) j, 0 <= j -> get (x :: m) (1 + j) = get m j).
  { intros x m j Hj. unfold get. rewrite !(proj2 (Z.ltb_ge _ _)) by lia.
    by replace (Z.to_nat (1 + j)) with (S (Z.to_nat j)) by lia. }
  induction l as [|x l IH]; intros [|y k] Hz Hg; rewrite ?zlen_cons, ?zlen_nil in Hz.
  - by left.
  - pose proof (zlen_nonneg k). lia.
  - pose proof (zlen_nonneg l). lia.
  - destruct (Hg 0 x ltac:(lia) eq_refl) as [[= ->]|]; [|by right].
    destruct (IH k ltac:(lia)) as [->|]; [|by left|by right].
    intros j z Hj Hl. rewrite <- (Hcons x) in Hl by done. rewrite <- (Hcons x) by done. apply Hg; [lia|done].
Qed.
Lemma get_ext {A} (l k : list A) : zlen l = zlen k ->
  (forall j x, 0 <= j -> get l j = Some x -> get k j = Some x) -> l = k.
Proof. intros Hz Hg. destruct (get_ext_or False l k Hz) as [?|[]]; [|done]. intros j x Hj Hx. left. by apply Hg. Qed.

(** ** Lemmas: loops and zero runs *)

Lemma zeros_app n m : 0 <= n -> 0 <= m -> zeros n ++ zeros m = zeros (n + m).
Proof. intros. unfold zeros. rewrite Z2Nat.inj_add by done. symmetry. apply replicate_add. Qed.

Lemma sub_zeros n lo m : 0 <= lo -> 0 <= m -> lo + m <= n -> sub (zeros n) lo m = zeros m.
Proof.
  intros. unfold sub, zeros. rewrite drop_replicate, take_replicate. f_equal. lia.
Qed.

Lemma drop_zlen_app {A} (l k : list A) : drop (Z.to_nat (zlen l)) (l ++ k) = k.
Proof. unfold zlen. rewrite Nat2Z.id. apply drop_app_length. Qed.

Lemma get_range_app {A} (p q r : list A) lo hi :
  lo = zlen p -> hi = zlen p + zlen q -> get_range (p ++ q ++ r) lo hi = Some q.
Proof.
  intros -> ->. pose proof (zlen_nonneg p). pose proof (zlen_nonneg q). pose proof (zlen_nonneg r).
  apply get_range_Some. rewrite !zlen_app. split; [lia|]. split; [lia|].
  rewrite sub_app_r by lia. replace (zlen p - zlen p) with 0 by lia.
  replace (zlen p + zlen q - zlen p) with (zlen q) by lia. by rewrite sub_0_app.
Qed.

Lemma slice_app {A} (p q r : list A) lo hi :
  lo = zlen p -> hi = zlen p + zlen q -> slice (p ++ q ++ r) lo hi = Ok q.
Proof. intros. unfold slice. by rewrite get_range_app. Qed.
Lemma slice_app_end {A} (p q : list A) lo hi :
  lo = zlen p -> hi = zlen p + zlen q -> slice (p ++ q) lo hi = Ok q.
Proof. intros Hlo Hhi. pose proof (slice_app p q [] lo hi Hlo Hhi) as Hs. by rewrite app_nil_r in Hs. Qed.
Lemma slice_front {A} (q r : list A) hi : hi = zlen q -> slice (q ++ r) 0 hi = Ok q.
Proof. exact (slice_app [] q r 0 hi eq_refl). Qed.

Lemma get_from_app {A} (p q : list A) lo : lo = zlen p -> get_from (p ++ q) lo = Some q.
Proof.
  intros ->. unfold get_from. rewrite <- (app_nil_r q) at 1 2.
  apply get_range_app; [done|]. by rewrite app_nil_r, zlen_app.
Qed.

(** Fields written big- or little-endian are read back. *)
Lemma be_field_app tok p k v r o n :
  o = zlen p -> n = Z.of_nat k -> 0 <= v < 256 ^ Z.of_nat k ->
  be_field n tok (p ++ be_bytes k v ++ r) o = Ok v.
Proof.
  intros -> -> Hv. unfold be_field. rewrite get_range_app by (rewrite ?zlen_be_bytes; lia).
  cbn [fmap option_fmap option_map ok_or]. by rewrite be_num_be_bytes, Z.mod_small.
Qed.
Lemma le_field_app tok p k v r o n :
  o = zlen p -> n = Z.of_nat k -> 0 <= v < 256 ^ Z.of_nat k ->
  le_field n tok (p ++ le_bytes k v ++ r) o = Ok v.
Proof.
  intros -> -> Hv. unfold le_field. rewrite get_range_app by (rewrite ?zlen_le_bytes; lia).
  cbn [fmap option_fmap option_map ok_or]. by rewrite le_num_le_bytes, Z.mod_small.
Qed.

(** A list, indexed. *)
Lemma fmap_seqZ {A B} (f : A -> B) (l : list A) d :
  f <$> l = (fun k => f (default d (l !! Z.to_nat k))) <$> seqZ 0 (zlen l).
Proof.
  apply list_eq. intros i. rewrite !list_lookup_fmap. destruct (decide (i < length l)%nat) as [Hi|Hi].
  - rewrite lookup_seqZ_lt by (unfold zlen; lia). cbn. rewrite Z.add_0_l, Nat2Z.id.
    destruct (lookup_lt_is_Some_2 l i Hi) as [x ->]. done.
  - rewrite !lookup_ge_None_2 by (rewrite ?length_seqZ; unfold zlen; lia). done.
Qed.

(** *** Fixed layouts

    Little-endian fields, width and value, one behind the other. *)
Definition layout (fs : list (nat * Z)) : list byte := concat ((fun f => le_bytes f.1 f.2) <$> fs).
Definition field_ok (f : nat * Z) : Prop := 0 <= f.2 < 256 ^ Z.of_nat f.1.
Definition widths (fs : list (nat * Z)) : Z := foldr (fun f n => Z.of_nat f.1 + n) 0 fs.

Lemma layout_app fs gs : layout (fs ++ gs) = layout fs ++ layout gs.
Proof. unfold layout. by rewrite fmap_app, concat_app. Qed.

Lemma zlen_layout fs : zlen (layout fs) = widths fs.
Proof.
  induction fs as [|f fs IH]; [done|]. unfold layout in *. cbn [fmap list_fmap concat widths foldr].
  rewrite zlen_app, zlen_le_bytes, IH. done.
Qed.

Lemma layout_cons f fs : layout (f :: fs) = le_bytes f.1 f.2 ++ layout fs.
Proof. done. Qed.

(** The [i]th field, read back from a long enough prefix. *)
Lemma layout_field tok fs i k v n tail o w : fs !! i = Some (k, v) -> 0 <= v < 256 ^ Z.of_nat k ->
  o = widths (take i fs) -> w = Z.of_nat k -> o + w <= n -> n <= widths fs + zlen tail ->
  le_field w tok (sub (layout fs ++ tail) 0 n) o = Ok v.
Proof.
  intros Hi Hv -> -> Hn Hlen. rewrite <- zlen_layout in *. pose proof (zlen_nonneg (layout (take i fs))) as Hp.
  assert (Hl : layout fs ++ tail = layout (take i fs) ++ le_bytes k v ++ layout (drop (S i) fs) ++ tail).
  { rewrite <- (take_drop_middle fs i (k, v) Hi) at 1. by rewrite layout_app, layout_cons, <- !app_assoc. }
  rewrite <- zlen_app, Hl in Hlen. rewrite Hl. unfold le_field.
  rewrite (proj2 (get_range_Some _ _ _ (le_bytes k v))).
  - cbn [fmap option_fmap option_map ok_or]. by rewrite le_num_le_bytes, Z.mod_small.
  - split; [lia|]. rewrite zlen_sub by lia. split; [lia|].
    rewrite sub_sub, Z.add_0_l, sub_app_r, Z.sub_diag, Z.add_simpl_l by lia.
    rewrite <- (zlen_le_bytes k v), sub_0_app. done.
Qed.

(** The same, followed by anything. *)
Lemma layout_field_all tok fs i k v tail o w : fs !! i = Some (k, v) -> 0 <= v < 256 ^ Z.of_nat k ->
  o = widths (take i fs) -> w = Z.of_nat k -> le_field w tok (layout fs ++ tail) o = Ok v.
Proof.
  intros Hi Hv Ho Hw. pose proof (zlen_nonneg tail). rewrite <- (sub_all (layout fs ++ tail)), zlen_app, zlen_layout.
  apply (layout_field tok fs i k v _ tail o w); try done.
  assert (Hsum : widths fs = widths (take i fs) + Z.of_nat k + zlen (layout (drop (S i) fs))); [|].
  { rewrite <- !zlen_layout. rewrite <- (take_drop_middle fs i (k, v) Hi) at 1.
    rewrite layout_app, layout_cons, !zlen_app, zlen_le_bytes. cbn [fst]. lia. }
  pose proof (zlen_nonneg (layout (drop (S i) fs))). lia.
Qed.

Lemma write_at_app {A} (a b c d : list A) :
  zlen b = zlen d -> write_at (a ++ b ++ c) (zlen a) d = Ok (a ++ d ++ c).
Proof.
  intros Hbd. pose proof (zlen_nonneg a). pose proof (zlen_nonneg c).
  apply write_at_Ok. split; [done|]. split; [rewrite !zlen_app; lia|].
  rewrite sub_0_app. do 2 f_equal.
  rewrite app_assoc, <- Hbd, <- zlen_app, drop_zlen_app. done.
Qed.

(** Writing into the zero tail of a buffer. *)
Lemma write_at_zeros p n k d :
  0 <= k -> k + zlen d <= n ->
  write_at (p ++ zeros n) (zlen p + k) d = Ok ((p ++ zeros k ++ d) ++ zeros (n - k - zlen d)).
Proof.
  intros Hk Hn. pose proof (zlen_nonneg d).
  replace (zeros n) with (zeros k ++ zeros (zlen d) ++ zeros (n - k - zlen d))
    by (rewrite !zeros_app by lia; f_equal; lia).
  rewrite (app_assoc p (zeros k)).
  replace (zlen p + k) with (zlen (p ++ zeros k)) by (rewrite zlen_app, zlen_zeros by lia; lia).
  rewrite write_at_app by (by apply zlen_zeros). by rewrite <- !app_assoc.
Qed.

(** The same, the new layout named: [z] zero bytes are skipped and [n'] remain. *)
Lemma write_tail p n off d z n' :
  0 <= z -> 0 <= n' -> off = zlen p + z -> n = z + zlen d + n' ->
  write_at (p ++ zeros n) off d = Ok ((p ++ zeros z ++ d) ++ zeros n').
Proof.
  intros ? ? -> ->. rewrite write_at_zeros by lia. do 3 f_equal. lia.
Qed.

Lemma for_loop_Ok_inv {A} (P : Z -> A -> Prop) n body : forall i acc r,
  P i acc ->
  (forall j a b, i <= j < i + Z.of_nat n -> P j a -> body j a = Ok b -> P (j + 1) b) ->
  for_loop n i body acc = Ok r -> P (i + Z.of_nat n) r.
Proof.
  induction n as [|n IH]; intros i acc r HP Hb; simpl.
  - intros [= <-]. by rewrite Z.add_0_r.
  - intros Hr. inv_ok. replace (i + Z.of_nat (S n)) with (i + 1 + Z.of_nat n) by lia.
    eapply IH; [|intros j a b Hj; apply Hb; lia|exact Hr]. apply (Hb i acc v); [lia|done|done].
Qed.

Lemma for_loop_concat {A} (g : Z -> list A) n body : forall i acc,
  (forall j a, i <= j < i + Z.of_nat n -> body j a = Ok (a ++ g j)) ->
  for_loop n i body acc = Ok (acc ++ concat (g <$> seqZ i (Z.of_nat n))).
Proof.
  induction n as [|n IH]; intros i acc Hb; simpl.
  - by rewrite app_nil_r.
  - rewrite Hb by lia. cbn [bindR]. rewrite IH by (intros; apply Hb; lia).
    rewrite (seqZ_cons i) by lia. cbn [fmap list_fmap concat]. rewrite <- app_assoc.
    replace (Z.succ i) with (i + 1) by lia. replace (Z.pred _) with (Z.of_nat n) by lia. done.
Qed.

(** A loop whose successive states are known. *)
Lemma for_loop_states {A} (st : Z -> A) n body : forall i,
  (forall j, i <= j < i + Z.of_nat n -> body j (st j) = Ok (st (j + 1))) ->
  for_loop n i body (st i) = Ok (st (i + Z.of_nat n)).
Proof.
  induction n as [|n IH]; intros i Hb; cbn [for_loop]; [by rewrite Z.add_0_r|].
  rewrite Hb by lia. cbn [bindR]. rewrite IH by (intros; apply Hb; lia). do 2 f_equal. lia.
Qed.

(** The [i]th piece of a concatenation, after the pieces before it. *)
Lemma concat_seqZ_split {A} (f : Z -> list A) n i : 0 <= i < n ->
  concat (f <$> seqZ 0 n)
  = concat (f <$> seqZ 0 i) ++ f i ++ concat (f <$> seqZ (i + 1) (n - i - 1)).
Proof.
  intros Hi. replace n with (i + (1 + (n - i - 1))) at 1 by lia.
  rewrite seqZ_app by lia. rewrite fmap_app, concat_app, Z.add_0_l, (seqZ_cons i) by lia.
  cbn [fmap list_fmap concat]. replace (Z.succ i) with (i + 1) by lia.
  by replace (Z.pred _) with (n - i - 1) by lia.
Qed.

Lemma concat_seqZ_succ {A} (f : Z -> list A) i : 0 <= i ->
  concat (f <$> seqZ 0 (i + 1)) = concat (f <$> seqZ 0 i) ++ f i.
Proof.
  intros Hi. rewrite (concat_seqZ_split f (i + 1) i) by lia.
  replace (i + 1 - i - 1) with 0 by lia. cbn. by rewrite app_nil_r.
Qed.

(** Pieces of one width. *)
Lemma zlen_concat_width {A} (f : Z -> list A) w n : 0 <= n ->
  (forall j, 0 <= j < n -> zlen (f j) = w) -> zlen (concat (f <$> seqZ 0 n)) = n * w.
Proof.
  intros Hn. revert n Hn. apply (natlike_ind (fun n => (forall j, 0 <= j < n -> zlen (f j) = w) -> _)).
  - intros _. cbn. by rewrite zlen_nil.
  - intros n Hn IH Hf. change (Z.succ n) with (n + 1). rewrite concat_seqZ_succ, zlen_app by done.
    rewrite IH, Hf by (lia || (intros; apply Hf; lia)). lia.
Qed.

Lemma slice_concat_width {A} (f : Z -> list A) w n i : 0 <= i < n ->
  (forall j, 0 <= j < n -> zlen (f j) = w) ->
  slice (concat (f <$> seqZ 0 n)) (i * w) (i * w + w) = Ok (f i).
Proof.
  intros Hi Hf. rewrite (concat_seqZ_split f n i) by done. unfold slice.
  rewrite get_range_app; [done|..]; rewrite (zlen_concat_width f w) by (lia || (intros; apply Hf; lia)).
  - done.
  - rewrite Hf; [done|lia].
Qed.

Lemma for_loop_returns {A} (P : Z -> A -> Prop) n body : forall i acc,
  P i acc ->
  (forall j a, i <= j < i + Z.of_nat n -> P j a ->
     returns (body j a) /\ forall b, body j a = Ok b -> P (j + 1) b) ->
  returns (for_loop n i body acc).
Proof.
  induction n as [|n IH]; intros i acc HP Hb; simpl; [done|].
  destruct (Hb i acc) as [Hr Hn]; [lia|done|]. apply returns_bindR; [done|].
  intros a Ha. apply IH; [by apply Hn|]. intros j b Hj. apply Hb. lia.
Qed.

Lemma shl_one_Ok k r : 0 <= k -> shl_one k = Ok r <-> k < 64 /\ r = 2 ^ k.
Proof.
  intros Hk. unfold shl_one. rewrite Z.shiftl_mul_pow2, Z.mul_1_l by done.
  destruct (Z.ltb_spec k 64); naive_solver lia.
Qed.

Lemma div_ceil_le_1 a b : 0 < b -> 0 <= a -> div_ceil a b <= 1 <-> a <= b.
Proof.
  intros Hb Ha. pose proof (div_ceil_ge a b Hb).
  destruct (div_ceil_spec a b Hb Ha) as [?|[-> ->]]; [|lia]. nia.
Qed.

(** ** Lemmas: [loop] *)

Section Loop.
Context {St R : Type} (body : St -> Res (St + R)).

(** The outcome of a loop, round by round. *)
Inductive LoopsTo : St -> Res R -> Prop :=
| LoopsTo_break s x : body s = Ok (inr x) -> LoopsTo s (Ok x)
| LoopsTo_err s e : body s = Err e -> LoopsTo s (Err e)
| LoopsTo_round s s' r : body s = Ok (inl s') -> LoopsTo s' r -> LoopsTo s r.

Lemma LoopsTo_det s r r' : LoopsTo s r -> LoopsTo s r' -> r = r'.
Proof.
  intros Hr. revert r'. induction Hr as [s x Hx|s e He|s s' r Hs Hr IH];
    inversion 1; subst; try congruence.
  apply IH. by replace s' with s'0 by congruence.
Qed.

Lemma steps_LoopsTo k : forall s r, steps k body s = Ok r ->
  match r with
  | inl s' => forall o, LoopsTo s' o -> LoopsTo s o
  | inr x => LoopsTo s (Ok x)
  end.
Proof.
  induction k as [|k IH]; intros s r; cbn [steps].
  - intros Hb. destruct r as [s'|x]; [|by constructor].
    intros o Ho. by apply (LoopsTo_round s s').
  - intros (r1&Hr1&Hr)%bindR_Ok. pose proof (IH _ _ Hr1) as H1. destruct r1 as [s1|x].
    + pose proof (IH _ _ Hr) as H2. destruct r; auto.
    + by injection Hr as <-.
Qed.

Lemma steps_Err k : forall s e, steps k body s = Err e -> LoopsTo s (Err e).
Proof.
  induction k as [|k IH]; intros s e; cbn [steps]; [by constructor|].
  destruct (steps k body s) as [[s1|x]|e'| | |] eqn:E; try done; cbn [bindR].
  - intros He. apply (steps_LoopsTo _ _ _ E). by apply IH.
  - intros [= <-]. by apply IH.
Qed.

(** A loop that comes back has the outcome of its rounds. *)
Lemma loop_LoopsTo s r : loop body s = r -> returns r -> LoopsTo s r.
Proof.
  unfold loop. destruct (steps 64 body s) as [[s1|x]|e| | |] eqn:E; cbn [bindR];
    intros <- Hr; try done; [by apply (steps_LoopsTo _ _ _ E)|by apply (steps_Err 64)].
Qed.

Lemma loop_steps s : loop body s =
  bindR (steps 64 body s) (fun r => match r with inl _ => Diverge | inr x => Ok x end).
Proof. reflexivity. Qed.

Lemma loop_eq s r : returns (loop body s) -> LoopsTo s r -> loop body s = r.
Proof. intros Hr Hl. eapply LoopsTo_det; [by apply loop_LoopsTo|done]. Qed.

(** A loop whose rounds lead to a value has it, unless it is too long. *)
Lemma steps_Ok k x : forall s, LoopsTo s (Ok x) ->
  steps k body s = Ok (inr x) \/ exists s', steps k body s = Ok (inl s') /\ LoopsTo s' (Ok x).
Proof.
  induction k as [|k IH]; intros s Hl; cbn [steps].
  - inversion Hl; subst; eauto.
  - destruct (IH s Hl) as [->|(s'&->&Hl')]; cbn [bindR]; [by left|by apply IH].
Qed.
Lemma loop_Ok s x : loop body s <> Diverge -> LoopsTo s (Ok x) -> loop body s = Ok x.
Proof. unfold loop. intros Hd Hl. destruct (steps_Ok 64 x s Hl) as [E|(s'&E&_)]; rewrite E in *; done. Qed.

Context (I : St -> Prop).

(** An invariant of the rounds holds where the loop breaks. *)
Lemma loop_inv s x :
  (forall s s', I s -> body s = Ok (inl s') -> I s') ->
  I s -> loop body s = Ok x -> exists s', I s' /\ body s' = Ok (inr x).
Proof.
  intros Hstep Hs Hl. apply loop_LoopsTo in Hl; [|done].
  remember (Ok x) as r eqn:Er. induction Hl as [s y Hy| |s s' r Hb Hr IH]; simplify_eq.
  - by exists s.
  - apply IH; [by eapply Hstep|done].
Qed.

(** A measure below [2 ^ 64] that every round lowers bounds the rounds. *)
Context (m : St -> Z).
Context (Hround : forall s, I s -> 0 <= m s /\ returns (body s) /\
  forall s', body s = Ok (inl s') -> I s' /\ m s' < m s).

Lemma steps_measure k : forall s, I s -> returns (steps k body s) /\
  forall s', steps k body s = Ok (inl s') -> I s' /\ m s' + 2 ^ Z.of_nat k <= m s.
Proof.
  induction k as [|k IH]; intros s Hs; cbn [steps].
  - destruct (Hround s Hs) as (_&Hr&Hn). split; [done|]. intros s' Hb.
    destruct (Hn s' Hb). split; [done|]. change (2 ^ Z.of_nat 0) with 1. lia.
  - destruct (IH s Hs) as [Hr Hn]. split.
    + apply returns_bindR; [done|]. intros [s1|x] H1; [|done]. by apply IH, Hn.
    + intros s' (r1&H1&H2)%bindR_Ok. destruct r1 as [s1|x]; [|done].
      destruct (Hn _ H1) as [Hs1 Hm1]. destruct (IH s1 Hs1) as [_ Hn1].
      destruct (Hn1 _ H2) as [Hs2 Hm2]. split; [done|].
      replace (Z.of_nat (S k)) with (1 + Z.of_nat k) by lia.
      rewrite Z.pow_add_r by lia. change (2 ^ 1) with 2. lia.
Qed.

Lemma loop_returns s : I s -> m s < 2 ^ 64 -> returns (loop body s).
Proof.
  intros Hs Hm. destruct (steps_measure 64 s Hs) as [Hr Hn]. unfold loop.
  apply returns_bindR; [done|]. intros [s'|x] H; [|done].
  destruct (Hn _ H) as [Hs' Hm']. destruct (Hround s' Hs') as [H0 _].
  change (Z.of_nat 64) with 64 in Hm'. lia.
Qed.
End Loop.

(** ** Lemmas: stateful calls with a known result

    [computes P m r Q]: from a state of [P] the call [m] gives [r] and a state of
    [Q]: [r] does not depend on the state. *)
Definition computes {S A} (P : S -> Prop) (m : ST S A) (r : Res A) (Q : S -> Prop) : Prop :=
  forall s, P s -> exists s', m s = (r, s') /\ Q s'.

Lemma computes_liftR {S A} (P : S -> Prop) (r : Res A) : computes P (liftR r) r P.
Proof. intros s Hs. by exists s. Qed.

Lemma computes_bind {S A B} (P Q : S -> Prop) (m : ST S A) r (k : A -> ST S B) kr :
  computes P m r Q -> (forall a, r = Ok a -> computes Q (k a) (kr a) Q) ->
  computes P (bindST m k) (bindR r kr) Q.
Proof.
  intros Hm Hk s Hs. destruct (Hm s Hs) as (s1&E&H1). unfold bindST. rewrite E.
  destruct r as [a|e| | |]; try by exists s1. by apply Hk.
Qed.

Lemma computes_weaken {S A} (P P' Q Q' : S -> Prop) (m : ST S A) r :
  computes P m r Q -> (forall s, P' s -> P s) -> (forall s, Q s -> Q' s) -> computes P' m r Q'.
Proof. intros Hm HP HQ s Hs. destruct (Hm s (HP _ Hs)) as (s'&E&H'). exists s'. auto. Qed.

(** A stateful loop whose rounds have known results. *)
Lemma computes_loop {S St R} (P : S -> Prop) (body : St -> ST S (St + R)) (pure : St -> Res (St + R)) s :
  (forall s, computes P (body s) (pure s) P) -> computes P (loopST body s) (loop pure s) P.
Proof.
  intros Hb f Hf. unfold loopST, loop. set (stb := fun '(s, f) => _).
  assert (Hs : forall k s f, P f -> exists f', P f' /\ steps k stb (s, f) =
    match steps k pure s with
    | Ok (inl s') => Ok (inl (s', f'))
    | Ok (inr x) => Ok (inr (Ok x, f'))
    | Err e => Ok (inr (Err e, f'))
    | Panic => Panic | Overflow => Overflow | Diverge => Diverge
    end).
  { induction k as [|k IH]; intros s1 f1 Hf1; cbn [steps].
    - destruct (Hb s1 f1 Hf1) as (f2&E&Hf2). exists f2. split; [done|]. unfold stb. rewrite E.
      by destruct (pure s1) as [[|]|e| | |].
    - destruct (IH s1 f1 Hf1) as (f2&Hf2&E). rewrite E.
      destruct (steps k pure s1) as [[s2|x]|e| | |]; cbn [bindR]; try by exists f2.
      by apply IH. }
  destruct (Hs 64%nat s f Hf) as (f'&Hf'&E). rewrite E.
  destruct (steps 64 pure s) as [[s'|x]|e| | |]; cbn [bindR];
    try (by exists f'); by exists f.
Qed.

#[global] Opaque loop.

(** ** Preconditions

    [wpx X m P]: the call [m] comes back, and on success its value satisfies [P];
    an arithmetic overflow is possible only if [X] holds.  [wp] is the case without
    overflows. *)
Definition wpx (X : Prop) {A} (m : Res A) (P : A -> Prop) : Prop :=
  match m with Ok a => P a | Err _ => True | Overflow => X | Panic | Diverge => False end.
Abbreviation wp := (wpx False).

(** The call comes back or overflows. *)
Definition returns_or_overflow {A} (m : Res A) : Prop :=
  match m with Ok _ | Err _ | Overflow => True | Panic | Diverge => False end.

Lemma wp_iff {A} (m : Res A) P : wp m P <-> returns m /\ forall a, m = Ok a -> P a.
Proof. destruct m; simpl; naive_solver. Qed.

Lemma wp_mono {X : Prop} {A} (m : Res A) (P Q : A -> Prop) : wpx X m P -> (forall a, P a -> Q a) -> wpx X m Q.
Proof. destruct m; simpl; auto. Qed.

Lemma wp_eq {X : Prop} {A} (m : Res A) (P : A -> Prop) : wpx X m P -> wpx X m (fun a => P a /\ m = Ok a).
Proof. destruct m; simpl; auto. Qed.

Lemma wp_returns {A} (m : Res A) P : wp m P -> returns m.
Proof. by intros [? _]%wp_iff. Qed.

Lemma returns_wp {A} (m : Res A) : returns m -> wp m (fun _ => True).
Proof. by destruct m. Qed.

Lemma wp_Ok {X : Prop} {A} (m : Res A) P a : wpx X m P -> m = Ok a -> P a.
Proof. by intros Hw ->. Qed.

Lemma wp_bind {X : Prop} {A B} (m : Res A) (k : A -> Res B) P :
  wpx X m (fun a => wpx X (k a) P) -> wpx X (bindR m k) P.
Proof. by destruct m. Qed.

(** Keep the equation of the first call. *)
Lemma wp_bind_eq {X : Prop} {A B} (m : Res A) (k : A -> Res B) Q P :
  wpx X m Q -> (forall a, m = Ok a -> Q a -> wpx X (k a) P) -> wpx X (bindR m k) P.
Proof. destruct m; simpl; auto. Qed.

Lemma wp_ok_or {X : Prop} {A} (o : option A) e P : (forall a, o = Some a -> P a) -> wpx X (ok_or o e) P.
Proof. destruct o; simpl; auto. Qed.

Lemma wp_slice {X : Prop} {A} (l : list A) lo hi P :
  0 <= lo <= hi -> hi <= zlen l -> P (sub l lo (hi - lo)) -> wpx X (slice l lo hi) P.
Proof. intros. by rewrite slice_eq. Qed.

Lemma wp_at {X : Prop} {A} (l : list A) i P :
  0 <= i < zlen l -> (forall a, get l i = Some a -> P a) -> wpx X (at_ l i) P.
Proof. intros [a Ha]%get_is_Some HP. rewrite (proj2 (at_Ok _ _ _) Ha). by apply HP. Qed.

Lemma wp_le_field {X : Prop} n tok b o P :
  (forall v, 0 <= v < 256 ^ n -> le_field n tok b o = Ok v -> P v) -> wpx X (le_field n tok b o) P.
Proof.
  intros HP. destruct (le_field n tok b o) eqn:E; simpl; try done.
  1: apply HP; [by eapply le_field_range|done].
  all: pose proof (returns_le_field n tok b o) as Hr; by rewrite E in Hr.
Qed.

Lemma wp_be_field {X : Prop} n tok b o P :
  (forall v, 0 <= v < 256 ^ n -> be_field n tok b o = Ok v -> P v) -> wpx X (be_field n tok b o) P.
Proof.
  intros HP. destruct (be_field n tok b o) eqn:E; simpl; try done.
  1: apply HP; [by eapply be_field_range|done].
  all: pose proof (returns_be_field n tok b o) as Hr; by rewrite E in Hr.
Qed.

(** The sum is known to fit, or overflow is allowed. *)
Lemma wp_addw_x {X : Prop} w a b (P : Z -> Prop) :
  (2 ^ w <= a + b -> X) -> (a + b < 2 ^ w -> P (a + b)) -> wpx X (addw w a b) P.
Proof.
  intros HX HP. unfold addw. destruct (Z.ltb_spec (a + b) (2 ^ w)); simpl; auto.
Qed.
Lemma wp_mulw_x {X : Prop} w a b (P : Z -> Prop) :
  (2 ^ w <= a * b -> X) -> (a * b < 2 ^ w -> P (a * b)) -> wpx X (mulw w a b) P.
Proof.
  intros HX HP. unfold mulw. destruct (Z.ltb_spec (a * b) (2 ^ w)); simpl; auto.
Qed.
Lemma wpx_weaken {X : Prop} {A} (m : Res A) P : wp m P -> wpx X m P.
Proof. by destruct m. Qed.
Lemma wp_returns_x {A} (m : Res A) P : wpx True m P -> returns_or_overflow m.
Proof. by destruct m. Qed.

Lemma wp_addw {X : Prop} w a b (P : Z -> Prop) : a + b < 2 ^ w -> P (a + b) -> wpx X (addw w a b) P.
Proof. intros. unfold addw. by rewrite (proj2 (Z.ltb_lt _ _)). Qed.
Lemma wp_mulw {X : Prop} w a b (P : Z -> Prop) : a * b < 2 ^ w -> P (a * b) -> wpx X (mulw w a b) P.
Proof. intros. unfold mulw. by rewrite (proj2 (Z.ltb_lt _ _)). Qed.
Lemma wp_subw {X : Prop} a b (P : Z -> Prop) : b <= a -> P (a - b) -> wpx X (subw a b) P.
Proof. intros. by rewrite subw_eq. Qed.

Lemma wp_write_at {X : Prop} {A} (buf data : list A) lo P :
  0 <= lo -> lo + zlen data <= zlen buf ->
  (forall r, write_at buf lo data = Ok r -> zlen r = zlen buf -> P r) -> wpx X (write_at buf lo data) P.
Proof.
  intros Hlo Hfit HP. pose proof (write_at_eq buf data lo Hlo Hfit) as Hw. rewrite Hw.
  apply HP; [done|]. by eapply write_at_zlen.
Qed.

Lemma wp_for_loop {X : Prop} {A} (I : Z -> A -> Prop) n i body acc P :
  I i acc -> (forall j a, i <= j < i + Z.of_nat n -> I j a -> wpx X (body j a) (I (j + 1))) ->
  (forall a, I (i + Z.of_nat n) a -> P a) -> wpx X (for_loop n i body acc) P.
Proof.
  revert i acc. induction n as [|n IH]; intros i acc H0 Hb HP; cbn [for_loop].
  { apply HP. by rewrite Z.add_0_r. }
  apply wp_bind. eapply wp_mono; [apply Hb; [lia|done]|]. cbn beta. intros a Ha. apply IH; [done| |].
  - intros j b Hj. apply Hb. lia.
  - intros b Hb'. apply HP. by replace (i + Z.of_nat (S n)) with (i + 1 + Z.of_nat n) by lia.
Qed.

Lemma wp_steps {X : Prop} {St R} (body : St -> Res (St + R)) (I : St -> Prop) (m : St -> Z) P :
  (forall s, I s -> 0 <= m s /\ wpx X (body s) (fun r =>
     match r with inl s' => I s' /\ m s' < m s | inr x => P x end)) ->
  forall k s, I s -> wpx X (steps k body s) (fun r =>
     match r with inl s' => I s' /\ m s' + 2 ^ Z.of_nat k <= m s | inr x => P x end).
Proof.
  intros Hb. induction k as [|k IH]; intros s Hs; cbn [steps].
  - destruct (Hb s Hs) as [_ Hw]. eapply wp_mono; [exact Hw|].
    intros [s'|x]; [|done]. change (2 ^ Z.of_nat 0) with 1. intros [? ?]. split; [done|lia].
  - apply wp_bind. eapply wp_mono; [by apply IH|]. intros [s1|x]; [|done]. intros [Hs1 Hm1].
    eapply wp_mono; [by apply IH|]. intros [s2|x]; [|done]. intros [Hs2 Hm2]. split; [done|].
    replace (Z.of_nat (S k)) with (1 + Z.of_nat k) by lia. rewrite Z.pow_add_r by lia.
    change (2 ^ 1) with 2. lia.
Qed.

(** A loop with an invariant and a 64-bit measure. *)
Lemma wp_loop {X : Prop} {St R} (body : St -> Res (St + R)) (I : St -> Prop) (m : St -> Z) s P :
  I s -> m s < 2 ^ 64 ->
  (forall s, I s -> 0 <= m s /\ wpx X (body s) (fun r =>
     match r with inl s' => I s' /\ m s' < m s | inr x => P x end)) ->
  wpx X (loop body s) P.
Proof.
  intros Hs Hm Hb. rewrite loop_steps. pose proof (eq_refl : 2 ^ Z.of_nat 64 = 2 ^ 64) as Hk.
  revert Hk. generalize 64%nat as k. intros k Hk.
  apply wp_bind. eapply wp_mono; [apply (wp_steps body I m P Hb k s Hs)|].
  intros [s'|x]; [|done]. intros [Hs' Hm']. destruct (Hb s' Hs') as [H0 _]. lia.
Qed.

(** A loop every round of which succeeds. *)
Lemma loop_succeeds {St R} (body : St -> Res (St + R)) (I : St -> Prop) (m : St -> Z) s (P : R -> Prop) :
  I s -> m s < 2 ^ 64 ->
  (forall s, I s -> 0 <= m s /\ exists r, body s = Ok r /\
     match r with inl s' => I s' /\ m s' < m s | inr x => P x end) ->
  exists x, loop body s = Ok x /\ P x.
Proof.
  intros Hs Hm Hb. assert (Hw : wp (loop body s) P).
  { apply (wp_loop body I m); [done|done|]. intros s1 Hs1. destruct (Hb s1 Hs1) as (?&r&->&?). done. }
  destruct (loop body s) as [x|e| | |] eqn:El; try done; [by exists x|].
  apply loop_LoopsTo in El; [|done]. remember (Err e) as o eqn:Eo. exfalso.
  clear Hm Hw. induction El as [|s1 e1 He|s1 s2 r Hr _ IH]; [done|..];
    destruct (Hb s1 Hs) as (_&r1&Hr1&Hs2); [congruence|].
  assert (r1 = inl s2) as -> by congruence. destruct Hs2. auto.
Qed.

(** Writing behind a prefix of the buffer that is already filled. *)
Lemma write_at_front {A} (buf d r : list A) k : write_at buf k d = Ok r ->
  sub r 0 (k + zlen d) = sub buf 0 k ++ d /\
  drop (Z.to_nat (k + zlen d)) r = drop (Z.to_nat (k + zlen d)) buf.
Proof.
  intros (?&?&->)%write_at_Ok. pose proof (zlen_nonneg d).
  assert (Hk : zlen (sub buf 0 k ++ d) = k + zlen d) by (rewrite zlen_app, zlen_sub by lia; lia).
  rewrite app_assoc. set (tail := drop _ buf). rewrite <- Hk.
  by rewrite sub_0_app, drop_zlen_app.
Qed.
