(* ===== verification/Cache.v ===== *)
(** * The immutable decompressed-block cache ([crates/lamfold/src/cache.rs])

    [BlockCache] is a byte-capacity LRU over a [BTreeMap<u64, Entry>] whose
    recency order is kept by a wrapping 64-bit tick.  The module [BlockCache]
    translates the operations; [LRU] is the abstract recency list it is meant to
    behave as, and [Repr] is the simulation relation between the two. *)
From S2P Require Import Prelude.
Open Scope Z_scope.

Module BlockCache.

Record Entry : Type := mkEntry { data : list byte; last : Z }.
#[export] Instance Entry_eq_dec : EqDecision Entry.
Proof. solve_decision. Defined.

Record BlockCache : Type := mkCache {
  entries : gmap Z Entry;
  tick : Z;
  cap_bytes : Z;
  cur_bytes : Z;
}.

Definition new (cap : Z) : BlockCache := mkCache ∅ 0 cap 0.

(** [u64::wrapping_add(1)]. *)
Definition next_tick (t : Z) : Z := (t + 1) mod u64_max.

Definition get (c : BlockCache) (key : Z) : option (list byte) * BlockCache :=
  let tick := next_tick (tick c) in
  match entries c !! key with
  | None => (None, mkCache (entries c) tick (cap_bytes c) (cur_bytes c))
  | Some entry =>
      (Some (data entry),
       mkCache (<[key := mkEntry (data entry) tick]> (entries c)) tick
               (cap_bytes c) (cur_bytes c))
  end.

(** [Iterator::min_by_key]: the first of the elements with the least key. *)
Fixpoint min_by_key (l : list (Z * Entry)) : option (Z * Entry) :=
  match l with
  | [] => None
  | x :: l' =>
      match min_by_key l' with
      | None => Some x
      | Some y => if last x.2 <=? last y.2 then Some x else Some y
      end
  end.

Definition key_le (x y : Z * Entry) : Prop := x.1 <= y.1.
#[export] Instance key_le_dec : RelDecision key_le.
Proof. intros x y. unfold key_le. apply _. Defined.

Definition evict_one (c : BlockCache) : option Z * BlockCache :=
  match min_by_key (btree_iter key_le (entries c)) with
  | None => (None, c)
  | Some (victim, _) =>
      ((fun e => zlen (data e)) <$> entries c !! victim,
       mkCache (delete victim (entries c)) (tick c) (cap_bytes c) (cur_bytes c))
  end.

Definition set_cur (c : BlockCache) (cur : Z) : BlockCache :=
  mkCache (entries c) (tick c) (cap_bytes c) cur.

(** The eviction loop of [insert]; [need] is [data.len()]. *)
Fixpoint evict_until (fuel : nat) (need : Z) (c : BlockCache) : Res BlockCache :=
  match fuel with
  | O => Diverge
  | S fuel' =>
      let! total := addw 64 (cur_bytes c) need in
      if total >? cap_bytes c then
        match evict_one c with
        | (Some freed, c') =>
            let! cur := subw (cur_bytes c') freed in
            evict_until fuel' need (set_cur c' cur)
        | (None, c') => Ok c'
        end
      else Ok c
  end.

Definition insert (c : BlockCache) (key : Z) (d : list byte) : Res BlockCache :=
  if (cap_bytes c =? 0) || (zlen d >? cap_bytes c) then Ok c
  else
    let! c1 :=
      match entries c !! key with
      | Some old =>
          let! cur := subw (cur_bytes c) (zlen (data old)) in
          Ok (mkCache (delete key (entries c)) (tick c) (cap_bytes c) cur)
      | None => Ok c
      end in
    let! c2 := evict_until (S (size (entries c1))) (zlen d) c1 in
    let tick := next_tick (tick c2) in
    let! cur := addw 64 (cur_bytes c2) (zlen d) in
    Ok (mkCache (<[key := mkEntry d tick]> (entries c2)) tick (cap_bytes c2) cur).

Definition len_bytes (c : BlockCache) : Z := cur_bytes c.

(** The operations a frontend can apply, as one step function. *)
Inductive op : Type :=
| OpGet (key : Z)
| OpInsert (key : Z) (d : list byte).

Definition step (c : BlockCache) (o : op) : Res (option (list byte) * BlockCache) :=
  match o with
  | OpGet key => Ok (get c key)
  | OpInsert key d => let! c' := insert c key d in Ok (None, c')
  end.

Fixpoint run (c : BlockCache) (ops : list op) : Res (list (option (list byte)) * BlockCache) :=
  match ops with
  | [] => Ok ([], c)
  | o :: ops' =>
      let! (r, c') := step c o in
      let! (rs, c'') := run c' ops' in
      Ok (r :: rs, c'')
  end.

End BlockCache.

(** The specification: a list of blocks, most recently used first. *)
Module LRU.

Abbreviation lru := (list (Z * list byte)) (only parsing).

Definition total (l : lru) : Z := foldr (fun kd acc => zlen kd.2 + acc) 0 l.
Definition remove (key : Z) (l : lru) : lru := filter (fun kd => kd.1 <> key) l.

Fixpoint lookup (key : Z) (l : lru) : option (list byte) :=
  match l with
  | [] => None
  | (k, d) :: l' => if decide (k = key) then Some d else lookup key l'
  end.

(** The longest prefix that fits in [room] bytes: what is left after dropping
    least recently used blocks until the rest fits. *)
Fixpoint fit (room : Z) (l : lru) : lru :=
  match l with
  | [] => []
  | (k, d) :: l' => if zlen d <=? room then (k, d) :: fit (room - zlen d) l' else []
  end.

Definition step (cap : Z) (l : lru) (o : BlockCache.op) : option (list byte) * lru :=
  match o with
  | BlockCache.OpGet key =>
      match lookup key l with
      | Some d => (Some d, (key, d) :: remove key l)
      | None => (None, l)
      end
  | BlockCache.OpInsert key d =>
      if (cap =? 0) || (zlen d >? cap) then (None, l)
      else (None, (key, d) :: fit (cap - zlen d) (remove key l))
  end.

Fixpoint run (cap : Z) (l : lru) (ops : list BlockCache.op)
    : list (option (list byte)) * lru :=
  match ops with
  | [] => ([], l)
  | o :: ops' =>
      let (r, l') := step cap l o in
      let (rs, l'') := run cap l' ops' in
      (r :: rs, l'')
  end.

End LRU.

Section Refinement.
Import BlockCache.

Definition abs (l : list (Z * Entry)) : LRU.lru := (fun x => (x.1, data x.2)) <$> l.

Definition newer (x y : Z * Entry) : Prop := last y.2 < last x.2.

(** [l] lists the cache's entries from the most to the least recently used. *)
Record Repr0 (c : BlockCache) (l : list (Z * Entry)) : Prop := {
  repr_perm : map_to_list (entries c) ≡ₚ l;
  repr_sorted : StronglySorted newer l;
  repr_ticks : Forall (fun x => last x.2 <= tick c) l;
}.

Record Repr (c : BlockCache) (l : list (Z * Entry)) : Prop := {
  repr_0 : Repr0 c l;
  repr_cur : cur_bytes c = LRU.total (abs l);
  repr_fits : cur_bytes c <= cap_bytes c;
}.

Lemma total_nonneg l : 0 <= LRU.total l.
Proof. induction l as [|kd l IH]; simpl; [lia|]. pose proof (zlen_nonneg kd.2). lia. Qed.

Lemma total_app l k : LRU.total (l ++ k) = LRU.total l + LRU.total k.
Proof. induction l as [|kd l IH]; simpl; [lia|]. lia. Qed.

Lemma total_perm l k : l ≡ₚ k -> LRU.total l = LRU.total k.
Proof. induction 1; simpl; lia. Qed.

Lemma fit_all room l : LRU.total l <= room -> LRU.fit room l = l.
Proof.
  revert room. induction l as [|[k d] l IH]; intros room; simpl; [done|]. intros Ht.
  pose proof (total_nonneg l). rewrite (proj2 (Z.leb_le _ _)) by lia.
  by rewrite IH by lia.
Qed.

Lemma fit_snoc room l x :
  room < LRU.total (l ++ [x]) -> LRU.fit room (l ++ [x]) = LRU.fit room l.
Proof.
  revert room. induction l as [|[k d] l IH]; intros room; simpl.
  - destruct x as [k d]. simpl. intros. by rewrite (proj2 (Z.leb_gt _ _)) by lia.
  - intros. destruct (zlen d <=? room) eqn:E; [|done]. by rewrite IH by lia.
Qed.

Lemma fit_total room l : 0 <= room -> LRU.total (LRU.fit room l) <= room.
Proof.
  revert room. induction l as [|[k d] l IH]; intros room Hr; simpl; [done|].
  destruct (zlen d <=? room) eqn:E; [|done]. apply Z.leb_le in E. simpl.
  specialize (IH (room - zlen d)). lia.
Qed.

(** [min_by_key] picks the strictly least element wherever it stands. *)
Lemma min_by_key_least l x :
  x ∈ l -> (forall y, y ∈ l -> y <> x -> newer y x) -> min_by_key l = Some x.
Proof.
  induction l as [|a l IH]; intros Hin Hmin; [by apply not_elem_of_nil in Hin|]. simpl.
  destruct (decide (x ∈ l)) as [Hl|Hl].
  - rewrite IH; [|done|intros y Hy; apply Hmin; by right].
    case_match eqn:E; [|done]. apply Z.leb_le in E.
    destruct (decide (a = x)) as [->|Hne]; [done|].
    specialize (Hmin a ltac:(left) Hne). unfold newer in Hmin. lia.
  - apply elem_of_cons in Hin as [->|]; [|done].
    destruct (min_by_key l) as [y|] eqn:Ey; [|done].
    assert (Hy : y ∈ l).
    { clear -Ey. revert y Ey. induction l as [|b l IH]; intros y; simpl; [done|].
      destruct (min_by_key l) as [z|]; [|intros [= <-]; left].
      case_match; intros [= <-]; [left|right; by apply IH]. }
    rewrite (proj2 (Z.leb_le _ _)); [done|].
    assert (newer y a) by (apply Hmin; [by right|by intros ->]). unfold newer in *. lia.
Qed.

Lemma Repr0_keys c l : Repr0 c l -> NoDup l.*1.
Proof. intros [Hp _ _]. rewrite <- Hp. apply NoDup_fst_map_to_list. Qed.

Lemma Repr0_lookup c l k e : Repr0 c l -> entries c !! k = Some e <-> (k, e) ∈ l.
Proof. intros [Hp _ _]. by rewrite <- Hp, elem_of_map_to_list. Qed.

(** Removing an entry's key from the map removes it from the list. *)
Lemma map_to_list_delete_middle (m : gmap Z Entry) l1 l2 k e :
  map_to_list m ≡ₚ l1 ++ (k, e) :: l2 -> map_to_list (delete k m) ≡ₚ l1 ++ l2.
Proof.
  intros Hp. assert (m !! k = Some e) as Hk.
  { apply elem_of_map_to_list. rewrite Hp. apply elem_of_app. right. left. }
  apply (Permutation_cons_inv (a := (k, e))).
  rewrite (map_to_list_delete m k e Hk), Hp. by rewrite Permutation_middle.
Qed.

Lemma newer_sublist l1 x l2 :
  StronglySorted newer (l1 ++ x :: l2) -> StronglySorted newer (l1 ++ l2).
Proof.
  induction l1 as [|a l1 IH]; simpl.
  - by inversion 1.
  - inversion 1 as [|? ? Hs Hf]; subst. constructor; [by apply IH|].
    rewrite Forall_app in Hf |- *. rewrite Forall_cons in Hf. naive_solver.
Qed.

Lemma Repr0_delete c l1 l2 k e cur :
  Repr0 c (l1 ++ (k, e) :: l2) ->
  Repr0 (mkCache (delete k (entries c)) (tick c) (cap_bytes c) cur) (l1 ++ l2).
Proof.
  intros [Hp Hs Ht]. split; simpl.
  - by eapply map_to_list_delete_middle.
  - by eapply newer_sublist.
  - rewrite Forall_app, Forall_cons in Ht. rewrite Forall_app. naive_solver.
Qed.

(** Using a key moves or adds it to the front with a fresh tick. *)
Lemma Repr0_touch c l k d cur :
  Repr0 c l -> k ∉ l.*1 -> tick c < u64_max - 1 -> 0 <= tick c ->
  Repr0 (mkCache (<[k := mkEntry d (next_tick (tick c))]> (entries c))
                 (next_tick (tick c)) (cap_bytes c) cur)
        ((k, mkEntry d (next_tick (tick c))) :: l).
Proof.
  intros [Hp Hs Ht] Hk Hlt Hge.
  assert (next_tick (tick c) = tick c + 1) as -> by (apply Z.mod_small; lia).
  assert (entries c !! k = None) as Hn.
  { apply eq_None_not_Some. intros [e He]. apply Hk.
    apply list_elem_of_fmap. exists (k, e). split; [done|]. rewrite <- Hp.
    by apply elem_of_map_to_list. }
  split; simpl.
  - by rewrite map_to_list_insert, Hp.
  - constructor; [done|]. eapply Forall_impl; [exact Ht|]. unfold newer. simpl. lia.
  - constructor; simpl; [lia|]. eapply Forall_impl; [exact Ht|]. simpl. lia.
Qed.

Lemma abs_app l k : abs (l ++ k) = abs l ++ abs k.
Proof. apply fmap_app. Qed.

Lemma remove_notin k l : k ∉ l.*1 -> LRU.remove k (abs l) = abs l.
Proof.
  unfold LRU.remove. induction l as [|[k' e] l IH]; intros Hk; [done|].
  apply not_elem_of_cons in Hk as [? ?].
  change (abs ((k', e) :: l)) with ((k', data e) :: abs l).
  rewrite filter_cons_True by done. by rewrite IH.
Qed.

Lemma remove_middle l1 l2 k e :
  NoDup (l1 ++ (k, e) :: l2).*1 -> LRU.remove k (abs (l1 ++ (k, e) :: l2)) = abs (l1 ++ l2).
Proof.
  rewrite fmap_app, fmap_cons. simpl. intros Hn.
  apply NoDup_app in Hn as (_&Hd&[Hk2 _]%NoDup_cons).
  rewrite !abs_app. unfold LRU.remove. rewrite filter_app.
  change (abs ((k, e) :: l2)) with ((k, data e) :: abs l2).
  rewrite filter_cons_False by naive_solver.
  f_equal; apply remove_notin; [|done]. intros Hk. apply (Hd k); [done|left].
Qed.

Lemma lookup_middle l1 l2 k e :
  NoDup (l1 ++ (k, e) :: l2).*1 -> LRU.lookup k (abs (l1 ++ (k, e) :: l2)) = Some (data e).
Proof.
  induction l1 as [|[k' e'] l1 IH]; simpl; intros Hn.
  - by rewrite decide_True.
  - apply NoDup_cons in Hn as [Hk Hn]. rewrite decide_False; [by apply IH|].
    intros ->. apply Hk. rewrite fmap_app, fmap_cons. set_solver.
Qed.

Lemma lookup_notin k l : k ∉ l.*1 -> LRU.lookup k (abs l) = None.
Proof.
  induction l as [|[k' e'] l IH]; simpl; [done|]. intros Hn.
  rewrite decide_False by (intros ->; apply Hn; left). apply IH. set_solver.
Qed.

Lemma elem_middle (l : list (Z * Entry)) k e :
  (k, e) ∈ l -> exists l1 l2, l = l1 ++ (k, e) :: l2.
Proof. apply list_elem_of_split. Qed.

Lemma total_middle l1 l2 k e :
  LRU.total (abs (l1 ++ (k, e) :: l2)) = zlen (data e) + LRU.total (abs (l1 ++ l2)).
Proof. rewrite !abs_app, !total_app. simpl. lia. Qed.

(** [evict_one] drops the least recently used entry. *)
Lemma evict_one_snoc c l k e :
  Repr0 c (l ++ [(k, e)]) ->
  evict_one c = (Some (zlen (data e)),
                 mkCache (delete k (entries c)) (tick c) (cap_bytes c) (cur_bytes c)).
Proof.
  intros HR. unfold evict_one.
  rewrite (min_by_key_least _ (k, e)).
  - rewrite (proj2 (Repr0_lookup _ _ k e HR)); [done|]. apply elem_of_app. right. left.
  - unfold btree_iter. rewrite merge_sort_Permutation, (repr_perm _ _ HR).
    apply elem_of_app. right. left.
  - intros y. unfold btree_iter. rewrite merge_sort_Permutation, (repr_perm _ _ HR).
    intros [Hy|Hy]%elem_of_app Hne; [|apply list_elem_of_singleton in Hy; done].
    pose proof (repr_sorted _ _ HR) as Hs. clear -Hy Hs.
    induction l as [|a l IH]; [by apply not_elem_of_nil in Hy|].
    simpl in Hs. inversion Hs as [|? ? Hs' Hf]; subst.
    apply elem_of_cons in Hy as [->|Hy]; [|by apply IH].
    rewrite Forall_app, Forall_singleton in Hf. naive_solver.
Qed.

Lemma evict_one_nil c : Repr0 c [] -> evict_one c = (None, c).
Proof.
  intros [Hp _ _]. unfold evict_one, btree_iter.
  apply Permutation_nil_r in Hp. rewrite Hp. done.
Qed.

(** The eviction loop ends, never underflows, and leaves the longest recent
    prefix that fits next to the new block. *)
Lemma evict_until_fit l : forall fuel c need,
  (length l < fuel)%nat -> Repr0 c l -> cur_bytes c = LRU.total (abs l) ->
  0 <= need <= cap_bytes c -> cur_bytes c <= cap_bytes c -> cap_bytes c < 2 ^ 63 ->
  exists c' l', evict_until fuel need c = Ok c' /\ Repr0 c' l' /\
    abs l' = LRU.fit (cap_bytes c - need) (abs l) /\ l' ⊆ l /\
    cur_bytes c' = LRU.total (abs l') /\ tick c' = tick c /\ cap_bytes c' = cap_bytes c.
Proof.
  induction l as [|[k e] l IH] using rev_ind; intros [|fuel] c need Hf HR Hc Hn Hcap Hb;
    try (simpl in Hf; lia); simpl evict_until; rewrite addw_eq by lia; simpl.
  - simpl in Hc. rewrite (proj2 (Z.gtb_ltb _ _)) || idtac.
    case_match; [|by exists c, []]. rewrite (evict_one_nil _ HR). by exists c, [].
  - destruct (cur_bytes c + need >? cap_bytes c) eqn:E; rewrite Z.gtb_ltb in E.
    + apply Z.ltb_lt in E. rewrite (evict_one_snoc _ _ _ _ HR). simpl.
      rewrite abs_app, total_app in Hc. simpl in Hc. pose proof (total_nonneg (abs l)).
      pose proof (zlen_nonneg (data e)).
      rewrite subw_eq by lia. simpl. unfold set_cur. simpl.
      pose proof (Repr0_delete c l [] k e (cur_bytes c - zlen (data e))) as HR'.
      rewrite app_nil_r in HR'. specialize (HR' HR).
      rewrite length_app in Hf. simpl in Hf.
      edestruct (IH fuel _ need ltac:(lia) HR') as (c'&l'&?&?&Ha&?&?&?&?); simpl in *; try lia.
      exists c', l'. split_and!; try done.
      * rewrite Ha, abs_app. simpl. rewrite fit_snoc; [done|].
        rewrite total_app. simpl. lia.
      * set_solver.
    + apply Z.ltb_ge in E. exists c, (l ++ [(k, e)]). split_and!; try done.
      rewrite fit_all; [done|]. lia.
Qed.

Definition tick_ok (c : BlockCache) (n : Z) : Prop := 0 <= tick c /\ tick c + n < u64_max.

Lemma next_tick_ok t : 0 <= t -> t + 1 < u64_max -> next_tick t = t + 1.
Proof. intros. apply Z.mod_small. lia. Qed.

Lemma get_refines c l key :
  Repr c l -> tick_ok c 1 ->
  exists l', Repr (get c key).2 l' /\
    ((get c key).1, abs l') = LRU.step (cap_bytes c) (abs l) (OpGet key) /\
    tick (get c key).2 = tick c + 1 /\ cap_bytes (get c key).2 = cap_bytes c.
Proof.
  intros [HR Hc Hf] [Ht0 Ht1]. pose proof (Repr0_keys _ _ HR) as Hnd.
  unfold get. destruct (entries c !! key) as [e|] eqn:Ek; simpl.
  - apply (Repr0_lookup _ _ _ _ HR), elem_middle in Ek as (l1&l2&->).
    rewrite lookup_middle, remove_middle by done.
    pose proof (Repr0_delete _ _ _ _ _ (cur_bytes c) HR) as HR'.
    assert (key ∉ (l1 ++ l2).*1) as Hk.
    { rewrite fmap_app, fmap_cons in Hnd. rewrite fmap_app.
      rewrite <- Permutation_middle in Hnd. by apply NoDup_cons in Hnd as [? _]. }
    pose proof (Repr0_touch _ _ key (data e) (cur_bytes c) HR' Hk) as HT.
    simpl in HT. rewrite insert_delete_eq in HT. rewrite next_tick_ok in * by lia.
    eexists. split; [split; [apply HT; unfold u64_max in *; lia| |done]|done].
    simpl. rewrite Hc, total_middle. simpl. done.
  - assert (key ∉ l.*1) as Hk.
    { intros Hin. apply list_elem_of_fmap in Hin as ([k e]&->&Hin). simpl in Ek.
      apply (Repr0_lookup _ _ _ _ HR) in Hin. congruence. }
    rewrite lookup_notin by done. rewrite next_tick_ok by lia.
    exists l. split; [|done]. split; [|done|done]. destruct HR as [? ? Hts].
    split; simpl; [done..|]. eapply Forall_impl; [exact Hts|]. simpl. lia.
Qed.

(** Taking the old block under a key out, if there is one. *)
Lemma remove_old_refines c l key : Repr c l -> cap_bytes c < 2 ^ 63 ->
  exists c1 l1, (match entries c !! key with
      | Some old => let! cur := subw (cur_bytes c) (zlen (data old)) in
          Ok (mkCache (delete key (entries c)) (tick c) (cap_bytes c) cur)
      | None => Ok c end) = Ok c1 /\ Repr0 c1 l1 /\ key ∉ l1.*1 /\
    abs l1 = LRU.remove key (abs l) /\ cur_bytes c1 = LRU.total (abs l1) /\
    cur_bytes c1 <= cap_bytes c /\ tick c1 = tick c /\ cap_bytes c1 = cap_bytes c.
Proof.
  intros [HR Hc Hf] Hcap. pose proof (Repr0_keys _ _ HR) as Hnd. destruct (entries c !! key) as [e|] eqn:Ek.
  - apply (Repr0_lookup _ _ _ _ HR), elem_middle in Ek as (la&lb&->).
    rewrite total_middle in Hc. pose proof (total_nonneg (abs (la ++ lb))).
    pose proof (zlen_nonneg (data e)). rewrite subw_eq by lia. simpl.
    eexists _, (la ++ lb). split; [done|].
    split; [by apply Repr0_delete with (e := e)|].
    split; [|split_and!; simpl; try done; [by rewrite remove_middle|lia|lia]].
    rewrite fmap_app, fmap_cons in Hnd. rewrite fmap_app.
    rewrite <- Permutation_middle in Hnd. by apply NoDup_cons in Hnd as [? _].
  - assert (key ∉ l.*1) as Hk.
    { intros Hin. apply list_elem_of_fmap in Hin as ([k e]&->&Hin). simpl in Ek.
      apply (Repr0_lookup _ _ _ _ HR) in Hin. congruence. }
    exists c, l. by rewrite remove_notin.
Qed.

Lemma insert_refines c l key d :
  Repr c l -> tick_ok c 1 -> 0 <= cap_bytes c < 2 ^ 63 ->
  exists c' l', insert c key d = Ok c' /\ Repr c' l' /\
    (None, abs l') = LRU.step (cap_bytes c) (abs l) (OpInsert key d) /\
    tick c <= tick c' <= tick c + 1 /\ cap_bytes c' = cap_bytes c.
Proof.
  intros HR [Ht0 Ht1] Hcap. unfold insert. simpl LRU.step.
  destruct ((cap_bytes c =? 0) || (zlen d >? cap_bytes c)) eqn:Eg.
  { exists c, l. split_and!; try done; lia. }
  apply orb_false_iff in Eg as [_ Eg]. rewrite Z.gtb_ltb in Eg. apply Z.ltb_ge in Eg.
  pose proof (zlen_nonneg d).
  destruct (remove_old_refines c l key) as (c1&l1&->&HR1&Hk1&Ha1&Hc1&Hf1&Ht&Hcp); [done|lia|].
  cbn [bindR].
  destruct (evict_until_fit l1 (S (size (entries c1))) c1 (zlen d))
    as (c2&l2&->&HR2&Ha2&Hsub&Hc2&Ht2&Hcp2); try done; try lia.
  { rewrite <- (repr_perm _ _ HR1), length_map_to_list. lia. }
  cbn [bindR].
  assert (cur_bytes c2 <= cap_bytes c - zlen d) as Hroom.
  { rewrite Hc2, Ha2, Hcp. apply fit_total. lia. }
  rewrite addw_eq by lia. cbn [bindR].
  assert (key ∉ l2.*1) as Hk2.
  { intros Hin. apply Hk1. apply list_elem_of_fmap in Hin as (x&->&Hin).
    apply list_elem_of_fmap_2, Hsub, Hin. }
  eexists _, _. split; [reflexivity|]. split; [split|split_and!].
  - apply Repr0_touch; try done; unfold u64_max in *; lia.
  - simpl. lia.
  - simpl. lia.
  - simpl. rewrite Ha2, Hcp, Ha1. done.
  - simpl. rewrite next_tick_ok; lia.
  - simpl. rewrite next_tick_ok; lia.
  - simpl. lia.
Qed.

Lemma step_refines c l o :
  Repr c l -> tick_ok c 1 -> 0 <= cap_bytes c < 2 ^ 63 ->
  exists r c' l', step c o = Ok (r, c') /\ Repr c' l' /\
    (r, abs l') = LRU.step (cap_bytes c) (abs l) o /\
    tick c <= tick c' <= tick c + 1 /\ cap_bytes c' = cap_bytes c.
Proof.
  intros HR Ht Hcap. destruct o as [key|key d]; simpl step.
  - destruct (get_refines c l key HR Ht) as (l'&HR'&He&Htk&Hcp).
    destruct (get c key) as [r c']. simpl in *. exists r, c', l'. split_and!; try done; lia.
  - destruct (insert_refines c l key d HR Ht Hcap) as (c'&l'&->&HR'&He&Htk&Hcp).
    by exists None, c', l'.
Qed.

Lemma run_refines_from ops : forall c l,
  Repr c l -> tick_ok c (zlen ops) -> 0 <= cap_bytes c < 2 ^ 63 ->
  exists rs c' l', run c ops = Ok (rs, c') /\ Repr c' l' /\
    (rs, abs l') = LRU.run (cap_bytes c) (abs l) ops /\ cap_bytes c' = cap_bytes c.
Proof.
  induction ops as [|o ops IH]; intros c l HR [Ht0 Ht] Hcap; simpl.
  - by exists [], c, l.
  - rewrite zlen_cons in Ht. pose proof (zlen_nonneg ops).
    destruct (step_refines c l o HR) as (r&c'&l'&->&HR'&He&Htk&Hcp); [split; lia|done|].
    simpl. destruct (IH c' l' HR') as (rs&c''&l''&->&HR''&He2&Hcp2); [split; lia|lia|].
    simpl. exists (r :: rs), c'', l''. split_and!; try done; [|lia].
    rewrite <- He. rewrite Hcp in He2. by rewrite <- He2.
Qed.

Lemma Repr_new cap : 0 <= cap -> Repr (new cap) [].
Proof. intros. split; simpl; [split; simpl; [done|constructor|constructor]|done|done]. Qed.

End Refinement.

(** C13.  The cache refines an LRU list.  Any sequence of fewer than 2^64
    lookups and insertions on a fresh cache returns, without panicking, exactly
    the results of the abstract recency list, and afterwards retains exactly the
    blocks the list retains, never more than its capacity. *)
Theorem cache_refines_lru (cap : Z) (ops : list BlockCache.op) :
  0 <= cap < 2 ^ 63 -> zlen ops < 2 ^ 64 ->
  exists rs c, BlockCache.run (BlockCache.new cap) ops = Ok (rs, c) /\
    rs = (LRU.run cap [] ops).1 /\
    (forall k, BlockCache.data <$> BlockCache.entries c !! k = LRU.lookup k (LRU.run cap [] ops).2) /\
    BlockCache.len_bytes c = LRU.total (LRU.run cap [] ops).2 /\
    BlockCache.len_bytes c <= cap.
Proof.
  intros Hcap Hn.
  destruct (run_refines_from ops (BlockCache.new cap) []) as (rs&c&l&Hr&HR&He&Hcp).
  { apply Repr_new. lia. }
  { unfold tick_ok, u64_max. simpl. lia. }
  { done. }
  change (abs []) with (@nil (Z * list byte)) in He.
  simpl in He, Hcp. rewrite <- He. simpl. exists rs, c. destruct HR as [HR Hc Hf].
  split_and!; try done; [|unfold BlockCache.len_bytes; lia].
  intros k. destruct (BlockCache.entries c !! k) as [e|] eqn:Ek; simpl.
  - apply (Repr0_lookup _ _ _ _ HR) in Ek as Hin. apply elem_middle in Hin as (l1&l2&->).
    rewrite lookup_middle; [done|]. by apply (Repr0_keys c).
  - symmetry. apply lookup_notin. intros Hin.
    apply list_elem_of_fmap in Hin as ([k' e]&->&Hin). simpl in Ek.
    apply (Repr0_lookup _ _ _ _ HR) in Hin. congruence.
Qed.

Lemma cache_refines_lru_witness :
  exists rs c,
    BlockCache.run (BlockCache.new 3)
      [BlockCache.OpInsert 1 (bytes_of "a"); BlockCache.OpInsert 2 (bytes_of "bb");
       BlockCache.OpGet 1; BlockCache.OpInsert 3 (bytes_of "c"); BlockCache.OpGet 2] = Ok (rs, c)
    /\ rs = [None; None; Some (bytes_of "a"); None; None]
    /\ BlockCache.len_bytes c <= 3.
Proof.
  destruct (cache_refines_lru 3
    [BlockCache.OpInsert 1 (bytes_of "a"); BlockCache.OpInsert 2 (bytes_of "bb");
     BlockCache.OpGet 1; BlockCache.OpInsert 3 (bytes_of "c"); BlockCache.OpGet 2])
    as (rs&c&Hr&Hrs&_&_&Hl).
  - split; [discriminate|reflexivity].
  - reflexivity.
  - exists rs, c. split; [exact Hr|]. split; [rewrite Hrs; vm_compute; reflexivity|exact Hl].
Defined.
