(* ===== verification/Text.v ===== *)
(** * Strings

    A Rust [String] is modelled as its UTF-8 bytes.  This file translates the
    standard-library text functions the sources use: [str::from_utf8],
    [String::from_utf8_lossy], [char::decode_utf16], [str::split] and
    [slice::split]; and has the theory of well-formed UTF-8 as a sequence of encoded
    characters ([Chars]), which typing names needs. *)
From S2P Require Import Prelude.
Open Scope Z_scope.

(** A file name or path, as UTF-8 bytes. *)
Abbreviation name := (list byte) (only parsing).

(** ** Splitting *)

(** [s.split(c)]: never empty. *)
Fixpoint split_on (c : byte) (l : list byte) : list (list byte) :=
  match l with
  | [] => [[]]
  | b :: l' =>
      if decide (b = c) then [] :: split_on c l'
      else match split_on c l' with
           | [] => [[b]]
           | w :: ws => (b :: w) :: ws
           end
  end.

(** [s.split(c).next()]: what comes before the first [c]. *)
Fixpoint until (c : byte) (l : list byte) : list byte :=
  match l with
  | [] => []
  | b :: l' => if decide (b = c) then [] else b :: until c l'
  end.

(** [s.strip_suffix(c).unwrap_or(s)]. *)
Definition strip_suffix_char (c : byte) (l : list byte) : list byte :=
  match rev l with
  | b :: r => if decide (b = c) then rev r else l
  | [] => l
  end.

(** ** UTF-8 *)

(** The next byte, or 0 past the end ([safe_get] of the standard library). *)
Definition safe_get (l : list byte) (i : nat) : Z := default 0 (u8 <$> l !! i).

Definition in_rng (lo hi x : Z) : bool := (lo <=? x) && (x <=? hi).
Definition is_cont (x : Z) : bool := in_rng 128 191 x.

Definition second3 (b0 b1 : Z) : bool :=
  (b0 =? 0xE0) && in_rng 0xA0 0xBF b1 || in_rng 0xE1 0xEC b0 && in_rng 0x80 0xBF b1 ||
  (b0 =? 0xED) && in_rng 0x80 0x9F b1 || in_rng 0xEE 0xEF b0 && in_rng 0x80 0xBF b1.
Definition second4 (b0 b1 : Z) : bool :=
  (b0 =? 0xF0) && in_rng 0x90 0xBF b1 || in_rng 0xF1 0xF3 b0 && in_rng 0x80 0xBF b1 ||
  (b0 =? 0xF4) && in_rng 0x80 0x8F b1.

(** The scalar value or maximal ill-formed part a nonempty slice starts with:
    whether it is well formed, and how many bytes it takes. *)
Definition utf8_next (l : list byte) : bool * nat :=
  let b0 := safe_get l 0 in
  let b1 := safe_get l 1 in
  let b2 := safe_get l 2 in
  let b3 := safe_get l 3 in
  if b0 <? 128 then (true, 1%nat)
  else if in_rng 0xC2 0xDF b0 then
    if is_cont b1 then (true, 2%nat) else (false, 1%nat)
  else if in_rng 0xE0 0xEF b0 then
    if second3 b0 b1 then if is_cont b2 then (true, 3%nat) else (false, 2%nat)
    else (false, 1%nat)
  else if in_rng 0xF0 0xF4 b0 then
    if second4 b0 b1 then
      if is_cont b2 then if is_cont b3 then (true, 4%nat) else (false, 3%nat)
      else (false, 2%nat)
    else (false, 1%nat)
  else (false, 1%nat).

Fixpoint utf8_valid_fuel (fuel : nat) (l : list byte) : bool :=
  match l, fuel with
  | [], _ => true
  | _, O => false
  | _, S fuel' =>
      let (ok, n) := utf8_next l in ok && utf8_valid_fuel fuel' (drop n l)
  end.
(** [str::from_utf8(l).is_ok()]; every step consumes a byte. *)
Definition utf8_valid (l : list byte) : bool := utf8_valid_fuel (length l) l.

(** U+FFFD. *)
Definition replacement : list byte := [xef; xbf; xbd].

Fixpoint lossy_fuel (fuel : nat) (l : list byte) : list byte :=
  match l, fuel with
  | [], _ | _, O => []
  | _, S fuel' =>
      let (ok, n) := utf8_next l in
      (if ok then take n l else replacement) ++ lossy_fuel fuel' (drop n l)
  end.
(** [String::from_utf8_lossy]. *)
Definition from_utf8_lossy (l : list byte) : name := lossy_fuel (length l) l.

(** [char] to UTF-8 ([String::push]). *)
Definition push_char (c : Z) : list byte :=
  if c <? 0x80 then [to_u8 c]
  else if c <? 0x800 then [to_u8 (0xC0 + c / 64); to_u8 (0x80 + c mod 64)]
  else if c <? 0x10000 then
    [to_u8 (0xE0 + c / 4096); to_u8 (0x80 + (c / 64) mod 64); to_u8 (0x80 + c mod 64)]
  else [to_u8 (0xF0 + c / 262144); to_u8 (0x80 + (c / 4096) mod 64);
        to_u8 (0x80 + (c / 64) mod 64); to_u8 (0x80 + c mod 64)].

(** ** UTF-16 *)

(** [chunks_exact(2)] read big-endian; an odd trailing byte is dropped. *)
Fixpoint be_units (l : list byte) : list Z :=
  match l with
  | a :: b :: l' => be_num [a; b] :: be_units l'
  | _ => []
  end.

(** [char::decode_utf16], [None] at the first unpaired surrogate. *)
Fixpoint decode_utf16 (us : list Z) : option (list Z) :=
  match us with
  | [] => Some []
  | u :: us' =>
      if negb (Z.land u 0xF800 =? 0xD800) then cons u <$> decode_utf16 us'
      else if 0xDC00 <=? u then None
      else match us' with
           | u2 :: us'' =>
               if in_rng 0xDC00 0xDFFF u2
               then cons (Z.lor (Z.shiftl (Z.land u 0x3ff) 10) (Z.land u2 0x3ff) + 0x10000)
                      <$> decode_utf16 us''
               else None
           | [] => None
           end
  end.

(** The decoded units pushed to a [String]. *)
Definition string_of_utf16 (us : list Z) : option name :=
  (fun cs => concat (push_char <$> cs)) <$> decode_utf16 us.

(** Latin-1: [b as char] for every byte. *)
Definition string_of_latin1 (l : list byte) : name :=
  concat ((fun b => push_char (u8 b)) <$> l).

(** Rust's order on [String]: bytewise lexicographic. *)
Fixpoint name_leb (a b : name) : bool :=
  match a, b with
  | [], _ => true
  | _ :: _, [] => false
  | x :: a', y :: b' => (u8 x <? u8 y) || ((u8 x =? u8 y) && name_leb a' b')
  end.

(** The order in which a [BTreeMap<String, _>] is iterated. *)
Definition name_entry_le {V} : relation (name * V) := fun a b => name_leb a.1 b.1 = true.
#[export] Instance name_entry_le_dec {V} : RelDecision (name_entry_le (V := V)).
Proof. intros a b. unfold name_entry_le. apply _. Defined.

(** ** Lemmas *)

Lemma utf8_next_pos l : (0 < (utf8_next l).2)%nat.
Proof. unfold utf8_next. repeat case_match; simpl; lia. Qed.

Lemma safe_get_app l k i : (i < length l)%nat -> safe_get (l ++ k) i = safe_get l i.
Proof. intros. unfold safe_get. by rewrite lookup_app_l. Qed.

Lemma safe_get_take l n i : (i < n)%nat -> safe_get (take n l) i = safe_get l i.
Proof. intros. unfold safe_get. by rewrite lookup_take_lt. Qed.

Lemma safe_get_ge l i : (length l <= i)%nat -> safe_get l i = 0.
Proof. intros. unfold safe_get. by rewrite lookup_ge_None_2. Qed.

(** *** Well-formed text

    A character is the bytes of one scalar value: [utf8_next] takes exactly them,
    whatever follows.  Text is valid when it is a sequence of characters. *)
Definition is_char (c : list byte) : Prop :=
  forall k, utf8_next (c ++ k) = (true, length c).
Inductive Chars : list byte -> Prop :=
| Chars_nil : Chars []
| Chars_cons c l : is_char c -> Chars l -> Chars (c ++ l).

Lemma is_char_pos c : is_char c -> (0 < length c)%nat.
Proof. intros Hc. pose proof (utf8_next_pos (c ++ [])) as Hp. by rewrite Hc in Hp. Qed.

Lemma utf8_valid_fuel_Chars l : Chars l -> forall n, (length l <= n)%nat -> utf8_valid_fuel n l = true.
Proof.
  induction 1 as [|c l Hc _ IH]; intros n Hn; [by destruct n|]. pose proof (is_char_pos c Hc) as Hp.
  rewrite length_app in Hn. destruct n as [|n]; [lia|]. destruct (c ++ l) as [|b r] eqn:E.
  { apply app_eq_nil in E as [-> _]. cbn in Hp. lia. }
  cbn [utf8_valid_fuel]. rewrite <- E, Hc, drop_app_length. cbn [andb]. apply IH. lia.
Qed.

Lemma safe_get_0_nil i : safe_get [] i = 0.
Proof. done. Qed.

(** What [utf8_next] accepts is a character. *)
Lemma utf8_next_is_char l n : utf8_next l = (true, n) -> (n <= length l)%nat -> is_char (take n l).
Proof.
  intros Hn Hlen k. rewrite length_take, Nat.min_l by done. revert Hn.
  assert (Hg : forall i, (i < n)%nat -> safe_get (take n l ++ k) i = safe_get l i).
  { intros i Hi. rewrite safe_get_app by (rewrite length_take; lia). by apply safe_get_take. }
  unfold utf8_next. destruct n as [|n]; [intros Hn; exfalso; revert Hn; repeat case_match; done|].
  rewrite (Hg 0%nat) by lia. destruct (safe_get l 0 <? 128); [done|].
  destruct (in_rng 0xC2 0xDF _).
  { destruct (is_cont (safe_get l 1)) eqn:E; [|done]. intros [= <-]. rewrite Hg by lia. by rewrite E. }
  destruct (in_rng 0xE0 0xEF _).
  { destruct (second3 _ _) eqn:E1; [|done]. destruct (is_cont (safe_get l 2)) eqn:E2; [|done].
    intros [= <-]. rewrite !Hg by lia. by rewrite E1, E2. }
  destruct (in_rng 0xF0 0xF4 _); [|done]. destruct (second4 _ _) eqn:E1; [|done].
  destruct (is_cont (safe_get l 2)) eqn:E2; [|done]. destruct (is_cont (safe_get l 3)) eqn:E3; [|done].
  intros [= <-]. rewrite !Hg by lia. by rewrite E1, E2, E3.
Qed.

(** The bytes past the end do not count as continuations. *)
Lemma utf8_next_len l n : l <> [] -> utf8_next l = (true, n) -> (n <= length l)%nat.
Proof.
  intros Hl. assert (Hpast : forall i, (length l <= i)%nat -> safe_get l i = 0) by (intros; by apply safe_get_ge).
  assert (H0 : (1 <= length l)%nat) by (destruct l; cbn; [done|lia]).
  assert (Hin : forall i, is_cont (safe_get l i) = true -> (i < length l)%nat).
  { intros i Hi. destruct (decide (i < length l)%nat); [done|]. by rewrite Hpast in Hi by lia. }
  assert (H3 : second3 (safe_get l 0) (safe_get l 1) = true -> (1 < length l)%nat).
  { intros Hs. destruct (decide (1 < length l)%nat); [done|]. rewrite (Hpast 1%nat) in Hs by lia.
    unfold second3, in_rng in Hs. cbn in Hs. by rewrite !andb_false_r in Hs. }
  assert (H4 : second4 (safe_get l 0) (safe_get l 1) = true -> (1 < length l)%nat).
  { intros Hs. destruct (decide (1 < length l)%nat); [done|]. rewrite (Hpast 1%nat) in Hs by lia.
    unfold second4, in_rng in Hs. cbn in Hs. by rewrite !andb_false_r in Hs. }
  unfold utf8_next. repeat case_match; intros [= <-]; try lia.
  all: repeat match goal with E : is_cont _ = true |- _ => apply Hin in E end; lia.
Qed.

Lemma Chars_utf8_valid_fuel n : forall l, utf8_valid_fuel n l = true -> Chars l.
Proof.
  induction n as [|n IH]; intros l Hv; (destruct l as [|b l]; [constructor|]); [done|].
  cbn [utf8_valid_fuel] in Hv. destruct (utf8_next (b :: l)) as [ok m] eqn:E.
  apply andb_true_iff in Hv as [-> Hv]. pose proof (utf8_next_len (b :: l) m ltac:(done) E) as Hm.
  rewrite <- (take_drop m (b :: l)). constructor; [by apply utf8_next_is_char|by apply IH].
Qed.

Lemma utf8_valid_Chars l : utf8_valid l = true <-> Chars l.
Proof.
  split; [apply Chars_utf8_valid_fuel|]. intros Hc. by apply utf8_valid_fuel_Chars.
Qed.

Lemma Chars_app l k : Chars l -> Chars k -> Chars (l ++ k).
Proof. induction 1; [done|]. intros. rewrite <- app_assoc. constructor; auto. Qed.

(** A character is one ASCII byte, or has none. *)
Lemma is_char_ascii c : is_char c -> (exists b, c = [b]) \/ Forall (fun b => 128 <= u8 b) c.
Proof.
  intros Hc. specialize (Hc []). rewrite app_nil_r in Hc.
  assert (Hg : forall i b, c !! i = Some b -> safe_get c i = u8 b) by (intros i b E; unfold safe_get; by rewrite E).
  destruct (decide (length c = 1)%nat) as [E|Hne].
  { left. destruct c as [|b [|]]; try done. by exists b. }
  right. apply Forall_lookup_2. intros i b Hi. apply lookup_lt_Some in Hi as Hlt. rewrite <- (Hg i b Hi). clear b Hi.
  revert Hc. unfold utf8_next, second3, second4, is_cont, in_rng.
  repeat case_match; intros [= Hl]; try lia.
  all: repeat match goal with
    | E : (_ || _) = true |- _ => apply orb_true_iff in E
    | E : (_ && _) = true |- _ => apply andb_true_iff in E as [? ?]
    | E : (_ && _) = true \/ _ |- _ => destruct E as [[? ?]%andb_true_iff|?]
    | E : (_ || _) = true \/ _ |- _ => destruct E as [[|]%orb_true_iff|?]
    | E : (_ <=? _) = true |- _ => apply Z.leb_le in E
    | E : (_ <? _) = false |- _ => apply Z.ltb_ge in E
    end.
  all: destruct i as [|[|[|[|]]]]; try lia.
Qed.

(** What comes before an ASCII byte, and text without its last one, is text. *)
Lemma until_Chars b l : u8 b < 128 -> Chars l -> Chars (until b l).
Proof.
  intros Hb. induction 1 as [|c l Hc _ IH]; [constructor|].
  destruct (is_char_ascii c Hc) as [[a ->]|Hhigh].
  - cbn [app until]. destruct (decide (a = b)); [constructor|]. change (a :: until b l) with ([a] ++ until b l).
    by constructor.
  - assert (Hu : until b (c ++ l) = c ++ until b l).
    { clear Hc IH. induction Hhigh as [|a c Ha _ IH]; [done|]. cbn [app until].
      rewrite decide_False by (intros ->; lia). by rewrite IH. }
    rewrite Hu. by constructor.
Qed.

Lemma strip_suffix_char_Chars b l : u8 b < 128 -> Chars l -> Chars (strip_suffix_char b l).
Proof.
  intros Hb Hl. unfold strip_suffix_char. destruct (rev l) as [|a r] eqn:E; [done|].
  destruct (decide (a = b)) as [->|]; [|done].
  assert (El : l = rev r ++ [b]) by (rewrite <- (rev_involutive l), E; done). clear E. revert El.
  generalize (rev r). clear r. induction Hl as [|c l Hc Hl IH]; intros q Eq; [by destruct q|].
  destruct (decide (l = [])) as [->|Hne].
  - rewrite app_nil_r in Eq. subst c. destruct (is_char_ascii _ Hc) as [[a E]|Hhigh].
    + destruct q as [|x q]; [constructor|]. injection E as _ E. by destruct q.
    + apply Forall_app in Hhigh as [_ Hh]. inversion Hh; subst. lia.
  - destruct (exists_last Hne) as (m&x&->). rewrite app_assoc in Eq. apply app_inj_tail in Eq as [<- ->].
    constructor; [done|]. by apply IH.
Qed.

(** Scalar values are pushed as characters. *)
Definition scalar (c : Z) : Prop := 0 <= c < 0xD800 \/ 0xE000 <= c < 0x110000.

Lemma in_rng_true lo hi x : lo <= x <= hi -> in_rng lo hi x = true.
Proof. intros. unfold in_rng. by rewrite !(proj2 (Z.leb_le _ _)) by lia. Qed.
Lemma in_rng_false lo hi x : x < lo \/ hi < x -> in_rng lo hi x = false.
Proof. intros. unfold in_rng. apply andb_false_iff. rewrite !Z.leb_gt. lia. Qed.

Lemma push_char_is_char c : scalar c -> is_char (push_char c).
Proof.
  intros Hc k. assert (Hr : 0 <= c < 0x110000) by (destruct Hc; lia).
  unfold push_char. destruct (Z.ltb_spec c 0x80); [|destruct (Z.ltb_spec c 0x800); [|destruct (Z.ltb_spec c 0x10000)]].
  all: pose proof (Z.div_mod c 64 ltac:(lia)); pose proof (Z.mod_pos_bound c 64 ltac:(lia)).
  all: pose proof (Z.div_mod (c / 64) 64 ltac:(lia)); pose proof (Z.mod_pos_bound (c / 64) 64 ltac:(lia)).
  all: pose proof (Z.div_mod (c / 4096) 64 ltac:(lia)); pose proof (Z.mod_pos_bound (c / 4096) 64 ltac:(lia)).
  all: assert (E1 : c / 64 / 64 = c / 4096) by (by rewrite Z.div_div by lia).
  all: assert (E2 : c / 4096 / 64 = c / 262144) by (by rewrite Z.div_div by lia).
  all: rewrite E1 in *; rewrite E2 in *.
  all: unfold utf8_next, safe_get, is_cont; cbn [app lookup list_lookup fmap option_fmap option_map default length].
  all: cbv [from_option id]; rewrite !u8_to_u8, !(Z.mod_small _ 256) by lia.
  - by rewrite (proj2 (Z.ltb_lt c 128)) by done.
  - rewrite (proj2 (Z.ltb_ge _ 128)) by lia. rewrite in_rng_true by lia. by rewrite in_rng_true by lia.
  - rewrite (proj2 (Z.ltb_ge _ 128)) by lia. rewrite in_rng_false, in_rng_true by lia.
    assert (second3 (0xE0 + c / 4096) (0x80 + (c / 64) mod 64) = true) as ->.
    { unfold second3, in_rng. rewrite !orb_true_iff, !andb_true_iff, !Z.eqb_eq, !Z.leb_le. destruct Hc; lia. }
    by rewrite in_rng_true by lia.
  - rewrite (proj2 (Z.ltb_ge _ 128)) by lia. rewrite !in_rng_false, in_rng_true by lia.
    assert (second4 (0xF0 + c / 262144) (0x80 + (c / 4096) mod 64) = true) as ->.
    { unfold second4, in_rng. rewrite !orb_true_iff, !andb_true_iff, !Z.eqb_eq, !Z.leb_le. destruct Hc; lia. }
    by rewrite !in_rng_true by lia.
Qed.

(** A property of lists by pairs: the shape of the two UTF-16 decoders. *)
Lemma list_ind2 {A} (P : list A -> Prop) : P [] -> (forall a, P [a]) ->
  (forall a b l, P l -> P (b :: l) -> P (a :: b :: l)) -> forall l, P l.
Proof.
  intros H0 H1 H2 l. assert (Hb : P l /\ forall a, P (a :: l)); [|apply Hb].
  induction l as [|a l [IH1 IH2]]; [auto|]. split; [apply IH2|]. intros b. apply H2; [done|apply IH2].
Qed.

Lemma decode_utf16_scalar us : forall cs, Forall (fun u => 0 <= u < 2 ^ 16) us ->
  decode_utf16 us = Some cs -> Forall scalar cs.
Proof.
  assert (Hsur : Forall (fun u => Z.land u 0xF800 = 0xD800) (seqZ 0xD800 0x800)).
  { apply (bool_decide_unpack _). vm_compute. done. }
  assert (Hbmp : forall u, 0 <= u < 2 ^ 16 -> (Z.land u 0xF800 =? 0xD800) = false -> scalar u).
  { intros u Hu Hn%Z.eqb_neq. unfold scalar. destruct (decide (0xD800 <= u < 0xE000)) as [Hin|]; [|lia].
    exfalso. apply Hn. rewrite Forall_forall in Hsur. apply Hsur. apply elem_of_seqZ. lia. }
  clear Hsur. induction us as [|u|u u2 us IH1 IH2] using list_ind2; intros cs Hr Hd.
  - injection Hd as <-. constructor.
  - rewrite Forall_singleton in Hr. cbn [decode_utf16] in Hd. destruct (Z.land u 0xF800 =? 0xD800) eqn:E; cbn [negb] in Hd.
    + by destruct (0xDC00 <=? u).
    + injection Hd as <-. apply Forall_singleton. by apply Hbmp.
  - apply Forall_cons in Hr as [Hu Hr]. pose proof Hr as [Hu2 Hr2]%Forall_cons.
    change (decode_utf16 (u :: u2 :: us)) with (
      if negb (Z.land u 0xF800 =? 0xD800) then cons u <$> decode_utf16 (u2 :: us)
      else if 0xDC00 <=? u then None
      else if in_rng 0xDC00 0xDFFF u2
        then cons (Z.lor (Z.shiftl (Z.land u 0x3ff) 10) (Z.land u2 0x3ff) + 0x10000) <$> decode_utf16 us
        else None) in Hd.
    destruct (Z.land u 0xF800 =? 0xD800) eqn:E; cbn [negb] in Hd.
    + destruct (0xDC00 <=? u); [done|]. destruct (in_rng 0xDC00 0xDFFF u2); [|done].
      apply fmap_Some in Hd as (cs'&Hd&->). constructor; [|by apply IH1].
      pose proof (land_range u 0x3ff ltac:(done)). pose proof (land_range u2 0x3ff ltac:(done)).
      rewrite lor_shiftl_add by lia. unfold scalar. lia.
    + apply fmap_Some in Hd as (cs'&Hd&->). constructor; [by apply Hbmp|by apply IH2].
Qed.

Lemma be_units_range l : Forall (fun u => 0 <= u < 2 ^ 16) (be_units l).
Proof.
  induction l as [|a|a b l IH _] using list_ind2; [constructor|constructor|]. cbn [be_units]. constructor; [|done].
  apply (be_num_range [a; b]).
Qed.

Lemma string_of_utf16_Chars l s : string_of_utf16 (be_units l) = Some s -> Chars s.
Proof.
  unfold string_of_utf16. rewrite fmap_Some. intros (cs&Hd&->).
  apply decode_utf16_scalar in Hd; [|apply be_units_range].
  induction Hd as [|c cs Hc _ IH]; [constructor|]. cbn. constructor; [by apply push_char_is_char|done].
Qed.
