(* ===== verification/Substrate.v ===== *)
(** * The substrate interfaces

    Translates [source.rs] (byte sources), [read_cap.rs] (allocation caps),
    [verify.rs] (the verifier seam) and [frontend.rs] (the trait every format
    frontend implements).  The two traits are type classes; [SourceLaws] states
    what the frontends rely on from a source, and is discharged for
    [SliceSource] and for the sparse media used in examples. *)
From S2P Require Import Prelude Text Cache.
Open Scope Z_scope.

(** ** Byte sources ([source.rs]) *)

Class BlockSource (S : Type) : Type := {
  src_len : S -> Z;
  (** [read_at s off n]: fill a buffer of [n] bytes from byte [off]. *)
  src_read_at : S -> Z -> Z -> Res (list byte);
}.

Definition src_is_empty {S} `{BlockSource S} (s : S) : bool := src_len s =? 0.

(** [n] bytes of a byte-addressed medium from [off]. *)
Definition region (f : Z -> byte) (off n : Z) : list byte := f <$> seqZ off n.

(** What a source promises its clients: it is a read-only byte-addressed
    medium shorter than 2^63 bytes, a successful read fills the whole buffer
    with the bytes there, and a read comes back with a result. *)
Class SourceLaws (S : Type) `{BlockSource S} : Type := {
  src_valid : S -> Prop;
  src_byte : S -> Z -> byte;
  src_len_range : forall s, src_valid s -> 0 <= src_len s < 2 ^ 63;
  src_read_ok : forall s off n b, src_valid s -> 0 <= off -> 0 <= n ->
    src_read_at s off n = Ok b -> b = region (src_byte s) off n /\ off + n <= src_len s;
  src_read_returns : forall s off n, src_valid s -> 0 <= off < 2 ^ 64 -> 0 <= n < 2 ^ 63 ->
    returns (src_read_at s off n);
}.

(** A source without device errors. *)
Class ReliableSource (S : Type) `{SourceLaws S} : Prop :=
  src_read_in_range : forall s off n, src_valid s -> 0 <= off -> 0 <= n ->
    off + n <= src_len s -> src_read_at s off n = Ok (region (src_byte s) off n).

Record SliceSource : Type := mkSlice { ss_data : list byte }.

(** [usize::try_from] on a target with [bits]-bit pointers. *)
Definition usize_try_from (bits : Z) (v : Z) (e : FoldError) : Res Z :=
  if v <? 2 ^ bits then Ok v else Err e.

Definition slice_read_at (s : SliceSource) (offset n : Z) : Res (list byte) :=
  let! start := usize_try_from 64 offset (Io "offset overflows usize") in
  let! end_ := ok_or (checked_add 64 start n) (Io "offset+len overflow") in
  if end_ >? zlen (ss_data s) then Err (Io "read past end of source")
  else slice (ss_data s) start end_.

#[export] Instance SliceSource_BlockSource : BlockSource SliceSource := {
  src_len s := zlen (ss_data s);
  src_read_at := slice_read_at;
}.

(** Sparse media: zeros overlaid with chunks, for concrete examples. *)
Record Image : Type := mkImage { im_len : Z; im_chunks : list (Z * list byte) }.

Fixpoint im_byte (chunks : list (Z * list byte)) (i : Z) : byte :=
  match chunks with
  | [] => x00
  | (o, l) :: chunks' =>
      if (o <=? i) && (i <? o + zlen l) then default x00 (l !! Z.to_nat (i - o))
      else im_byte chunks' i
  end.

#[export] Instance Image_BlockSource : BlockSource Image := {
  src_len := im_len;
  src_read_at s off n :=
    if off + n <=? im_len s then Ok (region (im_byte (im_chunks s)) off n)
    else Err (Io "read past end of source");
}.

(** ** Read caps ([read_cap.rs]) *)

Definition MAX_BOOT_FILE_BYTES : Z := 512 * 1024 * 1024.
Definition MAX_DECOMPRESSED_BLOCK_BYTES : Z := 16 * 1024 * 1024.

(** [bits] is the pointer width of the target. *)
Definition checked_len_on (bits size max : Z) : Res Z :=
  if size >? max then Err (FileTooLarge size max)
  else usize_try_from bits size (FileTooLarge size max).
Definition checked_len (size max : Z) : Res Z := checked_len_on 64 size max.

Definition checked_full_read_len (size : Z) : Res Z := checked_len size MAX_BOOT_FILE_BYTES.
Definition checked_block_len (size : Z) : Res Z :=
  checked_len size MAX_DECOMPRESSED_BLOCK_BYTES.

(** ** The verifier seam ([verify.rs]) *)

Abbreviation NodeId := Z (only parsing).

Record Verifier : Type := mkVerifier {
  verify_block : NodeId -> Z -> list byte -> Res unit
}.

Definition NoVerifier : Verifier := mkVerifier (fun _ _ _ => Ok tt).

(** ** The frontend interface ([frontend.rs]) *)

Inductive FileKind : Type := Regular | Directory | Symlink | Other.
#[export] Instance FileKind_eq_dec : EqDecision FileKind.
Proof. solve_decision. Defined.

Record Metadata : Type := mkMetadata { md_kind : FileKind; md_size : Z; md_mode : Z }.
Record DirEntry : Type := mkDirEntry { de_name : name; de_node : NodeId; de_kind : FileKind }.

Record SubstrateCtx : Type := mkCtx {
  cx_cache : BlockCache.BlockCache;
  cx_verifier : Verifier;
}.

(** A frontend of type [F] over sources of type [S].  Methods that take
    [&mut self] and [&mut SubstrateCtx] run in [ST (F * SubstrateCtx)];
    [read_at] takes the caller's buffer and gives back the count and the
    buffer. *)
Class FoldFrontend (F S : Type) `{BlockSource S} : Type := {
  TAG : string;
  probe : S -> Res bool;
  open_ : S -> SubstrateCtx -> Res F * SubstrateCtx;
  root : F -> NodeId;
  lookup_ : NodeId -> name -> ST (F * SubstrateCtx) (option NodeId);
  read_dir : NodeId -> ST (F * SubstrateCtx) (list DirEntry);
  metadata : NodeId -> ST (F * SubstrateCtx) Metadata;
  read_at : NodeId -> Z -> list byte -> ST (F * SubstrateCtx) (Z * list byte);
  read_link : NodeId -> ST (F * SubstrateCtx) (option (list byte));
}.

(** The trait's default [read_link]: the format has no symlinks. *)
Definition default_read_link {F} (_ : NodeId) : ST (F * SubstrateCtx) (option (list byte)) :=
  retST None.

(** A frontend method that leaves the context alone. *)
Definition on_frontend {F A} (m : ST F A) : ST (F * SubstrateCtx) A :=
  fun '(f, cx) => let (r, f') := m f in (r, (f', cx)).
(** A method on [&self] that can only fail or give a value. *)
Definition on_self {F A} (m : F -> Res A) : ST (F * SubstrateCtx) A :=
  fun '(f, cx) => (m f, (f, cx)).

(** [read_dir(dir)?.into_iter().find(|e| e.name == name).map(|e| e.node)], the
    [lookup] of the frontends that search a whole listing. *)
Definition find_entry (nm : name) (es : list DirEntry) : option NodeId :=
  de_node <$> (snd <$> list_find (fun e => de_name e = nm) es).

(** [self.src.read_at(off, &mut buf[lo..hi])]. *)
Definition read_into {S} `{BlockSource S} (s : S) (off : Z) (buf : list byte) (lo hi : Z)
    : Res (list byte) :=
  let! _ := slice buf lo hi in
  let! b := src_read_at s off (hi - lo) in
  write_at buf lo b.

(** A search finds a handle of the listing. *)
Lemma find_entry_Forall (P : NodeId -> Prop) nm es n :
  Forall (fun e => P (de_node e)) es -> find_entry nm es = Some n -> P n.
Proof.
  unfold find_entry. intros He (e&Hl&->)%fmap_Some. apply fmap_Some in Hl as ([i e']&Hl&->).
  apply list_find_Some in Hl as (Hl&_). by apply (Forall_lookup_1 _ _ _ _ He Hl).
Qed.

(** ** Lemmas: media *)

Lemma zlen_region f off n : 0 <= n -> zlen (region f off n) = n.
Proof. intros. unfold region, zlen. rewrite length_fmap, length_seqZ. lia. Qed.

Lemma region_split f off n m :
  0 <= n -> 0 <= m -> region f off (n + m) = region f off n ++ region f (off + n) m.
Proof. intros. unfold region. by rewrite seqZ_app, fmap_app. Qed.

Lemma region_lookup f off n i :
  (i < Z.to_nat n)%nat -> region f off n !! i = Some (f (off + Z.of_nat i)).
Proof.
  intros. unfold region. by rewrite list_lookup_fmap, lookup_seqZ_lt by lia.
Qed.

Lemma sub_region f off n a m :
  0 <= a -> 0 <= m -> a + m <= n -> sub (region f off n) a m = region f (off + a) m.
Proof.
  intros. apply list_eq_same_length with (n := Z.to_nat m).
  - pose proof (zlen_region f (off + a) m). unfold zlen in *. lia.
  - pose proof (zlen_sub (region f off n) a m). rewrite zlen_region in * by lia.
    unfold zlen in *. lia.
  - intros i x y Hi Hx Hy. rewrite sub_lookup in Hx by lia.
    rewrite region_lookup in Hx, Hy by lia. simplify_eq. f_equal. lia.
Qed.

Lemma region_ext f g off n :
  (forall i, off <= i < off + n -> f i = g i) -> region f off n = region g off n.
Proof.
  intros H. unfold region. apply list_fmap_ext. intros i x Hx%lookup_seqZ.
  apply H. lia.
Qed.

Definition list_byte_at (l : list byte) (i : Z) : byte := default x00 (l !! Z.to_nat i).

Lemma region_list l off n :
  0 <= off -> 0 <= n -> off + n <= zlen l -> region (list_byte_at l) off n = sub l off n.
Proof.
  intros. apply list_eq_same_length with (n := Z.to_nat n).
  - pose proof (zlen_sub l off n). unfold zlen in *. lia.
  - pose proof (zlen_region (list_byte_at l) off n). unfold zlen in *. lia.
  - intros i x y Hi Hx Hy. rewrite sub_lookup in Hy by lia.
    rewrite region_lookup in Hx by lia. simplify_eq. unfold list_byte_at.
    replace (Z.to_nat (off + Z.of_nat i)) with (Z.to_nat off + i)%nat by lia.
    by rewrite Hy.
Qed.

Lemma slice_read_at_in s off n :
  0 <= off -> 0 <= n -> off + n <= zlen (ss_data s) -> zlen (ss_data s) < 2 ^ 63 ->
  slice_read_at s off n = Ok (sub (ss_data s) off n).
Proof.
  intros. unfold slice_read_at, usize_try_from, checked_add.
  rewrite (proj2 (Z.ltb_lt off _)) by lia. cbn [bindR].
  rewrite (proj2 (Z.ltb_lt (off + n) _)) by lia. cbn [bindR ok_or].
  rewrite Z.gtb_ltb, (proj2 (Z.ltb_ge _ _)) by lia.
  rewrite slice_eq by lia. do 2 f_equal. lia.
Qed.

Lemma slice_read_at_out s off n :
  0 <= off -> 0 <= n -> zlen (ss_data s) < off + n ->
  exists w, slice_read_at s off n = Err (Io w).
Proof.
  intros. unfold slice_read_at, usize_try_from, checked_add.
  destruct (off <? 2 ^ 64); cbn [bindR]; [|by eexists].
  destruct (off + n <? 2 ^ 64); cbn [bindR ok_or]; [|by eexists].
  rewrite Z.gtb_ltb, (proj2 (Z.ltb_lt _ _)) by lia. by eexists.
Qed.

#[export] Program Instance SliceSource_Laws : SourceLaws SliceSource := {
  src_valid s := zlen (ss_data s) < 2 ^ 63;
  src_byte s := list_byte_at (ss_data s);
}.
Next Obligation. intros s Hv. pose proof (zlen_nonneg (ss_data s)). split; [done|exact Hv]. Qed.
Next Obligation.
  intros s off n b Hv Ho Hn. simpl. intros Hr.
  destruct (decide (off + n <= zlen (ss_data s))).
  - rewrite slice_read_at_in in Hr by done. inv_ok. by rewrite region_list.
  - destruct (slice_read_at_out s off n) as [w Hw]; [lia..|]. congruence.
Qed.
Next Obligation.
  intros s off n Hv [Ho _] [Hn _]. simpl.
  destruct (decide (off + n <= zlen (ss_data s))).
  - by rewrite slice_read_at_in.
  - destruct (slice_read_at_out s off n) as [w Hw]; [lia..|]. by rewrite Hw.
Qed.

#[export] Instance SliceSource_Reliable : ReliableSource SliceSource.
Proof.
  intros s off n Hv Ho Hn Hl. simpl in *. rewrite slice_read_at_in by done.
  by rewrite region_list.
Qed.

#[export] Program Instance Image_Laws : SourceLaws Image := {
  src_valid s := 0 <= im_len s < 2 ^ 63;
  src_byte s := im_byte (im_chunks s);
}.
Next Obligation. done. Qed.
Next Obligation.
  intros s off n b _ Ho Hn. simpl. case_match eqn:E; intros; inv_ok.
  apply Z.leb_le in E. done.
Qed.
Next Obligation. intros. simpl. by case_match. Qed.

#[export] Instance Image_Reliable : ReliableSource Image.
Proof. intros s off n _ Ho Hn Hl. simpl. by rewrite (proj2 (Z.leb_le _ _)). Qed.

Section Source.
Context {S : Type} `{SourceLaws S}.
Implicit Types s : S.

Lemma read_region s off n b :
  src_valid s -> 0 <= off -> 0 <= n -> src_read_at s off n = Ok b ->
  b = region (src_byte s) off n.
Proof. intros. by eapply src_read_ok. Qed.

Lemma read_zlen s off n b :
  src_valid s -> 0 <= off -> 0 <= n -> src_read_at s off n = Ok b -> zlen b = n.
Proof. intros. erewrite (read_region s off n b) by done. by apply zlen_region. Qed.

Lemma read_bound s off n b :
  src_valid s -> 0 <= off -> 0 <= n -> src_read_at s off n = Ok b -> off + n <= src_len s.
Proof. intros. by eapply src_read_ok. Qed.

(** [read_into] fills the window and leaves the rest of the buffer. *)
Lemma read_into_Ok s off buf lo hi r :
  src_valid s -> 0 <= off -> read_into s off buf lo hi = Ok r ->
  0 <= lo <= hi /\ hi <= zlen buf /\ off + (hi - lo) <= src_len s /\
  r = sub buf 0 lo ++ region (src_byte s) off (hi - lo) ++ drop (Z.to_nat hi) buf.
Proof.
  intros Hv Ho. unfold read_into. intros. inv_ok.
  apply slice_Ok in Hv0 as (?&?&_).
  pose proof (read_zlen s off (hi - lo) v0 Hv Ho ltac:(lia) Hv1) as Hlen.
  pose proof (read_bound s off (hi - lo) v0 Hv Ho ltac:(lia) Hv1).
  apply write_at_Ok in H1 as (?&?&->). rewrite Hlen.
  rewrite (read_region s off (hi - lo) v0 Hv Ho ltac:(lia) Hv1).
  split_and!; try lia. by replace (lo + (hi - lo)) with hi by lia.
Qed.

Lemma read_into_zlen s off buf lo hi r :
  src_valid s -> 0 <= off -> read_into s off buf lo hi = Ok r -> zlen r = zlen buf.
Proof.
  intros Hv Ho (?&?&?&->)%read_into_Ok; [|done..].
  autorewrite with zlen. rewrite zlen_sub, zlen_region, zlen_drop by lia. lia.
Qed.

Lemma returns_read_into s off buf lo hi :
  src_valid s -> 0 <= off < 2 ^ 64 -> 0 <= lo <= hi -> hi <= zlen buf -> zlen buf < 2 ^ 63 ->
  returns (read_into s off buf lo hi).
Proof.
  intros. unfold read_into. apply returns_bindR; [by apply returns_slice|].
  intros _ _. apply returns_bindR; [apply src_read_returns; [done|lia|lia]|].
  intros b Hb. apply read_zlen in Hb; [|done|lia..].
  apply returns_write_at; lia.
Qed.
Lemma wp_read {X : Prop} s off n P :
  src_valid s -> 0 <= off < 2 ^ 64 -> 0 <= n < 2 ^ 63 ->
  (forall b, b = region (src_byte s) off n -> zlen b = n -> off + n <= src_len s -> P b) ->
  wpx X (src_read_at s off n) P.
Proof.
  intros Hv Ho Hn HP. apply wpx_weaken, wp_iff. split; [apply src_read_returns; [done|lia|lia]|].
  intros b Hb. apply HP; [by eapply read_region; eauto; lia|by eapply read_zlen; eauto; lia|].
  eapply read_bound; eauto; lia.
Qed.

Lemma wp_read_into {X : Prop} s off buf lo hi P :
  src_valid s -> 0 <= off < 2 ^ 64 -> 0 <= lo <= hi -> hi <= zlen buf -> zlen buf < 2 ^ 63 ->
  (forall r, read_into s off buf lo hi = Ok r -> zlen r = zlen buf ->
     off + (hi - lo) <= src_len s ->
     r = sub buf 0 lo ++ region (src_byte s) off (hi - lo) ++ drop (Z.to_nat hi) buf -> P r) ->
  wpx X (read_into s off buf lo hi) P.
Proof.
  intros Hv Ho Hl Hh Hb HP. apply wpx_weaken, wp_iff. split; [by apply returns_read_into|].
  intros r Hr. pose proof (read_into_zlen s off buf lo hi r Hv ltac:(lia) Hr).
  pose proof (read_into_Ok s off buf lo hi r Hv ltac:(lia) Hr) as (?&?&?&?). by apply HP.
Qed.

(** A reliable source fills the window. *)
Lemma read_into_eq `{!ReliableSource S} s off buf lo hi :
  src_valid s -> 0 <= off -> 0 <= lo <= hi -> hi <= zlen buf -> off + (hi - lo) <= src_len s ->
  read_into s off buf lo hi = write_at buf lo (region (src_byte s) off (hi - lo)).
Proof.
  intros. unfold read_into. rewrite slice_eq by lia. cbn [bindR].
  by rewrite src_read_in_range by (done || lia).
Qed.

(** The front of a buffer, read from a medium that has the bytes. *)
Lemma read_front_Ok `{!ReliableSource S} s off buf n :
  src_valid s -> 0 <= off -> 0 <= n <= zlen buf -> off + n <= src_len s ->
  exists b, read_into s off buf 0 n = Ok b /\ zlen b = zlen buf /\ sub b 0 n = region (src_byte s) off n.
Proof.
  intros. rewrite read_into_eq by (done || lia). rewrite Z.sub_0_r.
  assert (Hz : zlen (region (src_byte s) off n) = n) by (apply zlen_region; lia).
  destruct (write_at buf 0 (region (src_byte s) off n)) as [b|e| | |] eqn:Hw;
    try by rewrite write_at_eq in Hw by lia.
  exists b. split; [done|]. split; [by eapply write_at_zlen|]. apply write_at_front in Hw as [Hf _].
  by rewrite Hz, Z.add_0_l, sub_nil in Hf by lia.
Qed.

(** Reading into the front of a buffer: the shape of the frontends' [read_at]. *)
Lemma wp_read_front {X : Prop} s off buf n P :
  src_valid s -> 0 <= off < 2 ^ 64 -> 0 <= n <= zlen buf -> zlen buf < 2 ^ 63 ->
  (forall r, zlen r = zlen buf -> off + n <= src_len s -> sub r 0 n = region (src_byte s) off n -> P r) ->
  wpx X (read_into s off buf 0 n) P.
Proof.
  intros Hv Ho Hn Hb HP. apply wp_read_into; [done|done|lia|lia|done|].
  rewrite Z.sub_0_r. intros r _ Hr Hend ->. apply HP; [done|done|].
  rewrite sub_nil. cbn [app].
  pose proof (sub_0_app (region (src_byte s) off n) (drop (Z.to_nat n) buf)) as Hs.
  by rewrite zlen_region in Hs by lia.
Qed.
End Source.

(** ** Lemmas: caps *)

Lemma checked_len_Ok size max n : checked_len size max = Ok n <-> size <= max /\ size < 2 ^ 64 /\ n = size.
Proof.
  unfold checked_len, checked_len_on, usize_try_from. rewrite Z.gtb_ltb.
  destruct (Z.ltb_spec max size); [naive_solver lia|].
  destruct (Z.ltb_spec size (2 ^ 64)); naive_solver lia.
Qed.

Lemma returns_checked_len size max : returns (checked_len size max).
Proof. unfold checked_len, checked_len_on, usize_try_from. by repeat case_match. Qed.

Lemma checked_full_Ok size n :
  checked_full_read_len size = Ok n <-> size <= MAX_BOOT_FILE_BYTES /\ n = size.
Proof.
  unfold checked_full_read_len. rewrite checked_len_Ok. unfold MAX_BOOT_FILE_BYTES.
  naive_solver lia.
Qed.

Lemma checked_block_Ok size n :
  checked_block_len size = Ok n <-> size <= MAX_DECOMPRESSED_BLOCK_BYTES /\ n = size.
Proof.
  unfold checked_block_len. rewrite checked_len_Ok. unfold MAX_DECOMPRESSED_BLOCK_BYTES.
  naive_solver lia.
Qed.

Lemma returns_checked_full size : returns (checked_full_read_len size).
Proof. apply returns_checked_len. Qed.
Lemma returns_checked_block size : returns (checked_block_len size).
Proof. apply returns_checked_len. Qed.
Lemma wp_checked_full {X : Prop} size (P : Z -> Prop) :
  (size <= MAX_BOOT_FILE_BYTES -> P size) -> wpx X (checked_full_read_len size) P.
Proof.
  intros HP. apply wpx_weaken, wp_iff. split; [apply returns_checked_full|].
  intros n [? ->]%checked_full_Ok. auto.
Qed.
Lemma wp_checked_block {X : Prop} size (P : Z -> Prop) :
  (size <= MAX_DECOMPRESSED_BLOCK_BYTES -> P size) -> wpx X (checked_block_len size) P.
Proof.
  intros HP. apply wpx_weaken, wp_iff. split; [apply returns_checked_block|].
  intros n [? ->]%checked_block_Ok. auto.
Qed.
#[export] Hint Resolve returns_checked_len returns_checked_full returns_checked_block : lam.

(** The chokepoint of every allocation from an on-disk size: on a target of any
    pointer width, a size is accepted exactly when it is within the cap and fits
    [usize], and then unchanged (never truncated); otherwise the error carries
    the size and the cap. *)
Theorem checked_len_spec (bits size max : Z) :
  (size <= max /\ size < 2 ^ bits /\ checked_len_on bits size max = Ok size) \/
  ((max < size \/ 2 ^ bits <= size) /\
   checked_len_on bits size max = Err (FileTooLarge size max)).
Proof.
  unfold checked_len_on, usize_try_from. rewrite Z.gtb_ltb.
  destruct (Z.ltb_spec max size); [right; split; [lia|done]|].
  destruct (Z.ltb_spec size (2 ^ bits)); [left|right]; split_and!; try done; lia.
Qed.
