(* ===== verification/Path.v ===== *)
(** * Access by path over any frontend ([crates/lamfold/src/path.rs])

    [resolve], [read_path], [read_dir_path] and [metadata_path] against the
    [FoldFrontend] interface.  [Walk] is the declarative meaning of path
    resolution; the theorems show that the work-list loop computes it, always
    comes back, and that [read_path] delivers the file a frontend serves. *)
From S2P Require Import Prelude Text Cache Substrate.
Open Scope Z_scope.

Definition MAX_SYMLINKS : nat := 16.

Definition slash : byte := x2f.
Definition dot : name := bytes_of ".".
Definition dotdot : name := bytes_of "..".

(** [path.split('/').filter(|c| !c.is_empty() && *c != ".")]. *)
Definition components (path : name) : list name :=
  filter (fun c => c <> [] /\ c <> dot) (split_on slash path).

(** The components are pushed last to first; the head is the top of the stack. *)
Definition push_components (path : name) (stack : list name) : list name :=
  fold_left (fun st c => c :: st) (rev (components path)) stack.

Section Path.
Context {F S : Type} `{FoldFrontend F S}.
Abbreviation state := (F * SubstrateCtx)%type (only parsing).

(** The [while let Some(comp) = pending.pop()] loop of [resolve]. [links_left]
    is [MAX_SYMLINKS - links]; every turn pops a component or follows a link. *)
Fixpoint resolve_loop (links_left : nat) : list name -> NodeId -> ST state NodeId :=
  fix walk (pending : list name) (node : NodeId) : ST state NodeId :=
    match pending with
    | [] => retST node
    | comp :: rest =>
        if decide (comp = dotdot) then errST (InvalidPath "'..' not supported")
        else
          let* r := lookup_ node comp in
          let* child := liftR (ok_or r NotFound) in
          let* md := metadata child in
          if decide (md_kind md = Symlink) then
            match links_left with
            | O => errST (InvalidPath "too many symlinks")
            | Datatypes.S links_left' =>
                let* t := read_link child in
                let* target := liftR (ok_or t (Corrupt "symlink without a target")) in
                let* target := liftR (if utf8_valid target then Ok target
                                      else Err (InvalidPath "non-UTF-8 symlink")) in
                let* fs := getST in
                let node' := if starts_with target [slash] then root fs.1 else node in
                resolve_loop links_left' (push_components target rest) node'
            end
          else walk rest child
    end.

Definition resolve (path : name) : ST state NodeId :=
  let* fs := getST in
  resolve_loop MAX_SYMLINKS (push_components path []) (root fs.1).

(** The [while done < total] loop of [read_path]. *)
Fixpoint read_loop (fuel : nat) (node : NodeId) (total done_ : Z) (out : list byte)
    : ST state (list byte) :=
  match fuel with
  | O => liftR Diverge
  | Datatypes.S fuel' =>
      if done_ <? total then
        let* tail := liftR (slice out done_ (zlen out)) in
        let* (n, tail') := read_at node done_ tail in
        let out' := sub out 0 done_ ++ tail' in
        if n =? 0 then retST (sub out' 0 done_)
        else read_loop fuel' node total (done_ + n) out'
      else retST (sub out 0 done_)
  end.

Definition read_path (path : name) : ST state (list byte) :=
  let* node := resolve path in
  let* md := metadata node in
  if decide (md_kind md = Directory) then errST IsDirectory
  else
    let* total := liftR (checked_full_read_len (md_size md)) in
    read_loop (Datatypes.S (Z.to_nat total)) node total 0 (zeros total).

Definition read_dir_path (path : name) : ST state (list DirEntry) :=
  let* node := resolve path in read_dir node.

Definition metadata_path (path : name) : ST state Metadata :=
  let* node := resolve path in metadata node.

(** ** The meaning of a path

    [Walk s n comps k s' n']: from directory [n] in state [s], the components
    [comps] lead to node [n'] in state [s'] through exactly [k] symbolic links. *)
Inductive Walk : state -> NodeId -> list name -> nat -> state -> NodeId -> Prop :=
| Walk_here s n : Walk s n [] 0 s n
| Walk_step s n comp rest child md k s1 s2 s' n' :
    comp <> dotdot ->
    lookup_ n comp s = (Ok (Some child), s1) ->
    metadata child s1 = (Ok md, s2) -> md_kind md <> Symlink ->
    Walk s2 child rest k s' n' ->
    Walk s n (comp :: rest) k s' n'
| Walk_link s n comp rest child md target k s1 s2 s3 s' n' :
    comp <> dotdot ->
    lookup_ n comp s = (Ok (Some child), s1) ->
    metadata child s1 = (Ok md, s2) -> md_kind md = Symlink ->
    read_link child s2 = (Ok (Some target), s3) -> utf8_valid target = true ->
    Walk s3 (if starts_with target [slash] then root s3.1 else n)
      (components target ++ rest) k s' n' ->
    Walk s n (comp :: rest) (Datatypes.S k) s' n'.

(** [V s n]: node [n] is valid in state [s].  On valid nodes the operations come
    back, keep every node valid and produce only valid nodes. *)
Record ops_return (V : state -> NodeId -> Prop) : Prop := {
  or_root s n : V s n -> V s (root s.1);
  or_lookup s n nm : V s n -> returns (lookup_ n nm s).1 /\
    (forall m, V s m -> V (lookup_ n nm s).2 m) /\
    (forall c, (lookup_ n nm s).1 = Ok (Some c) -> V (lookup_ n nm s).2 c);
  or_metadata s n : V s n -> returns (metadata n s).1 /\
    (forall m, V s m -> V (metadata n s).2 m);
  or_read_link s n : V s n -> returns (read_link n s).1 /\
    (forall m, V s m -> V (read_link n s).2 m);
}.

(** [read_at] serves the bytes [content] of a node, possibly in short reads, and
    keeps the state in [I]. *)
Definition serves (I : state -> Prop) (node : NodeId) (content : list byte) : Prop :=
  forall off buf s, I s -> 0 <= off <= zlen content -> zlen buf < 2 ^ 63 ->
    exists n buf' s', read_at node off buf s = (Ok (n, buf'), s') /\ I s' /\
      zlen buf' = zlen buf /\ 0 <= n <= zlen buf /\ off + n <= zlen content /\
      (0 < zlen buf -> off < zlen content -> 0 < n) /\
      sub buf' 0 n = sub content off n.

Lemma push_components_app path stack : push_components path stack = components path ++ stack.
Proof.
  unfold push_components. rewrite <- fold_left_rev_right, rev_involutive.
  induction (components path); simpl; congruence.
Qed.

Lemma resolve_loop_sound links : forall pending node s n s',
  resolve_loop links pending node s = (Ok n, s') ->
  exists k, (k <= links)%nat /\ Walk s node pending k s' n.
Proof.
  induction links as [|links IHl]; intros pending; induction pending as [|comp rest IHp];
    intros node s n s'; simpl.
  1,3: intros [= <- <-]; exists 0%nat; split; [lia|constructor].
  all: case_decide; [done|]; intros Hr.
  all: apply bindST_Ok in Hr as (r&s1&Hl&Hr); apply bindST_Ok in Hr as (child&s1'&Ho&Hr);
       destruct r as [c|]; unfold liftR in *; simplify_eq/=; apply bindST_Ok in Hr as (md&s2&Hm&Hr);
       case_decide; simplify_eq/=.
  - destruct (IHp _ _ _ _ Hr) as (k&?&?). exists k. split; [done|]. by eapply Walk_step.
  - apply bindST_Ok in Hr as (t&s3&Ht&Hr). apply bindST_Ok in Hr as (tg&s3'&Ho&Hr).
    destruct t as [t|]; simplify_eq/=. apply bindST_Ok in Hr as (tg'&s3''&Hu&Hr).
    destruct (utf8_valid tg) eqn:Hv; simplify_eq/=.
    apply bindST_Ok in Hr as (fs&s4&Hg&Hr). unfold getST in Hg. simplify_eq.
    rewrite push_components_app in Hr. destruct (IHl _ _ _ _ _ Hr) as (k&?&?).
    exists (Datatypes.S k). split; [lia|]. by eapply Walk_link.
  - destruct (IHp _ _ _ _ Hr) as (k&?&?). exists k. split; [done|]. by eapply Walk_step.
Qed.

Lemma resolve_loop_complete s node pending k s' n :
  Walk s node pending k s' n -> forall links, (k <= links)%nat ->
  resolve_loop links pending node s = (Ok n, s').
Proof.
  induction 1 as [s n|s n comp rest child md k s1 s2 s' n' Hd Hl Hm Hk _ IH
                 |s n comp rest child md target k s1 s2 s3 s' n' Hd Hl Hm Hk Hr Hu _ IH];
    intros links Hle.
  - by destruct links.
  - assert (resolve_loop links (comp :: rest) n s = resolve_loop links rest child s2) as ->;
      [|by apply IH].
    destruct links; simpl; rewrite decide_False by done; unfold bindST; rewrite Hl; simpl;
      rewrite Hm; by rewrite decide_False.
  - destruct links as [|links]; [lia|]. simpl. rewrite decide_False by done.
    unfold bindST. rewrite Hl. simpl. rewrite Hm, decide_True, Hr by done. simpl.
    rewrite Hu. simpl. rewrite push_components_app. apply IH. lia.
Qed.

Lemma resolve_loop_returns V : ops_return V ->
  forall links pending node s, V s node -> returns (resolve_loop links pending node s).1.
Proof.
  intros HV. induction links as [|links IHl]; intros pending;
    induction pending as [|comp rest IHp]; intros node s Hs; simpl; try done.
  all: case_decide; [done|]; unfold bindST.
  all: destruct (or_lookup _ HV s node comp Hs) as (Hr&Hs1&Hc);
       destruct (lookup_ node comp s) as [[r|?| | |] s1]; simpl in *; try done;
       destruct r as [child|]; simpl; [|done];
       specialize (Hc child eq_refl);
       destruct (or_metadata _ HV s1 child Hc) as [Hr2 Hs2];
       destruct (metadata child s1) as [[md|?| | |] s2]; simpl in *; try done;
       case_decide; simpl; try done; try (apply IHp; by apply Hs2).
  destruct (or_read_link _ HV s2 child (Hs2 _ Hc)) as [Hr3 Hs3].
  destruct (read_link child s2) as [[t|?| | |] s3]; simpl in *; try done.
  destruct t as [t|]; simpl; [|done]. destruct (utf8_valid t); simpl; [|done].
  apply IHl. case_match; [eapply (or_root _ HV)|]; by apply Hs3, Hs2, Hs1.
Qed.

(** What lookups, metadata and link reads keep, path resolution keeps. *)
Lemma resolve_loop_keeps (J : state -> Prop) :
  (forall n nm s, J s -> J (lookup_ n nm s).2) -> (forall n s, J s -> J (metadata n s).2) ->
  (forall n s, J s -> J (read_link n s).2) ->
  forall links pending n s, J s -> J (resolve_loop links pending n s).2.
Proof.
  intros Hl Hm Hr. induction links as [|links IHl]; induction pending as [|c pending IHp]; intros n s Hs; simpl; try done.
  all: destruct (decide (c = dotdot)); [done|]; unfold bindST at 1;
    pose proof (Hl n c s Hs) as H1; destruct (lookup_ n c s) as [[o|?| | |] s1]; try done; cbn [snd] in H1.
  all: unfold bindST at 1, liftR at 1; destruct o as [child|]; cbn [ok_or]; [|done].
  all: unfold bindST at 1; pose proof (Hm child s1 H1) as H2;
    destruct (metadata child s1) as [[md|?| | |] s2]; try done; cbn [snd] in H2.
  all: destruct (decide (md_kind md = Symlink)) as [Hsym|]; [|by apply IHp]; try exact H2.
  unfold bindST at 1. pose proof (Hr child s2 H2) as H3. destruct (read_link child s2) as [[t|?| | |] s3]; try done.
  cbn [snd] in H3. unfold bindST at 1, liftR at 1. destruct t as [t|]; cbn [ok_or]; [|done].
  unfold bindST at 1, liftR at 1. destruct (utf8_valid t); [|done]. unfold bindST at 1, getST at 1. by apply IHl.
Qed.
Lemma resolve_keeps (J : state -> Prop) path s :
  (forall n nm s, J s -> J (lookup_ n nm s).2) -> (forall n s, J s -> J (metadata n s).2) ->
  (forall n s, J s -> J (read_link n s).2) -> J s -> J (resolve path s).2.
Proof. intros ? ? ? ?. unfold resolve, bindST, getST. by apply resolve_loop_keeps. Qed.

(** The copy loop returns the prefix of the content that was asked for. *)
Lemma read_loop_serves I node content total : serves I node content -> 0 <= total < 2 ^ 63 ->
  forall fuel done_ out s, I s -> 0 <= done_ <= zlen content -> done_ <= total ->
  zlen out = total -> sub out 0 done_ = sub content 0 done_ ->
  (Z.to_nat (total - done_) < fuel)%nat ->
  exists s', read_loop fuel node total done_ out s
             = (Ok (sub content 0 (Z.min total (zlen content))), s') /\ I s'.
Proof.
  intros Hsv Ht. induction fuel as [|fuel IH]; intros done_ out s Hs Hd Hdt Hlen Hpre Hf; [lia|].
  simpl. destruct (Z.ltb_spec done_ total) as [Hlt|Hge].
  - unfold bindST, liftR. rewrite slice_eq by lia.
    set (tail := sub out done_ (zlen out - done_)).
    assert (zlen tail = total - done_) as Htl by (unfold tail; rewrite zlen_sub; lia).
    destruct (Hsv done_ tail s Hs ltac:(lia) ltac:(lia)) as (n&tail'&s'&Hr&Hs'&Hl'&Hn&Hmax&Hpos&Heq).
    rewrite Hr. cbn beta iota.
    assert (zlen (sub out 0 done_) = done_) as Hz by (rewrite zlen_sub; lia).
    destruct (Z.eqb_spec n 0) as [->|Hn0].
    + exists s'. split; [|done]. unfold retST. do 2 f_equal.
      rewrite <- Hz at 2. rewrite sub_0_app, Hpre.
      assert (zlen content <= done_) by (destruct (decide (zlen content <= done_)); [done|];
        exfalso; assert (0 < 0); [apply Hpos|]; lia).
      f_equal. lia.
    + apply IH; try done; try lia.
      * rewrite zlen_app. lia.
      * rewrite <- (sub_app_split _ 0 done_ n), <- (sub_app_split content 0 done_ n) by lia.
        rewrite Z.add_0_l, <- Heq, <- Hpre. f_equal.
        -- rewrite <- Hz at 2. apply sub_0_app.
        -- rewrite sub_app_r by lia. f_equal. lia.
  - exists s. split; [|done]. unfold retST. rewrite Hpre. do 3 f_equal. lia.
Qed.

End Path.

(** ** The in-memory frontend of the module's own tests *)

Record MockNode : Type := mkMock {
  mk_kind : FileKind; mk_data : list byte; mk_children : gmap (list byte) Z
}.
Definition MockFs : Type := list MockNode.

(** [self.nodes[i as usize]]. *)
Definition mock_node (fs : MockFs) (i : Z) : Res MockNode := at_ fs i.

#[export] Instance MockFs_frontend : FoldFrontend MockFs SliceSource := {
  TAG := "mock";
  probe _ := Ok true;
  open_ _ cx := (Ok [], cx);
  root _ := 0;
  lookup_ dir nm := on_self (fun fs =>
    let! n := mock_node fs dir in Ok (mk_children n !! nm));
  read_dir dir := on_self (fun fs =>
    let! n := mock_node fs dir in
    Ok ((fun nc => mkDirEntry nc.1 nc.2 (match mock_node fs nc.2 with
                                          | Ok c => mk_kind c | _ => Other end))
          <$> map_to_list (mk_children n)));
  metadata node := on_self (fun fs =>
    let! n := mock_node fs node in Ok (mkMetadata (mk_kind n) (zlen (mk_data n)) 0));
  read_at node off buf := on_self (fun fs =>
    let! n := mock_node fs node in
    let d := mk_data n in
    let k := Z.min (zlen buf) (saturating_sub (zlen d) off) in
    let! seg := slice d off (off + k) in
    let! buf' := write_at buf 0 seg in
    Ok (k, buf'));
  read_link node := on_self (fun fs =>
    let! n := mock_node fs node in
    Ok (if decide (mk_kind n = Symlink) then Some (mk_data n) else None));
}.

(** 0 = /, 1 = /a, 2 = /a/file "hello", 3 = /rel -> a/file, 4 = /abs -> /a/file,
    5 = /loop -> loop. *)
Definition mock_build : MockFs :=
  [ mkMock Directory []
      (list_to_map [(bytes_of "a", 1); (bytes_of "rel", 3); (bytes_of "abs", 4);
                    (bytes_of "loop", 5)]);
    mkMock Directory [] (list_to_map [(bytes_of "file", 2)]);
    mkMock Regular (bytes_of "hello") ∅;
    mkMock Symlink (bytes_of "a/file") ∅;
    mkMock Symlink (bytes_of "/a/file") ∅;
    mkMock Symlink (bytes_of "loop") ∅ ].

Definition mock_ctx : SubstrateCtx := mkCtx (BlockCache.new 0) NoVerifier.

Example mock_reads :
  (fun p => (read_path (S := SliceSource) (bytes_of p) (mock_build, mock_ctx)).1) <$>
    ["/a/file"; "a/file"; "/./a/./file"; "/rel"; "/abs"; "/loop"; "/a/../a"; "/missing"; "/a"]%string
  = [Ok (bytes_of "hello"); Ok (bytes_of "hello"); Ok (bytes_of "hello");
     Ok (bytes_of "hello"); Ok (bytes_of "hello");
     Err (InvalidPath "too many symlinks"); Err (InvalidPath "'..' not supported");
     Err NotFound; Err IsDirectory].
Proof. vm_compute. reflexivity. Qed.


(** ** Properties *)

Section Properties.
Context {F S : Type} `{FoldFrontend F S}.

(** C1.  Path resolution implements its meaning.  [resolve] returns node [n]
    exactly when the path's components lead from the root to [n] through at most
    [MAX_SYMLINKS] symbolic links, relative targets being resolved in the link's
    directory and absolute ones from the root, and never through [..]. *)
Theorem resolve_iff_walk (path : list byte) (s s' : F * SubstrateCtx) (n : Z) :
  resolve (S := S) path s = (Ok n, s') <->
  exists k, (k <= MAX_SYMLINKS)%nat /\ Walk (S := S) s (root s.1) (components path) k s' n.
Proof.
  unfold resolve, bindST, getST. rewrite push_components_app, app_nil_r. split.
  - apply resolve_loop_sound.
  - intros (k&Hk&Hw). by eapply resolve_loop_complete.
Qed.

(** Path resolution always comes back, symbolic link loops included: when
    the root is valid and the frontend's lookups, metadata and link reads come
    back on valid nodes, so does [resolve] on every path. *)
Theorem resolve_returns (V : F * SubstrateCtx -> Z -> Prop) (path : list byte)
    (s : F * SubstrateCtx) :
  ops_return (S := S) V -> V s (root s.1) -> returns (resolve (S := S) path s).1.
Proof.
  intros HV Hs. unfold resolve, bindST, getST. by apply (resolve_loop_returns V).
Qed.

(** [read_path] delivers the file.  If the path resolves to a node that is
    not a directory, whose recorded size is within the read cap and whose
    [read_at] serves [content] in reads of any length, [read_path] returns the
    first [md_size] bytes of [content] (all of it when it is shorter). *)
Theorem read_path_content (I : F * SubstrateCtx -> Prop) (path : list byte)
    (s s1 s2 : F * SubstrateCtx) (n : Z) (md : Metadata) (content : list byte) :
  resolve (S := S) path s = (Ok n, s1) ->
  metadata n s1 = (Ok md, s2) ->
  md_kind md <> Directory ->
  0 <= md_size md <= MAX_BOOT_FILE_BYTES ->
  I s2 -> serves (S := S) I n content ->
  exists s', read_path (S := S) path s
             = (Ok (sub content 0 (Z.min (md_size md) (zlen content))), s').
Proof.
  intros Hr Hm Hk Hsz Hs2 Hsv. unfold read_path, bindST. rewrite Hr, Hm, decide_False by done.
  unfold liftR. rewrite (proj2 (checked_full_Ok _ _) (conj (proj2 Hsz) eq_refl)).
  destruct (read_loop_serves I n content (md_size md) Hsv ltac:(unfold MAX_BOOT_FILE_BYTES in Hsz; lia)
    (Datatypes.S (Z.to_nat (md_size md))) 0 (zeros (md_size md)) s2 Hs2) as (s'&->&_);
    try lia; try done.
  - pose proof (zlen_nonneg content). lia.
  - apply zlen_zeros. lia.
  - by exists s'.
Qed.

End Properties.

(** The state of the mock never changes and its nodes are 0 to 5. *)
Definition mock_valid (s : MockFs * SubstrateCtx) (n : Z) : Prop :=
  s = (mock_build, mock_ctx) /\ 0 <= n < 6.

Lemma mock_lookup_valid n nm c :
  0 <= n < 6 -> (lookup_ (S := SliceSource) n nm (mock_build, mock_ctx)).1 = Ok (Some c) ->
  0 <= c < 6.
Proof.
  intros Hn. assert (n = 0 \/ n = 1 \/ n = 2 \/ n = 3 \/ n = 4 \/ n = 5)
    as [->|[->|[->|[->|[->| ->]]]]] by lia; simpl; intros [= Hc].
  all: repeat (apply lookup_insert_Some in Hc as [[_ <-]|[_ Hc]]; [lia|]); done.
Qed.

Lemma mock_ops_return : ops_return (F := MockFs) (S := SliceSource) mock_valid.
Proof.
  assert (forall n, 0 <= n < 6 -> exists m, mock_node mock_build n = Ok m) as Hnode.
  { intros n Hn. unfold mock_node, at_.
    destruct (proj2 (get_is_Some mock_build n)) as [m ->]; [done|]. by exists m. }
  split.
  - intros s n [-> _]. done.
  - intros s n nm [-> Hn]. split_and!.
    + simpl. destruct (Hnode n Hn) as [m ->]. done.
    + intros m [_ Hm]. done.
    + intros c Hc. split; [done|]. by eapply mock_lookup_valid.
  - intros s n [-> Hn]. split; [|by intros m [_ Hm]]. simpl. by destruct (Hnode n Hn) as [m ->].
  - intros s n [-> Hn]. split; [|by intros m [_ Hm]]. simpl. by destruct (Hnode n Hn) as [m ->].
Qed.

Lemma resolve_returns_witness :
  returns (resolve (S := SliceSource) (bytes_of "/loop") (mock_build, mock_ctx)).1.
Proof.
  apply (resolve_returns mock_valid); [exact mock_ops_return|]. split; [reflexivity|].
  split; [discriminate|reflexivity].
Defined.

Lemma mock_serves :
  serves (F := MockFs) (S := SliceSource) (fun s => s = (mock_build, mock_ctx)) 2 (bytes_of "hello").
Proof.
  intros off buf s -> Hoff _. simpl in Hoff. change (zlen (bytes_of "hello")) with 5 in *.
  set (k := Z.min (zlen buf) (5 - off)). pose proof (zlen_nonneg buf).
  assert (0 <= k <= zlen buf /\ off + k <= 5) as [Hk Hk2] by (unfold k; lia).
  assert (zlen (sub (bytes_of "hello") off k) = k) as Hz.
  { apply zlen_sub; [lia|lia|]. change (zlen (bytes_of "hello")) with 5. lia. }
  exists k, (sub (bytes_of "hello") off k ++ drop (Z.to_nat k) buf), (mock_build, mock_ctx).
  split_and!; try done; try lia.
  - simpl. change (mock_node mock_build 2) with (Ok (mkMock Regular (bytes_of "hello") ∅)).
    cbn [bindR mk_data]. change (zlen (bytes_of "hello")) with 5.
    replace (Z.min (zlen buf) (saturating_sub 5 off)) with k
      by (unfold k, saturating_sub; lia).
    rewrite slice_eq by (try change (zlen (bytes_of "hello")) with 5; lia). cbn [bindR].
    replace (off + k - off) with k by lia. unfold write_at. rewrite Hz.
    rewrite (proj2 (Z.leb_le 0 0)), (proj2 (Z.leb_le _ _)) by lia. cbn [bindR].
    by rewrite Z.add_0_l.
  - rewrite zlen_app, Hz, zlen_drop by lia. lia.
  - rewrite <- Hz at 3. rewrite sub_0_app. done.
Qed.

Lemma read_path_content_witness :
  exists s', read_path (S := SliceSource) (bytes_of "/rel") (mock_build, mock_ctx)
             = (Ok (sub (bytes_of "hello") 0 (Z.min 5 5)), s').
Proof.
  apply (read_path_content (fun s => s = (mock_build, mock_ctx)) (bytes_of "/rel")
    (mock_build, mock_ctx) (mock_build, mock_ctx) (mock_build, mock_ctx) 2
    (mkMetadata Regular 5 0) (bytes_of "hello")).
  - vm_compute. reflexivity.
  - vm_compute. reflexivity.
  - discriminate.
  - split; discriminate.
  - reflexivity.
  - exact mock_serves.
Defined.
