(* ===== verification/Tree.v ===== *)
(** * An abstract file system, and what a volume owes it

    [Tree] is a read-only file system with no format: directories of named trees,
    files of bytes and symbolic links.  [tree_resolve], [tree_read], [tree_list]
    and [tree_op] are the operations by path on it, as a reader of the documentation
    expects them.  [TreeFs] is what a frontend promises when one of
    its nodes [stands] for a tree; the refinement theorem shows that the operations
    by path of [Path] then do on the volume what the abstract ones do on the tree.
    The volumes of every format are in the files named after it, [CpioTree] to
    [IsoTree]. *)
From S2P Require Import Prelude Text Cache Substrate Path.
Open Scope Z_scope.

(** ** The abstract file system *)

(** [TOther] is a device node, a pipe or a socket, with what reading it gives. *)
Inductive Tree : Type :=
| TFile (content : list byte)
| TDir (entries : list (name * Tree))
| TLink (target : list byte)
| TOther (content : list byte).

Definition tree_kind (t : Tree) : FileKind :=
  match t with TFile _ => Regular | TDir _ => Directory | TLink _ => Symlink | TOther _ => Other end.
(** What reading a node gives. *)
Definition content_of (t : Tree) : option (list byte) :=
  match t with TFile c | TOther c => Some c | _ => None end.

(** The first entry of a name. *)
Definition find_child {A} (nm : name) (es : list (name * A)) : option A :=
  snd <$> (snd <$> list_find (fun e => e.1 = nm) es).

Definition tree_lookup (t : Tree) (nm : name) : Res Tree :=
  match t with TDir es => ok_or (find_child nm es) NotFound | _ => Err NotDirectory end.

(** From directory [t] of the file system [top], along [pending], through at most
    [links] symbolic links. *)
Fixpoint tree_walk (links : nat) (top : Tree) : list name -> Tree -> Res Tree :=
  fix walk (pending : list name) (t : Tree) : Res Tree :=
    match pending with
    | [] => Ok t
    | comp :: rest =>
        if decide (comp = dotdot) then Err (InvalidPath "'..' not supported")
        else
          let! child := tree_lookup t comp in
          match child with
          | TLink target =>
              match links with
              | O => Err (InvalidPath "too many symlinks")
              | Datatypes.S links' =>
                  if utf8_valid target
                  then tree_walk links' top (components target ++ rest)
                         (if starts_with target [slash] then top else t)
                  else Err (InvalidPath "non-UTF-8 symlink")
              end
          | _ => walk rest child
          end
    end.

Definition tree_resolve (top : Tree) (path : name) : Res Tree :=
  tree_walk MAX_SYMLINKS top (components path) top.

(** The whole file.  A path does not lead to a link. *)
Definition tree_read (top : Tree) (path : name) : Res (list byte) :=
  let! t := tree_resolve top path in
  match content_of t with
  | Some c => let! _ := checked_full_read_len (zlen c) in Ok c
  | None => Err IsDirectory
  end.

Definition tree_list (top : Tree) (path : name) : Res (list (name * Tree)) :=
  let! t := tree_resolve top path in
  match t with TDir es => Ok es | _ => Err NotDirectory end.

(** A session: operations by path, and what they answer.  The size of a directory
    is the format's own. *)
Inductive PathOp : Type := OpRead (path : name) | OpList (path : name) | OpStat (path : name).
Inductive Answer : Type :=
| ABytes (content : list byte)
| AList (entries : list (name * FileKind))
| AStat (kind : FileKind) (size : Z).

Definition tree_op (top : Tree) (op : PathOp) : Res Answer :=
  match op with
  | OpRead p => let! c := tree_read top p in Ok (ABytes c)
  | OpList p => let! es := tree_list top p in Ok (AList ((fun e => (e.1, tree_kind e.2)) <$> es))
  | OpStat p => let! t := tree_resolve top p in
      Ok (AStat (tree_kind t) (from_option zlen 0 (content_of t)))
  end.

(** The same operations on a volume, one after the other. *)
Section Session.
Context {F S : Type} `{FoldFrontend F S}.

Definition path_op (op : PathOp) : ST (F * SubstrateCtx) Answer :=
  match op with
  | OpRead p => let* c := read_path (S := S) p in retST (ABytes c)
  | OpList p => let* es := read_dir_path (S := S) p in
      retST (AList ((fun e => (de_name e, de_kind e)) <$> es))
  | OpStat p => let* md := metadata_path (S := S) p in
      retST (AStat (md_kind md) (if bool_decide (md_kind md = Directory) then 0 else md_size md))
  end.

Fixpoint session (ops : list PathOp) (s : F * SubstrateCtx) : list (Res Answer) :=
  match ops with
  | [] => []
  | op :: ops => let (r, s') := path_op op s in r :: session ops s'
  end.
End Session.

(** ** What a volume owes the tree it holds *)

(** The size a node with content records; that of a directory or of a link is the
    format's own. *)
Definition size_of (t : Tree) (size : Z) : Prop := forall c, content_of t = Some c -> size = zlen c.

Section Interface.
Context {F S : Type} `{FoldFrontend F S} (stands : F * SubstrateCtx -> NodeId -> Tree -> Prop).
Abbreviation state := (F * SubstrateCtx)%type (only parsing).

(** Between calls the root stays and a handle stands for what it stood for. *)
Record keeps (s s' : state) : Prop := mkKeeps {
  kp_root : root s'.1 = root s.1;
  kp_stands n t : stands s n t -> stands s' n t;
}.

(** The entry of a listing and the child it is for. *)
Definition lists (s : state) (e : DirEntry) (x : name * Tree) : Prop :=
  de_name e = x.1 /\ de_kind e = tree_kind x.2 /\ stands s (de_node e) x.2.

(** [m] does in state [s] what the specification says: it comes back with the
    error of the specification, or with a value in relation [R] to its value. *)
Definition implements {A B} (R : state -> A -> B -> Prop) (m : ST state A) (spec : Res B) (s : state) : Prop :=
  exists r s', m s = (r, s') /\ keeps s s' /\
    match spec with
    | Ok b => exists a, r = Ok a /\ R s' a b
    | Err e => r = Err e
    | _ => False
    end.

(** A read of [content] at [off] into a buffer like [buf]: some of its bytes from
    there on, none only at its end or into an empty buffer. *)
Definition part_of (off : Z) (buf : list byte) (r : Z * list byte) (content : list byte) : Prop :=
  let '(n, b) := r in
  zlen b = zlen buf /\ 0 <= n <= zlen buf /\ off + n <= zlen content /\
  (0 < zlen buf -> off < zlen content -> 0 < n) /\ sub b 0 n = sub content off n.

(** The operations of a frontend on a node that stands for [t]. *)
Class TreeFs : Prop := {
  tf_lookup s n t nm : stands s n t ->
    implements (fun s' m o => match m, o with
                              | Some m, Some c => stands s' m c
                              | None, None => True
                              | _, _ => False end)
      (lookup_ n nm) (match t with TDir es => Ok (find_child nm es) | _ => Err NotDirectory end) s;
  tf_read_dir s n t : stands s n t ->
    implements (fun s' => Forall2 (lists s')) (read_dir n)
      (match t with TDir es => Ok es | _ => Err NotDirectory end) s;
  tf_metadata s n t : stands s n t ->
    implements (fun _ md t => md_kind md = tree_kind t /\ size_of t (md_size md)) (metadata n) (Ok t) s;
  tf_read_link s n target : stands s n (TLink target) ->
    implements (fun _ => eq) (read_link n) (Ok (Some target)) s;
  tf_read_at s n t c off buf : stands s n t -> content_of t = Some c -> 0 < zlen c ->
    0 <= off <= zlen c -> zlen buf < 2 ^ 63 ->
    implements (fun _ => part_of off buf) (read_at n off buf) (Ok c) s;
}.

(** ** Lemmas: refinement *)

Lemma keeps_refl s : keeps s s.
Proof. by constructor. Qed.
Lemma keeps_trans s1 s2 s3 : keeps s1 s2 -> keeps s2 s3 -> keeps s1 s3.
Proof. intros [R1 K1] [R2 K2]. constructor; [congruence|auto]. Qed.

Lemma implements_bind {A B A' B'} (R : state -> A -> A' -> Prop) (R' : state -> B -> B' -> Prop)
    (m : ST state A) (spec : Res A') (k : A -> ST state B) (k' : A' -> Res B') s :
  implements R m spec s ->
  (forall a a' s', keeps s s' -> spec = Ok a' -> R s' a a' -> implements R' (k a) (k' a') s') ->
  implements R' (bindST m k) (bindR spec k') s.
Proof.
  intros (r&s1&Hm&Hk&Hr) Hcont. destruct spec as [a'|e| | |]; try done; unfold implements, bindST; rewrite Hm.
  - destruct Hr as (a&->&Ha). destruct (Hcont a a' s1 Hk eq_refl Ha) as (r2&s2&E&Hk2&Hr2).
    exists r2, s2. split; [done|]. split; [by eapply keeps_trans|done].
  - subst r. by exists (Err e), s1.
Qed.

Lemma implements_pure {A B} (R : state -> A -> B -> Prop) a b s :
  R s a b -> implements R (retST a) (Ok b) s.
Proof. intros. exists (Ok a), s. split; [done|]. split; [apply keeps_refl|by exists a]. Qed.

Lemma implements_err {A B} (R : state -> A -> B -> Prop) e s : implements R (errST e) (Err e) s.
Proof. exists (Err e), s. split; [done|]. split; [apply keeps_refl|done]. Qed.

Lemma implements_liftR {A B} (R : state -> A -> B -> Prop) (r : Res A) (spec : Res B) s :
  match spec with Ok b => exists a, r = Ok a /\ R s a b | Err e => r = Err e | _ => False end ->
  implements R (liftR r) spec s.
Proof. intros. exists r, s. split; [done|]. split; [apply keeps_refl|done]. Qed.

(** A method that only looks. *)
Lemma implements_here {A B} (R : state -> A -> B -> Prop) m r (spec : Res B) s : m s = (r, s) ->
  match spec with Ok b => exists a, r = Ok a /\ R s a b | Err e => r = Err e | _ => False end ->
  implements R m spec s.
Proof. intros E ?. exists r, s. split; [done|]. split; [apply keeps_refl|done]. Qed.

Lemma implements_mono {A B} (R R' : state -> A -> B -> Prop) m spec s :
  implements R m spec s -> (forall s' a b, R s' a b -> R' s' a b) -> implements R' m spec s.
Proof.
  intros (r&s'&?&?&Hr) HR. exists r, s'. split; [done|]. split; [done|]. destruct spec; try done.
  destruct Hr as (x&?&?). eauto.
Qed.
End Interface.
Arguments TreeFs F S {_ _} stands.

(** Lists of the same names, searched. *)
Lemma find_child_Forall2 {A B} (P : A -> B -> Prop) nm (l : list (name * A)) (k : list (name * B)) :
  Forall2 (fun a b => a.1 = b.1 /\ P a.2 b.2) l k ->
  match find_child nm l, find_child nm k with
  | Some a, Some b => P a b
  | None, None => True
  | _, _ => False
  end.
Proof.
  unfold find_child. induction 1 as [|a b l k [Hn HP] _ IH]; [done|].
  cbn [list_find]. destruct (decide (a.1 = nm)) as [E|E].
  - by rewrite decide_True by congruence.
  - rewrite decide_False by congruence.
    by destruct (list_find (fun e => e.1 = nm) l) as [[]|], (list_find (fun x => x.1 = nm) k) as [[]|].
Qed.

Lemma find_child_elem {A} nm (l : list (name * A)) a : find_child nm l = Some a -> (nm, a) ∈ l.
Proof.
  unfold find_child. intros (x&Hx&->)%fmap_Some. apply fmap_Some in Hx as ([i e]&Hf&->). apply list_find_Some in Hf as (Hi&Hn&_). cbn in Hn. subst nm.
  apply list_elem_of_lookup. exists i. by destruct e.
Qed.

Lemma find_child_is_Some {A} nm (l : list (name * A)) a : (nm, a) ∈ l -> is_Some (find_child nm l).
Proof.
  intros Hl. unfold find_child. destruct (list_find_elem_of (fun e => e.1 = nm) l (nm, a) Hl eq_refl) as [[i e] ->]. by eexists.
Qed.

(** Searching a listing finds the child of the first entry of the name. *)
Lemma find_entry_lists {F S} `{FoldFrontend F S} stands (s : F * SubstrateCtx) nm es xs :
  Forall2 (lists (F := F) stands s) es xs ->
  match find_entry nm es, find_child nm xs with
  | Some m, Some c => stands s m c
  | None, None => True
  | _, _ => False
  end.
Proof.
  unfold find_entry, find_child. induction 1 as [|e x es xs (Hn&_&Hs) _ IH]; [done|].
  cbn [list_find]. destruct (decide (de_name e = nm)) as [E|E].
  - rewrite decide_True by congruence. done.
  - rewrite decide_False by congruence.
    by destruct (list_find (fun e => de_name e = nm) es) as [[]|], (list_find (fun x => x.1 = nm) xs) as [[]|].
Qed.

Section Refinement.
Context {F S : Type} `{FoldFrontend F S} {stands : F * SubstrateCtx -> NodeId -> Tree -> Prop}.
Context `{!TreeFs F S stands}.
Abbreviation state := (F * SubstrateCtx)%type (only parsing).
Implicit Types s : state.

(** One component: search the directory, look at what is there. *)
Definition child_of (n : NodeId) (comp : name) : ST state (NodeId * Metadata) :=
  let* r := lookup_ n comp in
  let* child := liftR (ok_or r NotFound) in
  let* md := metadata child in retST (child, md).

(** What [resolve] does at a link. *)
Definition follow (links : nat) (child n : NodeId) (rest : list name) : ST state NodeId :=
  match links with
  | O => errST (InvalidPath "too many symlinks")
  | Datatypes.S links' =>
      let* t := read_link child in
      let* target := liftR (ok_or t (Corrupt "symlink without a target")) in
      let* target := liftR (if utf8_valid target then Ok target else Err (InvalidPath "non-UTF-8 symlink")) in
      let* fs := getST in
      resolve_loop (S := S) links' (push_components target rest)
        (if starts_with target [slash] then root fs.1 else n)
  end.

Lemma resolve_loop_cons links comp rest n s : comp <> dotdot ->
  resolve_loop (S := S) links (comp :: rest) n s =
  (let* (child, md) := child_of n comp in
   if decide (md_kind md = Symlink) then follow links child n rest
   else resolve_loop (S := S) links rest child) s.
Proof.
  intros Hd. destruct links; cbn [resolve_loop]; rewrite decide_False by done; unfold child_of, bindST;
    destruct (lookup_ n comp s) as [[[m|]|?| | |] s1]; try done; unfold liftR; cbn [ok_or];
    by destruct (metadata m s1) as [[md|?| | |] s2].
Qed.

Lemma child_refines s n t comp : stands s n t ->
  implements stands (fun s' '(m, md) c => stands s' m c /\ md_kind md = tree_kind c)
    (child_of n comp) (tree_lookup t comp) s.
Proof.
  intros Hs. assert (tree_lookup t comp =
    let! o := match t with TDir es => Ok (find_child comp es) | _ => Err NotDirectory end in ok_or o NotFound) as ->
    by (by destruct t).
  eapply implements_bind; [by apply tf_lookup|]. intros [m|] [c|] s1 Hk1 _ Hmc; try done; cbn [ok_or].
  2:{ exists (Err NotFound), s1. split; [done|]. split; [apply keeps_refl|done]. }
  change (Ok c) with (bindR (Ok c) Ok). eapply implements_bind.
  { apply (implements_liftR _ (fun s' m c => stands s' m c)). by exists m. }
  clear Hmc. intros m' c' s2 _ _ Hmc. change (Ok c') with (bindR (Ok c') Ok).
  eapply implements_bind; [by apply tf_metadata|]. intros md c2 s3 Hk3 [= ->] [Hmd _].
  apply implements_pure. split; [by apply Hk3|done].
Qed.

(** A frontend's own read of the link, and the walk from where it leads. *)
Lemma follow_refines top links rest child target n t s :
  (forall pending n t s, stands s (root s.1) top -> stands s n t ->
     implements stands stands (resolve_loop (S := S) (pred links) pending n) (tree_walk (pred links) top pending t) s) ->
  stands s (root s.1) top -> stands s n t -> stands s child (TLink target) ->
  implements stands stands (follow links child n rest)
    (match links with
     | O => Err (InvalidPath "too many symlinks")
     | Datatypes.S links' =>
         if utf8_valid target
         then tree_walk links' top (components target ++ rest) (if starts_with target [slash] then top else t)
         else Err (InvalidPath "non-UTF-8 symlink")
     end) s.
Proof.
  intros IH Htop Hn Hc. destruct links as [|links]; [apply implements_err|]. cbn [follow pred] in *.
  destruct (tf_read_link _ s child target Hc) as (r&s1&E&Hk&r'&->&->).
  assert (Hs1 : forall spec, implements stands stands
    (let* target0 := liftR (if utf8_valid target then Ok target else Err (InvalidPath "non-UTF-8 symlink")) in
     let* fs := getST in
     resolve_loop (S := S) links (push_components target0 rest) (if starts_with target0 [slash] then root fs.1 else n)) spec s1 ->
    implements stands stands (follow (Datatypes.S links) child n rest) spec s).
  { intros spec (r&s'&E'&Hk'&Hr). exists r, s'. split; [|split; [by eapply keeps_trans|done]].
    cbn [follow]. unfold bindST at 1. rewrite E. unfold bindST at 1, liftR at 1. exact E'. }
  apply Hs1. destruct (utf8_valid target); [|apply implements_err].
  destruct (IH (components target ++ rest) (if starts_with target [slash] then root s1.1 else n)
    (if starts_with target [slash] then top else t) s1) as (r&s'&E'&Hr).
  - rewrite (kp_root _ _ _ Hk). by apply Hk.
  - destruct (starts_with target [slash]); [rewrite (kp_root _ _ _ Hk)|]; by apply Hk.
  - exists r, s'. split; [|done]. unfold bindST, liftR, getST. rewrite push_components_app. exact E'.
Qed.

Lemma walk_refines top links : forall pending n t s, stands s (root s.1) top -> stands s n t ->
  implements stands stands (resolve_loop (S := S) links pending n) (tree_walk links top pending t) s.
Proof.
  induction links as [|links IHl]; induction pending as [|comp rest IHp]; intros n t s Htop Hs;
    try (by apply implements_pure).
  all: cbn [tree_walk]; destruct (decide (comp = dotdot)) as [->|Hd];
    [by eexists _, s; split; [reflexivity|split; [apply keeps_refl|]]|].
  all: enough (Hb : implements stands stands
      (let* (child, md) := child_of n comp in
       if decide (md_kind md = Symlink) then follow _ child n rest else resolve_loop (S := S) _ rest child) _ s)
    by (destruct Hb as (r&s'&E&?); exists r, s'; split; [by rewrite resolve_loop_cons|done]).
  all: eapply implements_bind; [by apply child_refines|]; intros [m md] c s1 Hk1 _ [Hm Hkind];
    assert (stands s1 (root s1.1) top) by (rewrite (kp_root _ _ _ Hk1); by apply Hk1);
    rewrite Hkind; destruct c; cbn [tree_kind]; try (rewrite decide_False by done; by apply IHp);
    rewrite decide_True by done.
  - apply implements_err.
  - apply (follow_refines top (Datatypes.S links)); try done. by apply Hk1.
Qed.
(** A walk that begins at no link ends at none. *)
Definition tree_is_link (t : Tree) : bool := match t with TLink _ => true | _ => false end.

Lemma tree_walk_no_link top links : tree_is_link top = false -> forall pending t t',
  tree_is_link t = false -> tree_walk links top pending t = Ok t' -> tree_is_link t' = false.
Proof.
  intros Htop. induction links as [|links IHl]; induction pending as [|comp rest IHp]; intros t t' Ht;
    cbn [tree_walk]; try (by intros [= <-]).
  all: destruct (decide (comp = dotdot)); [done|]; intros (c&Hc&Hw)%bindR_Ok;
    destruct c; try done; try (by eapply IHp; [|exact Hw]).
  destruct (utf8_valid _); [|done]. eapply IHl; [|exact Hw]. by destruct (starts_with _ _).
Qed.

Context (top : Tree) (dir_top : tree_kind top = Directory).

Lemma resolve_refines path s : stands s (root s.1) top ->
  implements stands (fun s' n t => stands s' n t /\ tree_is_link t = false)
    (resolve (S := S) path) (tree_resolve top path) s.
Proof.
  intros Hs. destruct (walk_refines top MAX_SYMLINKS (components path) (root s.1) top s Hs Hs) as (r&s'&E&Hk&Hr).
  exists r, s'. split; [|split; [done|]].
  - unfold resolve, bindST, getST. by rewrite push_components_app, app_nil_r.
  - unfold tree_resolve. destruct (tree_walk _ _ _ _) as [t| | | |] eqn:Et; try done. destruct Hr as (n&->&Hn).
    exists n. split; [done|]. split; [done|]. eapply tree_walk_no_link; [| |exact Et]; by destruct top.
Qed.

Lemma stands_serves s0 n t c : content_of t = Some c -> 0 < zlen c ->
  serves (F := F) (S := S) (fun s => keeps stands s0 s /\ stands s n t) n c.
Proof.
  intros Hc Hz off buf s [Hk Hs] Ho Hb.
  destruct (tf_read_at _ s n t c off buf Hs Hc Hz Ho Hb) as (r&s'&E&Hk'&[k b]&->&Hp).
  exists k, b, s'. split; [done|]. split; [|exact Hp]. split; [by eapply keeps_trans|by apply Hk'].
Qed.

(** The copy loop on a node with content. *)
Lemma read_loop_refines s n t c : stands s n t -> content_of t = Some c -> zlen c <= MAX_BOOT_FILE_BYTES ->
  implements stands (fun _ => eq)
    (read_loop (F := F) (S := S) (Datatypes.S (Z.to_nat (zlen c))) n (zlen c) 0 (zeros (zlen c))) (Ok c) s.
Proof.
  intros Hs Hc Hcap. pose proof (zlen_nonneg c). unfold MAX_BOOT_FILE_BYTES in Hcap.
  destruct (decide (zlen c = 0)) as [E|E].
  { rewrite E. apply zlen_0_nil in E as ->. by apply (implements_here _ _ _ (Ok [])); [|exists []]. }
  destruct (read_loop_serves _ n c (zlen c) (stands_serves s n t c Hc ltac:(lia)) ltac:(lia)
    (Datatypes.S (Z.to_nat (zlen c))) 0 (zeros (zlen c)) s) as (s'&E'&Hk&_);
    [by split; [apply keeps_refl|]|lia|lia|apply zlen_zeros; lia|by rewrite !sub_nil|lia|].
  eexists _, s'. split; [exact E'|]. split; [done|]. eexists. split; [reflexivity|]. by rewrite Z.min_id, sub_all.
Qed.

Lemma read_refines path s : stands s (root s.1) top ->
  implements stands (fun _ => eq) (read_path (S := S) path) (tree_read top path) s.
Proof.
  intros Hs. unfold read_path, tree_read. eapply implements_bind; [by apply resolve_refines|].
  intros n t s1 Hk1 _ [Hn Hl]. change (match content_of t with Some c => _ | None => _ end) with (let! t := Ok t in
    match content_of t with Some c => let! _ := checked_full_read_len (zlen c) in Ok c | None => Err IsDirectory end).
  eapply implements_bind; [by apply tf_metadata|]. intros md t' s2 Hk2 [= <-] [-> Hsz].
  destruct (content_of t) as [c|] eqn:Ec; [|destruct t; try done; apply implements_err].
  rewrite decide_False, (Hsz c Ec) by (by destruct t). eapply implements_bind.
  { apply (implements_liftR _ (fun _ => eq)). pose proof (returns_checked_full (zlen c)).
    destruct (checked_full_read_len (zlen c)); try done. by eexists. }
  intros total total' s3 Hk3 Ht ->. apply checked_full_Ok in Ht as [Hcap ->].
  apply (read_loop_refines s3 n t); [by apply Hk3, Hk2|done|done].
Qed.

Lemma list_refines path s : stands s (root s.1) top ->
  implements stands (fun s' => Forall2 (lists stands s')) (read_dir_path (S := S) path) (tree_list top path) s.
Proof.
  intros Hs. unfold read_dir_path, tree_list. eapply implements_bind; [by apply resolve_refines|].
  intros n t s1 _ _ [Hn _]. by apply tf_read_dir.
Qed.

Lemma stat_refines path s : stands s (root s.1) top ->
  implements stands (fun _ md t => md_kind md = tree_kind t /\ size_of t (md_size md) /\ tree_is_link t = false)
    (metadata_path (S := S) path) (tree_resolve top path) s.
Proof.
  intros Hs. unfold metadata_path. rewrite <- (bindR_ret (tree_resolve top path)). eapply implements_bind; [by apply resolve_refines|].
  intros n t s1 _ _ [Hn Hl]. destruct (tf_metadata _ s1 n t Hn) as (r&s'&E&Hk&md&->&?&?).
  exists (Ok md), s'. split; [done|]. split; [done|]. by exists md.
Qed.

Lemma op_refines op s : stands s (root s.1) top ->
  implements stands (fun _ => eq) (path_op (F := F) (S := S) op) (tree_op top op) s.
Proof.
  intros Hs. destruct op as [p|p|p]; cbn [path_op tree_op].
  - eapply implements_bind; [by apply read_refines|]. intros c c' s1 _ _ ->. by apply implements_pure.
  - eapply implements_bind; [by apply list_refines|]. intros es xs s1 _ _ HF. apply implements_pure. f_equal.
    induction HF as [|e x es xs (Hn&Hkd&_) _ IH]; [done|]. cbn. by rewrite Hn, Hkd, IH.
  - eapply implements_bind; [by apply stat_refines|]. intros md t s1 _ _ (Hk&Hsz&Hl). apply implements_pure.
    rewrite Hk. by destruct t as [c| | |c]; cbn in *; rewrite ?(Hsz c).
Qed.

(** Whatever is asked, in whatever order, the volume answers as the tree does. *)
Lemma session_refines ops : forall s, stands s (root s.1) top ->
  session (F := F) (S := S) ops s = tree_op top <$> ops.
Proof.
  induction ops as [|op ops IH]; intros s Hs; cbn [session fmap list_fmap]; [done|].
  destruct (op_refines op s Hs) as (r&s'&E&Hk&Hr). rewrite E. f_equal.
  - destruct (tree_op top op) as [a|e| | |]; try done. by destruct Hr as (?&->&->).
  - apply IH. rewrite (kp_root _ _ _ Hk). by apply Hk.
Qed.
End Refinement.

(** ** Lemmas: the laws of a frontend from its own operations *)

Section Laws.
Context {F S : Type} `{FoldFrontend F S} {stands : F * SubstrateCtx -> NodeId -> Tree -> Prop}.
Abbreviation state := (F * SubstrateCtx)%type (only parsing).

(** A [lookup] that searches the listing. *)
Lemma lookup_searches n nm t (s : state) :
  lookup_ n nm s = (let* es := read_dir n in retST (find_entry nm es)) s ->
  implements stands (fun s' => Forall2 (lists stands s')) (read_dir n)
    (match t with TDir es => Ok es | _ => Err NotDirectory end) s ->
  implements stands (fun s' m o => match m, o with
                                   | Some m, Some c => stands s' m c
                                   | None, None => True
                                   | _, _ => False end)
    (lookup_ n nm) (match t with TDir es => Ok (find_child nm es) | _ => Err NotDirectory end) s.
Proof.
  intros E (r&s'&Hd&Hk&Hr). unfold implements. rewrite E. unfold bindST. rewrite Hd.
  destruct t as [c|es|l|]; try (subst r; by exists (Err NotDirectory), s').
  destruct Hr as (out&->&HF). exists (Ok (find_entry nm out)), s'. split; [done|]. split; [done|].
  eexists. split; [done|]. by eapply find_entry_lists.
Qed.

(** A read that fills the buffer up to the end of the content. *)
Lemma full_part off buf content b : 0 <= off <= zlen content ->
  zlen b = zlen buf ->
  sub b 0 (Z.min (zlen buf) (zlen content - off)) = sub content off (Z.min (zlen buf) (zlen content - off)) ->
  part_of off buf (Z.min (zlen buf) (zlen content - off), b) content.
Proof. intros. pose proof (zlen_nonneg buf). split; [done|]. split; [lia|]. split; [lia|]. split; [lia|done]. Qed.

Lemma empty_part off buf content : zlen content <= off -> off <= zlen content -> part_of off buf (0, buf) content.
Proof.
  intros. pose proof (zlen_nonneg buf). unfold part_of. rewrite !sub_nil. split_and!; done || lia.
Qed.
End Laws.

(** The medium has [bytes] at [off]. *)
Definition has {S} `{SourceLaws S} (src : S) (off : Z) (bytes : list byte) : Prop :=
  0 <= off /\ off + zlen bytes <= src_len src /\ region (src_byte src) off (zlen bytes) = bytes.

Lemma has_app {S} `{SourceLaws S} (src : S) off a b :
  has src off (a ++ b) -> has src off a /\ has src (off + zlen a) b.
Proof.
  unfold has. rewrite zlen_app. pose proof (zlen_nonneg a). pose proof (zlen_nonneg b). intros (Ho&Hin&Hreg).
  rewrite region_split in Hreg by lia. apply app_inj_1 in Hreg as [Ha Hb].
  - split; (split; [lia|]); (split; [lia|done]).
  - pose proof (zlen_region (src_byte src) off (zlen a)). unfold zlen in *. lia.
Qed.

Lemma has_read {S} `{ReliableSource S} (src : S) off bytes : src_valid src -> has src off bytes ->
  src_read_at src off (zlen bytes) = Ok bytes.
Proof. intros Hv (?&?&Hreg). pose proof (zlen_nonneg bytes). by rewrite src_read_in_range, Hreg by (done || lia). Qed.
