(* ===== verification/Safe.v ===== *)
(** * Sessions on media nobody has checked

    What a frontend owes whatever its medium holds: in the states a mounted volume
    goes through, at the handles it gave out, an operation comes back ([SafeFs]).
    The theorem lifts that to sessions by path: every request is answered, a file
    within the cap on whole-file reads.  An operation may be excused, where the
    code adds numbers of the medium unchecked, by an arithmetic overflow ([X]). *)
From S2P Require Import Prelude Text Cache Substrate Path Tree.
Open Scope Z_scope.

Section Safe.
Context {F S : Type} `{FoldFrontend F S}.
Abbreviation state := (F * SubstrateCtx)%type (only parsing).
Context (X : Prop) (I : state -> Prop) (node_ok : NodeId -> Prop) (reach : NodeId -> Z -> Prop).
Implicit Types s : state.

(** [m] comes back from [s] (or, if [X], overflows), on success with a value in [P];
    the invariant holds after. *)
Definition safe {A} (m : ST state A) (P : A -> Prop) s : Prop := wpx X (m s).1 P /\ I (m s).2.

(** [reach n off]: a reader of [n] that begins at 0 and goes on where the last
    read ended gets to [off]. *)
Class SafeFs : Prop := {
  sf_root s : I s -> node_ok (root s.1);
  sf_lookup s n nm : I s -> node_ok n -> safe (lookup_ n nm) (fun o => forall c, o = Some c -> node_ok c) s;
  sf_read_dir s n : I s -> node_ok n -> safe (read_dir n) (fun _ => True) s;
  sf_metadata s n : I s -> node_ok n -> safe (metadata n) (fun _ => True) s;
  sf_read_link s n : I s -> node_ok n -> safe (read_link n) (fun _ => True) s;
  sf_start n : node_ok n -> reach n 0;
  sf_read_at s n off buf : I s -> node_ok n -> reach n off -> 0 <= off -> off + zlen buf < 2 ^ 63 ->
    safe (read_at n off buf)
      (fun '(k, b) => zlen b = zlen buf /\ 0 <= k <= zlen buf /\ reach n (off + k)) s;
}.

(** What a request may be answered with. *)
Definition within_cap (a : Answer) : Prop :=
  match a with ABytes c => zlen c <= MAX_BOOT_FILE_BYTES | _ => True end.

(** ** Lemmas: one request *)

Lemma zlen_sub_whole {A} (l : list A) lo n : zlen (sub l lo n) <= zlen l.
Proof. unfold zlen, sub. rewrite length_take, length_drop. lia. Qed.

Lemma safe_bind {A B} (m : ST state A) (k : A -> ST state B) P Q s :
  safe m P s -> (forall a s', I s' -> P a -> safe (k a) Q s') -> safe (bindST m k) Q s.
Proof.
  unfold safe, bindST. intros [Hm HI] Hk. destruct (m s) as [[a|e| | |] s1]; try done. by apply Hk.
Qed.

Lemma safe_ret {A} (a : A) (P : A -> Prop) s : I s -> P a -> safe (retST a) P s.
Proof. done. Qed.
Lemma safe_liftR {A} (r : Res A) (P : A -> Prop) s : I s -> wpx X r P -> safe (liftR r) P s.
Proof. done. Qed.
Lemma safe_err {A} e (P : A -> Prop) s : I s -> safe (errST e) P s.
Proof. done. Qed.
Lemma safe_get (P : state -> Prop) s : I s -> P s -> safe getST P s.
Proof. done. Qed.

Lemma safe_ext {A} (m m' : ST state A) (P : A -> Prop) s : m s = m' s -> safe m' P s -> safe m P s.
Proof. unfold safe. by intros ->. Qed.

(** A method on [&self], and one on the frontend alone. *)
Lemma safe_on_self {A} (m : F -> Res A) (P : A -> Prop) s : I s -> wpx X (m s.1) P -> safe (on_self m) P s.
Proof. destruct s. by split. Qed.
Lemma safe_on_frontend {A} (m : ST F A) (P : A -> Prop) s :
  I ((m s.1).2, s.2) -> wpx X (m s.1).1 P -> safe (on_frontend m) P s.
Proof. destruct s as [f cx]. unfold safe, on_frontend. cbn [fst snd]. by destruct (m f). Qed.

Context `{!SafeFs}.

Lemma child_safe s n nm : I s -> node_ok n -> safe (child_of n nm) (fun c => node_ok c.1) s.
Proof.
  intros Hs Hn. unfold child_of. eapply safe_bind; [by apply sf_lookup|]. intros o s1 J1 Ho.
  eapply (safe_bind _ _ node_ok); [by apply safe_liftR, wp_ok_or|]. intros c s2 J2 Hc.
  eapply safe_bind; [by apply sf_metadata|]. intros md s3 J3 _. by apply safe_ret.
Qed.

Lemma follow_safe links child n rest s :
  (forall links', links = Datatypes.S links' ->
   forall pending n s, I s -> node_ok n -> safe (resolve_loop (S := S) links' pending n) node_ok s) ->
  I s -> node_ok child -> node_ok n -> safe (follow (S := S) links child n rest) node_ok s.
Proof.
  intros IH Hs Hc Hn. destruct links as [|links]; cbn [follow]; [by apply safe_err|].
  eapply safe_bind; [by apply sf_read_link|]. intros t s2 J2 _.
  eapply (safe_bind _ _ (fun _ => True)); [by apply safe_liftR, wp_ok_or|]. intros tg s3 J3 _.
  eapply (safe_bind _ _ (fun _ => True)); [apply safe_liftR; [done|by destruct (utf8_valid tg)]|]. intros tg' s4 J4 _.
  eapply (safe_bind _ _ I); [by apply safe_get|]. intros s5 s6 J6 J5. apply (IH links eq_refl); [done|].
  destruct (starts_with _ _); [by apply sf_root|done].
Qed.

(** One turn of the loop. *)
Lemma step_safe links comp rest n s :
  (forall n s, I s -> node_ok n -> safe (resolve_loop (S := S) links rest n) node_ok s) ->
  (forall links', links = Datatypes.S links' ->
   forall pending n s, I s -> node_ok n -> safe (resolve_loop (S := S) links' pending n) node_ok s) ->
  I s -> node_ok n -> safe (resolve_loop (S := S) links (comp :: rest) n) node_ok s.
Proof.
  intros IHp IHl Hs Hn. unfold safe. destruct (decide (comp = dotdot)) as [->|Hd].
  { destruct links; cbn [resolve_loop]; rewrite decide_True by done; by apply safe_err. }
  rewrite resolve_loop_cons by done. fold (safe (let* (child, md) := child_of (S := S) n comp in
    if decide (md_kind md = Symlink) then follow (S := S) links child n rest
    else resolve_loop (S := S) links rest child) node_ok s).
  eapply safe_bind; [by apply child_safe|]. intros [c md] s1 J1 Hc. cbn [fst] in Hc.
  destruct (decide _); [by apply follow_safe|by apply IHp].
Qed.

Lemma resolve_loop_safe links : forall pending n s, I s -> node_ok n ->
  safe (resolve_loop (S := S) links pending n) node_ok s.
Proof.
  induction links as [|links IHl]; induction pending as [|comp rest IHp]; intros n s Hs Hn; try by apply safe_ret.
  - by apply step_safe.
  - apply step_safe; try done. by intros links' [= <-].
Qed.

Lemma resolve_safe path s : I s -> safe (resolve (S := S) path) node_ok s.
Proof.
  intros Hs. unfold resolve. eapply (safe_bind _ _ I); [by apply safe_get|].
  intros s0 s1 J1 J0. apply resolve_loop_safe; [done|by apply sf_root].
Qed.

Lemma read_loop_safe n total : node_ok n -> total < 2 ^ 63 -> forall fuel done_ out s,
  I s -> reach n done_ -> 0 <= done_ -> (done_ < total -> zlen out = total) -> zlen out = Z.max 0 total ->
  (Z.to_nat (total - done_) < fuel)%nat ->
  safe (read_loop (S := S) fuel n total done_ out) (fun c => zlen c <= Z.max 0 total) s.
Proof.
  intros Hn Ht. induction fuel as [|fuel IH]; intros done_ out s Hs Hr Hd Hz Hz' Hf; [lia|].
  cbn [read_loop]. destruct (Z.ltb_spec done_ total) as [Hlt|Hge].
  2:{ apply safe_ret; [done|]. pose proof (zlen_sub_whole out 0 done_). lia. }
  specialize (Hz Hlt).
  eapply (safe_bind _ _ (fun tail => tail = sub out done_ (zlen out - done_)));
    [apply safe_liftR; [done|]; apply wp_slice; [lia|lia|done]|].
  intros tail s1 J1 ->.
  assert (Htl : zlen (sub out done_ (zlen out - done_)) = total - done_) by (rewrite zlen_sub; lia).
  eapply safe_bind; [apply sf_read_at; try done; lia|]. intros [k b] s2 J2 (Hb&Hk&Hrk).
  assert (Hpre : zlen (sub out 0 done_) = done_) by (rewrite zlen_sub; lia).
  assert (Hout : zlen (sub out 0 done_ ++ b) = total) by (rewrite zlen_app; lia).
  destruct (Z.eqb_spec k 0).
  - apply safe_ret; [done|]. pose proof (zlen_sub_whole (sub out 0 done_ ++ b) 0 done_). lia.
  - apply IH; done || lia.
Qed.

Lemma read_path_safe path s : I s -> safe (read_path (S := S) path) (fun c => zlen c <= MAX_BOOT_FILE_BYTES) s.
Proof.
  intros Hs. unfold read_path. eapply safe_bind; [by apply resolve_safe|]. intros n s1 J1 Hn.
  eapply safe_bind; [by apply sf_metadata|]. intros md s2 J2 _. destruct (decide _); [by apply safe_err|].
  eapply (safe_bind _ _ (fun t => t <= MAX_BOOT_FILE_BYTES)).
  { apply safe_liftR; [done|]. by apply wp_checked_full. }
  intros total s3 J3 Ht. assert (Hmax : 0 <= MAX_BOOT_FILE_BYTES < 2 ^ 63) by (unfold MAX_BOOT_FILE_BYTES; lia).
  assert (zlen (zeros total) = Z.max 0 total) as Hz.
  { destruct (Z.le_gt_cases 0 total); [rewrite zlen_zeros by lia; lia|]. unfold zeros.
    replace (Z.to_nat total) with 0%nat by lia. change (0 = Z.max 0 total). lia. }
  assert (Hl : safe (read_loop (S := S) (Datatypes.S (Z.to_nat total)) n total 0 (zeros total))
    (fun c => zlen c <= Z.max 0 total) s3).
  { apply read_loop_safe; try done; try lia. by apply sf_start. }
  destruct Hl as [Hw Hi]. split; [|done]. eapply wp_mono; [exact Hw|]. cbn beta. lia.
Qed.

Lemma path_op_safe op s : I s -> safe (path_op (S := S) op) within_cap s.
Proof.
  intros Hs. destruct op as [p|p|p]; cbn [path_op].
  - eapply safe_bind; [by apply read_path_safe|]. intros c s1 J1 Hc. by apply safe_ret.
  - unfold read_dir_path. eapply (safe_bind _ _ (fun _ => True)); [|intros; by apply safe_ret].
    eapply safe_bind; [by apply resolve_safe|]. intros n s1 J1 Hn. by apply sf_read_dir.
  - unfold metadata_path. eapply (safe_bind _ _ (fun _ => True)); [|intros; by apply safe_ret].
    eapply safe_bind; [by apply resolve_safe|]. intros n s1 J1 Hn. by apply sf_metadata.
Qed.

(** Every request of a session is answered. *)
Lemma session_safe ops : forall s, I s -> Forall (fun r => wpx X r within_cap) (session (S := S) ops s).
Proof.
  induction ops as [|op ops IH]; intros s Hs; cbn [session]; [constructor|].
  destruct (path_op_safe op s Hs) as [Hw HI]. destruct (path_op op s) as [r s1]. constructor; [exact Hw|by apply IH].
Qed.
End Safe.
Arguments SafeFs F S {_ _} X I node_ok reach.

(** Whatever is on the medium, opening it comes back, and so does every request of
    every session on what was opened. *)
Definition answered (F : Type) {S} `{FoldFrontend F S} (X : Prop) (src : S) (cx : SubstrateCtx) : Prop :=
  wpx X (open_ (F := F) src cx).1 (fun fs => forall ops,
    Forall (fun r => wpx X r within_cap) (session (S := S) ops (fs, (open_ (F := F) src cx).2))).

Lemma answered_safe (F : Type) {S} `{FoldFrontend F S} X I node_ok reach src cx :
  SafeFs F S X I node_ok reach ->
  wpx X (open_ (F := F) src cx).1 (fun fs => I (fs, (open_ (F := F) src cx).2)) -> answered F X src cx.
Proof. intros Hf Ho. unfold answered. eapply wp_mono; [exact Ho|]. intros fs Hi ops. by eapply session_safe. Qed.
