(* ===== verification/Faulty.v ===== *)
(** * Devices that fail

    Media do not change under a mounted volume, but reading them may fail at any
    time.  [Ideal] is the same medium in a device that never does; [or_error] says
    that what came of a call is either what comes of it there or an error the device
    gave: no failure is taken for data, for an entry that is not there or for the
    end of a file.  [FaultyFs] is what a frontend owes a device that fails, and
    [session_faulty] lifts it to sessions by path, up to the first failure. *)
From S2P Require Import Prelude Text Cache Substrate Path Tree.
Open Scope Z_scope.

(** [s], in a device that reads whatever is on the medium. *)
Record Ideal (S : Type) : Type := mkIdeal { id_src : S }.
Arguments mkIdeal {S} _.
Arguments id_src {S} _.

#[export] Instance Ideal_BlockSource {S} `{SourceLaws S} : BlockSource (Ideal S) := {
  src_len s := src_len (id_src s);
  src_read_at s off n :=
    match src_read_at (id_src s) off n with
    | Err e =>
        if (0 <=? off) && (0 <=? n) && (off + n <=? src_len (id_src s))
        then Ok (region (src_byte (id_src s)) off n) else Err e
    | r => r
    end;
}.

#[export] Program Instance Ideal_Laws {S} `{SourceLaws S} : SourceLaws (Ideal S) := {
  src_valid s := src_valid (id_src s);
  src_byte s := src_byte (id_src s);
}.
Next Obligation. intros S ? ? s Hv. exact (src_len_range (id_src s) Hv). Qed.
Next Obligation.
  intros S ? ? s off n b Hv Ho Hn. cbn [src_read_at Ideal_BlockSource src_len].
  destruct (src_read_at (id_src s) off n) as [d|e| | |] eqn:E; try done.
  - intros [= <-]. by apply src_read_ok.
  - destruct (_ && _) eqn:Hr; [|done]. intros [= <-]. apply andb_true_iff in Hr as [_ Hr%Z.leb_le]. done.
Qed.
Next Obligation.
  intros S ? ? s off n Hv Ho Hn. cbn [src_read_at Ideal_BlockSource].
  pose proof (src_read_returns (id_src s) off n Hv Ho Hn).
  destruct (src_read_at (id_src s) off n) as [d|e| | |]; try done. by destruct (_ && _).
Qed.

#[export] Instance Ideal_Reliable {S} `{SourceLaws S} : ReliableSource (Ideal S).
Proof.
  intros s off n Hv Ho Hn Hin. cbn [src_read_at Ideal_BlockSource src_len src_byte Ideal_Laws] in *.
  pose proof (src_len_range (id_src s) Hv).
  pose proof (src_read_returns (id_src s) off n Hv ltac:(lia) ltac:(lia)).
  destruct (src_read_at (id_src s) off n) as [d|e| | |] eqn:E; try done.
  - by apply src_read_ok in E as [-> _].
  - by rewrite !(proj2 (Z.leb_le _ _)) by lia.
Qed.

Section Faulty.
Context {S : Type} `{SourceLaws S} (src : S).

(** [e] is what a read inside the medium failed with. *)
Definition device_error (e : FoldError) : Prop :=
  exists off n, 0 <= off /\ 0 <= n /\ off + n <= src_len src /\ src_read_at src off n = Err e.

Definition or_error {A} (r r' : Res A) : Prop := r = r' \/ exists e, r = Err e /\ device_error e.

Lemma or_error_refl {A} (r : Res A) : or_error r r.
Proof. by left. Qed.

Lemma or_error_read off n : or_error (src_read_at src off n) (src_read_at (mkIdeal src) off n).
Proof.
  cbn [src_read_at Ideal_BlockSource id_src]. destruct (src_read_at src off n) as [d|e| | |] eqn:E; try by left.
  destruct (_ && _) eqn:Hr; [right|by left]. apply andb_true_iff in Hr as [[?%Z.leb_le ?%Z.leb_le]%andb_true_iff ?%Z.leb_le].
  exists e. split; [done|]. by exists off, n.
Qed.

Lemma or_error_bind {A B} (r r' : Res A) (k k' : A -> Res B) :
  or_error r r' -> (forall a, or_error (k a) (k' a)) -> or_error (bindR r k) (bindR r' k').
Proof.
  intros [->|(e&->&He)] Hk; [|right; by exists e]. destruct r' as [a|e| | |]; try by left. apply Hk.
Qed.

Lemma or_error_for {A} n i (body body' : Z -> A -> Res A) acc :
  (forall i a, or_error (body i a) (body' i a)) -> or_error (for_loop n i body acc) (for_loop n i body' acc).
Proof.
  intros Hb. revert i acc. induction n as [|n IH]; intros i acc; cbn [for_loop]; [by left|].
  by apply or_error_bind.
Qed.

Lemma or_error_loop {St R} (body body' : St -> Res (St + R)) s :
  (forall s, or_error (body s) (body' s)) -> or_error (loop body s) (loop body' s).
Proof.
  intros Hb. assert (Hs : forall k s, or_error (steps k body s) (steps k body' s)).
  { induction k as [|k IH]; intros t; cbn [steps]; [apply Hb|].
    apply or_error_bind; [apply IH|]. intros [t'|x]; [apply IH|by left]. }
  rewrite !loop_steps. destruct (Hs 64%nat s) as [->|(e&->&He)]; [by left|right; by exists e].
Qed.

(** The same for a call that makes a volume: [g] puts it in the good device, [I] is
    what is known of it. *)
Definition or_error_on {A B} (I : A -> Prop) (g : A -> B) (r : Res A) (r' : Res B) : Prop :=
  (r' = (let! a := r in Ok (g a)) /\ forall a, r = Ok a -> I a) \/ exists e, r = Err e /\ device_error e.

Lemma or_error_on_Ok {A B} (I : A -> Prop) (g : A -> B) a : I a -> or_error_on I g (Ok a) (Ok (g a)).
Proof. left. split; [done|]. by intros ? [= <-]. Qed.
Lemma or_error_on_Err {A B} (I : A -> Prop) (g : A -> B) e : or_error_on I g (Err e) (Err e).
Proof. by left. Qed.

Lemma or_error_on_bind {A B C} I (g : B -> C) (r r' : Res A) (k : A -> Res B) (k' : A -> Res C) :
  or_error r r' -> (forall a, or_error_on I g (k a) (k' a)) -> or_error_on I g (bindR r k) (bindR r' k').
Proof.
  intros [->|(e&->&He)] Hk; [|right; by exists e]. destruct r' as [a|e| | |]; try by left. apply Hk.
Qed.

Lemma or_error_on_bind_on {A A' B C} J (h : A -> A') I (g : B -> C) r r' (k : A -> Res B) (k' : A' -> Res C) :
  or_error_on J h r r' -> (forall a, J a -> or_error_on I g (k a) (k' (h a))) ->
  or_error_on I g (bindR r k) (bindR r' k').
Proof.
  intros [[-> HJ]|(e&->&He)] Hk; [|right; by exists e]. destruct r as [a|e| | |]; try by left. by apply Hk, HJ.
Qed.

Lemma or_error_read_into off buf lo hi :
  or_error (read_into src off buf lo hi) (read_into (mkIdeal src) off buf lo hi).
Proof.
  unfold read_into. apply or_error_bind; [by left|]. intros _.
  apply or_error_bind; [apply or_error_read|]. by left.
Qed.
End Faulty.

(** The body of a definition, call by call. *)
Create HintDb faulty.
#[export] Hint Resolve or_error_read or_error_read_into : faulty.

Ltac or_error_step :=
  match goal with
  | |- or_error _ ?r ?r' => constr_eq r r'; apply or_error_refl
  | |- or_error _ (bindR _ _) (bindR _ _) => apply or_error_bind; [|intros ?]
  | |- or_error_on _ _ _ (bindR _ _) (bindR _ _) => apply or_error_on_bind; [|intros ?]
  | |- or_error _ (loop _ _) (loop _ _) => apply or_error_loop; intros ?
  | |- or_error _ (for_loop _ _ _ _) (for_loop _ _ _ _) => apply or_error_for; intros ? ?
  | |- or_error _ (match ?x with _ => _ end) _ => destruct x
  | |- or_error_on _ _ _ (match ?x with _ => _ end) _ => destruct x
  | |- or_error _ _ _ => solve [eauto with faulty nocore]
  | |- or_error_on _ _ _ (Ok _) (Ok _) => apply or_error_on_Ok; reflexivity
  | |- or_error_on _ _ _ (Err _) (Err _) => apply or_error_on_Err
  end.
Ltac or_error := cbn beta iota zeta delta [src_len Ideal_BlockSource id_src];
  repeat (or_error_step; cbn beta iota zeta delta [src_len Ideal_BlockSource id_src]).

(** ** Stateful calls *)

Section Follows.
Context {S : Type} `{SourceLaws S} (src : S) {X Y : Type} (J : X -> Prop) (up : X -> Y).

(** [m] from [x] does what [m'] does in the good device from [up x], or ends with an
    error of the device. *)
Definition follows {A} (m : ST X A) (m' : ST Y A) (x : X) : Prop :=
  (exists e, (m x).1 = Err e /\ device_error src e) \/ m' (up x) = ((m x).1, up (m x).2) /\ J (m x).2.

Lemma follows_bind {A B} (m : ST X A) m' (k : A -> ST X B) k' x :
  follows m m' x -> (forall a x', J x' -> follows (k a) (k' a) x') -> follows (bindST m k) (bindST m' k') x.
Proof.
  intros [(e&He&Hd)|[Hm HJ]] Hk; unfold follows, bindST.
  - left. exists e. split; [|done]. destruct (m x) as [r x1]. cbn [fst] in He. by subst r.
  - rewrite Hm. destruct (m x) as [[a|e| | |] x1]; cbn [fst snd] in *; try by right. by apply Hk.
Qed.

Lemma follows_ext {A} (m m1 : ST X A) (m' m1' : ST Y A) x :
  m x = m1 x -> m' (up x) = m1' (up x) -> follows m1 m1' x -> follows m m' x.
Proof. unfold follows. by intros -> ->. Qed.
Lemma follows_ret {A} (a : A) x : J x -> follows (retST a) (retST a) x.
Proof. by right. Qed.
Lemma follows_err {A} e x : J x -> follows (A := A) (errST e) (errST e) x.
Proof. by right. Qed.
Lemma follows_get {A} (k : X -> ST X A) (k' : Y -> ST Y A) x :
  follows (k x) (k' (up x)) x -> follows (let* f := getST in k f) (let* f := getST in k' f) x.
Proof. done. Qed.
Lemma follows_liftR {A} (r r' : Res A) x : J x -> or_error src r r' -> follows (liftR r) (liftR r') x.
Proof. intros HJ [->|(e&->&He)]; [by right|left; by exists e]. Qed.
Lemma follows_same {A} (r : Res A) x : J x -> follows (liftR r) (liftR r) x.
Proof. by right. Qed.

Lemma follows_loop {St R} (body : St -> ST X (St + R)) body' : (forall s x, J x -> follows (body s) (body' s) x) ->
  forall s x, J x -> follows (loopST body s) (loopST body' s) x.
Proof.
  intros Hb s x HJ. unfold follows, loopST. rewrite !loop_steps.
  set (b := fun '(_, _) => _). set (b' := fun '(_, _) => _).
  assert (Hs : forall k s x, J x ->
    (exists e x', steps k b (s, x) = Ok (inr (Err e, x')) /\ device_error src e) \/
    match steps k b (s, x) with
    | Ok (inl (s', x')) => J x' /\ steps k b' (s, up x) = Ok (inl (s', up x'))
    | Ok (inr (r, x')) => J x' /\ steps k b' (s, up x) = Ok (inr (r, up x'))
    | Err e => steps k b' (s, up x) = Err e
    | Panic => steps k b' (s, up x) = Panic
    | Overflow => steps k b' (s, up x) = Overflow
    | Diverge => steps k b' (s, up x) = Diverge
    end).
  { induction k as [|k IH]; intros t y Hy; cbn [steps].
    - destruct (Hb t y Hy) as [(e&He&Hd)|[E Hj]]; subst b b'; cbn beta iota.
      + left. exists e, (body t y).2. split; [|done]. destruct (body t y) as [r y1]. cbn [fst] in He. by subst r.
      + right. rewrite E. by destruct (body t y) as [[[?|?]|e| | |] y1].
    - destruct (IH t y Hy) as [(e&y1&He&Hd)|Hm]; [left; exists e, y1; by rewrite He|].
      destruct (steps k b (t, y)) as [[[t1 y1]|[r y1]]|e| | |]; try (right; by rewrite Hm).
      + destruct Hm as [Hj ->]. cbn [bindR]. by apply IH.
      + destruct Hm as [Hj ->]. by right. }
  destruct (Hs 64%nat s x HJ) as [(e&x'&->&Hd)|Hm]; [left; by exists e|]. right.
  destruct (steps 64 b (s, x)) as [[[t1 y1]|[r y1]]|e| | |]; try (by rewrite Hm); by destruct Hm as [Hj ->].
Qed.
End Follows.

(** ** Sessions on a device that fails *)

Section Sessions.
Context {S : Type} `{SourceLaws S} {F F' : Type} `{!FoldFrontend F S} `{!FoldFrontend F' (Ideal S)}.
Context (src : S) (I : F -> Prop) (good : F -> F').
Abbreviation state := (F * SubstrateCtx)%type (only parsing).
Implicit Types s : state.

(** The volume in the good device. *)
Definition lift s : F' * SubstrateCtx := (good s.1, s.2).
Definition mounted s : Prop := I s.1.
Abbreviation follows := (follows src mounted lift).

(** [I] holds of a frontend that is mounted on [src]. *)
Class FaultyFs : Prop := {
  ff_root f : I f -> root (S := Ideal S) (good f) = root (S := S) f;
  ff_lookup s n nm : I s.1 -> follows (lookup_ n nm) (lookup_ n nm) s;
  ff_read_dir s n : I s.1 -> follows (read_dir n) (read_dir n) s;
  ff_metadata s n : I s.1 -> follows (metadata n) (metadata n) s;
  ff_read_link s n : I s.1 -> follows (read_link n) (read_link n) s;
  ff_read_at s n off buf : I s.1 -> follows (read_at n off buf) (read_at n off buf) s;
}.

(** Two sessions agree up to the first request that ends with an error of the device. *)
Inductive agree : list (Res Answer) -> list (Res Answer) -> Prop :=
| agree_nil : agree [] []
| agree_same r l l' : agree l l' -> agree (r :: l) (r :: l')
| agree_fails e l l' : device_error src e -> agree (Err e :: l) l'.

Lemma follows_on_self {A} (m : F -> Res A) m' s :
  I s.1 -> or_error src (m s.1) (m' (good s.1)) -> follows (on_self m) (on_self m') s.
Proof.
  destruct s as [f cx]. intros HI [E|(e&E&He)]; [right|left; by exists e].
  unfold on_self, lift. cbn [fst snd] in *. by rewrite E.
Qed.
Lemma follows_on_frontend {A} (m : ST F A) m' s :
  Faulty.follows src I good m m' s.1 -> follows (on_frontend m) (on_frontend m') s.
Proof.
  destruct s as [f cx]. cbn [fst]. unfold Faulty.follows, on_frontend, lift, mounted. cbn [fst snd].
  intros [(e&He&Hd)|[-> HI]]; destruct (m f) as [r f1]; cbn [fst snd] in *; [left; by exists e|by right].
Qed.

Context `{!FaultyFs}.

Lemma child_follows n nm s : I s.1 -> follows (child_of n nm) (child_of n nm) s.
Proof.
  intros HI. apply follows_bind; [by apply ff_lookup|]. intros o s1 J1.
  apply follows_bind; [by apply follows_same|]. intros c s2 J2.
  apply follows_bind; [by apply ff_metadata|]. intros md s3 J3. by apply follows_ret.
Qed.

Lemma step_follows links comp rest n s :
  (forall n s, I s.1 -> follows (resolve_loop (S := S) links rest n) (resolve_loop (S := Ideal S) links rest n) s) ->
  (forall links', links = Datatypes.S links' -> forall pending n s, I s.1 ->
     follows (resolve_loop (S := S) links' pending n) (resolve_loop (S := Ideal S) links' pending n) s) ->
  I s.1 -> follows (resolve_loop (S := S) links (comp :: rest) n) (resolve_loop (S := Ideal S) links (comp :: rest) n) s.
Proof.
  intros IHp IHl HI. destruct (decide (comp = dotdot)) as [->|Hd].
  { destruct links; cbn [resolve_loop]; rewrite decide_True by done; by apply follows_err. }
  unfold follows. rewrite !resolve_loop_cons by done. eapply follows_bind; [by apply child_follows|].
  intros [c md] s1 J1. destruct (decide _); [|by apply IHp].
  destruct links as [|links']; cbn [follow]; [by apply follows_err|].
  apply follows_bind; [by apply ff_read_link|]. intros t s2 J2.
  apply follows_bind; [by apply follows_same|]. intros tg s3 J3.
  apply follows_bind; [by apply follows_same|]. intros tg' s4 J4.
  apply follows_get. cbn [lift fst]. rewrite ff_root by done. by apply (IHl links' eq_refl).
Qed.

Lemma resolve_loop_follows links : forall pending n s, I s.1 ->
  follows (resolve_loop (S := S) links pending n) (resolve_loop (S := Ideal S) links pending n) s.
Proof.
  induction links as [|links IHl]; induction pending as [|comp rest IHp]; intros n s HI;
    try by apply follows_ret.
  - by apply step_follows.
  - apply step_follows; try done. by intros links' [= <-].
Qed.

Lemma resolve_follows path s : I s.1 -> follows (resolve (S := S) path) (resolve (S := Ideal S) path) s.
Proof.
  intros HI. unfold resolve. apply follows_get. cbn [lift fst]. rewrite ff_root by done. by apply resolve_loop_follows.
Qed.

Lemma read_loop_follows n total fuel : forall done_ out s, I s.1 ->
  follows (read_loop (S := S) fuel n total done_ out) (read_loop (S := Ideal S) fuel n total done_ out) s.
Proof.
  induction fuel as [|fuel IH]; intros done_ out s HI; cbn [read_loop]; [by right|].
  destruct (_ <? _); [|by apply follows_ret].
  apply follows_bind; [by apply follows_same|]. intros tail s1 J1.
  apply follows_bind; [by apply ff_read_at|]. intros [k b] s2 J2. destruct (k =? 0); [by apply follows_ret|by apply IH].
Qed.

Lemma path_op_follows op s : I s.1 -> follows (path_op (S := S) op) (path_op (S := Ideal S) op) s.
Proof.
  intros HI. destruct op as [p|p|p]; cbn [path_op];
    (apply follows_bind; [|intros a s' J'; by apply follows_ret]);
    (apply follows_bind; [by apply resolve_follows|]; intros n s1 J1).
  - apply follows_bind; [by apply ff_metadata|]. intros md s2 J2. destruct (decide _); [by apply follows_err|].
    apply follows_bind; [by apply follows_same|]. intros total s3 J3. by apply read_loop_follows.
  - by apply ff_read_dir.
  - by apply ff_metadata.
Qed.

Lemma session_faulty ops : forall s, I s.1 -> agree (session (S := S) ops s) (session (S := Ideal S) ops (lift s)).
Proof.
  induction ops as [|op ops IH]; intros s HI; cbn [session]; [constructor|].
  destruct (path_op_follows op s HI) as [(e&He&Hd)|[Hm HI']].
  - destruct (path_op op s) as [r s1]. cbn [fst] in He. subst r. by constructor.
  - rewrite Hm. destruct (path_op op s) as [r s1]. cbn [fst snd] in *. constructor. by apply IH.
Qed.
End Sessions.
Arguments FaultyFs S {_ _} F F' {_ _} src I good.

(** What a frontend makes of a device that fails: probing, mounting and any session
    on what was mounted go as in the good device, or meet an error of the device.
    [lost] is the damage the format may take at mounting. *)
Section Reports.
Context {S : Type} `{SourceLaws S} (F F' : Type) `{!FoldFrontend F S} `{!FoldFrontend F' (Ideal S)}.

Definition mounts (lost : F -> F' -> Prop) (src : S) (cx : SubstrateCtx) : Prop :=
  match open_ (F := F) src cx with
  | (Ok fs, cx1) => exists fs', open_ (F := F') (mkIdeal src) cx = (Ok fs', cx1) /\
      (lost fs fs' \/ forall ops, agree src (session (S := S) ops (fs, cx1)) (session (S := Ideal S) ops (fs', cx1)))
  | (Err e, cx1) => device_error src e \/ open_ (F := F') (mkIdeal src) cx = (Err e, cx1)
  | (Panic, cx1) => open_ (F := F') (mkIdeal src) cx = (Panic, cx1)
  | (Overflow, cx1) => open_ (F := F') (mkIdeal src) cx = (Overflow, cx1)
  | (Diverge, cx1) => open_ (F := F') (mkIdeal src) cx = (Diverge, cx1)
  end.

Definition reports (lost : F -> F' -> Prop) (src : S) (cx : SubstrateCtx) : Prop :=
  or_error src (probe (F := F) src) (probe (F := F') (mkIdeal src)) /\ mounts lost src cx.

Lemma mounts_faulty src I good lost cx o o' : FaultyFs S F F' src I good ->
  open_ (F := F) src cx = (o, cx) -> open_ (F := F') (mkIdeal src) cx = (o', cx) ->
  or_error_on src I good o o' -> mounts lost src cx.
Proof.
  intros HF Ho Ho' Hm. unfold mounts. rewrite Ho, Ho'. destruct Hm as [[-> HI]|(e&->&He)]; [|by left].
  destruct o as [fs|e| | |]; try done; [|by right]. exists (good fs). split; [done|]. right. intros ops.
  apply (session_faulty src I good ops (fs, cx)). by apply HI.
Qed.
End Reports.
Arguments reports {S _ _} F F' {_ _} lost src cx.
Arguments mounts {S _ _} F F' {_ _} lost src cx.
