(* ===== verification/Verity.v ===== *)
(** * The native fs-verity Merkle tree and its verifier
      ([crates/lamfold/src/verity.rs])

    SHA-256 itself comes from the [sha2] crate and is the parameter [sha256];
    hashing in several [update] calls is hashing the concatenation.  [MerkleRoot]
    is the published tree construction the loops are compared with. *)
From S2P Require Import Prelude Text Cache Substrate.
Open Scope Z_scope.

Definition DEFAULT_BLOCK_LOG : Z := 12.
Definition HASH_LEN : Z := 32.
Definition SHA256_INPUT_BLOCK : Z := 64.

Definition padded_salt (salt : list byte) : list byte :=
  if decide (salt = []) then []
  else
    let rem := zlen salt mod SHA256_INPUT_BLOCK in
    if negb (rem =? 0) then salt ++ zeros (SHA256_INPUT_BLOCK - rem) else salt.

(** The zero-padding loop of [hash_block]; [h] is what the hasher has absorbed. *)
Fixpoint pad_loop (fuel : nat) (h : list byte) (pad : Z) : Res (list byte) :=
  match fuel with
  | O => Diverge
  | S fuel' =>
      if pad >? 0 then
        let n := Z.min pad SHA256_INPUT_BLOCK in
        pad_loop fuel' (h ++ zeros n) (pad - n)
      else Ok h
  end.

Section Merkle.
Variable sha256 : list byte -> list byte.

Definition hash_block (salt_prefix block : list byte) (bs : Z) : Res (list byte) :=
  let! pad := subw bs (zlen block) in
  let! h := pad_loop (S (Z.to_nat pad)) (salt_prefix ++ block) pad in
  Ok (sha256 h).

(** One level up: the digests of the blocks of [level], packed. *)
Definition hash_level (salt_prefix level : list byte) (bs nblocks : Z) : Res (list byte) :=
  for_loop (Z.to_nat nblocks) 0 (fun i next =>
    let start := i * bs in
    let end_ := Z.min (start + bs) (zlen level) in
    let! block := slice level start end_ in
    let! d := hash_block salt_prefix block bs in
    Ok (next ++ d)) [].

(** The [loop] of [merkle_root]. *)
Fixpoint merkle_loop (fuel : nat) (level : list byte) (bs : Z) (salt_prefix : list byte)
    : Res (list byte) :=
  match fuel with
  | O => Diverge
  | S fuel' =>
      let nblocks := div_ceil (zlen level) bs in
      if nblocks <=? 1 then hash_block salt_prefix level bs
      else
        let! next := hash_level salt_prefix level bs nblocks in
        merkle_loop fuel' next bs salt_prefix
  end.

(** A level of [n] bytes never needs [n] rounds when blocks hold two digests. *)
Definition merkle_root (data : list byte) (bs : Z) (salt_prefix : list byte) : Res (list byte) :=
  if decide (data = []) then Ok (zeros HASH_LEN)
  else merkle_loop (S (length data)) data bs salt_prefix.

Definition fsverity_digest_sha256 (data : list byte) (block_log : Z) (salt : list byte)
    : Res (list byte) :=
  let! bs := shl_one block_log in
  let! root := merkle_root data bs (padded_salt salt) in
  let desc := zeros 256 in
  let! desc := write_at desc 0 [to_u8 1] in
  let! desc := write_at desc 1 [to_u8 1] in
  let! desc := write_at desc 2 [to_u8 block_log] in
  let! desc := write_at desc 3 [to_u8 (zlen salt)] in
  let! desc := write_at desc 8 (le_bytes 8 (zlen data)) in
  let! desc := write_at desc 16 root in
  let sl := Z.min (zlen salt) 32 in
  let! salt_field := slice salt 0 sl in
  let! desc := write_at desc 80 salt_field in
  Ok (sha256 desc).

Record MerkleVerifier : Type := mkMerkle {
  mv_block_size : Z;
  mv_salt_prefix : list byte;
  mv_leaves : list (list byte);
  mv_measurement : list byte;
}.

(** The leaf loop of [MerkleVerifier::over]. *)
Fixpoint leaves_loop (fuel : nat) (data : list byte) (block_size : Z)
    (salt_prefix : list byte) (i : Z) (leaves : list (list byte)) : Res (list (list byte)) :=
  match fuel with
  | O => Diverge
  | S fuel' =>
      if i <? zlen data then
        let end_ := Z.min (i + block_size) (zlen data) in
        let! block := slice data i end_ in
        let! d := hash_block salt_prefix block block_size in
        leaves_loop fuel' data block_size salt_prefix (i + block_size) (leaves ++ [d])
      else Ok leaves
  end.

Definition over (data : list byte) (block_log : Z) (salt : list byte) : Res MerkleVerifier :=
  let! block_size := shl_one block_log in
  let salt_prefix := padded_salt salt in
  let! leaves := leaves_loop (S (length data)) data block_size salt_prefix 0 [] in
  let! m := fsverity_digest_sha256 data block_log salt in
  Ok (mkMerkle block_size salt_prefix leaves m).

Definition measurement (v : MerkleVerifier) : list byte := mv_measurement v.
Definition block_size (v : MerkleVerifier) : Z := mv_block_size v.

Definition merkle_verify_block (v : MerkleVerifier) (_ : NodeId) (offset : Z) (data : list byte)
    : Res unit :=
  if negb (offset mod mv_block_size v =? 0) then Err (VerifyFailed "unaligned verify offset")
  else
    let idx := offset / mv_block_size v in
    let! want := ok_or (get (mv_leaves v) idx) (VerifyFailed "block past Merkle tree") in
    let! d := hash_block (mv_salt_prefix v) data (mv_block_size v) in
    if decide (d = want) then Ok tt else Err (VerifyFailed "block hash mismatch").

(** [impl Verifier for MerkleVerifier]. *)
Definition MerkleVerifier_verifier (v : MerkleVerifier) : Verifier :=
  mkVerifier (merkle_verify_block v).

(** ** The published construction *)

(** A block zero-padded to the block size. *)
Definition pad_block (bs : Z) (b : list byte) : list byte := b ++ zeros (bs - zlen b).
(** The digest of a block: SHA-256 of the salt and the padded block. *)
Definition digest (bs : Z) (salt_prefix b : list byte) : list byte :=
  sha256 (salt_prefix ++ pad_block bs b).

(** [l] cut into blocks of [bs] bytes, the last one possibly shorter. *)
Definition nth_block (bs : Z) (l : list byte) (i : Z) : list byte :=
  sub l (i * bs) (Z.min bs (zlen l - i * bs)).
Definition blocks (bs : Z) (l : list byte) : list (list byte) :=
  nth_block bs l <$> seqZ 0 (div_ceil (zlen l) bs).

Inductive MerkleRoot (bs : Z) (salt_prefix : list byte) : list byte -> list byte -> Prop :=
| MerkleRoot_block l :
    zlen l <= bs -> MerkleRoot bs salt_prefix l (digest bs salt_prefix l)
| MerkleRoot_level l r :
    bs < zlen l ->
    MerkleRoot bs salt_prefix (concat (digest bs salt_prefix <$> blocks bs l)) r ->
    MerkleRoot bs salt_prefix l r.

(** The 256-byte [struct fsverity_descriptor] of an SHA-256 file. *)
Definition descriptor (len block_log : Z) (salt root : list byte) : list byte :=
  [to_u8 1; to_u8 1; to_u8 block_log; to_u8 (zlen salt)] ++ zeros 4 ++ le_bytes 8 len ++
  root ++ zeros 32 ++ pad_block 32 (take 32 salt) ++ zeros 144.

(** ** Lemmas *)

Hypothesis sha_len : forall l, zlen (sha256 l) = HASH_LEN.

Lemma pad_loop_Ok fuel : forall h pad,
  0 <= pad -> (Z.to_nat pad < fuel)%nat -> pad_loop fuel h pad = Ok (h ++ zeros pad).
Proof.
  induction fuel as [|fuel IH]; intros h pad Hp Hf; [lia|]. simpl. rewrite Z.gtb_ltb.
  destruct (Z.ltb_spec 0 pad).
  - unfold SHA256_INPUT_BLOCK. rewrite IH by lia. rewrite <- app_assoc, zeros_app by lia.
    do 3 f_equal. lia.
  - assert (pad = 0) as -> by lia. by rewrite app_nil_r.
Qed.

Lemma hash_block_Ok sp b bs : zlen b <= bs -> hash_block sp b bs = Ok (digest bs sp b).
Proof.
  intros. pose proof (zlen_nonneg b). unfold hash_block. rewrite subw_eq by lia. cbn [bindR].
  rewrite pad_loop_Ok by lia. cbn [bindR]. unfold digest, pad_block. by rewrite <- app_assoc.
Qed.

Lemma zlen_digest bs sp b : zlen (digest bs sp b) = HASH_LEN.
Proof. apply sha_len. Qed.

(** Block [i] of a level starts inside it. *)
Lemma block_in bs len i : 0 < bs -> 0 <= len -> 0 <= i < div_ceil len bs -> i * bs < len.
Proof. intros Hb Hl Hi. destruct (div_ceil_spec len bs Hb Hl); nia. Qed.

Lemma zlen_nth_block bs l i :
  0 < bs -> 0 <= i < div_ceil (zlen l) bs ->
  zlen (nth_block bs l i) = Z.min bs (zlen l - i * bs) /\ 0 < zlen (nth_block bs l i) <= bs.
Proof.
  intros Hb Hi. pose proof (zlen_nonneg l).
  pose proof (block_in bs (zlen l) i Hb ltac:(done) Hi).
  unfold nth_block. rewrite zlen_sub by nia. lia.
Qed.

Lemma hash_level_Ok sp l bs :
  0 < bs -> hash_level sp l bs (div_ceil (zlen l) bs) = Ok (concat (digest bs sp <$> blocks bs l)).
Proof.
  intros Hb. pose proof (zlen_nonneg l). pose proof (div_ceil_nonneg (zlen l) bs Hb ltac:(done)).
  unfold hash_level, blocks. rewrite <- list_fmap_compose.
  rewrite (for_loop_concat (digest bs sp ∘ nth_block bs l)).
  - by rewrite Z2Nat.id by done.
  - intros i a Hi. rewrite Z2Nat.id in Hi by done.
    pose proof (block_in bs (zlen l) i Hb ltac:(done) Hi).
    rewrite slice_eq by nia. cbn [bindR].
    replace (Z.min (i * bs + bs) (zlen l) - i * bs) with (Z.min bs (zlen l - i * bs)) by lia.
    fold (nth_block bs l i). rewrite hash_block_Ok; [done|].
    apply zlen_nth_block; [done|lia].
Qed.

Lemma zlen_concat_digests sp bs ls :
  zlen (concat (digest bs sp <$> ls)) = HASH_LEN * zlen ls.
Proof.
  induction ls as [|x ls IH]; [done|].
  change (concat (digest bs sp <$> x :: ls))
    with (digest bs sp x ++ concat (digest bs sp <$> ls)).
  rewrite zlen_app, zlen_cons, IH, zlen_digest. lia.
Qed.

Lemma zlen_level sp bs l :
  0 < bs -> zlen (concat (digest bs sp <$> blocks bs l)) = HASH_LEN * div_ceil (zlen l) bs.
Proof.
  intros. rewrite zlen_concat_digests. unfold blocks. rewrite zlen_fmap. f_equal.
  unfold zlen at 1. rewrite length_seqZ. pose proof (zlen_nonneg l).
  pose proof (div_ceil_nonneg (zlen l) bs ltac:(done) ltac:(done)). lia.
Qed.

(** With blocks of at least two digests every level is shorter than the one
    below, so the loop ends with the root of the tree. *)
Lemma merkle_loop_Ok sp bs : 64 <= bs -> forall fuel l,
  (length l < fuel)%nat -> exists r, merkle_loop fuel l bs sp = Ok r /\ MerkleRoot bs sp l r.
Proof.
  intros Hb. induction fuel as [|fuel IH]; intros l Hf; [lia|]. simpl.
  pose proof (zlen_nonneg l).
  destruct (Z.leb_spec (div_ceil (zlen l) bs) 1) as [Hle|Hgt].
  - rewrite div_ceil_le_1 in Hle by lia. rewrite hash_block_Ok by done.
    eexists. split; [done|]. by constructor.
  - assert (bs < zlen l) as Hlt.
    { destruct (Z.le_gt_cases (zlen l) bs) as [Hle|]; [|done].
      apply div_ceil_le_1 in Hle; lia. }
    rewrite hash_level_Ok by lia. cbn [bindR].
    destruct (IH (concat (digest bs sp <$> blocks bs l))) as (r&->&Hr).
    + pose proof (zlen_level sp bs l ltac:(lia)) as Hz.
      destruct (div_ceil_spec (zlen l) bs ltac:(lia) ltac:(lia)); [|lia].
      assert (HASH_LEN * div_ceil (zlen l) bs < zlen l) by (unfold HASH_LEN; nia).
      unfold zlen in *. lia.
    + exists r. split; [done|]. by constructor.
Qed.

(** With blocks of at most one digest a level is never shorter than the one
    below, and the loop never ends. *)
Lemma merkle_loop_stuck sp bs : 0 < bs <= 32 -> forall fuel l,
  bs < zlen l -> merkle_loop fuel l bs sp = Diverge.
Proof.
  intros Hb. induction fuel as [|fuel IH]; intros l Hl; [done|]. simpl.
  destruct (Z.leb_spec (div_ceil (zlen l) bs) 1) as [Hle|Hgt].
  { rewrite div_ceil_le_1 in Hle; lia. }
  rewrite hash_level_Ok by lia. cbn [bindR]. apply IH.
  rewrite zlen_level by lia. pose proof (div_ceil_ge (zlen l) bs ltac:(lia)).
  unfold HASH_LEN. nia.
Qed.

Lemma MerkleRoot_len bs sp l r : MerkleRoot bs sp l r -> zlen r = HASH_LEN.
Proof. induction 1; [apply zlen_digest|done]. Qed.

Lemma MerkleRoot_unique bs sp l r r' :
  MerkleRoot bs sp l r -> MerkleRoot bs sp l r' -> r = r'.
Proof. intros H. revert r'. induction H; inversion 1; subst; [done|lia|lia|auto]. Qed.

Lemma merkle_root_Ok data bs sp : 64 <= bs -> data <> [] ->
  exists r, merkle_root data bs sp = Ok r /\ MerkleRoot bs sp data r.
Proof.
  intros Hb Hd. unfold merkle_root. rewrite decide_False by done.
  apply merkle_loop_Ok; [done|]. lia.
Qed.

(** The descriptor buffer, written field by field, is the published struct. *)
Lemma digest_descriptor data block_log salt bs root :
  shl_one block_log = Ok bs -> merkle_root data bs (padded_salt salt) = Ok root ->
  zlen root = HASH_LEN ->
  fsverity_digest_sha256 data block_log salt
  = Ok (sha256 (descriptor (zlen data) block_log salt root)).
Proof.
  intros Hbs Hroot Hlen. unfold fsverity_digest_sha256. rewrite Hbs. cbn [bindR].
  rewrite Hroot. cbn [bindR]. pose proof (zlen_nonneg salt).
  set (sl := Z.min (zlen salt) 32). set (h := [to_u8 1; to_u8 1; to_u8 block_log; to_u8 (zlen salt)]).
  change (zeros 256) with ([] ++ zeros 256).
  rewrite (write_tail [] 256 0 [to_u8 1] 0 255) by done. cbn [bindR].
  rewrite (write_tail _ 255 1 [to_u8 1] 0 254) by done. cbn [bindR].
  rewrite (write_tail _ 254 2 [to_u8 block_log] 0 253) by done. cbn [bindR].
  rewrite (write_tail _ 253 3 [to_u8 (zlen salt)] 0 252) by done. cbn [bindR].
  change (((([] ++ zeros 0 ++ [to_u8 1]) ++ _) ++ _) ++ zeros 0 ++ [to_u8 (zlen salt)]) with h.
  rewrite (write_tail h 252 8 (le_bytes 8 (zlen data)) 4 240)
    by (rewrite ?zlen_le_bytes; done). cbn [bindR].
  rewrite (write_tail _ 240 16 root 0 208)
    by (autorewrite with zlen; rewrite ?zlen_le_bytes, ?Hlen; done). cbn [bindR].
  rewrite slice_eq by lia. cbn [bindR].
  assert (Hs : sub salt 0 (sl - 0) = take 32 salt).
  { unfold sub, sl, zlen. rewrite drop_0.
    destruct (Z.min_spec (Z.of_nat (length salt)) 32) as [[? ->]|[? ->]]; [|done].
    rewrite !take_ge by lia. done. }
  assert (Hsl : zlen (take 32 salt) = sl) by (unfold sl, zlen; rewrite length_take; lia).
  rewrite (write_tail _ 208 80 (sub salt 0 (sl - 0)) 32 (176 - sl))
    by (autorewrite with zlen; rewrite ?zlen_le_bytes, ?zlen_sub, ?Hlen by lia; 
       (done || lia || (unfold sl; vm_compute zlen; lia))). cbn [bindR].
  rewrite Hs. unfold descriptor, pad_block. rewrite Hsl. fold h.
  rewrite <- !app_assoc, zeros_app by lia.
  replace (32 - sl + 144) with (176 - sl) by lia. done.
Qed.

Lemma div_ceil_gt n b k : 0 < b -> 0 <= n -> 0 <= k -> k < div_ceil n b <-> k * b < n.
Proof.
  intros Hb Hn Hk. pose proof (div_ceil_ge n b Hb). destruct (div_ceil_spec n b Hb Hn) as [?|[-> ->]]; nia.
Qed.

Lemma leaves_loop_Ok data sp bs : 0 < bs -> forall m fuel k acc,
  0 <= k -> k + Z.of_nat m = div_ceil (zlen data) bs -> (m < fuel)%nat ->
  leaves_loop fuel data bs sp (k * bs) acc
  = Ok (acc ++ (digest bs sp <$> (nth_block bs data <$> seqZ k (Z.of_nat m)))).
Proof.
  intros Hb. pose proof (zlen_nonneg data) as Hn.
  induction m as [|m IH]; intros fuel k acc Hk Hm Hf; destruct fuel as [|fuel]; try lia; simpl.
  - pose proof (div_ceil_gt (zlen data) bs k Hb Hn Hk).
    destruct (Z.ltb_spec (k * bs) (zlen data)); [lia|]. by rewrite app_nil_r.
  - pose proof (proj1 (div_ceil_gt (zlen data) bs k Hb Hn Hk) ltac:(lia)).
    rewrite (proj2 (Z.ltb_lt _ _)) by done. rewrite slice_eq by nia. cbn [bindR].
    replace (Z.min (k * bs + bs) (zlen data) - k * bs)
      with (Z.min bs (zlen data - k * bs)) by lia.
    fold (nth_block bs data k).
    rewrite hash_block_Ok by (apply zlen_nth_block; [done|lia]). cbn [bindR].
    replace (k * bs + bs) with ((k + 1) * bs) by lia. rewrite IH by lia.
    rewrite (seqZ_cons k) by lia. cbn [fmap list_fmap]. rewrite <- app_assoc.
    replace (Z.succ k) with (k + 1) by lia. replace (Z.pred _) with (Z.of_nat m) by lia. done.
Qed.

(** Any tree whose blocks hold two digests is built. *)
Lemma fsverity_Ok data block_log salt : 6 <= block_log < 64 ->
  exists root, fsverity_digest_sha256 data block_log salt
      = Ok (sha256 (descriptor (zlen data) block_log salt root)) /\
    (data = [] /\ root = zeros HASH_LEN \/
     data <> [] /\ MerkleRoot (2 ^ block_log) (padded_salt salt) data root).
Proof.
  intros Hl. pose proof (Z.pow_le_mono_r 2 6 block_log ltac:(lia) ltac:(lia)) as Hp.
  assert (Hbs : shl_one block_log = Ok (2 ^ block_log)) by (apply shl_one_Ok; lia).
  destruct (decide (data = [])) as [->|Hd].
  - exists (zeros HASH_LEN). split; [|by left].
    by apply (digest_descriptor [] block_log salt (2 ^ block_log)).
  - destruct (merkle_root_Ok data (2 ^ block_log) (padded_salt salt)) as (root&Hr&Hm); [lia|done|].
    exists root. split; [|by right].
    eapply digest_descriptor; [done|done|]. by eapply MerkleRoot_len.
Qed.

Lemma over_Ok data block_log salt : 6 <= block_log < 64 ->
  exists m, over data block_log salt
    = Ok (mkMerkle (2 ^ block_log) (padded_salt salt)
            (digest (2 ^ block_log) (padded_salt salt) <$> blocks (2 ^ block_log) data) m) /\
    fsverity_digest_sha256 data block_log salt = Ok m.
Proof.
  intros Hl. pose proof (Z.pow_le_mono_r 2 6 block_log ltac:(lia) ltac:(lia)) as Hp.
  destruct (fsverity_Ok data block_log salt Hl) as (root&Hf&_).
  eexists. split; [|exact Hf].
  assert (Hbs : shl_one block_log = Ok (2 ^ block_log)) by (apply shl_one_Ok; lia).
  unfold over. rewrite Hbs. cbn [bindR].
  pose proof (zlen_nonneg data).
  pose proof (div_ceil_nonneg (zlen data) (2 ^ block_log) ltac:(lia) ltac:(done)).
  rewrite (leaves_loop_Ok data (padded_salt salt) (2 ^ block_log) ltac:(lia)
    (Z.to_nat (div_ceil (zlen data) (2 ^ block_log))) _ 0 []).
  - cbn [bindR]. rewrite Hf. cbn [bindR]. rewrite Z2Nat.id by done. done.
  - done.
  - lia.
  - assert (div_ceil (zlen data) (2 ^ block_log) <= zlen data); [|unfold zlen in *; lia].
    destruct (div_ceil_spec (zlen data) (2 ^ block_log) ltac:(lia) ltac:(lia)); nia.
Qed.

Lemma blocks_lookup bs data i : 0 <= i ->
  get (blocks bs data) i = if i <? div_ceil (zlen data) bs then Some (nth_block bs data i) else None.
Proof.
  intros Hi. unfold get, blocks. destruct (Z.ltb_spec i 0); [lia|]. rewrite list_lookup_fmap.
  destruct (Z.ltb_spec i (div_ceil (zlen data) bs)).
  - rewrite lookup_seqZ_lt by lia. simpl. do 2 f_equal. lia.
  - rewrite lookup_seqZ_ge by lia. done.
Qed.

Lemma get_fmap {A B} (f : A -> B) l i : get (f <$> l) i = f <$> get l i.
Proof. unfold get. destruct (i <? 0); [done|]. apply list_lookup_fmap. Qed.

(** What a verifier over [data] answers for a block of at most the block size. *)
Lemma verify_block_iff data block_log salt v node off d :
  6 <= block_log < 64 -> over data block_log salt = Ok v ->
  0 <= off -> zlen d <= 2 ^ block_log ->
  merkle_verify_block v node off d = Ok tt <->
  exists i, off = i * 2 ^ block_log /\ 0 <= i < div_ceil (zlen data) (2 ^ block_log) /\
    digest (2 ^ block_log) (padded_salt salt) d
    = digest (2 ^ block_log) (padded_salt salt) (nth_block (2 ^ block_log) data i).
Proof.
  intros Hl Hv Ho Hd. pose proof (Z.pow_le_mono_r 2 6 block_log ltac:(lia) ltac:(lia)) as Hp.
  destruct (over_Ok data block_log salt Hl) as (m&Hm&_). rewrite Hm in Hv. injection Hv as <-.
  unfold merkle_verify_block. cbn [mv_block_size mv_leaves mv_salt_prefix].
  set (bs := 2 ^ block_log) in *.
  pose proof (Z.div_mod off bs ltac:(lia)) as Hdm.
  pose proof (Z.div_pos off bs ltac:(lia) ltac:(lia)).
  destruct (Z.eqb_spec (off mod bs) 0) as [Hz|Hz]; cbn [negb].
  - rewrite get_fmap, blocks_lookup by done.
    destruct (Z.ltb_spec (off / bs) (div_ceil (zlen data) bs)); cbn [fmap option_fmap option_map ok_or bindR].
    + rewrite hash_block_Ok by done. cbn [bindR]. destruct (decide _) as [e|n]; split.
      * intros _. exists (off / bs). split; [lia|]. split; [lia|done].
      * done.
      * done.
      * intros (i&->&Hi&Hg). rewrite Z.div_mul in n by lia. done.
    + split; [done|]. intros (i&->&Hi&Hg). rewrite Z.div_mul in * by lia. lia.
  - split; [done|]. intros (i&->&Hi&Hg). rewrite Z.mod_mul in Hz by lia. done.
Qed.

Lemma verify_block_returns v node off d :
  zlen d <= mv_block_size v -> returns (merkle_verify_block v node off d).
Proof.
  intros. unfold merkle_verify_block. destruct (negb _); [done|].
  destruct (get _ _); [|done]. cbn [ok_or bindR]. rewrite hash_block_Ok by done. cbn [bindR].
  by destruct (decide _).
Qed.

Lemma pad_block_inj bs a b : zlen a = zlen b -> pad_block bs a = pad_block bs b -> a = b.
Proof.
  unfold pad_block, zlen. intros Hl Hp. apply app_inj_1 in Hp as [? _]; [done|lia].
Qed.

(** Blocks of one length that differ are hashed from strings that differ. *)
Lemma padded_blocks_differ bs salt a b : zlen a = zlen b -> a <> b ->
  salt ++ pad_block bs a <> salt ++ pad_block bs b.
Proof. intros Hl Hne Heq. apply (inj (salt ++.)) in Heq. by apply Hne, (pad_block_inj bs). Qed.

(** What acceptance at a block's offset means: the digests are equal. *)
Lemma accepted_digest data block_log salt v node i d :
  6 <= block_log < 64 -> over data block_log salt = Ok v -> 0 <= i -> zlen d <= 2 ^ block_log ->
  merkle_verify_block v node (i * 2 ^ block_log) d = Ok tt ->
  digest (2 ^ block_log) (padded_salt salt) d
  = digest (2 ^ block_log) (padded_salt salt) (nth_block (2 ^ block_log) data i).
Proof.
  intros Hl Hv Hi Hd Hok. pose proof (Z.pow_le_mono_r 2 6 block_log ltac:(lia) ltac:(lia)) as Hp.
  apply (verify_block_iff data block_log salt v) in Hok as (j&Hj&_&Hg); try done; [|nia].
  by assert (i = j) as <- by nia.
Qed.

Lemma get_zeros n j : 0 <= j < n -> get (zeros n) j = Some x00.
Proof. intros Hj. apply get_Some. split; [lia|]. apply lookup_replicate_2. lia. Qed.

(** [d] passes for block [i] of [data] although another string is hashed for it: the
    two strings are an SHA-256 collision. *)
Definition forges data block_log salt i d : Prop :=
  let x := padded_salt salt ++ pad_block (2 ^ block_log) d in
  let y := padded_salt salt ++ pad_block (2 ^ block_log) (nth_block (2 ^ block_log) data i) in
  x <> y /\ sha256 x = sha256 y.

(** A byte of an accepted block is the byte of the data there, or a zero past its
    end, or the block is forged. *)
Lemma accepted_byte data block_log salt v node i d k x :
  6 <= block_log < 64 -> over data block_log salt = Ok v -> 0 <= i -> zlen d <= 2 ^ block_log ->
  merkle_verify_block v node (i * 2 ^ block_log) d = Ok tt -> get d k = Some x ->
  get (data ++ zeros (i * 2 ^ block_log + k + 1)) (i * 2 ^ block_log + k) = Some x \/
  forges data block_log salt i d.
Proof.
  intros Hl Hv Hi Hd Hok Hk. pose proof (Z.pow_le_mono_r 2 6 block_log ltac:(lia) ltac:(lia)) as Hp.
  apply (verify_block_iff data block_log salt v) in Hok as (j&Hj&Hjr&Hg); try done; [|nia].
  assert (i = j) as <- by nia. set (bs := 2 ^ block_log) in *. unfold digest in Hg.
  set (b := nth_block bs data i) in *.
  destruct (decide (padded_salt salt ++ pad_block bs d = padded_salt salt ++ pad_block bs b)) as [E|Hne];
    [left|right; by split].
  apply (inj (padded_salt salt ++.)) in E. apply get_Some in Hk as Hk'. destruct Hk' as [Hk0 _].
  assert (Hkd : k < zlen d) by (assert (is_Some (get d k)) as Hs by (by exists x); apply get_is_Some in Hs; lia).
  pose proof (zlen_nonneg data). pose proof (proj1 (div_ceil_gt (zlen data) bs i ltac:(lia) ltac:(lia) Hi) (proj2 Hjr)).
  assert (Hz : zlen b = Z.min bs (zlen data - i * bs)) by (unfold b, nth_block; rewrite zlen_sub; nia).
  assert (Hb : get (b ++ zeros (bs - zlen b)) k = Some x) by (fold (pad_block bs b); rewrite <- E; unfold pad_block; by rewrite get_app_l by lia).
  destruct (Z.lt_ge_cases k (zlen b)) as [Hlt|Hge].
  - rewrite get_app_l in Hb by lia. unfold b, nth_block in Hb. rewrite get_sub in Hb by nia. by rewrite get_app_l by nia.
  - replace k with (zlen b + (k - zlen b)) in Hb by lia. rewrite get_app_r, get_zeros in Hb by lia. injection Hb as <-.
    replace (i * bs + k) with (zlen data + (i * bs + k - zlen data)) at 2 by lia.
    rewrite get_app_r, get_zeros by lia. done.
Qed.

(** ** Properties *)

(** C12.  For every block size from 64 bytes up, and any content and salt, the
    digest function terminates without panicking and returns SHA-256 of the
    published 256-byte descriptor, whose root field is the root of the published
    Merkle tree over the content (all zero for an empty file); the tree root is
    unique. *)
Theorem fsverity_digest_correct data block_log salt : 6 <= block_log < 64 ->
  exists root, fsverity_digest_sha256 data block_log salt
      = Ok (sha256 (descriptor (zlen data) block_log salt root)) /\
    (data = [] /\ root = zeros HASH_LEN \/
     data <> [] /\ forall r, MerkleRoot (2 ^ block_log) (padded_salt salt) data r <-> r = root).
Proof.
  intros Hl. destruct (fsverity_Ok data block_log salt Hl) as (root&Hf&[?|[Hd Hr]]);
    exists root; (split; [exact Hf|]); [by left|right]. split; [done|]. intros r. split.
  - intros Hr'. by apply (MerkleRoot_unique _ _ _ _ _ Hr').
  - by intros ->.
Qed.

(** A verifier built over [data] always answers a block of at most the block
    size, and accepts it exactly when the offset is that of one of the blocks of
    [data] and the padded block has that block's digest. *)
Theorem verify_block_spec data block_log salt v node off d :
  6 <= block_log < 64 -> over data block_log salt = Ok v ->
  0 <= off -> zlen d <= 2 ^ block_log ->
  returns (merkle_verify_block v node off d) /\
  (merkle_verify_block v node off d = Ok tt <->
   exists i, off = i * 2 ^ block_log /\ 0 <= i < div_ceil (zlen data) (2 ^ block_log) /\
     digest (2 ^ block_log) (padded_salt salt) d
     = digest (2 ^ block_log) (padded_salt salt) (nth_block (2 ^ block_log) data i)).
Proof.
  intros Hl Hv Ho Hd. split; [|by apply verify_block_iff].
  apply verify_block_returns.
  destruct (over_Ok data block_log salt Hl) as (m&Hm&_). rewrite Hm in Hv.
  by injection Hv as <-.
Qed.

(** C10.  Tampering is caught: if a verifier over [data] accepts, at the offset of
    block [i], bytes of that block's length that differ from it, then the two
    hashed strings are an SHA-256 collision. *)
Theorem verify_block_sound data block_log salt v node i d :
  6 <= block_log < 64 -> over data block_log salt = Ok v -> 0 <= i ->
  zlen d = zlen (nth_block (2 ^ block_log) data i) -> zlen d <= 2 ^ block_log ->
  d <> nth_block (2 ^ block_log) data i ->
  merkle_verify_block v node (i * 2 ^ block_log) d = Ok tt ->
  let x := padded_salt salt ++ pad_block (2 ^ block_log) d in
  let y := padded_salt salt ++ pad_block (2 ^ block_log) (nth_block (2 ^ block_log) data i) in
  x <> y /\ sha256 x = sha256 y.
Proof.
  intros Hl Hv Hi Hlen Hd Hne Hok x y.
  split; [by apply padded_blocks_differ|by apply (accepted_digest data block_log salt v node)].
Qed.

(** C32.  What the verifier does not catch: a block of [data] that ends in zero
    bytes is also accepted with those bytes cut off, although the content read is
    then shorter than the genuine one. *)
Theorem verify_block_trimmed data block_log salt v node i d k :
  6 <= block_log < 64 -> over data block_log salt = Ok v ->
  0 <= i < div_ceil (zlen data) (2 ^ block_log) -> 0 < k ->
  nth_block (2 ^ block_log) data i = d ++ zeros k ->
  merkle_verify_block v node (i * 2 ^ block_log) d = Ok tt /\
  zlen d < zlen (nth_block (2 ^ block_log) data i).
Proof.
  intros Hl Hv Hi Hk Hb.
  pose proof (Z.pow_le_mono_r 2 6 block_log ltac:(lia) ltac:(lia)) as Hp.
  destruct (zlen_nth_block (2 ^ block_log) data i ltac:(lia) Hi) as [_ Hz].
  rewrite Hb, zlen_app, zlen_zeros in Hz by lia. split.
  - apply (verify_block_iff data block_log salt v); [done|done|nia|lia|].
    exists i. split; [done|]. split; [done|]. rewrite Hb. unfold digest, pad_block.
    rewrite zlen_app, zlen_zeros by lia. rewrite <- !app_assoc, zeros_app by lia.
    do 4 f_equal. lia.
  - rewrite Hb, zlen_app, zlen_zeros by lia. lia.
Qed.

(** C31.  With blocks of at most one digest (32 bytes) and more content than one
    block, no number of rounds of the [loop] of [merkle_root] reaches the root:
    the digest function never returns. *)
Theorem merkle_root_diverges data block_log sp fuel :
  0 <= block_log <= 5 -> 2 ^ block_log < zlen data ->
  merkle_loop fuel data (2 ^ block_log) sp = Diverge.
Proof.
  intros Hl Hd. apply merkle_loop_stuck; [|done].
  pose proof (Z.pow_le_mono_r 2 block_log 5 ltac:(lia) ltac:(lia)).
  pose proof (Z.pow_pos_nonneg 2 block_log ltac:(lia) ltac:(lia)). lia.
Qed.

End Merkle.

(** ** Witnesses, with a toy 32-byte hash *)
Definition toy_sha (l : list byte) : list byte := take 32 (l ++ zeros 32).

Lemma toy_sha_len l : zlen (toy_sha l) = HASH_LEN.
Proof. unfold toy_sha, zlen. rewrite length_take, length_app. unfold zeros, HASH_LEN.
  rewrite length_replicate. lia. Qed.

Definition w_data : list byte := bytes_of "abc" ++ zeros 120 ++ bytes_of "z".

Lemma fsverity_digest_correct_witness :
  exists root, fsverity_digest_sha256 toy_sha w_data 6 [] =
    Ok (toy_sha (descriptor (zlen w_data) 6 [] root)) /\
    (w_data = [] /\ root = zeros HASH_LEN \/
     w_data <> [] /\ forall r, MerkleRoot toy_sha (2 ^ 6) (padded_salt []) w_data r <-> r = root).
Proof. apply (fsverity_digest_correct toy_sha toy_sha_len w_data 6 []). lia. Defined.

Definition w_verifier : MerkleVerifier :=
  match over toy_sha w_data 6 [] with Ok v => v | _ => mkMerkle 0 [] [] [] end.

Lemma verify_block_spec_witness :
  returns (merkle_verify_block toy_sha w_verifier 0 64 (sub w_data 64 60)) /\
  merkle_verify_block toy_sha w_verifier 0 64 (sub w_data 64 60) = Ok tt.
Proof.
  destruct (verify_block_spec toy_sha toy_sha_len w_data 6 [] w_verifier 0 64 (sub w_data 64 60))
    as [Hr Hi]; [lia|vm_compute; reflexivity|lia|vm_compute; discriminate|].
  split; [exact Hr|]. apply Hi. exists 1. split; [lia|]. split; [|vm_compute; reflexivity].
  vm_compute. split; [discriminate|reflexivity].
Defined.

(** The toy hash ignores what follows 32 bytes, so it has collisions to exhibit. *)
Lemma verify_block_sound_witness :
  let x := padded_salt [] ++ pad_block (2 ^ 6) (zeros 60) in
  let y := padded_salt [] ++ pad_block (2 ^ 6) (nth_block (2 ^ 6) w_data 1) in
  x <> y /\ toy_sha x = toy_sha y.
Proof.
  apply (verify_block_sound toy_sha toy_sha_len w_data 6 [] w_verifier 0 1 (zeros 60));
    [lia|vm_compute; reflexivity|lia|vm_compute; reflexivity|vm_compute; discriminate
    |vm_compute; discriminate|vm_compute; reflexivity].
Defined.

Definition w_verifier0 : MerkleVerifier :=
  match over toy_sha (sub w_data 0 70) 6 [] with Ok v => v | _ => mkMerkle 0 [] [] [] end.

Lemma verify_block_trimmed_witness :
  merkle_verify_block toy_sha w_verifier0 0 0 (bytes_of "abc") = Ok tt /\
  zlen (bytes_of "abc") < zlen (nth_block (2 ^ 6) (sub w_data 0 70) 0).
Proof.
  apply (verify_block_trimmed toy_sha toy_sha_len (sub w_data 0 70) 6 [] w_verifier0 0 0
           (bytes_of "abc") 61);
    [lia|vm_compute; reflexivity|vm_compute; split; [discriminate|reflexivity]|lia
    |vm_compute; reflexivity].
Defined.

Lemma merkle_root_diverges_witness :
  2 ^ 5 < zlen w_data /\ merkle_loop toy_sha 20 w_data (2 ^ 5) [] = Diverge.
Proof.
  split; [vm_compute; reflexivity|].
  apply (merkle_root_diverges toy_sha toy_sha_len w_data 5 [] 20); [lia|vm_compute; reflexivity].
Defined.
