(* ===== verification/Codec.v ===== *)
(** * The block decompression registry ([crates/lamfold/src/codec.rs])

    The decoders themselves are third-party crates.  [Decoders] is what the
    registry calls of them, [DecoderLaws] the documented behaviour it relies on;
    [StoredDecoders] is an instance in which every compressed stream stores its
    bytes verbatim, for concrete examples.  All codec features are on. *)
From S2P Require Import Prelude Text Cache Substrate.
Open Scope Z_scope.

Inductive Codec : Type := Deflate | Zlib | Lz4 | Xz | Zstd | Lzo.

(** Status of one [miniz_oxide] [inflate] call. *)
Inductive MZStatus : Type := MZOk | MZStreamEnd | MZError.

Class Decoders : Type := {
  (** [miniz_oxide::inflate::decompress_to_vec_zlib_with_limit] and its raw form *)
  miniz_zlib : list byte -> Z -> option (list byte);
  miniz_raw : list byte -> Z -> option (list byte);
  (** [miniz_oxide::inflate::stream::inflate]: input consumed, bytes written to
      the chunk, status *)
  InflateState : Type;
  inflate_new : InflateState;
  inflate : InflateState -> list byte -> Z -> Z * list byte * MZStatus * InflateState;
  (** [lz4_flex::block]: [decompress], [decompress_into],
      [decompress_into_with_dict]; the bytes written *)
  lz4_decompress : list byte -> Z -> option (list byte);
  lz4_decompress_into : list byte -> Z -> option (list byte);
  lz4_decompress_into_with_dict : list byte -> Z -> list byte -> option (list byte);
  (** [lzokay::decompress::decompress] *)
  lzo_decompress : list byte -> Z -> option (list byte);
  (** The [Read]ers over a borrowed input slice: [read] into a buffer of the
      given size, and the slice as the reader leaves it *)
  Reader : Type;
  rd_read : Reader -> Z -> option (list byte * Reader);
  rd_rest : Reader -> list byte;
  StreamingDecoder_new : list byte -> option Reader;
  XzReader_new : list byte -> Reader;
  LzmaReader_new_mem_limit : list byte -> option Reader;
  LzmaReader_new_with_props : list byte -> Z -> Z -> Z -> option Reader;
}.

Class DecoderLaws (D : Decoders) : Prop := {
  (** Output limits and output buffers are respected. *)
  miniz_zlib_limit : forall i n o, miniz_zlib i n = Some o -> zlen o <= n;
  miniz_raw_limit : forall i n o, miniz_raw i n = Some o -> zlen o <= n;
  lz4_limit : forall i n o, lz4_decompress i n = Some o -> zlen o <= n;
  lz4_into_limit : forall i n o, lz4_decompress_into i n = Some o -> zlen o <= n;
  lz4_dict_limit : forall i n d o, lz4_decompress_into_with_dict i n d = Some o -> zlen o <= n;
  lzo_limit : forall i n o, lzo_decompress i n = Some o -> zlen o <= n;
  inflate_limit : forall s i n c o st s', 0 <= n -> inflate s i n = (c, o, st, s') ->
    0 <= c <= zlen i /\ zlen o <= n;
  (** A reader fills at most the buffer and takes its input from the front. *)
  rd_limit : forall r n o r', 0 <= n -> rd_read r n = Some (o, r') -> zlen o <= n;
  rd_suffix : forall r n o r', rd_read r n = Some (o, r') ->
    exists used, rd_rest r = used ++ rd_rest r';
  (** A zstd frame or [.lzma] header is consumed when the reader is made, an
      [.xz] header by its first read. *)
  zstd_new_suffix : forall i r, StreamingDecoder_new i = Some r ->
    exists h, h <> [] /\ i = h ++ rd_rest r;
  lzma_new_suffix : forall i r, LzmaReader_new_mem_limit i = Some r ->
    exists h, h <> [] /\ i = h ++ rd_rest r;
  xz_new_suffix : forall i, rd_rest (XzReader_new i) = i;
  xz_first_read : forall i n o r', 0 < n -> rd_read (XzReader_new i) n = Some (o, r') ->
    exists h, h <> [] /\ i = h ++ rd_rest r';
}.

Section Codec.
Context {D : Decoders}.

Definition inflate_zlib (input : list byte) (expected_len : Z) : Res (list byte) :=
  ok_or (miniz_zlib input expected_len) (Decompress "zlib inflate failed").
Definition inflate_raw (input : list byte) (expected_len : Z) : Res (list byte) :=
  ok_or (miniz_raw input expected_len) (Decompress "raw inflate failed").
Definition lz4_block (input : list byte) (expected_len : Z) : Res (list byte) :=
  ok_or (lz4_decompress input expected_len) (Decompress "lz4 block decompress failed").

(** The [while filled < expected_len] loop shared by zstd, xz and MicroLZMA;
    [out] holds the [filled] bytes of the buffer. *)
Fixpoint fill_loop (fuel : nat) (err : string) (rdr : Reader) (expected_len : Z)
    (out : list byte) : Res (list byte) :=
  match fuel with
  | O => Diverge
  | S fuel' =>
      if zlen out <? expected_len then
        let! (b, rdr') := ok_or (rd_read rdr (expected_len - zlen out)) (Decompress err) in
        if zlen b =? 0 then Ok out
        else fill_loop fuel' err rdr' expected_len (out ++ b)
      else Ok out
  end.
(** Every round adds a byte or ends, so [expected_len + 1] rounds are enough. *)
Definition fill (err : string) (rdr : Reader) (expected_len : Z) : Res (list byte) :=
  fill_loop (S (Z.to_nat expected_len)) err rdr expected_len [].

Definition zstd_decode (input : list byte) (expected_len : Z) : Res (list byte) :=
  let! dec := ok_or (StreamingDecoder_new input) (Decompress "zstd frame init failed") in
  fill "zstd read failed" dec expected_len.

Definition xz_decode (input : list byte) (expected_len : Z) : Res (list byte) :=
  fill "xz read failed" (XzReader_new input) expected_len.

Definition lzo_decode (input : list byte) (expected_len : Z) : Res (list byte) :=
  ok_or (lzo_decompress input expected_len) (Decompress "lzo decompress failed").

Definition decode (codec : Codec) (input : list byte) (expected_len : Z) : Res (list byte) :=
  let! _ := checked_block_len expected_len in
  match codec with
  | Deflate => inflate_raw input expected_len
  | Zlib => inflate_zlib input expected_len
  | Lz4 => lz4_block input expected_len
  | Xz => xz_decode input expected_len
  | Zstd => zstd_decode input expected_len
  | Lzo => lzo_decode input expected_len
  end.

Definition lz4_block_with_dict (input : list byte) (expected_len : Z) (dict : list byte)
    : Res (list byte) :=
  let! _ := checked_block_len expected_len in
  let! out := ok_or (lz4_decompress_into_with_dict input expected_len dict)
                (Decompress "erofs lz4 dict decompress failed") in
  if negb (zlen out =? expected_len)
  then Err (Decompress "erofs lz4 dict decompress: short output") else Ok out.

Definition microlzma_block_decode (span : list byte) (props dict_size expected_len : Z)
    : Res (list byte) :=
  let! _ := checked_block_len expected_len in
  match span with
  | [] => Err (Decompress "erofs microlzma: empty span")
  | _ :: body =>
      let stream := x00 :: body in
      let window := Z.max dict_size (expected_len mod 2 ^ 32) in
      let! rdr := ok_or (LzmaReader_new_with_props stream expected_len props window)
                    (Decompress "erofs microlzma: init") in
      let! out := fill "erofs microlzma: read" rdr expected_len in
      if negb (zlen out =? expected_len)
      then Err (Decompress "erofs microlzma: short output") else Ok out
  end.

(** ** Lemmas *)

Context {DL : DecoderLaws D}.

Lemma fill_loop_spec err n : forall fuel rdr out,
  zlen out <= n -> n - zlen out < Z.of_nat fuel ->
  returns (fill_loop fuel err rdr n out) /\
  (forall o, fill_loop fuel err rdr n out = Ok o -> zlen o <= n).
Proof.
  induction fuel as [|fuel IH]; intros rdr out Ho Hf; [lia|]. simpl.
  destruct (Z.ltb_spec (zlen out) n) as [Hlt|]; [|split; [done|by intros o [= <-]]].
  destruct (rd_read rdr (n - zlen out)) as [[b rdr']|] eqn:Er; simpl; [|done].
  destruct (Z.eqb_spec (zlen b) 0) as [|Hb]; [split; [done|intros o [= <-]; lia]|].
  apply rd_limit in Er; [|lia]. pose proof (zlen_nonneg b).
  apply IH; rewrite zlen_app; lia.
Qed.

Lemma fill_spec err rdr n : 0 <= n ->
  returns (fill err rdr n) /\ (forall o, fill err rdr n = Ok o -> zlen o <= n).
Proof. intros. apply fill_loop_spec; rewrite zlen_nil; lia. Qed.

Lemma decode_returns codec input n : 0 <= n -> returns (decode codec input n).
Proof.
  intros Hn. unfold decode. step_returns; [auto with lam|].
  destruct codec; try apply returns_ok_or; [by apply fill_spec|].
  unfold zstd_decode. step_returns; [apply returns_ok_or|]. by apply fill_spec.
Qed.

Lemma decode_len codec input n o : 0 <= n ->
  decode codec input n = Ok o -> zlen o <= n <= MAX_DECOMPRESSED_BLOCK_BYTES.
Proof.
  intros Hn Hd. unfold decode in Hd. inv_ok. apply checked_block_Ok in Hv as [Hm ->].
  split; [|done]. destruct codec; simpl in Hd.
  - unfold inflate_raw in Hd. inv_ok. by eapply miniz_raw_limit.
  - unfold inflate_zlib in Hd. inv_ok. by eapply miniz_zlib_limit.
  - unfold lz4_block in Hd. inv_ok. by eapply lz4_limit.
  - by eapply fill_spec.
  - unfold zstd_decode in Hd. inv_ok. by eapply fill_spec.
  - unfold lzo_decode in Hd. inv_ok. by eapply lzo_limit.
Qed.

Lemma lz4_dict_returns input n dict : returns (lz4_block_with_dict input n dict).
Proof.
  unfold lz4_block_with_dict. step_returns; [auto with lam|].
  step_returns; [auto with lam|]. by destruct (negb _).
Qed.

Lemma lz4_dict_len input n dict o :
  lz4_block_with_dict input n dict = Ok o -> zlen o = n /\ n <= MAX_DECOMPRESSED_BLOCK_BYTES.
Proof.
  unfold lz4_block_with_dict. intros. inv_ok. apply checked_block_Ok in Hv as [Hm ->].
  destruct (Z.eqb_spec (zlen v0) n); simpl in *; by inv_ok.
Qed.

Lemma microlzma_returns span props dict n : 0 <= n ->
  returns (microlzma_block_decode span props dict n).
Proof.
  intros Hn. unfold microlzma_block_decode. step_returns; [auto with lam|].
  destruct span; [done|]. step_returns; [auto with lam|].
  step_returns; [by apply fill_spec|]. by destruct (negb _).
Qed.

Lemma microlzma_len span props dict n o :
  microlzma_block_decode span props dict n = Ok o ->
  zlen o = n /\ n <= MAX_DECOMPRESSED_BLOCK_BYTES /\ span <> [].
Proof.
  unfold microlzma_block_decode. intros. inv_ok. apply checked_block_Ok in Hv as [Hm ->].
  destruct span; inv_ok. destruct (Z.eqb_spec (zlen v0) n); simpl in *; by inv_ok.
Qed.

End Codec.

#[export] Hint Resolve lz4_dict_returns decode_returns microlzma_returns : lam.

(** ** Decoders of stored data, for concrete examples *)

(** A reader with [hdr] header bytes still to skip (the last one the payload
    length) and [left] payload bytes to give out. *)
Record StoredReader : Type := mkStored { sr_hdr : nat; sr_left : nat; sr_rest : list byte }.

Definition stored_take (r : StoredReader) (n : Z) : list byte * StoredReader :=
  let k := Nat.min (Nat.min (sr_left r) (Z.to_nat n)) (length (sr_rest r)) in
  (take k (sr_rest r), mkStored 0 (sr_left r - k) (drop k (sr_rest r))).

Definition stored_open (hdr : nat) (i : list byte) : option StoredReader :=
  match hdr with
  | O => None
  | S h => match i !! h with
           | Some l => Some (mkStored 0 (Z.to_nat (u8 l)) (drop hdr i))
           | None => None
           end
  end.

Definition stored_read (r : StoredReader) (n : Z) : option (list byte * StoredReader) :=
  match sr_hdr r with
  | O => Some (stored_take r n)
  | hdr => (fun r' => stored_take r' n) <$> stored_open hdr (sr_rest r)
  end.

Definition stored (i : list byte) (n : Z) : option (list byte) :=
  if zlen i <=? n then Some i else None.

#[export] Instance StoredDecoders : Decoders := {
  miniz_zlib := stored;
  miniz_raw := stored;
  InflateState := unit;
  inflate_new := tt;
  inflate _ i n :=
    match i with
    | [] => (0, [], MZError, tt)
    | l :: body =>
        let o := take (Z.to_nat (u8 l)) body in
        if (zlen o <=? n) && (zlen o =? u8 l) then (1 + zlen o, o, MZStreamEnd, tt)
        else (0, [], MZError, tt)
    end;
  lz4_decompress := stored;
  lz4_decompress_into := stored;
  lz4_decompress_into_with_dict i n _ := stored i n;
  lzo_decompress := stored;
  Reader := StoredReader;
  rd_read := stored_read;
  rd_rest := sr_rest;
  StreamingDecoder_new := stored_open 5;
  XzReader_new i := mkStored 7 0 i;
  LzmaReader_new_mem_limit := stored_open 4;
  LzmaReader_new_with_props i _ _ _ := stored_open 1 i;
}.

Lemma stored_limit i n o : stored i n = Some o -> zlen o <= n.
Proof. unfold stored. case_match eqn:E; [|done]. apply Z.leb_le in E. by intros [= <-]. Qed.

Lemma stored_take_spec r n o r' : stored_take r n = (o, r') ->
  zlen o <= Z.max 0 n /\ sr_rest r = o ++ sr_rest r'.
Proof.
  unfold stored_take. intros [= <- <-]. simpl. rewrite take_drop. split; [|done].
  unfold zlen. rewrite length_take. lia.
Qed.

Lemma stored_open_spec hdr i r : stored_open hdr i = Some r ->
  exists h, h <> [] /\ i = h ++ sr_rest r.
Proof.
  destruct hdr as [|h]; [done|]. simpl. destruct (i !! h) as [l|] eqn:E; [|done].
  intros [= <-]. exists (take (S h) i). simpl. rewrite take_drop. split; [|done].
  apply lookup_lt_Some in E. intros Hn%(f_equal length). rewrite length_take in Hn. cbn [length] in Hn. lia.
Qed.

Lemma stored_read_spec r n o r' : stored_read r n = Some (o, r') ->
  zlen o <= Z.max 0 n /\ (exists used, sr_rest r = used ++ sr_rest r') /\
  (sr_hdr r <> 0%nat -> exists h, h <> [] /\ sr_rest r = h ++ sr_rest r').
Proof.
  unfold stored_read. destruct (sr_hdr r) as [|hdr] eqn:Eh.
  - intros Ht%(inj Some). apply stored_take_spec in Ht as [? ->]. split; [done|].
    split; [by eexists|done].
  - destruct (stored_open (S hdr) (sr_rest r)) as [r1|] eqn:Eo; simpl; [|done].
    intros Ht%(inj Some). apply stored_open_spec in Eo as (h&Hh&->).
    apply stored_take_spec in Ht as [? ->]. split; [done|].
    assert (h ++ o ++ sr_rest r' = (h ++ o) ++ sr_rest r') as -> by apply app_assoc.
    split; [by eexists|]. intros _. exists (h ++ o). split; [|done].
    intros [-> _]%app_nil. done.
Qed.

#[export] Instance StoredDecoders_laws : DecoderLaws StoredDecoders.
Proof.
  constructor; simpl; try (intros; by eapply stored_limit).
  - intros [] i n c o st [] Hn. destruct i as [|l body].
    + intros [= <- <- <-]. rewrite !zlen_nil. lia.
    + destruct (_ && _) eqn:E; intros [= <- <- <-].
      * apply andb_true_iff in E as [E%Z.leb_le _]. split; [|done].
        rewrite zlen_cons. unfold zlen. rewrite length_take. lia.
      * rewrite zlen_cons, zlen_nil. pose proof (zlen_nonneg body). lia.
  - intros r n o r' Hn Hr. apply stored_read_spec in Hr. lia.
  - intros r n o r' Hr. by apply stored_read_spec in Hr as (_&?&_).
  - intros i r. apply (stored_open_spec 5).
  - intros i r. apply (stored_open_spec 4).
  - done.
  - intros i n o r' _ Hr. apply stored_read_spec in Hr as (_&_&Hh). by apply Hh.
Qed.

(** ** Properties *)

(** The decompression-bomb guard: a declared block size above 16 MiB is
    refused without decoding; otherwise decoding comes back, with at most the
    declared number of bytes. *)
Theorem decode_bounded {D : Decoders} {DL : DecoderLaws D} codec input expected_len :
  0 <= expected_len ->
  (MAX_DECOMPRESSED_BLOCK_BYTES < expected_len ->
   decode codec input expected_len
   = Err (FileTooLarge expected_len MAX_DECOMPRESSED_BLOCK_BYTES)) /\
  returns (decode codec input expected_len) /\
  (forall o, decode codec input expected_len = Ok o -> zlen o <= expected_len).
Proof.
  intros Hn. split_and!.
  - intros Hm. unfold decode, checked_block_len, checked_len, checked_len_on.
    rewrite Z.gtb_ltb, (proj2 (Z.ltb_lt _ _)) by done. done.
  - by apply decode_returns.
  - intros o Ho. by eapply decode_len.
Qed.

Lemma decode_bounded_witness :
  decode Zlib (bytes_of "page") 4 = Ok (bytes_of "page") /\ zlen (bytes_of "page") <= 4 /\
  returns (decode Zlib (bytes_of "page") 3).
Proof.
  assert (H4 : decode Zlib (bytes_of "page") 4 = Ok (bytes_of "page")) by (vm_compute; reflexivity).
  split; [exact H4|]. split.
  - apply (decode_bounded Zlib (bytes_of "page") 4); [lia|exact H4].
  - apply (decode_bounded Zlib (bytes_of "page") 3). lia.
Defined.
