(* ===== verification/Stream.v ===== *)
(** * Whole-stream decompression ([crates/lamfold/src/stream.rs])

    gzip, zstd, xz, lzma and legacy LZ4 streams of unknown size, decoded under an
    output cap.  The inner decoders are those of [Codec.Decoders]. *)
From S2P Require Import Prelude Text Cache Substrate Codec.
Open Scope Z_scope.

Inductive StreamCodec : Type :=
| SGzip | SZstd | SXz | SLzma | SLz4Legacy | SBzip2 | SLzo.

Definition LZ4_LEGACY_MAGIC : list byte := [x02; x21; x4c; x18].

Definition MAGICS : list (list byte * StreamCodec) :=
  [([x1f; x8b], SGzip);
   ([x28; xb5; x2f; xfd], SZstd);
   ([xfd; x37; x7a; x58; x5a; x00], SXz);
   ([x5d; x00; x00], SLzma);
   (LZ4_LEGACY_MAGIC, SLz4Legacy);
   (bytes_of "BZh", SBzip2);
   ([x89; x4c; x5a; x4f], SLzo)].

Definition sniff (input : list byte) : option StreamCodec :=
  snd <$> (snd <$> list_find (fun m => starts_with input m.1 = true) MAGICS).

(** ** Capped output *)

Definition CHUNK : Z := 64 * 1024.

Definition push_capped (out chunk : list byte) (max_out : Z) : Res (list byte) :=
  let want := zlen out + zlen chunk in
  if want >? max_out then Err (FileTooLarge want max_out) else Ok (out ++ chunk).

Section Stream.
Context {D : Decoders}.

(** One round of [read_all_capped!]; the state is the reader and the output. *)
Definition read_all_round (max_out : Z) (err : string) (s : Reader * list byte)
    : Res ((Reader * list byte) + (Reader * list byte)) :=
  let '(rdr, out) := s in
  let! (b, rdr) := ok_or (rd_read rdr CHUNK) (Decompress err) in
  if zlen b =? 0 then Ok (inr (rdr, out))
  else
    let! out := push_capped out b max_out in
    Ok (inl (rdr, out)).
(** [read_all_capped!]: the output, and the reader as it is dropped. *)
Definition read_all_capped (rdr : Reader) (max_out : Z) (err : string)
    : Res (Reader * list byte) :=
  loop (read_all_round max_out err) (rdr, []).

(** ** gzip *)

(** One step of the reflected CRC-32 register. *)
Definition crc_shift (c : Z) : Z :=
  if negb (Z.land c 1 =? 0) then Z.lxor 0xedb88320 (Z.shiftr c 1) else Z.shiftr c 1.

Definition CRC32_TABLE : list Z := (fun i => Nat.iter 8 crc_shift i) <$> seqZ 0 256.

Definition not_u32 (x : Z) : Z := Z.lxor x (2 ^ 32 - 1).

Definition crc32_step (c : Z) (b : byte) : Z :=
  Z.lxor (default 0 (get CRC32_TABLE (Z.land (Z.lxor c (u8 b)) 0xff))) (Z.shiftr c 8).
Definition crc32 (data : list byte) : Z := not_u32 (foldl crc32_step (not_u32 0) data).

Definition FHCRC : Z := 2.
Definition FEXTRA : Z := 4.
Definition FNAME : Z := 8.
Definition FCOMMENT : Z := 16.

(** One round of [inflate_raw_stream]: decoder state, input position, output. *)
Definition inflate_round (input : list byte) (max_out : Z) (s : InflateState * Z * list byte)
    : Res ((InflateState * Z * list byte) + (list byte * Z)) :=
  let '(state, pos, out) := s in
  let! tail := slice input pos (zlen input) in
  let '(consumed, written, status, state) := inflate state tail CHUNK in
  let pos := pos + consumed in
  let! out := push_capped out written max_out in
  match status with
  | MZStreamEnd => Ok (inr (out, pos))
  | MZOk => if (consumed >? 0) || (zlen written >? 0) then Ok (inl (state, pos, out))
            else Err (Corrupt "deflate_truncated")
  | MZError => Err (Corrupt "deflate_truncated")
  end.
Definition inflate_raw_stream (input : list byte) (max_out : Z) : Res (list byte * Z) :=
  loop (inflate_round input max_out) (inflate_new, 0, []).

(** The optional zero-terminated string announced by [flag]. *)
Definition gzip_string (input : list byte) (flg flag pos : Z) : Res Z :=
  if negb (Z.land flg flag =? 0) then
    let! nul := ok_or (r ← get_from input pos; position (fun b => u8 b =? 0) r)
                  (Corrupt "gzip_header") in
    Ok (pos + (nul + 1))
  else Ok pos.

(** The first half of [gzip]: the header, up to where the deflate body starts. *)
Definition gzip_header (input : list byte) : Res Z :=
  let bad := Corrupt "gzip_header" in
  if zlen input <? 10 then Err bad else
  let! id := slice input 0 3 in
  if negb (bool_decide (id = [x1f; x8b; x08])) then Err bad else
  let! b3 := at_ input 3 in
  let flg := u8 b3 in
  if negb (Z.land flg 0xe0 =? 0) then Err bad else
  let pos := 10 in
  let! pos :=
    if negb (Z.land flg FEXTRA =? 0) then
      let! xlen := ok_or (get_range input pos (pos + 2)) (Corrupt "gzip_header") in
      Ok (pos + (2 + le_num xlen))
    else Ok pos in
  let! pos := gzip_string input flg FNAME pos in
  let! pos := gzip_string input flg FCOMMENT pos in
  Ok (if negb (Z.land flg FHCRC =? 0) then pos + 2 else pos).

Definition gzip (input : list byte) (max_out : Z) : Res (list byte * Z) :=
  let! pos := gzip_header input in
  let! body := ok_or (get_from input pos) (Corrupt "gzip_header") in
  let! (out, used) := inflate_raw_stream body max_out in
  let pos := pos + used in
  let! trailer := ok_or (get_range input pos (pos + 8)) (Corrupt "gzip_truncated") in
  let crc := le_num (sub trailer 0 4) in
  let isize := le_num (sub trailer 4 4) in
  if negb (crc =? crc32 out) || negb (isize =? zlen out mod 2 ^ 32)
  then Err (Corrupt "gzip_checksum")
  else Ok (out, pos + 8).

(** ** zstd *)

Definition FRAME_MAGIC : list byte := [x28; xb5; x2f; xfd].

(** A skippable frame: magic 0x184D2A50..5F, a 4-byte size, then data. *)
Definition zstd_skippable (rest : list byte) : Res bool :=
  if zlen rest >=? 8 then
    let! b0 := at_ rest 0 in
    if Z.land (u8 b0) 0xf0 =? 0x50 then
      let! m := slice rest 1 4 in Ok (bool_decide (m = [x2a; x4d; x18]))
    else Ok false
  else Ok false.

(** One round of the frame loop: remaining input, output, frames seen. *)
Definition zstd_round (max_out : Z) (s : list byte * list byte * Z)
    : Res ((list byte * list byte * Z) + (list byte * list byte * Z)) :=
  let '(rest, out, frames) := s in
  let! skippable := zstd_skippable rest in
  if skippable then
    let! sz := slice rest 4 8 in
    let size := le_num sz in
    let! rest := ok_or (get_from rest (8 + size)) (Corrupt "zstd_truncated") in
    Ok (inl (rest, out, frames))
  else if negb (starts_with rest FRAME_MAGIC) then Ok (inr (rest, out, frames))
  else
    let! dec := ok_or (StreamingDecoder_new rest) (Decompress "zstd frame init failed") in
    let! room := subw max_out (zlen out) in
    let! (dec, frame) := read_all_capped dec room "zstd read failed" in
    let rest := rd_rest dec in
    let! out := push_capped out frame max_out in
    Ok (inl (rest, out, frames + 1)).

Definition zstd (input : list byte) (max_out : Z) : Res (list byte * Z) :=
  let! (rest, out, frames) := loop (zstd_round max_out) (input, [], 0) in
  if frames =? 0 then Err (Corrupt "zstd_no_frame")
  else
    let! used := subw (zlen input) (zlen rest) in
    Ok (out, used).

(** ** xz and lzma *)

Definition xz (input : list byte) (max_out : Z) : Res (list byte * Z) :=
  let! (rdr, out) := read_all_capped (XzReader_new input) max_out "xz read failed" in
  let! used := subw (zlen input) (zlen (rd_rest rdr)) in
  Ok (out, used).

Definition lzma (input : list byte) (max_out : Z) : Res (list byte * Z) :=
  let! rdr := ok_or (LzmaReader_new_mem_limit input) (Corrupt "lzma_header") in
  let! (rdr, out) := read_all_capped rdr max_out "lzma read failed" in
  let! used := subw (zlen input) (zlen (rd_rest rdr)) in
  Ok (out, used).

(** ** Legacy LZ4 *)

Definition LZ4_LEGACY_BLOCK : Z := 8 * 2 ^ 20.
Definition LZ4_LEGACY_MAX_COMPRESSED : Z := LZ4_LEGACY_BLOCK + LZ4_LEGACY_BLOCK / 255 + 16.

(** One round of the block loop; the state is the position and the output. *)
Definition lz4_legacy_round (input : list byte) (max_out : Z) (s : Z * list byte)
    : Res ((Z * list byte) + (list byte * Z)) :=
  let '(pos, out) := s in
  match get_range input pos (pos + 4) with
  | None => Ok (inr (out, pos))
  | Some head =>
      if bool_decide (head = LZ4_LEGACY_MAGIC) then Ok (inl (pos + 4, out))
      else
        let size := le_num head in
        let! left1 := subw (zlen input) pos in
        let! remaining := subw left1 4 in
        if (size =? 0) || (size >? LZ4_LEGACY_MAX_COMPRESSED) || (size >? remaining)
        then Ok (inr (out, pos))
        else
          let! block := slice input (pos + 4) (pos + 4 + size) in
          let start := zlen out in
          let! cap := subw max_out start in
          let room := Z.min LZ4_LEGACY_BLOCK cap in
          match lz4_decompress_into block room with
          | Some d => Ok (inl (pos + (4 + size), out ++ d))
          | None =>
              if room <? LZ4_LEGACY_BLOCK then Err (FileTooLarge (start + room + 1) max_out)
              else Err (Decompress "lz4 legacy block failed")
          end
  end.

Definition lz4_legacy (input : list byte) (max_out : Z) : Res (list byte * Z) :=
  if negb (starts_with input LZ4_LEGACY_MAGIC) then Err (Corrupt "lz4_legacy_magic")
  else loop (lz4_legacy_round input max_out) (4, []).

Definition decode_stream (codec : StreamCodec) (input : list byte) (max_out : Z)
    : Res (list byte * Z) :=
  match codec with
  | SGzip => gzip input max_out
  | SZstd => zstd input max_out
  | SXz => xz input max_out
  | SLzma => lzma input max_out
  | SLz4Legacy => lz4_legacy input max_out
  | SBzip2 => Err (Unsupported "stream_bzip2")
  | SLzo => Err (Unsupported "stream_lzo")
  end.

End Stream.

(** The source's tests. *)
Example crc32_known_answer : crc32 [] = 0 /\ crc32 (bytes_of "123456789") = 0xcbf43926.
Proof. split; vm_compute; reflexivity. Qed.

Example sniff_recognises :
  sniff [x1f; x8b; x08] = Some SGzip /\ sniff [x02; x21; x4c; x18; x00] = Some SLz4Legacy /\
  sniff (bytes_of "BZh9") = Some SBzip2 /\ sniff (bytes_of "070701") = None.
Proof. split_and!; vm_compute; reflexivity. Qed.

(** ** Lemmas *)

Lemma push_capped_Ok out chunk m r :
  push_capped out chunk m = Ok r <-> zlen out + zlen chunk <= m /\ r = out ++ chunk.
Proof.
  unfold push_capped. rewrite Z.gtb_ltb.
  destruct (Z.ltb_spec m (zlen out + zlen chunk)); naive_solver lia.
Qed.
Lemma returns_push_capped out chunk m : returns (push_capped out chunk m).
Proof. unfold push_capped. by case_match. Qed.
#[export] Hint Resolve returns_push_capped : lam.

Section Laws.
Context {D : Decoders} {DL : DecoderLaws D}.

(** The reader loop ends under a 64-bit cap, keeps the cap, and drops the
    reader right after one of its reads. *)
Lemma read_all_returns rdr m err : 0 <= m < 2 ^ 63 -> returns (read_all_capped rdr m err).
Proof.
  intros Hm. unfold read_all_capped.
  apply (loop_returns _ (fun s => zlen s.2 <= m) (fun s => m - zlen s.2)); cbn [snd];
    [|rewrite zlen_nil; lia..].
  intros [r out] Hout. cbn [snd] in *. split; [lia|]. unfold read_all_round. split.
  - step_returns; [auto with lam|]. destruct v as [b r']. step_returns; [done|].
    step_returns; [auto with lam|]. done.
  - intros [r' out'] Hr. inv_ok. destruct v as [b r1]. destruct (Z.eqb_spec (zlen b) 0); [done|].
    inv_ok. apply push_capped_Ok in Hv0 as [? ->]. simplify_eq. cbn [snd].
    pose proof (zlen_nonneg b). rewrite zlen_app in *. lia.
Qed.

Lemma read_all_Ok (P : Reader -> Prop) rdr m err rdr' out :
  0 <= m -> P rdr -> (forall r o r', P r -> rd_read r CHUNK = Some (o, r') -> P r') ->
  read_all_capped rdr m err = Ok (rdr', out) ->
  zlen out <= m /\ exists r o, P r /\ rd_read r CHUNK = Some (o, rdr').
Proof.
  intros Hm HP Hstep Hr. unfold read_all_capped in Hr.
  apply (loop_inv _ (fun s => zlen s.2 <= m /\ P s.1)) in Hr as ([r o]&[Ho Hp]&Hb); cbn [fst snd] in *.
  - unfold read_all_round in Hb. inv_ok. destruct v as [b r1].
    destruct (Z.eqb_spec (zlen b) 0); [|by inv_ok]. simplify_eq. eauto.
  - intros [r o] [r' o'] [Ho Hp] Hb. unfold read_all_round in Hb. cbn [fst snd] in *.
    inv_ok. destruct v as [b r1].
    destruct (Z.eqb_spec (zlen b) 0); [done|]. inv_ok. apply push_capped_Ok in Hv0 as [? ->].
    simplify_eq. rewrite zlen_app. eauto with lia.
  - by rewrite zlen_nil.
Qed.

(** What [input] has lost when a reader over it is dropped. *)
Definition consumed_some (input rest : list byte) : Prop := exists h, h <> [] /\ input = h ++ rest.

Lemma consumed_some_zlen input rest : consumed_some input rest -> zlen rest < zlen input.
Proof.
  intros (h&Hh&->). rewrite zlen_app. pose proof (zlen_nonneg h).
  destruct (decide (zlen h = 0)) as [?%zlen_0_nil|]; [done|lia].
Qed.

Lemma consumed_some_read input r n o r' :
  consumed_some input (rd_rest r) -> rd_read r n = Some (o, r') ->
  consumed_some input (rd_rest r').
Proof.
  intros (h&Hh&->) Hr. apply rd_suffix in Hr as (u&->). exists (h ++ u).
  split; [intros [-> _]%app_nil; done|by rewrite app_assoc].
Qed.

(** A reader that took its header when it was made. *)
Lemma read_all_consumed input rdr m err rdr' out :
  0 <= m -> consumed_some input (rd_rest rdr) -> read_all_capped rdr m err = Ok (rdr', out) ->
  zlen out <= m /\ consumed_some input (rd_rest rdr').
Proof.
  intros Hm Hc Hr.
  destruct (read_all_Ok (fun r => consumed_some input (rd_rest r)) rdr m err rdr' out)
    as (?&r&o&?&?); eauto using consumed_some_read.
Qed.

Lemma xz_read_all input m err rdr' out :
  0 <= m -> read_all_capped (XzReader_new input) m err = Ok (rdr', out) ->
  zlen out <= m /\ consumed_some input (rd_rest rdr').
Proof.
  intros Hm Hr.
  assert (Hread : forall r o r', r = XzReader_new input \/ consumed_some input (rd_rest r) ->
    rd_read r CHUNK = Some (o, r') -> consumed_some input (rd_rest r')).
  { intros r o r' [->|Hc] Hrd; [by apply (xz_first_read input CHUNK o r')|by eapply consumed_some_read]. }
  destruct (read_all_Ok (fun r => r = XzReader_new input \/ consumed_some input (rd_rest r))
    (XzReader_new input) m err rdr' out) as (?&r&o&?&?); eauto.
Qed.

(** What a stream decoder promises: it comes back, within the cap, having used
    some but no more than all of its input. *)
Definition stream_ok (input : list byte) (m : Z) (r : Res (list byte * Z)) : Prop :=
  returns r /\ forall out used, r = Ok (out, used) -> zlen out <= m /\ 0 < used <= zlen input.

Lemma used_ok input rest : consumed_some input rest ->
  subw (zlen input) (zlen rest) = Ok (zlen input - zlen rest) /\
  0 < zlen input - zlen rest <= zlen input.
Proof.
  intros Hc%consumed_some_zlen. pose proof (zlen_nonneg rest). rewrite subw_eq by lia.
  split; [done|lia].
Qed.

Lemma xz_ok input m : 0 <= m < 2 ^ 63 -> stream_ok input m (xz input m).
Proof.
  intros Hm. unfold xz. pose proof (read_all_returns (XzReader_new input) m "xz read failed" Hm) as Hr.
  destruct (read_all_capped _ m _) as [[r o]|e| | |] eqn:E; cbn [bindR]; try by split.
  apply xz_read_all in E as [Ho Hc]; [|lia]. apply used_ok in Hc as [-> Hu]. cbn [bindR].
  split; [done|]. by intros ?? [= <- <-].
Qed.

Lemma lzma_ok input m : 0 <= m < 2 ^ 63 -> stream_ok input m (lzma input m).
Proof.
  intros Hm. unfold lzma. destruct (LzmaReader_new_mem_limit input) as [rd|] eqn:El; cbn [ok_or bindR];
    [|by split].
  apply lzma_new_suffix in El.
  pose proof (read_all_returns rd m "lzma read failed" Hm) as Hr.
  destruct (read_all_capped _ m _) as [[r o]|e| | |] eqn:E; cbn [bindR]; try by split.
  apply (read_all_consumed input) in E as [Ho Hc]; [|lia|done].
  apply used_ok in Hc as [-> Hu]. cbn [bindR].
  split; [done|]. by intros ?? [= <- <-].
Qed.

Lemma zstd_skippable_Ok rest :
  exists b, zstd_skippable rest = Ok b /\ (b = true -> 8 <= zlen rest).
Proof.
  unfold zstd_skippable. rewrite Z.geb_leb.
  destruct (Z.leb_spec 8 (zlen rest)); [|by exists false].
  destruct (proj2 (get_is_Some rest 0) ltac:(lia)) as [b0 Hb0].
  rewrite (proj2 (at_Ok _ _ _) Hb0). cbn [bindR].
  destruct (_ =? 0x50); [|by exists false]. rewrite slice_eq by lia. cbn [bindR]. by eexists.
Qed.

(** What a suffix of the remaining input has lost. *)
Lemma consumed_some_trans input rest r' :
  rest = input \/ consumed_some input rest -> consumed_some rest r' ->
  consumed_some input r' /\ zlen r' < zlen rest.
Proof.
  intros Hc Hr'. split; [|by apply consumed_some_zlen]. destruct Hc as [<-|Hc]; [done|].
  destruct Hc as (h&Hh&->), Hr' as (h'&?&->). exists (h ++ h').
  split; [intros [-> _]%app_nil; done|by rewrite app_assoc].
Qed.

Lemma consumed_some_get_from l n r :
  0 < n -> get_from l n = Some r -> consumed_some l r.
Proof.
  intros Hn (?&_&->)%get_range_Some. exists (take (Z.to_nat n) l). unfold sub. split.
  - intros Hz%(f_equal length). rewrite length_take in Hz. unfold zlen in *. cbn [length] in Hz. lia.
  - unfold zlen. rewrite (take_ge (drop _ _)) by (rewrite length_drop; lia). by rewrite take_drop.
Qed.

Lemma zstd_round_ok input m rest out n :
  0 <= m < 2 ^ 63 -> 0 <= n -> zlen out <= m -> (rest = input /\ n = 0 \/ consumed_some input rest) ->
  returns (zstd_round m (rest, out, n)) /\
  (forall r' o' n', zstd_round m (rest, out, n) = Ok (inl (r', o', n')) ->
     0 <= n' /\ zlen o' <= m /\ consumed_some input r' /\ zlen r' < zlen rest).
Proof.
  intros Hm Hn Ho Hc. unfold zstd_round.
  assert (Hshorter : forall r', consumed_some rest r' -> consumed_some input r' /\ zlen r' < zlen rest)
    by (intros r'; apply consumed_some_trans; naive_solver).
  destruct (zstd_skippable_Ok rest) as ([]&->&Hb); cbn [bindR].
  - specialize (Hb eq_refl). rewrite slice_eq by lia. cbn [bindR].
    pose proof (le_num_range (sub rest 4 (8 - 4))) as Hsz. set (size := le_num _) in *.
    destruct (get_from rest (8 + size)) as [r1|] eqn:Eg; cbn [ok_or bindR]; [|done].
    apply consumed_some_get_from, Hshorter in Eg; [|lia].
    split; [done|]. by intros ??? [= <- <- <-].
  - destruct (negb _); [split; [done|by intros ???]|].
    destruct (StreamingDecoder_new rest) as [dec|] eqn:Ed; cbn [ok_or bindR]; [|done].
    rewrite subw_eq by lia. cbn [bindR]. apply zstd_new_suffix in Ed. pose proof (zlen_nonneg out).
    pose proof (read_all_returns dec (m - zlen out) "zstd read failed" ltac:(lia)) as Hret.
    destruct (read_all_capped _ _ _) as [[r o]|e| | |] eqn:E; cbn [bindR]; try by split.
    apply (read_all_consumed rest) in E as [Hlen Hco]; [|lia|done].
    rewrite (proj2 (push_capped_Ok out o m (out ++ o))) by (split; [lia|done]). cbn [bindR].
    split; [done|]. intros ??? [= <- <- <-]. rewrite zlen_app. split_and!; try lia; by apply Hshorter.
Qed.

Lemma zstd_ok input m : 0 <= m < 2 ^ 63 -> zlen input < 2 ^ 63 -> stream_ok input m (zstd input m).
Proof.
  intros Hm Hi. unfold zstd.
  set (I := fun s : list byte * list byte * Z => let '(rest, out, n) := s in
    0 <= n /\ zlen out <= m /\ (rest = input /\ n = 0 \/ consumed_some input rest)).
  assert (H0 : I (input, [], 0)) by (unfold I; rewrite zlen_nil; split_and!; auto; lia).
  assert (Hret : returns (loop (zstd_round m) (input, [], 0))).
  { apply (loop_returns _ I (fun s => zlen s.1.1)); [|done|cbn [fst]; lia].
    intros [[rest out] n] (Hn&Ho&Hc). cbn [fst]. split; [apply zlen_nonneg|].
    destruct (zstd_round_ok input m rest out n Hm Hn Ho Hc) as [Hr Hs]. split; [done|].
    intros [[r' o'] n'] Hb. destruct (Hs _ _ _ Hb) as (?&?&?&?). unfold I. cbn [fst]. auto. }
  destruct (loop _ _) as [[[rest out] n]|e| | |] eqn:El; cbn [bindR]; try by split.
  apply (loop_inv _ I) in El as ([[r0 o0] n0]&(Hn&Ho&Hc)&Hb); [| |done].
  - assert ((r0, o0, n0) = (rest, out, n)) as [= -> -> ->].
    { unfold zstd_round in Hb. inv_ok. destruct v; [by inv_ok|].
      destruct (negb _); [by inv_ok|]. inv_ok. destruct v1. by inv_ok. }
    destruct (Z.eqb_spec n 0); [by split|]. destruct Hc as [[_ ?]|Hc]; [done|].
    apply used_ok in Hc as [-> Hu]. cbn [bindR]. split; [done|]. by intros ?? [= <- <-].
  - intros [[rest' out'] n'] [[r1 o1] n1] (Hn&Ho&Hc) Hb'.
    destruct (zstd_round_ok input m rest' out' n' Hm Hn Ho Hc) as [_ Hs].
    destruct (Hs _ _ _ Hb') as (?&?&?&?). unfold I. auto.
Qed.

Lemma lz4_round_ok input m pos out :
  0 <= m < 2 ^ 63 -> zlen input < 2 ^ 63 -> 0 <= pos <= zlen input -> zlen out <= m ->
  returns (lz4_legacy_round input m (pos, out)) /\
  (forall r, lz4_legacy_round input m (pos, out) = Ok (inr r) -> r = (out, pos)) /\
  (forall p' o', lz4_legacy_round input m (pos, out) = Ok (inl (p', o')) ->
     pos < p' <= zlen input /\ zlen o' <= m).
Proof.
  intros Hm Hi Hp Ho. unfold lz4_legacy_round. pose proof (zlen_nonneg out).
  destruct (get_range input pos (pos + 4)) as [head|] eqn:Eg; [|by split_and!; naive_solver].
  pose proof (get_range_zlen _ _ _ _ Eg) as Hh. apply get_range_Some in Eg as (_&Hp4&_).
  destruct (bool_decide _).
  { split_and!; [done|done|]. intros ?? [= <- <-]. lia. }
  rewrite !subw_eq by lia. cbn [bindR]. rewrite subw_eq by lia. cbn [bindR].
  pose proof (le_num_range head) as Hn. set (size := le_num head) in *.
  destruct (size =? 0) eqn:E0; cbn [orb]; [by split_and!; naive_solver|].
  destruct (size >? LZ4_LEGACY_MAX_COMPRESSED); cbn [orb]; [by split_and!; naive_solver|].
  destruct (size >? zlen input - pos - 4) eqn:Es; [by split_and!; naive_solver|].
  apply Z.eqb_neq in E0. rewrite Z.gtb_ltb in Es. apply Z.ltb_ge in Es.
  rewrite slice_eq by lia. cbn [bindR].
  set (room := Z.min LZ4_LEGACY_BLOCK (m - zlen out)).
  destruct (lz4_decompress_into _ _) as [d|] eqn:Ed.
  - apply lz4_into_limit in Ed. split_and!; [done|done|]. intros ?? [= <- <-].
    rewrite zlen_app. unfold room in Ed. lia.
  - by destruct (room <? LZ4_LEGACY_BLOCK).
Qed.

Lemma lz4_legacy_ok input m :
  0 <= m < 2 ^ 63 -> zlen input < 2 ^ 63 -> stream_ok input m (lz4_legacy input m).
Proof.
  intros Hm Hi. unfold lz4_legacy. destruct (starts_with input LZ4_LEGACY_MAGIC) eqn:Es; [|by split].
  cbn [negb].
  assert (4 <= zlen input).
  { unfold starts_with in Es. apply bool_decide_eq_true in Es. apply (f_equal length) in Es.
    rewrite length_take in Es. unfold zlen. cbn [length LZ4_LEGACY_MAGIC] in Es. lia. }
  set (I := fun s : Z * list byte => 4 <= s.1 <= zlen input /\ zlen s.2 <= m).
  assert (H0 : I (4, [])) by (unfold I; cbn [fst snd]; rewrite zlen_nil; lia).
  split.
  - apply (loop_returns _ I (fun s => zlen input - s.1)); [|done|cbn [fst]; lia].
    intros [pos out] [Hp Ho]. cbn [fst snd] in *. split; [lia|].
    destruct (lz4_round_ok input m pos out Hm Hi ltac:(lia) Ho) as (Hr&_&Hs). split; [done|].
    intros [p' o'] Hb. apply Hs in Hb as [? ?]. unfold I. cbn [fst snd]. lia.
  - intros out used Hl. apply (loop_inv _ I) in Hl as ([pos o]&[Hp Ho]&Hb); [| |done]; cbn [fst snd] in *.
    + destruct (lz4_round_ok input m pos o Hm Hi ltac:(lia) Ho) as (_&Hr&_).
      apply Hr in Hb as [= -> ->]. lia.
    + intros [p o] [p' o'] [Hp Ho] Hb. cbn [fst snd] in *.
      destruct (lz4_round_ok input m p o Hm Hi ltac:(lia) Ho) as (_&_&Hr).
      apply Hr in Hb. unfold I. cbn [fst snd]. lia.
Qed.

(** Inflate: within the cap, having used no more than the input. *)
Lemma inflate_round_ok input m st pos out :
  0 <= pos <= zlen input -> zlen out <= m ->
  returns (inflate_round input m (st, pos, out)) /\
  (forall o p, inflate_round input m (st, pos, out) = Ok (inr (o, p)) ->
     zlen o <= m /\ pos <= p <= zlen input) /\
  (forall st' p' o', inflate_round input m (st, pos, out) = Ok (inl (st', p', o')) ->
     pos <= p' <= zlen input /\ zlen out <= zlen o' <= m /\ pos + zlen out < p' + zlen o').
Proof.
  intros Hp Ho. unfold inflate_round. rewrite slice_eq by lia. cbn [bindR].
  destruct (inflate _ _ _) as [[[c w] status] st1] eqn:Ei.
  apply inflate_limit in Ei as [Hc Hw]; [|done]. rewrite zlen_sub in Hc by lia.
  pose proof (zlen_nonneg w).
  destruct (push_capped out w m) as [o1|e| | |] eqn:Ep; cbn [bindR];
    try (pose proof (returns_push_capped out w m) as Hr; rewrite Ep in Hr; done).
  apply push_capped_Ok in Ep as [Hl ->]. rewrite !Z.gtb_ltb.
  destruct status; [|split_and!; [done| |done]; intros ?? [= <- <-]; rewrite zlen_app; lia|done].
  destruct ((0 <? c) || (0 <? zlen w)) eqn:E; [|done].
  split_and!; [done|done|]. intros ??? [= <- <- <-]. rewrite zlen_app.
  apply orb_true_iff in E as [E%Z.ltb_lt|E%Z.ltb_lt]; lia.
Qed.

Lemma inflate_ok input m : 0 <= m < 2 ^ 63 -> zlen input < 2 ^ 63 ->
  returns (inflate_raw_stream input m) /\
  (forall o used, inflate_raw_stream input m = Ok (o, used) -> zlen o <= m /\ 0 <= used <= zlen input).
Proof.
  intros Hm Hi. unfold inflate_raw_stream. pose proof (zlen_nonneg input).
  set (I := fun s : InflateState * Z * list byte => 0 <= s.1.2 <= zlen input /\ zlen s.2 <= m).
  assert (H0 : I (inflate_new, 0, [])) by (unfold I; cbn [fst snd]; rewrite zlen_nil; lia).
  split.
  - apply (loop_returns _ I (fun s => zlen input - s.1.2 + (m - zlen s.2))); [|done|].
    + intros [[st pos] out] [Hp Ho]. cbn [fst snd] in *. split; [lia|].
      destruct (inflate_round_ok input m st pos out Hp Ho) as (Hr&_&Hs). split; [done|].
      intros [[st' p'] o'] Hb. apply Hs in Hb. unfold I. cbn [fst snd]. lia.
    + cbn [fst snd]. rewrite zlen_nil. lia.
  - intros o used Hl. apply (loop_inv _ I) in Hl as ([[st p] o1]&[Hp Ho]&Hb); [| |done]; cbn [fst snd] in *.
    + apply (inflate_round_ok input m st p o1 Hp Ho) in Hb. lia.
    + intros [[st1 p1] o2] [[st' p'] o'] [Hp Ho] Hb. cbn [fst snd] in *.
      apply (inflate_round_ok input m st1 p1 o2 Hp Ho) in Hb. unfold I. cbn [fst snd]. lia.
Qed.

Lemma gzip_string_ok input flg flag pos p :
  gzip_string input flg flag pos = Ok p -> pos <= p.
Proof.
  unfold gzip_string. destruct (negb _); [|by intros [= <-]; lia]. intros H. inv_ok.
  destruct (get_from input pos) as [r|]; [|done]. apply position_Some in Hv as [? _]. lia.
Qed.
Lemma returns_gzip_string input flg flag pos : returns (gzip_string input flg flag pos).
Proof. unfold gzip_string. destruct (negb _); [|done]. by step_returns; [auto with lam|]. Qed.

Lemma gzip_header_ok input :
  returns (gzip_header input) /\ forall pos, gzip_header input = Ok pos -> 10 <= pos.
Proof.
  unfold gzip_header. destruct (Z.ltb_spec (zlen input) 10); [by split|].
  rewrite slice_eq by lia. cbn [bindR]. destruct (negb _); [by split|].
  destruct (proj2 (get_is_Some input 3) ltac:(lia)) as [b3 Hb3].
  rewrite (proj2 (at_Ok _ _ _) Hb3). cbn [bindR]. destruct (negb _); [by split|]. split.
  - step_returns. { destruct (negb _); [|done]. by step_returns; [auto with lam|]. }
    by do 2 (step_returns; [apply returns_gzip_string|]).
  - intros pos Hp. inv_ok. apply gzip_string_ok in Hv0, Hv1.
    assert (10 <= v).
    { destruct (negb _); inv_ok; [|lia]. pose proof (le_num_range v2). lia. }
    destruct (negb (Z.land (u8 b3) FHCRC =? 0)); lia.
Qed.

Lemma gzip_ok input m : 0 <= m < 2 ^ 63 -> zlen input < 2 ^ 63 -> stream_ok input m (gzip input m).
Proof.
  intros Hm Hi. unfold gzip. destruct (gzip_header_ok input) as [Hr Hp].
  destruct (gzip_header input) as [pos|e| | |]; cbn [bindR]; try by split.
  specialize (Hp pos eq_refl).
  destruct (get_from input pos) as [body|] eqn:Eb; cbn [ok_or bindR]; [|by split].
  apply get_range_zlen in Eb. destruct (inflate_ok body m Hm ltac:(lia)) as [Hri Hoi].
  destruct (inflate_raw_stream body m) as [[out used]|e| | |]; cbn [bindR]; try by split.
  specialize (Hoi _ _ eq_refl).
  destruct (get_range input _ _) as [t|] eqn:Et; cbn [ok_or bindR]; [|by split].
  apply get_range_Some in Et as (?&?&_). destruct (_ || _); split; try done.
  intros ?? [= <- <-]. lia.
Qed.

Lemma decode_stream_ok codec input m : 0 <= m < 2 ^ 63 -> zlen input < 2 ^ 63 ->
  stream_ok input m (decode_stream codec input m).
Proof.
  intros Hm Hi. destruct codec; simpl;
    [by apply gzip_ok|by apply zstd_ok|by apply xz_ok|by apply lzma_ok|by apply lz4_legacy_ok|by split..].
Qed.

End Laws.

(** ** The table-driven CRC-32 *)

(** The bit-at-a-time register the table abbreviates. *)
Definition crc32_bit_step (c : Z) (b : byte) : Z := Nat.iter 8 crc_shift (Z.lxor c (u8 b)).
Definition crc32_spec (data : list byte) : Z := not_u32 (foldl crc32_bit_step (not_u32 0) data).

Lemma crc_shift_lxor x y : crc_shift (Z.lxor x y) = Z.lxor (crc_shift x) (crc_shift y).
Proof.
  assert (Hs : forall z, crc_shift z = Z.lxor (if Z.odd z then 0xedb88320 else 0) (Z.shiftr z 1)).
  { intros z. unfold crc_shift. change 1 with (Z.ones 1) at 1. rewrite Z.land_ones by lia.
    rewrite Zmod_odd. by destruct (Z.odd z); [|rewrite Z.lxor_0_l]. }
  rewrite !Hs, Z.shiftr_lxor. rewrite <- !Z.bit0_odd, Z.lxor_spec.
  destruct (Z.testbit x 0), (Z.testbit y 0); cbn [xorb];
    apply Z.bits_inj'; intros i Hi; rewrite !Z.lxor_spec; rewrite ?Z.bits_0;
    repeat match goal with |- context [Z.testbit ?a ?b] => destruct (Z.testbit a b) end; done.
Qed.

Lemma crc_iter_lxor n x y :
  Nat.iter n crc_shift (Z.lxor x y) = Z.lxor (Nat.iter n crc_shift x) (Nat.iter n crc_shift y).
Proof. induction n as [|n IH]; [done|]. by rewrite !Nat.iter_succ, IH, crc_shift_lxor. Qed.

(** Shifting out zero bits never meets the polynomial. *)
Lemma crc_shift_shiftl z k : 0 <= k -> crc_shift (Z.shiftl z (k + 1)) = Z.shiftl z k.
Proof.
  intros Hk. unfold crc_shift. replace (Z.land (Z.shiftl z (k + 1)) 1) with 0.
  - cbn. rewrite Z.shiftr_shiftl_l by lia. f_equal. lia.
  - change 1 with (Z.ones 1) at 2. rewrite Z.land_ones, Z.shiftl_mul_pow2 by lia.
    rewrite Z.pow_add_r, Z.mul_assoc by lia. symmetry. apply Z.mod_mul. lia.
Qed.

Lemma crc_iter_shiftl n z : Nat.iter n crc_shift (Z.shiftl z (Z.of_nat n)) = z.
Proof.
  revert z. induction n as [|n IH]; intros z; [apply Z.shiftl_0_r|].
  replace (Z.of_nat (S n)) with (Z.of_nat n + 1) by lia.
  rewrite Nat.iter_succ_r, crc_shift_shiftl by lia. apply IH.
Qed.

Lemma crc_byte c : 0 <= c ->
  Nat.iter 8 crc_shift c
  = Z.lxor (default 0 (get CRC32_TABLE (Z.land c 0xff))) (Z.shiftr c 8).
Proof.
  intros Hc. change 0xff with (Z.ones 8). rewrite Z.land_ones by lia.
  pose proof (Z.mod_pos_bound c (2 ^ 8) ltac:(lia)) as Hm.
  unfold CRC32_TABLE. unfold get. rewrite (proj2 (Z.ltb_ge _ _)) by lia.
  rewrite list_lookup_fmap, lookup_seqZ_lt by lia. cbn [fmap option_fmap option_map default].
  rewrite Z2Nat.id, Z.add_0_l by lia.
  assert (Hsplit : c = Z.lxor (c mod 2 ^ 8) (Z.shiftl (Z.shiftr c 8) 8)).
  { rewrite <- Z.land_ones by lia. apply Z.bits_inj'. intros i Hi.
    rewrite Z.lxor_spec, Z.land_spec, Z.testbit_ones_nonneg, Z.shiftl_spec by lia.
    destruct (Z.ltb_spec i 8).
    - rewrite (Z.testbit_neg_r _ (i - 8)) by lia. by destruct (Z.testbit c i).
    - rewrite Z.shiftr_spec by lia. replace (i - 8 + 8) with i by lia. by destruct (Z.testbit c i). }
  rewrite Hsplit at 1. rewrite crc_iter_lxor.
  f_equal. apply (crc_iter_shiftl 8).
Qed.

Lemma crc_shift_nonneg c : 0 <= c -> 0 <= crc_shift c.
Proof.
  intros. unfold crc_shift. case_match; [apply Z.lxor_nonneg|]; rewrite ?Z.shiftr_nonneg; lia.
Qed.

Lemma crc32_bit_step_nonneg c b : 0 <= c -> 0 <= crc32_bit_step c b.
Proof.
  intros Hc. unfold crc32_bit_step.
  assert (H0 : 0 <= Z.lxor c (u8 b)) by (apply Z.lxor_nonneg; pose proof (u8_range b); lia).
  generalize 8%nat as n. induction n as [|n IH]; [done|]. rewrite Nat.iter_succ. by apply crc_shift_nonneg.
Qed.

Lemma crc32_step_eq c b : 0 <= c -> crc32_step c b = crc32_bit_step c b.
Proof.
  intros Hc. pose proof (u8_range b). unfold crc32_step, crc32_bit_step.
  rewrite crc_byte by (apply Z.lxor_nonneg; lia). f_equal.
  rewrite Z.shiftr_lxor. replace (Z.shiftr (u8 b) 8) with 0; [by rewrite Z.lxor_0_r|].
  rewrite Z.shiftr_div_pow2 by lia. symmetry. apply Z.div_small. lia.
Qed.

Lemma crc32_eq data : crc32 data = crc32_spec data.
Proof.
  unfold crc32, crc32_spec. f_equal.
  assert (H0 : 0 <= not_u32 0) by done. revert H0. generalize (not_u32 0) as c.
  induction data as [|b data IH]; intros c Hc; [done|]. cbn [foldl].
  rewrite crc32_step_eq by done. by apply IH, crc32_bit_step_nonneg.
Qed.

(** ** gzip members *)

(** The fields of a gzip header (RFC 1952): six bytes of time, flags and system,
    then the optional fields. *)
Record GzHeader : Type := mkGz {
  gz_info : list byte;
  gz_extra : option (list byte);
  gz_name : option (list byte);
  gz_comment : option (list byte);
  gz_hcrc : option (list byte);
}.

Definition gz_flag {A} (o : option A) (flag : Z) : Z := if o then flag else 0.
Definition gz_flags (h : GzHeader) : Z :=
  gz_flag (gz_hcrc h) 2 + gz_flag (gz_extra h) 4 + gz_flag (gz_name h) 8 +
  gz_flag (gz_comment h) 16.

Definition gz_string (o : option (list byte)) : list byte :=
  match o with Some s => s ++ [x00] | None => [] end.
Definition gz_extra_bytes (o : option (list byte)) : list byte :=
  match o with Some e => le_bytes 2 (zlen e) ++ e | None => [] end.
Definition gz_header_bytes (h : GzHeader) : list byte :=
  ([x1f; x8b; x08; to_u8 (gz_flags h)] ++ gz_info h) ++
  gz_extra_bytes (gz_extra h) ++ gz_string (gz_name h) ++ gz_string (gz_comment h) ++ default [] (gz_hcrc h).

Definition no_nul (o : option (list byte)) : Prop :=
  Forall (fun b => (u8 b =? 0) = false) (default [] o).
Definition gz_wf (h : GzHeader) : Prop :=
  zlen (gz_info h) = 6 /\ zlen (default [] (gz_extra h)) < 2 ^ 16 /\
  no_nul (gz_name h) /\ no_nul (gz_comment h) /\
  (forall c, gz_hcrc h = Some c -> zlen c = 2).

Lemma gzip_string_field input p o r flg flag pos :
  input = p ++ gz_string o ++ r -> no_nul o -> pos = zlen p ->
  negb (Z.land flg flag =? 0) = bool_decide (is_Some o) ->
  gzip_string input flg flag pos = Ok (zlen (p ++ gz_string o)).
Proof.
  intros -> Hn -> Hf. unfold gzip_string. rewrite Hf. destruct o as [s|]; simpl.
  - rewrite get_from_app by done. cbn [mbind option_bind].
    rewrite <- app_assoc. rewrite (position_first _ s r x00) by done. cbn [ok_or bindR].
    do 2 f_equal. rewrite !zlen_app, zlen_cons, zlen_nil. lia.
  - by rewrite app_nil_r.
Qed.

Lemma gzip_extra_field input p o r pos :
  input = p ++ gz_extra_bytes o ++ r -> zlen (default [] o) < 2 ^ 16 -> pos = zlen p ->
  (if bool_decide (is_Some o) then
     let! xlen := ok_or (get_range input pos (pos + 2)) (Corrupt "gzip_header") in
     Ok (pos + (2 + le_num xlen)) else Ok pos) = Ok (zlen (p ++ gz_extra_bytes o)).
Proof.
  intros -> He ->. destruct o as [e|]; [|simpl; by rewrite app_nil_r].
  rewrite bool_decide_eq_true_2 by eauto. cbn [gz_extra_bytes].
  rewrite <- !app_assoc. rewrite (get_range_app p (le_bytes 2 (zlen e))) by (rewrite ?zlen_le_bytes; lia).
  cbn [ok_or bindR]. rewrite le_num_le_bytes, !zlen_app, zlen_le_bytes.
  cbn [default] in He. pose proof (zlen_nonneg e).
  rewrite Z.mod_small by (split; [done|exact He]). f_equal; lia.
Qed.

Lemma gz_flags_bits h :
  let flg := u8 (to_u8 (gz_flags h)) in
  Z.land flg 0xe0 = 0 /\
  negb (Z.land flg FEXTRA =? 0) = bool_decide (is_Some (gz_extra h)) /\
  negb (Z.land flg FNAME =? 0) = bool_decide (is_Some (gz_name h)) /\
  negb (Z.land flg FCOMMENT =? 0) = bool_decide (is_Some (gz_comment h)) /\
  negb (Z.land flg FHCRC =? 0) = bool_decide (is_Some (gz_hcrc h)).
Proof.
  destruct h as [i e n c k]. unfold gz_flags, gz_flag. cbn [gz_extra gz_name gz_comment gz_hcrc].
  destruct e, n, c, k; vm_compute; done.
Qed.

(** The header parser stops exactly where the header ends. *)
Lemma gzip_header_bytes h rest :
  gz_wf h -> gzip_header (gz_header_bytes h ++ rest) = Ok (zlen (gz_header_bytes h)).
Proof.
  intros (Hi&He&Hn&Hc&Hk). destruct (gz_flags_bits h) as (F0&F1&F2&F3&F4).
  unfold gz_header_bytes. set (fl := to_u8 (gz_flags h)) in *.
  set (P := [x1f; x8b; x08; fl] ++ gz_info h).
  assert (HP : zlen P = 10) by (unfold P; rewrite zlen_app, Hi; done).
  set (E := gz_extra_bytes (gz_extra h)).
  set (N := gz_string (gz_name h)). set (C := gz_string (gz_comment h)).
  set (K := default [] (gz_hcrc h)).
  set (input := (P ++ E ++ N ++ C ++ K) ++ rest).
  assert (Hin : input = P ++ E ++ N ++ C ++ K ++ rest) by (unfold input; by rewrite <- !app_assoc).
  assert (H10 : 10 <= zlen input)
    by (rewrite Hin, zlen_app, HP; pose proof (zlen_nonneg (E ++ N ++ C ++ K ++ rest)); lia).
  unfold gzip_header. rewrite (proj2 (Z.ltb_ge _ _)) by done.
  rewrite slice_eq by lia. cbn [bindR].
  replace (sub input 0 (3 - 0)) with [x1f; x8b; x08] by (by rewrite Hin). cbn [negb bool_decide].
  rewrite bool_decide_eq_true_2 by done. cbn [negb].
  rewrite (proj2 (at_Ok input 3 fl)) by (by rewrite Hin). cbn [bindR].
  rewrite F0. cbn [negb Z.eqb]. rewrite F1.
  rewrite (gzip_extra_field input P (gz_extra h) (N ++ C ++ K ++ rest)) by done.
  cbn [bindR].
  rewrite (gzip_string_field input (P ++ E) (gz_name h) (C ++ K ++ rest) _ _ (zlen (P ++ E)))
    by (done || by rewrite Hin, <- !app_assoc). cbn [bindR].
  rewrite (gzip_string_field input ((P ++ E) ++ N) (gz_comment h) (K ++ rest) _ _ _)
    by (done || by rewrite Hin, <- !app_assoc). cbn [bindR]. fold C.
  rewrite F4, !zlen_app. unfold K. destruct (gz_hcrc h) as [c|] eqn:Ec; simpl.
  - rewrite (Hk c eq_refl). f_equal. lia.
  - rewrite zlen_nil. f_equal. lia.
Qed.

(** ** Properties *)

(** C27.  Whatever the input and the format, decoding a stream under an output cap
    comes back with a result; on success the output is within the cap and the
    stream used some, and at most all, of the input. *)
Theorem decode_stream_bounded {D : Decoders} {DL : DecoderLaws D} codec input max_out :
  0 <= max_out < 2 ^ 63 -> zlen input < 2 ^ 63 ->
  returns (decode_stream codec input max_out) /\
  forall out used, decode_stream codec input max_out = Ok (out, used) ->
    zlen out <= max_out /\ 0 < used <= zlen input.
Proof.
  intros Hm Hi. by apply decode_stream_ok.
Qed.

(** C26.  A gzip member with any combination of optional header fields, whose body
    inflates to [data], followed by an 8-byte trailer and then any other data:
    the member is decoded to [data], its exact length reported, when the trailer
    holds the CRC-32 and the length of [data] modulo 2^32, and otherwise it is
    refused as a checksum error. *)
Theorem gzip_member_decoded {D : Decoders} h body data trailer tail max_out :
  gz_wf h -> zlen trailer = 8 ->
  inflate_raw_stream (body ++ trailer ++ tail) max_out = Ok (data, zlen body) ->
  decode_stream SGzip (gz_header_bytes h ++ body ++ trailer ++ tail) max_out
  = if (le_num (sub trailer 0 4) =? crc32_spec data) &&
       (le_num (sub trailer 4 4) =? zlen data mod 2 ^ 32)
    then Ok (data, zlen (gz_header_bytes h ++ body ++ trailer))
    else Err (Corrupt "gzip_checksum").
Proof.
  intros Hh Ht Hb. cbn [decode_stream]. unfold gzip. rewrite gzip_header_bytes by done. cbn [bindR].
  rewrite get_from_app by done. cbn [ok_or bindR]. rewrite Hb. cbn [bindR].
  rewrite (app_assoc (gz_header_bytes h) body).
  rewrite (get_range_app (gz_header_bytes h ++ body) trailer tail) by (rewrite zlen_app; lia).
  cbn [ok_or bindR]. rewrite crc32_eq.
  destruct (_ =? crc32_spec data), (_ =? _ mod _); cbn [negb orb andb]; try done.
  rewrite !zlen_app. do 2 f_equal. lia.
Qed.

(** C30.  The table-driven checksum is the bit-at-a-time CRC-32 (polynomial
    0xEDB88320, reflected, initial and final complement) on every input. *)
Theorem crc32_table_correct data : crc32 data = crc32_spec data.
Proof. apply crc32_eq. Qed.

Lemma decode_stream_bounded_witness :
  returns (decode_stream SLz4Legacy (LZ4_LEGACY_MAGIC ++ [x02; x00; x00; x00; x41; x42]) 5) /\
  zlen [x41; x42] <= 5.
Proof.
  destruct (decode_stream_bounded SLz4Legacy
    (LZ4_LEGACY_MAGIC ++ [x02; x00; x00; x00; x41; x42]) 5) as [Hr Ho];
    [lia|vm_compute; reflexivity|]. split; [exact Hr|].
  apply (Ho [x41; x42] 10). vm_compute. reflexivity.
Defined.

Definition w_header : GzHeader :=
  mkGz (zeros 6) (Some [x01]) (Some (bytes_of "a.txt")) None (Some [x00; x00]).

(** With decoders of stored data: one length byte, then the data. *)
Lemma gzip_member_decoded_witness :
  decode_stream SGzip
    (gz_header_bytes w_header ++ (x05 :: bytes_of "hello") ++
     (le_bytes 4 (crc32_spec (bytes_of "hello")) ++ le_bytes 4 5) ++ bytes_of "XY") 100
  = Ok (bytes_of "hello", 35).
Proof.
  rewrite (gzip_member_decoded w_header (x05 :: bytes_of "hello") (bytes_of "hello"));
    [vm_compute; reflexivity| |vm_compute; reflexivity|vm_compute; reflexivity].
  split_and!; try (vm_compute; reflexivity).
  - repeat constructor.
  - constructor.
  - intros c Hc. injection Hc as <-. vm_compute. reflexivity.
Defined.
