(* ===== verification/Builds.v ===== *)
(** * Builds without some codecs ([crates/lamfold/src/codec.rs], [stream.rs])

    A codec whose cargo feature is off is a function that refuses.  The rest of the
    development has all features on; here is what the two registries are in any
    build, and that a build can only lose answers. *)
From S2P Require Import Prelude Text Cache Substrate Codec Stream.
Open Scope Z_scope.

Inductive Feature : Type := codec_deflate | codec_lz4 | codec_zstd | codec_xz | codec_lzo.
(** The features that are on. *)
Definition Build : Type := Feature -> bool.

Section Builds.
Context {D : Decoders} (build : Build).

(** The function under [cfg(feature = ..)] and the one under [cfg(not(feature = ..))]. *)
Definition cfg {A} (f : Feature) (on off : Res A) : Res A := if build f then on else off.

(** Each function of the registries, in either form. *)
Definition inflate_zlib_in (input : list byte) (expected_len : Z) : Res (list byte) :=
  cfg codec_deflate (inflate_zlib input expected_len) (Err (Unsupported "codec-deflate feature disabled")).
Definition inflate_raw_in (input : list byte) (expected_len : Z) : Res (list byte) :=
  cfg codec_deflate (inflate_raw input expected_len) (Err (Unsupported "codec-deflate feature disabled")).
Definition lz4_block_in (input : list byte) (expected_len : Z) : Res (list byte) :=
  cfg codec_lz4 (lz4_block input expected_len) (Err (Unsupported "codec-lz4 feature disabled")).
Definition zstd_decode_in (input : list byte) (expected_len : Z) : Res (list byte) :=
  cfg codec_zstd (zstd_decode input expected_len) (Err (Unsupported "codec-zstd feature disabled")).
Definition xz_decode_in (input : list byte) (expected_len : Z) : Res (list byte) :=
  cfg codec_xz (xz_decode input expected_len) (Err (Unsupported "codec-xz feature disabled")).
Definition lzo_decode_in (input : list byte) (expected_len : Z) : Res (list byte) :=
  cfg codec_lzo (lzo_decode input expected_len) (Err (Unsupported "codec-lzo feature disabled")).
Definition lz4_block_with_dict_in (input : list byte) (expected_len : Z) (dict : list byte) : Res (list byte) :=
  cfg codec_lz4 (lz4_block_with_dict input expected_len dict) (Err (Unsupported "codec-lz4 feature disabled")).
Definition microlzma_block_decode_in (span : list byte) (props dict_size expected_len : Z) : Res (list byte) :=
  cfg codec_xz (microlzma_block_decode span props dict_size expected_len) (Err (Unsupported "codec-xz feature disabled")).

Definition gzip_in (input : list byte) (max_out : Z) : Res (list byte * Z) :=
  cfg codec_deflate (gzip input max_out) (Err (Unsupported "codec-deflate feature disabled")).
Definition zstd_in (input : list byte) (max_out : Z) : Res (list byte * Z) :=
  cfg codec_zstd (zstd input max_out) (Err (Unsupported "codec-zstd feature disabled")).
Definition xz_in (input : list byte) (max_out : Z) : Res (list byte * Z) :=
  cfg codec_xz (xz input max_out) (Err (Unsupported "codec-xz feature disabled")).
Definition lzma_in (input : list byte) (max_out : Z) : Res (list byte * Z) :=
  cfg codec_xz (lzma input max_out) (Err (Unsupported "codec-xz feature disabled")).
Definition lz4_legacy_in (input : list byte) (max_out : Z) : Res (list byte * Z) :=
  cfg codec_lz4 (lz4_legacy input max_out) (Err (Unsupported "codec-lz4 feature disabled")).

Definition decode_in (codec : Codec) (input : list byte) (expected_len : Z) : Res (list byte) :=
  let! _ := checked_block_len expected_len in
  match codec with
  | Deflate => inflate_raw_in input expected_len
  | Zlib => inflate_zlib_in input expected_len
  | Lz4 => lz4_block_in input expected_len
  | Xz => xz_decode_in input expected_len
  | Zstd => zstd_decode_in input expected_len
  | Lzo => lzo_decode_in input expected_len
  end.

(** A bzip2 or LZO stream has no decoder in any build. *)
Definition decode_stream_in (codec : StreamCodec) (input : list byte) (max_out : Z) : Res (list byte * Z) :=
  match codec with
  | SGzip => gzip_in input max_out
  | SZstd => zstd_in input max_out
  | SXz => xz_in input max_out
  | SLzma => lzma_in input max_out
  | SLz4Legacy => lz4_legacy_in input max_out
  | SBzip2 => Err (Unsupported "stream_bzip2")
  | SLzo => Err (Unsupported "stream_lzo")
  end.
End Builds.

(** ** A build loses answers, and changes none *)

(** The same answer, or a refusal that names the build. *)
Definition same_or_refused {A} (full part : Res A) : Prop := part = full \/ exists w, part = Err (Unsupported w).

Lemma cfg_loses {A} build f (on off : Res A) :
  (exists w, off = Err (Unsupported w)) -> same_or_refused on (cfg build f on off).
Proof. unfold cfg. destruct (build f); [by left|by right]. Qed.

Section Loses.
Context {D : Decoders} (build : Build).
Ltac loses := first [left; reflexivity|apply cfg_loses; eexists; reflexivity].

Lemma decode_in_loses codec input expected_len :
  same_or_refused (decode codec input expected_len) (decode_in build codec input expected_len).
Proof.
  unfold decode, decode_in. destruct (checked_block_len expected_len); cbn [bindR]; [|loses..].
  destruct codec; loses.
Qed.
Lemma decode_stream_in_loses codec input max_out :
  same_or_refused (decode_stream codec input max_out) (decode_stream_in build codec input max_out).
Proof. destruct codec; cbn [decode_stream decode_stream_in]; loses. Qed.
Lemma lz4_block_with_dict_in_loses input expected_len dict :
  same_or_refused (lz4_block_with_dict input expected_len dict) (lz4_block_with_dict_in build input expected_len dict).
Proof. loses. Qed.
Lemma microlzma_block_decode_in_loses span props dict_size expected_len :
  same_or_refused (microlzma_block_decode span props dict_size expected_len)
    (microlzma_block_decode_in build span props dict_size expected_len).
Proof. loses. Qed.

(** The cap comes first in [decode], whatever the build has; the decoder with a
    dictionary refuses before it looks at the size. *)
Lemma decode_in_caps codec input expected_len : MAX_DECOMPRESSED_BLOCK_BYTES < expected_len ->
  decode_in build codec input expected_len = Err (FileTooLarge expected_len MAX_DECOMPRESSED_BLOCK_BYTES).
Proof.
  intros Hl. unfold decode_in, checked_block_len, checked_len, checked_len_on.
  rewrite Z.gtb_ltb, (proj2 (Z.ltb_lt _ _)) by done. done.
Qed.
End Loses.

(** With every feature on the registries are those of [Codec] and [Stream]. *)
Lemma full_build {D : Decoders} codec input n : decode_in (fun _ => true) codec input n = decode codec input n.
Proof. unfold decode_in, decode. by destruct (checked_block_len n), codec. Qed.
Lemma full_build_stream {D : Decoders} codec input n :
  decode_stream_in (fun _ => true) codec input n = decode_stream codec input n.
Proof. by destruct codec. Qed.
