(* ===== verification/Nodes.v ===== *)
(** * Node tables

    The frontends whose inodes have no small stable number of their own
    (SquashFS, UDF, ISO 9660) keep the inodes they have met in a vector and a
    [BTreeMap] from where an inode comes from to its index, which is the node
    handle they give out.  This file has the tables with their invariant
    ([table_ok], relative to a relation [stands] between a key and the inodes it
    may have), and the interface [NodeFs] of a volume that parses the inode of a
    key from its medium: [intern], [inode] and the loop of [read_dir] over the
    entries of a directory are written against it. *)
From S2P Require Import Prelude Text Cache Substrate.
Open Scope Z_scope.

Section Nodes.
Context {K I : Type} `{Countable K}.
Implicit Types (nodes : list I) (by_key : gmap K NodeId).

(** The handle of [key], and the two tables after. *)
Definition intern_in nodes by_key (key : K) (inode : I) : NodeId * (list I * gmap K NodeId) :=
  match by_key !! key with
  | Some id => (id, (nodes, by_key))
  | None => (zlen nodes, (nodes ++ [inode], <[key := zlen nodes]> by_key))
  end.

(** [self.nodes.get(node as usize).cloned().ok_or(NotFound)]. *)
Definition node_in nodes (node : NodeId) : Res I := ok_or (get nodes node) NotFound.

(** Every known key has one handle of its own, with an inode it stands for. *)
Record table_ok (stands : K -> I -> Prop) nodes by_key : Prop := mkTableOk {
  tb_known : forall k id, by_key !! k = Some id ->
    exists i, node_in nodes id = Ok i /\ stands k i;
  tb_inj : forall k k' id, by_key !! k = Some id -> by_key !! k' = Some id -> k = k';
}.

Lemma node_in_range nodes id : 0 <= id < zlen nodes <-> exists i, node_in nodes id = Ok i.
Proof. unfold node_in. setoid_rewrite ok_or_Ok. by rewrite <- get_is_Some. Qed.

Lemma node_in_prefix nodes nodes' node i :
  nodes `prefix_of` nodes' -> node_in nodes node = Ok i -> node_in nodes' node = Ok i.
Proof.
  intros Hp. unfold node_in. rewrite !ok_or_Ok, !get_Some. intros [? Hi]. split; [done|].
  by eapply prefix_lookup_Some.
Qed.

Lemma node_in_Forall (P : I -> Prop) nodes node i :
  Forall P nodes -> node_in nodes node = Ok i -> P i.
Proof.
  intros HP. unfold node_in. rewrite ok_or_Ok, get_Some. intros [_ Hi].
  exact (Forall_lookup_1 _ _ _ _ HP Hi).
Qed.

Lemma node_in_wp {X : Prop} (P : I -> Prop) nodes node : Forall P nodes -> wpx X (node_in nodes node) P.
Proof.
  intros HP. apply wp_ok_or. intros i Hi. eapply node_in_Forall; [done|]. by apply ok_or_Ok.
Qed.

Lemma table_ok_empty stands : table_ok stands [] ∅.
Proof. constructor; intros *; by rewrite lookup_empty. Qed.

(** [intern] keeps the tables in order, every handle its inode, and gives back
    the handle of the key. *)
Lemma intern_in_ok stands nodes by_key key inode :
  table_ok stands nodes by_key -> stands key inode ->
  let '(id, (nodes', by_key')) := intern_in nodes by_key key inode in
  table_ok stands nodes' by_key' /\ nodes `prefix_of` nodes' /\ by_key ⊆ by_key' /\
  by_key' !! key = Some id /\
  (forall P : I -> Prop, Forall P nodes -> P inode -> Forall P nodes').
Proof.
  intros [Hknown Hinj] Hst. unfold intern_in. destruct (by_key !! key) as [id|] eqn:Ek.
  { split; [by constructor|]. done. }
  set (nodes' := nodes ++ [inode]).
  assert (Hpre : nodes `prefix_of` nodes') by by apply prefix_app_r.
  assert (Hnew : node_in nodes' (zlen nodes) = Ok inode).
  { apply ok_or_Ok, get_Some. split; [apply zlen_nonneg|].
    apply list_lookup_middle. unfold zlen. lia. }
  assert (Hlt : forall k id, by_key !! k = Some id -> id <> zlen nodes).
  { intros k id Hk. destruct (Hknown _ _ Hk) as (i&Hi&_).
    assert (0 <= id < zlen nodes) by (apply node_in_range; eauto). lia. }
  split; [constructor|].
  - intros k id. destruct (decide (k = key)) as [->|].
    + rewrite lookup_insert_eq. intros [= <-]. by exists inode.
    + rewrite lookup_insert_ne by done. intros Hk. destruct (Hknown _ _ Hk) as (i&Hi&?).
      exists i. split; [by eapply node_in_prefix|done].
  - intros k1 k2 id. destruct (decide (k1 = key)) as [->|], (decide (k2 = key)) as [->|].
    + done.
    + rewrite lookup_insert_eq, lookup_insert_ne by done. intros [= <-] ?. by edestruct Hlt.
    + rewrite lookup_insert_eq, lookup_insert_ne by done. intros ? [= <-]. by edestruct Hlt.
    + rewrite !lookup_insert_ne by done. apply Hinj.
  - split; [done|]. split; [by apply insert_subseteq|]. split; [apply lookup_insert_eq|].
    intros P HP Hi. apply Forall_app. split; [done|by apply Forall_singleton].
Qed.
End Nodes.

(** ** Volumes with a node table *)

(** A volume [F] whose inodes [I] come from keys [K] of its medium: its tables,
    the volume with other tables, and the parser of an inode. *)
Class NodeFs (F K I : Type) `{Countable K} : Type := {
  fs_nodes : F -> list I;
  fs_keys : F -> gmap K NodeId;
  fs_with : F -> list I * gmap K NodeId -> F;
  fs_parse : F -> K -> Res I;
  fs_kind : I -> FileKind;
}.

(** The tables are all that [fs_with] changes. *)
Class NodeFsLaws (F K I : Type) `{NodeFs F K I} : Prop := {
  fs_nodes_with : forall f t, fs_nodes (fs_with f t) = t.1;
  fs_keys_with : forall f t, fs_keys (fs_with f t) = t.2;
  fs_parse_with : forall f t, fs_parse (fs_with f t) = fs_parse f;
  fs_with_same : forall f, fs_with f (fs_nodes f, fs_keys f) = f;
  fs_with_with : forall f t t', fs_with (fs_with f t) t' = fs_with f t';
}.

Section NodeFs.
Context {F K I : Type} `{NodeFs F K I}.

Definition intern (key : K) (inode : I) : ST F NodeId := fun f =>
  let (id, tables) := intern_in (fs_nodes f) (fs_keys f) key inode in
  (Ok id, fs_with f tables).

Definition inode (f : F) (node : NodeId) : Res I := node_in (fs_nodes f) node.

(** The loop [for (name, child) in entries] of [read_dir]: parse each child,
    intern it, list it. *)
Fixpoint intern_entries (entries : list (name * K)) (out : list DirEntry) : ST F (list DirEntry) :=
  match entries with
  | [] => retST out
  | (nm, child_key) :: rest =>
      let* f := getST in
      let* child := liftR (fs_parse f child_key) in
      let* node := intern child_key child in
      intern_entries rest (out ++ [mkDirEntry nm node (fs_kind child)])
  end.

(** [f'] is [f] with more nodes: every handle keeps its inode. *)
Record extends (f f' : F) : Prop := mkExtends {
  ext_with : exists t, f' = fs_with f t;
  ext_nodes : fs_nodes f `prefix_of` fs_nodes f';
  ext_keys : fs_keys f ⊆ fs_keys f';
}.

(** Entry [e] of a listing stands for the key it was read with. *)
Definition entry_for (f : F) (x : name * K) (e : DirEntry) : Prop :=
  de_name e = x.1 /\ fs_keys f !! x.2 = Some (de_node e) /\
  exists i, fs_parse f x.2 = Ok i /\ inode f (de_node e) = Ok i /\ de_kind e = fs_kind i.

(** The invariant: what the volume's own fields satisfy, what its inodes satisfy,
    and that the table holds what [fs_parse] gives, one handle per key. *)
Record fs_ok (geo : F -> Prop) (good : I -> Prop) (f : F) : Prop := mkFsOk {
  ok_geo : geo f;
  ok_nodes : Forall good (fs_nodes f);
  ok_table : table_ok (fun k i => fs_parse f k = Ok i) (fs_nodes f) (fs_keys f);
}.

Context {L : NodeFsLaws F K I}.
Context (geo : F -> Prop) (good : I -> Prop).
Context (geo_with : forall f t, geo f -> geo (fs_with f t)).
Implicit Types f : F.

Lemma extends_refl f : extends f f.
Proof. constructor; [|done|done]. exists (fs_nodes f, fs_keys f). symmetry. apply fs_with_same. Qed.

Lemma extends_trans f1 f2 f3 : extends f1 f2 -> extends f2 f3 -> extends f1 f3.
Proof.
  intros [[t ->] ? ?] [[t' ->] ? ?]. constructor; [|by etrans|by etrans].
  exists t'. by rewrite fs_with_with.
Qed.

Lemma extends_parse f f' : extends f f' -> fs_parse f' = fs_parse f.
Proof. intros [[t ->] _ _]. apply fs_parse_with. Qed.

Lemma extends_inode f f' node i : extends f f' -> inode f node = Ok i -> inode f' node = Ok i.
Proof. intros Hx. apply node_in_prefix, Hx. Qed.

Lemma inode_wp {X : Prop} f node : fs_ok geo good f -> wpx X (inode f node) good.
Proof. intros Hok. apply node_in_wp, Hok. Qed.

Lemma intern_ok f k i : fs_ok geo good f -> good i -> fs_parse f k = Ok i ->
  exists id f', intern k i f = (Ok id, f') /\ fs_ok geo good f' /\ extends f f' /\
    fs_keys f' !! k = Some id /\ inode f' id = Ok i.
Proof.
  intros [Hgeo Hnodes Htable] Hi Hp. pose proof (intern_in_ok _ _ _ k i Htable Hp) as Hin. unfold intern.
  destruct (intern_in _ _ _ _) as [id [nodes' keys']]. destruct Hin as (Htab&Hpre&Hsub&Hr&HF).
  exists id, (fs_with f (nodes', keys')). split; [done|]. split.
  { constructor; [by apply geo_with|by rewrite fs_nodes_with; apply HF|].
    by rewrite fs_nodes_with, fs_keys_with, fs_parse_with. }
  split. { constructor; [by eexists|by rewrite fs_nodes_with|by rewrite fs_keys_with]. }
  split; [by rewrite fs_keys_with|]. unfold inode. rewrite fs_nodes_with.
  destruct (tb_known _ _ _ Htab _ _ Hr) as (i'&Hi'&Hp'). by assert (i' = i) as -> by congruence.
Qed.

Lemma entry_for_extends f f' x e : extends f f' -> entry_for f x e -> entry_for f' x e.
Proof.
  intros Hx (?&Hr&i&Hp&Hi&?). split; [done|]. split; [by eapply lookup_weaken, Hx|].
  exists i. split; [by rewrite (extends_parse _ _ Hx)|]. split; [by eapply extends_inode|done].
Qed.

(** A call that fails leaves the volume as it is. *)
Lemma fails_here {A} f (m : Res A) (P : Res A -> F -> Prop) : fs_ok geo good f -> P m f ->
  exists r f', (m, f) = (r, f') /\ fs_ok geo good f' /\ extends f f' /\ P r f'.
Proof. intros. exists m, f. split; [done|]. split; [done|]. split; [apply extends_refl|done]. Qed.

(** The loop keeps the invariant and every handle; the entries it lists stand for
    the keys they were read with. *)
Lemma intern_entries_ok (keys_ok : name * K -> Prop) entries : forall f out,
  (forall f x, fs_ok geo good f -> keys_ok x -> wpx True (fs_parse f x.2) good) ->
  fs_ok geo good f -> Forall keys_ok entries ->
  exists r f', intern_entries entries out f = (r, f') /\ fs_ok geo good f' /\ extends f f' /\
    wpx True r (fun es => exists es', es = out ++ es' /\ Forall2 (entry_for f') entries es').
Proof.
  intros f out Hparse. revert f out.
  induction entries as [|[nm k] entries IH]; intros f out Hok Hkeys; cbn [intern_entries].
  { apply (fails_here f (Ok out)); [done|]. exists []. by rewrite app_nil_r. }
  apply Forall_cons in Hkeys as [Hk Hkeys]. pose proof (Hparse f (nm, k) Hok Hk) as Hp. cbn [snd] in Hp.
  unfold bindST at 1, getST at 1. unfold bindST at 1, liftR at 1.
  destruct (fs_parse f k) as [i|e| | |] eqn:Ei; try done; try by apply (fails_here f).
  destruct (intern_ok f k i Hok Hp Ei) as (id&f1&Hin&Hok1&Hx1&Hr1&Hi1).
  unfold bindST at 1. rewrite Hin.
  destruct (IH f1 (out ++ [mkDirEntry nm id (fs_kind i)]) Hok1 Hkeys) as (r&f2&->&Hok2&Hx2&Hw).
  exists r, f2. split; [done|]. split; [done|]. split; [by eapply extends_trans|].
  eapply wp_mono; [exact Hw|]. intros es (es'&->&HF).
  exists (mkDirEntry nm id (fs_kind i) :: es'). split; [by rewrite <- app_assoc|].
  constructor; [|done]. apply (entry_for_extends f1); [done|]. split; [done|]. split; [done|].
  exists i. split; [by rewrite (extends_parse _ _ Hx1)|done].
Qed.

(** What a listing says of the volume before it, and that handles are one per key. *)
Lemma entries_for_spec f f' entries es : fs_ok geo good f' -> extends f f' ->
  Forall2 (entry_for f') entries es ->
  Forall2 (fun x e => de_name e = x.1 /\
    exists i, fs_parse f x.2 = Ok i /\ inode f' (de_node e) = Ok i /\ de_kind e = fs_kind i) entries es /\
  (forall j k x y e e', entries !! j = Some x -> es !! j = Some e ->
     entries !! k = Some y -> es !! k = Some e' -> (x.2 = y.2 <-> de_node e = de_node e')).
Proof.
  intros Hok' Hx HF. split.
  - eapply Forall2_impl; [exact HF|]. intros x e (?&_&i&Hp&?). rewrite (extends_parse _ _ Hx) in Hp.
    split; [done|]. by exists i.
  - intros j k x y e e' Hj He Hk Hf.
    destruct (Forall2_lookup_lr _ _ _ _ _ _ HF Hj He) as (_&Hxr&_).
    destruct (Forall2_lookup_lr _ _ _ _ _ _ HF Hk Hf) as (_&Hyr&_).
    split; [intros E; rewrite E in Hxr; congruence|].
    intros E. rewrite E in Hxr. by eapply (tb_inj _ _ _ (ok_table _ _ _ Hok')).
Qed.
End NodeFs.
