(* ===== verification/NodesTree.v ===== *)
(** * Frontends with a node table hold trees

    What SquashFS, UDF and ISO 9660 share on the way to [Tree.TreeFs]: a handle
    stands for a tree when it has the inode of a key the tree is written at.  The
    table only grows, so handles keep standing for what they stood for, and the
    loop of [read_dir] lists nodes for the trees at the keys it was given. *)
From S2P Require Import Prelude Text Cache Substrate Path Nodes Tree.
Open Scope Z_scope.

(** A [lookup] over the volume's own listing is one over the frontend's. *)
Lemma on_frontend_find {F} (m : ST F (list DirEntry)) nm s :
  on_frontend (let* es := m in retST (find_entry nm es)) s
  = (let* es := on_frontend m in retST (find_entry nm es)) s.
Proof. destruct s as [f cx]. unfold on_frontend, bindST. by destruct (m f) as [[?|?| | |] ?]. Qed.

Section NodesTree.
Context {F K I S : Type} `{NodeFs F K I} `{!NodeFsLaws F K I} `{FoldFrontend F S}.
Context (geo : F -> Prop) (good : I -> Prop) (geo_with : forall f t, geo f -> geo (fs_with f t)).
Context (base : F) (key_tree : K -> Tree -> Prop).
Context (root_with : forall f t, root (S := S) (fs_with f t) = root (S := S) f).
(** The inode at a key of the medium. *)
Context (parses : forall k t, key_tree k t -> exists i, fs_parse base k = Ok i /\ good i /\ fs_kind i = tree_kind t).
Abbreviation state := (F * SubstrateCtx)%type (only parsing).
Implicit Types (f : F) (s : state).

(** The volume is [base] with some nodes. *)
Definition over f : Prop := fs_ok geo good f /\ extends base f.

Definition node_stands s (n : NodeId) (t : Tree) : Prop :=
  over s.1 /\ exists k i, key_tree k t /\ fs_parse base k = Ok i /\ inode s.1 n = Ok i.

Lemma over_parse f k : over f -> fs_parse f k = fs_parse base k.
Proof. intros [_ Hx]. by rewrite (extends_parse _ _ Hx). Qed.

Lemma extends_root f f' : extends f f' -> root (S := S) f' = root (S := S) f.
Proof. intros [[t ->] _ _]. apply root_with. Qed.

Lemma extends_keeps f f' cx cx' : over f -> extends f f' -> fs_ok geo good f' -> keeps node_stands (f, cx) (f', cx').
Proof.
  intros Ho Hx Hok. split; [by apply extends_root|]. intros n t (_&k&i&Hk&Hp&Hi). split.
  - split; [done|]. eapply extends_trans; [apply Ho|done].
  - exists k, i. split; [done|]. split; [done|]. by eapply extends_inode.
Qed.

(** A key, interned. *)
Lemma intern_stands f cx k t i : over f -> key_tree k t -> fs_parse f k = Ok i ->
  exists id f', intern k i f = (Ok id, f') /\ over f' /\ extends f f' /\ fs_kind i = tree_kind t /\
    node_stands (f', cx) id t.
Proof.
  intros Ho Ht Hp. pose proof Hp as Hb. rewrite (over_parse f k Ho) in Hb.
  destruct (parses k t Ht) as (i'&Hp'&Hgood&Hkind). assert (i' = i) as -> by congruence.
  destruct (intern_ok geo good geo_with f k i (proj1 Ho) Hgood Hp) as (id&f'&Hin&Hok&Hx&_&Hi).
  assert (over f') by (split; [done|by eapply extends_trans; [apply Ho|]]).
  exists id, f'. split; [done|]. split; [done|]. split; [done|]. split; [done|]. split; [done|]. by exists k, i.
Qed.

(** The root is the first. *)
Lemma intern_first f k i id f' : fs_nodes f = [] -> fs_keys f = ∅ -> intern k i f = (Ok id, f') -> id = 0.
Proof. unfold intern, intern_in. intros -> ->. rewrite lookup_empty. by intros [= <-]. Qed.

(** The loop of [read_dir]. *)
Lemma intern_entries_stands entries es : Forall2 (fun x e => x.1 = e.1 /\ key_tree x.2 e.2) entries es ->
  forall f out cx, over f -> exists out' f', intern_entries entries out f = (Ok (out ++ out'), f') /\ over f' /\ extends f f' /\
    Forall2 (lists node_stands (f', cx)) out' es.
Proof.
  induction 1 as [|[nm k] e entries es [Hn Ht] _ IH]; intros f out cx Ho; cbn [intern_entries].
  { exists [], f. rewrite app_nil_r. split; [done|]. split; [done|]. split; [apply extends_refl|constructor]. }
  cbn [fst snd] in *. destruct (parses k _ Ht) as (i&Hp&_&_). rewrite <- (over_parse f k Ho) in Hp.
  unfold bindST at 1, getST at 1. unfold bindST at 1, liftR at 1. rewrite Hp.
  destruct (intern_stands f cx k _ i Ho Ht Hp) as (id&f1&Hin&Ho1&Hx1&Hkind&Hs). unfold bindST at 1. rewrite Hin.
  destruct (IH f1 (out ++ [mkDirEntry nm id (fs_kind i)]) cx Ho1) as (out'&f'&->&Ho'&Hx'&HF).
  exists (mkDirEntry nm id (fs_kind i) :: out'), f'. rewrite <- app_assoc. split; [done|]. split; [done|].
  split; [by eapply extends_trans|]. constructor; [|done]. split; [done|]. split; [done|].
  by apply (extends_keeps f1 f' cx cx Ho1 Hx' (proj1 Ho')).
Qed.
End NodesTree.
