(* ===== verification/Cpio.v ===== *)
(** * cpio archives and chained initramfs images
      ([crates/lamfold-cpio/src/cpio.rs])

    The newc/CRC parser, the fold of records into a tree, the chain of archives
    and compressed members, and the frontend over the result.  The reused
    [cpio_reader] parser of the older formats is the parameter [iter_files]. *)
From S2P Require Import Prelude Text Cache Substrate Path Codec Stream.
Open Scope Z_scope.

Definition S_IFMT : Z := 61440.   (* 0o170_000 *)
Definition S_IFDIR : Z := 16384.  (* 0o040_000 *)
Definition S_IFREG : Z := 32768.  (* 0o100_000 *)
Definition S_IFLNK : Z := 40960.  (* 0o120_000 *)

Definition NEWC_HEADER : Z := 110.
Definition NEWC_MAGIC : list byte := bytes_of "070701".
Definition CRC_MAGIC : list byte := bytes_of "070702".
Definition TRAILER : list byte := bytes_of "TRAILER!!!".
Definition MAX_NAME : Z := 4096.

Record Record_ : Type := mkRecord {
  r_name : Z * Z;
  r_mode : Z;
  r_inode : Z * Z * Z;
  r_nlink : Z;
  r_data : Z * Z;
}.

Definition align4 (n : Z) : Z := Z.land (n + 3) (Z.lnot 3).

(** [char::from(d).to_digit(16)]. *)
Definition to_digit16 (d : byte) : option Z :=
  let v := u8 d in
  if (48 <=? v) && (v <=? 57) then Some (v - 48)
  else if (97 <=? v) && (v <=? 102) then Some (v - 87)
  else if (65 <=? v) && (v <=? 70) then Some (v - 55)
  else None.

Fixpoint hex_fold (acc : Z) (digits : list byte) : Res Z :=
  match digits with
  | [] => Ok acc
  | d :: ds =>
      let! v := ok_or (to_digit16 d) (Corrupt "cpio_bad_header") in
      hex_fold (Z.lor (Z.shiftl acc 4 mod 2 ^ 32) v) ds
  end.

Definition hex_field (archive : list byte) (at' i : Z) : Res Z :=
  let start := at' + 6 + i * 8 in
  let! digits := ok_or (get_range archive start (start + 8)) (Corrupt "cpio_short_header") in
  hex_fold 0 digits.

(** The byte sum of the CRC format, modulo 2^32. *)
Definition byte_sum (l : list byte) : Z := foldl (fun a b => (a + u8 b) mod 2 ^ 32) 0 l.

Definition parse_record (archive : list byte) (at' : Z) (crc : bool) : Res (Record_ * Z) :=
  let field := hex_field archive at' in
  let! ino := field 0 in
  let! mode := field 1 in
  let! nlink := field 4 in
  let! filesize := field 6 in
  let! devmajor := field 7 in
  let! devminor := field 8 in
  let! namesize := field 11 in
  let! check := field 12 in
  if (namesize =? 0) || (namesize >? MAX_NAME) then Err (Corrupt "cpio_bad_namesize")
  else
    let name_start := at' + NEWC_HEADER in
    let name_end := name_start + namesize - 1 in
    if negb (bool_decide (get archive name_end = Some x00)) then Err (Corrupt "cpio_bad_name")
    else
      let data_start := align4 (name_start + namesize) in
      let! data_end := ok_or (e ← checked_add 64 data_start filesize;
                              if e <=? zlen archive then Some e else None)
                         (Corrupt "cpio_short_data") in
      let! _ :=
        if crc && (Z.land mode S_IFMT =? S_IFREG) then
          let! data := slice archive data_start data_end in
          if negb (byte_sum data =? check) then Err (Corrupt "cpio_bad_crc") else Ok tt
        else Ok tt in
      Ok (mkRecord (name_start, name_end - name_start) mode (devmajor, devminor, ino) nlink
            (data_start, filesize), align4 data_end).

Record Span : Type := mkSpan { sp_buf : Z; sp_off : Z; sp_len : Z }.
Definition Span_default : Span := mkSpan 0 0 0.

Record Node : Type := mkNode {
  nd_kind : FileKind;
  nd_data : Span;
  nd_mode : Z;
  nd_children : gmap name NodeId;
}.

(** [Node::dir]. *)
Definition dir (mode : Z) : Node := mkNode Directory Span_default mode ∅.

Definition file_kind (mode : Z) : FileKind :=
  let t := Z.land mode S_IFMT in
  if t =? S_IFDIR then Directory
  else if t =? S_IFREG then Regular
  else if t =? S_IFLNK then Symlink
  else Other.

(** [nodes[i] = f(nodes[i])], which panics out of range. *)
Definition upd (nodes : list Node) (i : Z) (f : Node -> Node) : Res (list Node) :=
  let! n := at_ nodes i in Ok (<[Z.to_nat i := f n]> nodes).

(** The component loop of [insert], from node [cur]. *)
Fixpoint insert_comps (kind : FileKind) (mode : Z) (data : Span) (nodes : list Node) (cur : Z)
    (comps : list name) : Res (list Node) :=
  match comps with
  | [] => Ok nodes
  | comp :: rest =>
      let last := bool_decide (rest = []) in
      let! n := at_ nodes cur in
      match nd_children n !! comp with
      | Some existing =>
          let! nodes :=
            if last && negb (bool_decide (kind = Directory)) then
              upd nodes existing (fun n => mkNode kind data mode (nd_children n))
            else Ok nodes in
          insert_comps kind mode data nodes existing rest
      | None =>
          let id := zlen nodes in
          let nodes := nodes ++ [if last then mkNode kind data mode ∅ else dir 493] in
          let! nodes := upd nodes cur (fun n =>
            mkNode (nd_kind n) (nd_data n) (nd_mode n) (<[comp := id]> (nd_children n))) in
          insert_comps kind mode data nodes id rest
      end
  end.

Definition insert (nodes : list Node) (path : name) (kind : FileKind) (mode : Z) (data : Span)
    : Res (list Node) :=
  insert_comps kind mode data nodes 0 (components path).

(** ** One newc archive *)

(** One round of the record loop of [insert_newc_archive]. *)
Definition record_round (archive : list byte) (s : Z * list Record_)
    : Res ((Z * list Record_) + (Z * list Record_)) :=
  let '(pos, records) := s in
  let! magic := ok_or (get_range archive pos (pos + 6)) (Corrupt "cpio_no_trailer") in
  let crc := bool_decide (magic = CRC_MAGIC) in
  if negb crc && negb (bool_decide (magic = NEWC_MAGIC)) then Err (Corrupt "cpio_bad_magic")
  else
    let! (record, next) := parse_record archive pos crc in
    let (name_off, name_len) := r_name record in
    let! nm := slice archive name_off (name_off + name_len) in
    if bool_decide (nm = TRAILER) then Ok (inr (next, records))
    else Ok (inl (next, records ++ [record])).

(** The data of hard-linked files, by inode. *)
Definition linked (records : list Record_) : gmap (Z * Z * Z) (Z * Z) :=
  foldl (fun m r =>
    if (Z.land (r_mode r) S_IFMT =? S_IFREG) && (r_nlink r >? 1) && (snd (r_data r) >? 0)
    then <[r_inode r := r_data r]> m else m) ∅ records.

(** [for r in &records { .. insert(..) }]. *)
Fixpoint insert_records (archive : list byte) (idx : Z) (links : gmap (Z * Z * Z) (Z * Z))
    (nodes : list Node) (records : list Record_) : Res (list Node) :=
  match records with
  | [] => Ok nodes
  | r :: rs =>
      let! raw := slice archive (fst (r_name r)) (fst (r_name r) + snd (r_name r)) in
      let! nm := if utf8_valid raw then Ok raw else Err (Unsupported "cpio_name_not_utf8") in
      let kind := file_kind (r_mode r) in
      let '(off, len) :=
        if bool_decide (kind = Regular) && (r_nlink r >? 1)
        then default (r_data r) (links !! r_inode r) else r_data r in
      let! nodes := insert nodes nm kind (Z.land (r_mode r) 4095) (mkSpan idx off len) in
      insert_records archive idx links nodes rs
  end.

Definition insert_newc_archive (archive : list byte) (idx : Z) (nodes : list Node) (start : Z)
    : Res (Z * list Node) :=
  let! (pos, records) := loop (record_round archive) (start, []) in
  let! nodes := insert_records archive idx (linked records) nodes records in
  Ok (pos, nodes).

(** ** Chained archives and compressed members *)

(** An entry of the [cpio_reader] iterator: its [file] slice is given by offset
    and length in the archive. *)
Record CpioEntry : Type := mkCpioEntry { ce_name : name; ce_mode : Z; ce_off : Z; ce_len : Z }.

Class CpioReader : Type := { iter_files : list byte -> list CpioEntry }.
(** The iterator borrows its slices from the archive. *)
Class CpioReaderLaws (R : CpioReader) : Prop := {
  iter_files_spans : forall archive e, e ∈ iter_files archive ->
    0 <= ce_off e /\ 0 <= ce_len e /\ ce_off e + ce_len e <= zlen archive;
}.

Section Chain.
Context {D : Decoders} {R : CpioReader}.

(** The state of [insert_chain]: buffers, nodes, budget. *)
Abbreviation Fold := (list (list byte) * list Node * Z)%type (only parsing).

(** One round of the [loop] of [insert_chain]; [rec] is the recursive call, and
    the loop state also holds the position. *)
Definition chain_round (rec : list (list byte) -> list Node -> Z -> Z -> Res Fold) (idx : Z)
    (s : Z * Fold) : Res ((Z * Fold) + Fold) :=
  let '(pos, (buffers, nodes, budget)) := s in
  let! archive := at_ buffers idx in
  match r ← get_from archive pos; position (fun b => negb (u8 b =? 0)) r with
  | None => Ok (inr (buffers, nodes, budget))
  | Some n =>
      let pos := pos + n in
      let! rest := slice archive pos (zlen archive) in
      match sniff rest with
      | Some codec =>
          if negb (idx =? 0) then Err (Corrupt "cpio_compressed_inside_compressed")
          else
            let! (out, used) := decode_stream codec rest budget in
            let! budget := subw budget (zlen out) in
            let pos := pos + used in
            let buffers := buffers ++ [out] in
            let member := zlen buffers - 1 in
            let! (buffers, nodes, budget) := rec buffers nodes member budget in
            Ok (inl (pos, (buffers, nodes, budget)))
      | None =>
          let newc := starts_with rest CRC_MAGIC || starts_with rest NEWC_MAGIC in
          if negb newc || negb (pos mod 4 =? 0) then Err (Corrupt "cpio_junk_between_archives")
          else
            let! (pos, nodes) := insert_newc_archive archive idx nodes pos in
            Ok (inl (pos, (buffers, nodes, budget)))
      end
  end.

(** A decompressed member never recurses, so a [depth] of two is enough. *)
Fixpoint insert_chain (depth : nat) (buffers : list (list byte)) (nodes : list Node)
    (idx budget : Z) : Res Fold :=
  match depth with
  | O => Diverge
  | S depth' => loop (chain_round (insert_chain depth') idx) (0, (buffers, nodes, budget))
  end.

(** The [for] loop of [insert_single]. *)
Fixpoint insert_entries (nodes : list Node) (es : list CpioEntry) : Res (list Node) :=
  match es with
  | [] => Ok nodes
  | e :: es' =>
      let! nodes := insert nodes (ce_name e) (file_kind (ce_mode e)) (Z.land (ce_mode e) 4095)
                      (mkSpan 0 (ce_off e) (ce_len e)) in
      insert_entries nodes es'
  end.
Definition insert_single (archive : list byte) (nodes : list Node) : Res (list Node) :=
  insert_entries nodes (iter_files archive).

(** ** The frontend *)

Record Cpio : Type := mkCpio { cp_buffers : list (list byte); cp_nodes : list Node }.

Definition node (fs : Cpio) (id : NodeId) : Res Node := ok_or (get (cp_nodes fs) id) NotFound.

Definition bytes (fs : Cpio) (span : Span) : Res (list byte) :=
  let! b := at_ (cp_buffers fs) (sp_buf span) in
  slice b (sp_off span) (sp_off span + sp_len span).

Section Frontend.
Context {S : Type} `{BlockSource S}.

Definition cpio_probe (src : S) : Res bool :=
  if src_len src <? 6 then Ok false
  else
    let! m := src_read_at src 0 6 in
    let ascii := bool_decide (m = NEWC_MAGIC) || bool_decide (m = CRC_MAGIC) ||
                 bool_decide (m = bytes_of "070707") in
    let! m0 := at_ m 0 in
    let! m1 := at_ m 1 in
    let binary := (u8 m0 =? 113) && (u8 m1 =? 199) || (u8 m0 =? 199) && (u8 m1 =? 113) in
    Ok (ascii || binary).

Definition cpio_open (src : S) : Res Cpio :=
  let! len := checked_full_read_len (src_len src) in
  let! archive := src_read_at src 0 len in
  let nodes := [dir 493] in
  let newc := starts_with archive NEWC_MAGIC || starts_with archive CRC_MAGIC in
  let buffers := [archive] in
  if (newc : bool) then
    let! budget := checked_full_read_len MAX_BOOT_FILE_BYTES in
    let! (buffers, nodes, _) := insert_chain 2 buffers nodes 0 budget in
    Ok (mkCpio buffers nodes)
  else
    let! nodes := insert_single archive nodes in
    Ok (mkCpio buffers nodes).
End Frontend.

Definition cpio_lookup (fs : Cpio) (d : NodeId) (nm : name) : Res (option NodeId) :=
  let! n := node fs d in
  if negb (bool_decide (nd_kind n = Directory)) then Err NotDirectory
  else Ok (nd_children n !! nm).

(** [for (name, &child) in &node.children] runs over the names in order. *)
Fixpoint dir_entries (nodes : list Node) (children : list (name * NodeId)) : Res (list DirEntry) :=
  match children with
  | [] => Ok []
  | (nm, child) :: rest =>
      let! c := at_ nodes child in
      let! out := dir_entries nodes rest in
      Ok (mkDirEntry nm child (nd_kind c) :: out)
  end.

Definition cpio_read_dir (fs : Cpio) (d : NodeId) : Res (list DirEntry) :=
  let! n := node fs d in
  if negb (bool_decide (nd_kind n = Directory)) then Err NotDirectory
  else dir_entries (cp_nodes fs) (btree_iter name_entry_le (nd_children n)).

Definition cpio_metadata (fs : Cpio) (id : NodeId) : Res Metadata :=
  let! n := node fs id in
  Ok (mkMetadata (nd_kind n)
        (if bool_decide (nd_kind n = Directory) then 0 else sp_len (nd_data n)) (nd_mode n)).

Definition cpio_read_at (fs : Cpio) (id : NodeId) (off : Z) (buf : list byte)
    : Res (Z * list byte) :=
  let! n := node fs id in
  if bool_decide (nd_kind n = Directory) then Err IsDirectory
  else
    let! data := bytes fs (nd_data n) in
    if off >=? zlen data then Ok (0, buf)
    else
      let start := off in
      let count := Z.min (zlen buf) (zlen data - start) in
      let! chunk := slice data start (start + count) in
      let! buf := write_at buf 0 chunk in
      Ok (count, buf).

Definition cpio_read_link (fs : Cpio) (id : NodeId) : Res (option (list byte)) :=
  let! n := node fs id in
  if negb (bool_decide (nd_kind n = Symlink)) then Ok None
  else
    let! b := bytes fs (nd_data n) in
    Ok (Some b).

#[export] Instance Cpio_Frontend {S} `{BlockSource S} : FoldFrontend Cpio S := {
  TAG := "cpio";
  probe := cpio_probe;
  open_ src cx := (cpio_open src, cx);
  root _ := 0;
  lookup_ d nm := on_self (fun fs => cpio_lookup fs d nm);
  read_dir d := on_self (fun fs => cpio_read_dir fs d);
  metadata n := on_self (fun fs => cpio_metadata fs n);
  read_at n off buf := on_self (fun fs => cpio_read_at fs n off buf);
  read_link n := on_self (fun fs => cpio_read_link fs n);
}.

End Chain.

(** ** The tree *)

(** A span inside one of the buffers. *)
Definition span_ok (bufs : list (list byte)) (sp : Span) : Prop :=
  exists b, get bufs (sp_buf sp) = Some b /\
    0 <= sp_off sp /\ 0 <= sp_len sp /\ sp_off sp + sp_len sp <= zlen b.

(** The nodes form a tree of directories rooted at node 0, children coming after
    their parents, and every span lies in a buffer. *)
Record tree_wf (bufs : list (list byte)) (nodes : list Node) : Prop := mkTreeWf {
  tw_root : exists n, get nodes 0 = Some n /\ nd_kind n = Directory;
  tw_child : forall i n nm c, get nodes i = Some n -> nd_children n !! nm = Some c ->
    i < c < zlen nodes;
  tw_parent : forall i j n m a b c, get nodes i = Some n -> get nodes j = Some m ->
    nd_children n !! a = Some c -> nd_children m !! b = Some c -> i = j /\ a = b;
  tw_span : forall i n, get nodes i = Some n -> span_ok bufs (nd_data n);
}.

(** The node a list of components leads to from node [cur]. *)
Fixpoint walk (nodes : list Node) (cur : Z) (comps : list name) : option Z :=
  match comps with
  | [] => Some cur
  | c :: cs => n ← get nodes cur; child ← nd_children n !! c; walk nodes child cs
  end.

Definition content (n : Node) : FileKind * Z * Span := (nd_kind n, nd_mode n, nd_data n).

Lemma span_ok_app bufs more sp : span_ok bufs sp -> span_ok (bufs ++ more) sp.
Proof.
  intros (b&Hb&?). exists b. split; [|done]. apply get_Some in Hb as [? Hb].
  apply get_Some. split; [done|]. by apply lookup_app_l_Some.
Qed.

Lemma get_insert_eq (nodes : list Node) i n m :
  get nodes i = Some n -> get (<[Z.to_nat i := m]> nodes) i = Some m.
Proof.
  intros [? Hi]%get_Some. apply get_Some. split; [done|].
  apply list_lookup_insert_eq. by eapply lookup_lt_Some.
Qed.
Lemma get_insert_ne (nodes : list Node) i j m :
  0 <= i -> i <> j -> get (<[Z.to_nat i := m]> nodes) j = get nodes j.
Proof.
  intros Hi Hij. unfold get. destruct (Z.ltb_spec j 0); [done|].
  apply list_lookup_insert_ne. lia.
Qed.
Lemma zlen_insert (nodes : list Node) i m : zlen (<[i := m]> nodes) = zlen nodes.
Proof. unfold zlen. by rewrite length_insert. Qed.
Lemma get_app_Some {A} (l k : list A) i x : get l i = Some x -> get (l ++ k) i = Some x.
Proof. intros [? Hl]%get_Some. apply get_Some. split; [done|]. by apply lookup_app_l_Some. Qed.
Lemma get_snoc {A} (l : list A) x i y :
  get (l ++ [x]) i = Some y <-> get l i = Some y \/ i = zlen l /\ y = x.
Proof.
  rewrite !get_Some, lookup_snoc_Some. unfold zlen. split.
  - intros [? [[? ?]|[? ?]]]; [auto|right]. split; [lia|done].
  - intros [[? Hl]|[-> ->]].
    + split; [done|]. left. split; [by eapply lookup_lt_Some|done].
    + split; [lia|]. right. split; [lia|done].
Qed.
Lemma get_lt {A} (l : list A) i x : get l i = Some x -> 0 <= i < zlen l.
Proof. intros H. apply get_is_Some. eauto. Qed.
Lemma upd_eq nodes i f n : get nodes i = Some n -> upd nodes i f = Ok (<[Z.to_nat i := f n]> nodes).
Proof. intros H. unfold upd. by rewrite (proj2 (at_Ok _ _ _) H). Qed.

(** Setting a node's content keeps the tree. *)
Lemma tree_wf_content bufs nodes i n k m sp :
  tree_wf bufs nodes -> get nodes i = Some n -> span_ok bufs sp -> (i = 0 -> k = Directory) ->
  tree_wf bufs (<[Z.to_nat i := mkNode k sp m (nd_children n)]> nodes).
Proof.
  intros [(r&Hr&Hk) Hc Hp Hs] Hi Hsp Hroot. pose proof (get_lt _ _ _ Hi).
  assert (Hget : forall j x, get (<[Z.to_nat i := mkNode k sp m (nd_children n)]> nodes) j = Some x ->
    exists y, get nodes j = Some y /\ nd_children x = nd_children y /\
      (x = y \/ i = j /\ nd_data x = sp)).
  { intros j x Hx. destruct (decide (i = j)) as [<-|Hij].
    - rewrite (get_insert_eq _ _ n) in Hx by done. injection Hx as <-. eauto 6.
    - rewrite get_insert_ne in Hx by lia. eauto. }
  constructor.
  - destruct (decide (i = 0)) as [->|]; [|rewrite get_insert_ne by lia; eauto].
    rewrite (get_insert_eq _ _ n) by done. eexists. split; [done|]. by apply Hroot.
  - intros j x nm c (y&Hy&->&_)%Hget Hx. rewrite zlen_insert. by eapply Hc.
  - intros j1 j2 x1 x2 a b c (y1&Hy1&->&_)%Hget (y2&Hy2&->&_)%Hget. by eapply Hp.
  - intros j x (y&Hy&_&[->|[_ ->]])%Hget; [by eapply Hs|done].
Qed.

(** Hanging a fresh childless node under an existing one keeps the tree. *)
Lemma tree_wf_fresh bufs nodes cur n nm new :
  tree_wf bufs nodes -> get nodes cur = Some n -> nd_children n !! nm = None ->
  nd_children new = ∅ -> span_ok bufs (nd_data new) ->
  tree_wf bufs (<[Z.to_nat cur := mkNode (nd_kind n) (nd_data n) (nd_mode n)
                   (<[nm := zlen nodes]> (nd_children n))]> (nodes ++ [new])).
Proof.
  intros [(r&Hr&Hk) Hc Hp Hs] Hi Hnm Hnew Hsp. pose proof (get_lt _ _ _ Hi) as Hlt.
  set (n' := mkNode _ _ _ _).
  assert (Hget : forall j x, get (<[Z.to_nat cur := n']> (nodes ++ [new])) j = Some x ->
    j = cur /\ x = n' \/ get nodes j = Some x /\ j <> cur \/ j = zlen nodes /\ x = new).
  { intros j x Hx. destruct (decide (cur = j)) as [<-|Hij].
    - rewrite (get_insert_eq _ _ n) in Hx by (by apply get_app_Some). injection Hx as <-. by left.
    - rewrite get_insert_ne in Hx by lia. apply get_snoc in Hx as [?|[-> ->]]; auto. }
  assert (Hch : forall j x a c, get (<[Z.to_nat cur := n']> (nodes ++ [new])) j = Some x ->
    nd_children x !! a = Some c ->
    j = cur /\ a = nm /\ c = zlen nodes \/
    exists y, get nodes j = Some y /\ nd_children y !! a = Some c).
  { intros j x a c Hx Ha. apply Hget in Hx as [[-> ->]|[[Hx _]|[-> ->]]].
    - cbn in Ha. apply lookup_insert_Some in Ha as [[<- <-]|[_ Ha]]; eauto.
    - eauto.
    - by rewrite Hnew in Ha. }
  constructor.
  - destruct (decide (cur = 0)) as [->|].
    + rewrite (get_insert_eq _ _ n) by (by apply get_app_Some). eexists. split; [done|].
      cbn. by simplify_eq.
    + rewrite get_insert_ne by lia. exists r. split; [by apply get_app_Some|done].
  - intros j x a c Hx Ha. rewrite zlen_insert, zlen_app, zlen_cons, zlen_nil.
    destruct (Hch _ _ _ _ Hx Ha) as [(->&->&->)|(y&Hy&Hya)]; [lia|].
    specialize (Hc _ _ _ _ Hy Hya). lia.
  - intros i j x1 x2 a b c Hx1 Hx2 Ha Hb.
    destruct (Hch _ _ _ _ Hx1 Ha) as [(->&->&->)|(y1&Hy1&Hya1)],
             (Hch _ _ _ _ Hx2 Hb) as [(->&->&E)|(y2&Hy2&Hya2)]; [done| | |by eapply Hp].
    + specialize (Hc _ _ _ _ Hy2 Hya2). lia.
    + specialize (Hc _ _ _ _ Hy1 Hya1). lia.
  - intros j x [[-> ->]|[[Hx _]|[-> ->]]]%Hget; [exact (Hs cur n Hi)|by eapply Hs|done].
Qed.

(** Walks survive when nodes only gain children. *)
Definition keeps (nodes nodes' : list Node) (P : Z -> Prop) : Prop :=
  forall i n, get nodes i = Some n -> exists n', get nodes' i = Some n' /\
    nd_children n ⊆ nd_children n' /\ (P i -> content n' = content n).

Lemma keeps_walk nodes nodes' P comps : keeps nodes nodes' P ->
  forall cur t, walk nodes cur comps = Some t -> walk nodes' cur comps = Some t.
Proof.
  intros Hk. induction comps as [|c cs IH]; intros cur t; simpl; [done|].
  destruct (get nodes cur) as [n|] eqn:En; simpl; [|done].
  destruct (Hk _ _ En) as (n'&->&Hsub&_). simpl.
  destruct (nd_children n !! c) as [ch|] eqn:Ec; simpl; [|done].
  rewrite (lookup_weaken _ _ _ _ Ec Hsub). simpl. apply IH.
Qed.

Lemma cpio_keeps_trans a b c P Q R :
  keeps a b P -> keeps b c Q -> (forall i, R i -> P i /\ Q i) -> keeps a c R.
Proof.
  intros Hab Hbc HR i n Hn. destruct (Hab _ _ Hn) as (m&Hm&Hs&Hc).
  destruct (Hbc _ _ Hm) as (k&Hk&Hs'&Hc'). exists k. split; [done|].
  split; [by etrans|]. intros Hi. apply HR in Hi as [? ?]. rewrite Hc' by done. by apply Hc.
Qed.

Lemma keeps_content nodes i n k m sp :
  get nodes i = Some n -> keeps nodes (<[Z.to_nat i := mkNode k sp m (nd_children n)]> nodes) (.≠ i).
Proof.
  intros Hi j x Hx. pose proof (get_lt _ _ _ Hi). destruct (decide (i = j)) as [<-|].
  - rewrite (get_insert_eq _ _ n) by done. simplify_eq. eexists. split; [done|]. by split.
  - rewrite get_insert_ne by lia. eauto.
Qed.

Lemma keeps_fresh nodes cur n nm new :
  get nodes cur = Some n -> nd_children n !! nm = None ->
  keeps nodes (<[Z.to_nat cur := mkNode (nd_kind n) (nd_data n) (nd_mode n)
                   (<[nm := zlen nodes]> (nd_children n))]> (nodes ++ [new])) (fun _ => True).
Proof.
  intros Hi Hnm j x Hx. pose proof (get_lt _ _ _ Hi). destruct (decide (cur = j)) as [<-|].
  - rewrite (get_insert_eq _ _ n) by (by apply get_app_Some). simplify_eq. eexists. split; [done|].
    split; [|done]. by apply insert_subseteq.
  - rewrite get_insert_ne by lia. exists x. split; [by apply get_app_Some|]. done.
Qed.

(** In a tree, two paths to the same node are the same path. *)
Lemma walk_ge bufs nodes : tree_wf bufs nodes ->
  forall comps cur t, walk nodes cur comps = Some t -> comps <> [] -> cur < t.
Proof.
  intros Hwf. induction comps as [|c cs IH]; intros cur t; simpl; [done|].
  destruct (get nodes cur) as [n|] eqn:En; simpl; [|done].
  destruct (nd_children n !! c) as [ch|] eqn:Ec; simpl; [|done].
  pose proof (tw_child _ _ Hwf _ _ _ _ En Ec). intros Hw _. destruct cs as [|c' cs].
  - injection Hw as ->. lia.
  - apply IH in Hw; [lia|done].
Qed.

Lemma walk_snoc nodes comps c : forall cur t,
  walk nodes cur (comps ++ [c]) = Some t <->
  exists p n, walk nodes cur comps = Some p /\ get nodes p = Some n /\ nd_children n !! c = Some t.
Proof.
  induction comps as [|d ds IH]; intros cur t; simpl.
  - destruct (get nodes cur) as [n|] eqn:En; simpl; [|naive_solver].
    destruct (nd_children n !! c) eqn:Ec; simpl; naive_solver.
  - destruct (get nodes cur) as [n|]; simpl; [|naive_solver].
    destruct (nd_children n !! d); simpl; [apply IH|naive_solver].
Qed.

Lemma walk_inj bufs nodes : tree_wf bufs nodes ->
  forall p q t, walk nodes 0 p = Some t -> walk nodes 0 q = Some t -> p = q.
Proof.
  intros Hwf. induction p as [|a p IH] using rev_ind; intros q t Hp Hq.
  - injection Hp as <-. destruct q as [|b q]; [done|].
    apply (walk_ge _ _ Hwf) in Hq; [lia|done].
  - destruct q as [|b q _] using rev_ind.
    + injection Hq as <-. apply (walk_ge _ _ Hwf) in Hp; [lia|]. by destruct p.
    + apply walk_snoc in Hp as (i&n&Hp&Hn&Ha), Hq as (j&m&Hq&Hm&Hb).
      destruct (tw_parent _ _ Hwf _ _ _ _ _ _ _ Hn Hm Ha Hb) as [-> ->].
      by rewrite (IH q j).
Qed.

Lemma walk_cons nodes cur n c cs ch :
  get nodes cur = Some n -> nd_children n !! c = Some ch ->
  walk nodes cur (c :: cs) = walk nodes ch cs.
Proof. intros Hn Hc. simpl. rewrite Hn. simpl. by rewrite Hc. Qed.

(** What [insert_comps] promises from node [cur]: the tree is kept, the path then
    leads to a node [t], only [t] changes content, and [t] is the record's. *)
Definition inserted bufs kind mode data nodes cur comps (r : Res (list Node)) : Prop :=
  exists nodes' t, r = Ok nodes' /\ tree_wf bufs nodes' /\ walk nodes' cur comps = Some t /\
    keeps nodes nodes' (fun i => i <> t \/ comps = [] \/ kind = Directory) /\
    (comps <> [] -> exists n', get nodes' t = Some n' /\
       (kind <> Directory \/ walk nodes cur comps = None -> content n' = (kind, mode, data))).

(** The last component names an existing node. *)
Lemma insert_last_existing bufs kind mode data nodes cur n c ch :
  span_ok bufs data -> tree_wf bufs nodes -> get nodes cur = Some n ->
  nd_children n !! c = Some ch ->
  inserted bufs kind mode data nodes cur [c]
    (if negb (bool_decide (kind = Directory))
     then upd nodes ch (fun n => mkNode kind data mode (nd_children n)) else Ok nodes).
Proof.
  intros Hsp Hwf Hn Hc. pose proof (tw_child _ _ Hwf _ _ _ _ Hn Hc). pose proof (get_lt _ _ _ Hn).
  destruct (proj2 (get_is_Some nodes ch)) as [nc Hnc]; [lia|].
  assert (Hw : walk nodes cur [c] = Some ch) by (by rewrite (walk_cons nodes cur n c [] ch)).
  destruct (bool_decide_reflect (kind = Directory)) as [Hk|Hk]; cbn [negb].
  - exists nodes, ch. split_and!; try done; [intros i x Hx; eauto|].
    intros _. exists nc. split; [done|]. rewrite Hw. naive_solver.
  - rewrite (upd_eq _ _ _ nc) by done. eexists _, ch. split_and!; [done| | | |].
    + apply tree_wf_content; [done..|]. lia.
    + eapply keeps_walk; [by apply keeps_content|done].
    + intros i x Hx. destruct (keeps_content nodes ch nc kind mode data Hnc i x Hx) as (y&?&?&Hy).
      exists y. split_and!; [done..|]. intros [?|[?|?]]; [by apply Hy|done..].
    + intros _. eexists. split; [by eapply get_insert_eq|done].
Qed.

(** The last component is new. *)
Lemma insert_last_fresh bufs kind mode data nodes cur n c :
  span_ok bufs data -> tree_wf bufs nodes -> get nodes cur = Some n ->
  nd_children n !! c = None ->
  inserted bufs kind mode data nodes cur [c]
    (Ok (<[Z.to_nat cur := mkNode (nd_kind n) (nd_data n) (nd_mode n)
             (<[c := zlen nodes]> (nd_children n))]> (nodes ++ [mkNode kind data mode ∅]))).
Proof.
  intros Hsp Hwf Hn Hc. pose proof (get_lt _ _ _ Hn). eexists _, (zlen nodes).
  split_and!; [done|by apply tree_wf_fresh| | |].
  - rewrite (walk_cons _ cur _ c [] (zlen nodes) (get_insert_eq _ _ n _ (get_app_Some _ _ _ _ Hn)));
      [done|]. apply lookup_insert_eq.
  - intros i x Hx. destruct (keeps_fresh nodes cur n c (mkNode kind data mode ∅) Hn Hc i x Hx)
      as (y&?&?&Hy). eauto.
  - intros _. exists (mkNode kind data mode ∅). split; [|done].
    rewrite get_insert_ne by lia. apply get_snoc. by right.
Qed.

(** [insert_comps] from any node of the tree. *)
Lemma insert_comps_spec bufs kind mode data :
  span_ok bufs data -> span_ok bufs Span_default ->
  forall comps nodes cur n, tree_wf bufs nodes -> get nodes cur = Some n ->
  inserted bufs kind mode data nodes cur comps (insert_comps kind mode data nodes cur comps).
Proof.
  intros Hsp Hdef. induction comps as [|c cs IH]; intros nodes cur n Hwf Hn.
  { exists nodes, cur. split_and!; try done. intros i x Hx. eauto. }
  pose proof (get_lt _ _ _ Hn).
  cbn [insert_comps]. rewrite (proj2 (at_Ok _ _ _) Hn). cbn [bindR].
  destruct (nd_children n !! c) as [ch|] eqn:Ec.
  - destruct (decide (cs = [])) as [->|Hcs].
    + rewrite bool_decide_eq_true_2 by done. cbn [andb insert_comps]. rewrite bindR_ret.
      by eapply insert_last_existing.
    + rewrite (bool_decide_eq_false_2 (cs = [])) by done. cbn [andb bindR].
      pose proof (tw_child _ _ Hwf _ _ _ _ Hn Ec).
      destruct (proj2 (get_is_Some nodes ch)) as [nc Hnc]; [lia|].
      destruct (IH nodes ch nc Hwf Hnc) as (nodes'&t&->&Hwf'&Hw&Hk&Hn').
      exists nodes', t. destruct (Hk _ _ Hn) as (n1&Hn1&Hsub&_).
      split_and!; [done|done| | |].
      * by rewrite (walk_cons nodes' cur n1 c cs ch) by (done || by eapply lookup_weaken).
      * intros i x Hx. destruct (Hk i x Hx) as (y&?&?&Hy). exists y. naive_solver.
      * intros _. rewrite (walk_cons nodes cur n c cs ch) by done. by apply Hn'.
  - destruct (decide (cs = [])) as [->|Hcs].
    + rewrite bool_decide_eq_true_2 by done. rewrite (upd_eq _ _ _ n) by by apply get_app_Some.
      by apply insert_last_fresh.
    + rewrite (bool_decide_eq_false_2 (cs = [])) by done.
      rewrite (upd_eq _ _ _ n) by by apply get_app_Some. cbn [bindR].
      set (nodes1 := <[_ := _]> _).
      assert (Hwf1 : tree_wf bufs nodes1) by by apply tree_wf_fresh.
      assert (Hid : get nodes1 (zlen nodes) = Some (dir 493)).
      { unfold nodes1. rewrite get_insert_ne by lia. apply get_snoc. by right. }
      pose proof (keeps_fresh nodes cur n c (dir 493) Hn Ec) as Hk1. fold nodes1 in Hk1.
      destruct (IH nodes1 (zlen nodes) _ Hwf1 Hid) as (nodes'&t&->&Hwf'&Hw&Hk&Hn').
      exists nodes', t. split_and!; [done|done| | |].
      * assert (Hc1 : exists m, get nodes1 cur = Some m /\ nd_children m !! c = Some (zlen nodes)).
        { eexists. split; [by apply (get_insert_eq _ _ n), get_app_Some|]. apply lookup_insert_eq. }
        destruct Hc1 as (m&Hm&Hmc). destruct (Hk _ _ Hm) as (m'&Hm'&Hsub&_).
        by rewrite (walk_cons nodes' cur m' c cs (zlen nodes)) by (done || by eapply lookup_weaken).
      * eapply cpio_keeps_trans; [exact Hk1|exact Hk|]. naive_solver.
      * intros _. destruct (Hn' Hcs) as (n'&Hgn&Hcont). exists n'. split; [done|]. intros _.
        apply Hcont. right. destruct cs as [|c' cs]; [done|]. simpl. by rewrite Hid.
Qed.

(** [insert] on a tree. *)
Lemma insert_spec bufs kind mode data nodes path :
  span_ok bufs data -> span_ok bufs Span_default -> tree_wf bufs nodes ->
  inserted bufs kind mode data nodes 0 (components path) (insert nodes path kind mode data).
Proof.
  intros Hsp Hdef Hwf. destruct (tw_root _ _ Hwf) as (r&Hr&_).
  by eapply insert_comps_spec.
Qed.

Lemma insert_Ok bufs kind mode data nodes path :
  span_ok bufs data -> span_ok bufs Span_default -> tree_wf bufs nodes ->
  exists nodes', insert nodes path kind mode data = Ok nodes' /\ tree_wf bufs nodes'.
Proof.
  intros Hsp Hdef Hwf. destruct (insert_spec bufs kind mode data nodes path Hsp Hdef Hwf)
    as (nodes'&t&?&?&_). eauto.
Qed.

(** ** The newc parser *)

Lemma align4_eq n : align4 n = n + 3 - (n + 3) mod 4.
Proof. apply (land_lnot_ones (n + 3) 2). lia. Qed.

Lemma align4_add n m : n mod 4 = 0 -> align4 (n + m) = n + align4 m.
Proof.
  intros Hn. rewrite !align4_eq. pose proof (Z.div_mod n 4 ltac:(lia)).
  replace (n + m + 3) with (m + 3 + n / 4 * 4) by lia. rewrite Z.mod_add by lia. lia.
Qed.

Lemma align4_spec n : n <= align4 n <= n + 3 /\ align4 n mod 4 = 0.
Proof.
  rewrite align4_eq. pose proof (Z.mod_pos_bound (n + 3) 4 ltac:(lia)). split; [lia|].
  by rewrite Zminus_mod, Z.mod_mod, Z.sub_diag by lia.
Qed.

Lemma align4_id n : n mod 4 = 0 -> align4 n = n.
Proof.
  intros Hn. destruct (align4_spec n) as [H1 H2].
  pose proof (Z.div_mod n 4). pose proof (Z.div_mod (align4 n) 4). lia.
Qed.

Lemma to_digit16_range d v : to_digit16 d = Some v -> 0 <= v < 16.
Proof.
  unfold to_digit16. pose proof (u8_range d).
  repeat case_match; intros; simplify_eq;
    repeat match goal with H : _ && _ = true |- _ => apply andb_true_iff in H as [H%Z.leb_le ?%Z.leb_le] end;
    lia.
Qed.

Lemma returns_hex_fold acc ds : returns (hex_fold acc ds).
Proof. revert acc. induction ds; intros acc; simpl; [done|]. step_returns; [auto with lam|]. apply IHds. Qed.
Lemma returns_hex_field a p i : returns (hex_field a p i).
Proof. unfold hex_field. step_returns; [auto with lam|]. apply returns_hex_fold. Qed.
#[local] Hint Resolve returns_hex_field : lam.

Lemma hex_fold_range ds : forall acc v, 0 <= acc < 2 ^ 32 -> hex_fold acc ds = Ok v -> 0 <= v < 2 ^ 32.
Proof.
  induction ds as [|d ds IH]; intros acc v Ha; simpl; [by intros [= <-]|].
  intros H. inv_ok. apply to_digit16_range in Hv. eapply IH; [|exact H].
  pose proof (Z.mod_pos_bound (Z.shiftl acc 4) (2 ^ 32) ltac:(lia)).
  apply lor_lt_pow2; lia.
Qed.

Lemma hex_field_range a p i v : hex_field a p i = Ok v -> 0 <= v < 2 ^ 32.
Proof. unfold hex_field. intros H. inv_ok. by eapply hex_fold_range in H. Qed.

(** A record whose name and data lie in the archive. *)
Definition rec_ok (archive : list byte) (r : Record_) : Prop :=
  (0 <= fst (r_name r) /\ 0 <= snd (r_name r) /\
   fst (r_name r) + snd (r_name r) <= zlen archive) /\
  (0 <= fst (r_data r) /\ 0 <= snd (r_data r) /\
   fst (r_data r) + snd (r_data r) <= zlen archive).

Lemma parse_record_spec archive at' crc : 0 <= at' ->
  returns (parse_record archive at' crc) /\
  (forall r next, parse_record archive at' crc = Ok (r, next) ->
    rec_ok archive r /\ at' < next <= zlen archive + 3).
Proof.
  intros Hat. unfold parse_record.
  assert (Hspan : forall ns fs e, 1 <= ns -> 0 <= fs ->
    (e ← checked_add 64 (align4 (at' + NEWC_HEADER + ns)) fs;
     if e <=? zlen archive then Some e else None) = Some e ->
    e = align4 (at' + NEWC_HEADER + ns) + fs /\ e <= zlen archive /\ at' < align4 e <= zlen archive + 3 /\
    at' + NEWC_HEADER + ns <= align4 (at' + NEWC_HEADER + ns) <= e).
  { intros ns fs e Hns Hfs He. destruct (checked_add _ _ _) as [e'|] eqn:Ec; [|done]. cbn in He.
    destruct (Z.leb_spec e' (zlen archive)); [|done]. injection He as ->.
    apply checked_add_Some in Ec as [_ ->].
    pose proof (align4_spec (at' + NEWC_HEADER + ns)). unfold NEWC_HEADER in *.
    pose proof (align4_spec (align4 (at' + 110 + ns) + fs)). lia. }
  split.
  - do 8 (step_returns; [auto with lam|]). step_returns; [done|]. step_returns; [done|].
    step_returns; [auto with lam|]. step_returns; [|done]. inv_ok.
    apply hex_field_range in Hv2, Hv5. apply orb_false_iff in Hif as [Hz%Z.eqb_neq _].
    apply Hspan in Hv7; [|lia..].
    step_returns; [|done]. step_returns; [apply returns_slice; unfold NEWC_HEADER in *; lia|].
    by case_match.
  - intros r next H. inv_ok. destruct (_ || _) eqn:Hif; [done|]. destruct (negb _); [done|]. inv_ok.
    apply hex_field_range in Hv2, Hv5. apply orb_false_iff in Hif as [Hz%Z.eqb_neq _].
    apply Hspan in Hv7; [|lia..]. simplify_eq. unfold rec_ok, NEWC_HEADER in *.
    cbn [r_name r_data fst snd]. lia.
Qed.

Lemma record_round_spec archive pos records :
  0 <= pos -> Forall (rec_ok archive) records ->
  returns (record_round archive (pos, records)) /\
  (forall p rs, record_round archive (pos, records) = Ok (inl (p, rs)) ->
     pos < p <= zlen archive + 3 /\ Forall (rec_ok archive) rs) /\
  (forall p rs, record_round archive (pos, records) = Ok (inr (p, rs)) ->
     pos < p <= zlen archive + 3 /\ rs = records).
Proof.
  intros Hp Hr. unfold record_round.
  destruct (get_range archive pos (pos + 6)) as [magic|]; cbn [ok_or bindR]; [|done].
  destruct (negb _ && _); [done|].
  destruct (parse_record_spec archive pos (bool_decide (magic = CRC_MAGIC)) Hp) as [Hret Hok].
  destruct (parse_record archive pos _) as [[r next]|e| | |]; cbn [bindR]; try done.
  destruct (Hok r next eq_refl) as [Hrec Hn]. destruct (r_name r) as [no nl] eqn:En.
  assert (Hname : 0 <= no /\ 0 <= nl /\ no + nl <= zlen archive)
    by (destruct Hrec as [Hnm _]; by rewrite En in Hnm).
  rewrite slice_eq by lia. cbn [bindR]. destruct (bool_decide _); split_and!; try done.
  - intros p rs [= -> ->]. done.
  - intros p rs [= <- <-]. split; [done|]. apply Forall_app. auto.
Qed.

Lemma records_spec archive pos :
  0 <= pos <= zlen archive + 3 -> zlen archive < 2 ^ 63 ->
  returns (loop (record_round archive) (pos, [])) /\
  (forall p rs, loop (record_round archive) (pos, []) = Ok (p, rs) ->
     pos < p <= zlen archive + 3 /\ Forall (rec_ok archive) rs).
Proof.
  intros Hp Ha.
  set (I := fun s : Z * list Record_ => pos <= s.1 <= zlen archive + 3 /\ Forall (rec_ok archive) s.2).
  assert (H0 : I (pos, [])) by (split; [cbn [fst]; lia|constructor]).
  split.
  - apply (loop_returns _ I (fun s => zlen archive + 3 - s.1)); [|done|cbn [fst]; lia].
    intros [p rs] [Hp' Hrs]. cbn [fst snd] in *. split; [lia|].
    destruct (record_round_spec archive p rs ltac:(lia) Hrs) as (Hr&Hl&_). split; [done|].
    intros [p' rs'] Hb. apply Hl in Hb as [? ?]. unfold I. cbn [fst snd].
    split; [split; [lia|done]|lia].
  - intros p rs Hl. apply (loop_inv _ I) in Hl as ([p0 rs0]&[Hp0 Hrs]&Hb); [| |done]; cbn [fst snd] in *.
    + destruct (record_round_spec archive p0 rs0 ltac:(lia) Hrs) as (_&_&Hr).
      apply Hr in Hb as [? ->]. split; [lia|done].
    + intros [p1 rs1] [p2 rs2] [Hp1 Hrs1] Hb1. cbn [fst snd] in *.
      destruct (record_round_spec archive p1 rs1 ltac:(lia) Hrs1) as (_&Hnx&_).
      apply Hnx in Hb1 as [? ?]. unfold I. cbn [fst snd]. split; [lia|done].
Qed.

(** Hard links share the data span of one of the records. *)
Lemma linked_ok archive records : Forall (rec_ok archive) records ->
  forall i d, linked records !! i = Some d ->
  0 <= fst d /\ 0 <= snd d /\ fst d + snd d <= zlen archive.
Proof.
  intros Hr. unfold linked.
  assert (Hm : forall i d, (∅ : gmap (Z * Z * Z) (Z * Z)) !! i = Some d ->
    0 <= fst d /\ 0 <= snd d /\ fst d + snd d <= zlen archive) by done.
  revert Hm. generalize (∅ : gmap (Z * Z * Z) (Z * Z)).
  induction Hr as [|r rs [_ Hd] Hrs IH]; intros m Hm; cbn [foldl]; [done|].
  apply IH. case_match; [|done]. intros i d [[_ <-]|[_ Hl]]%lookup_insert_Some; [done|by eapply Hm].
Qed.

Lemma insert_records_spec bufs archive idx links :
  get bufs idx = Some archive -> span_ok bufs Span_default ->
  (forall i d, links !! i = Some d -> 0 <= fst d /\ 0 <= snd d /\ fst d + snd d <= zlen archive) ->
  forall records nodes, Forall (rec_ok archive) records -> tree_wf bufs nodes ->
  returns (insert_records archive idx links nodes records) /\
  forall nodes', insert_records archive idx links nodes records = Ok nodes' -> tree_wf bufs nodes'.
Proof.
  intros Hb Hdef Hl. induction records as [|r rs IH]; intros nodes Hr Hwf; cbn [insert_records].
  { split; [done|]. by intros nodes' [= <-]. }
  apply Forall_cons_1 in Hr as [[Hn Hd] Hrs]. rewrite slice_eq by lia. cbn [bindR].
  destruct (utf8_valid _); cbn [bindR]; [|done].
  set (sp := if bool_decide _ && _ then _ else _).
  assert (Hsp : 0 <= fst sp /\ 0 <= snd sp /\ fst sp + snd sp <= zlen archive).
  { unfold sp. destruct (_ && _); [|done]. destruct (links !! r_inode r) eqn:E; [by eapply Hl|done]. }
  destruct sp as [off len]. cbn [fst snd] in Hsp.
  destruct (insert_Ok bufs (file_kind (r_mode r)) (Z.land (r_mode r) 4095) (mkSpan idx off len)
    nodes (sub archive (r_name r).1 ((r_name r).1 + (r_name r).2 - (r_name r).1)))
    as (nodes1&->&Hwf1); [by exists archive|done|done|]. cbn [bindR]. by apply IH.
Qed.

Lemma insert_newc_spec bufs archive idx nodes start :
  get bufs idx = Some archive -> span_ok bufs Span_default -> tree_wf bufs nodes ->
  0 <= start <= zlen archive + 3 -> zlen archive < 2 ^ 63 ->
  returns (insert_newc_archive archive idx nodes start) /\
  forall p nodes', insert_newc_archive archive idx nodes start = Ok (p, nodes') ->
    tree_wf bufs nodes' /\ start < p <= zlen archive + 3.
Proof.
  intros Hb Hdef Hwf Hs Ha. unfold insert_newc_archive.
  destruct (records_spec archive start Hs Ha) as [Hr Ho].
  destruct (loop _ _) as [[p rs]|e| | |]; cbn [bindR]; try done.
  destruct (Ho p rs eq_refl) as [Hp Hrs].
  destruct (insert_records_spec bufs archive idx (linked rs) Hb Hdef (linked_ok _ _ Hrs) rs nodes Hrs Hwf)
    as [Hr2 Ho2].
  destruct (insert_records _ _ _ _ _) as [nodes1|e| | |]; cbn [bindR]; try done.
  split; [done|]. intros ?? [= <- <-]. split; [by apply Ho2|done].
Qed.

(** ** The chain *)

Fixpoint total_len (bufs : list (list byte)) : Z :=
  match bufs with [] => 0 | b :: bs => zlen b + total_len bs end.

Lemma total_len_app a b : total_len (a ++ b) = total_len a + total_len b.
Proof. induction a as [|x a IH]; simpl; lia. Qed.

Lemma total_len_nonneg a : 0 <= total_len a.
Proof. induction a as [|x a IH]; simpl; [lia|]. pose proof (zlen_nonneg x). lia. Qed.

Lemma tree_wf_app bufs more nodes : tree_wf bufs nodes -> tree_wf (bufs ++ more) nodes.
Proof. intros [? ? ? Hs]. constructor; try done. intros i n Hn. by eapply span_ok_app, Hs. Qed.

Section ChainLaws.
Context {D : Decoders} {DL : DecoderLaws D}.

(** What a fold over the chain of buffer [idx] promises: it comes back; the tree
    is kept, and the buffers gained fit in what the budget lost. *)
Definition folded (bufs : list (list byte)) (budget : Z)
    (r : Res (list (list byte) * list Node * Z)) : Prop :=
  returns r /\ forall bufs' nodes' budget', r = Ok (bufs', nodes', budget') ->
    tree_wf bufs' nodes' /\ 0 <= budget' /\
    exists more, bufs' = bufs ++ more /\ total_len more + budget' = budget.

(** The loop invariant of [insert_chain] over [archive], entered with [bufs] and
    [budget]. *)
Definition chain_inv (archive : list byte) (bufs : list (list byte)) (budget : Z)
    (s : Z * (list (list byte) * list Node * Z)) : Prop :=
  let '(pos, (b, nodes, bud)) := s in
  0 <= pos <= zlen archive + 3 /\ tree_wf b nodes /\ 0 <= bud /\
  exists more, b = bufs ++ more /\ total_len more + bud = budget.

Lemma chain_round_spec rec idx archive bufs budget s :
  get bufs idx = Some archive -> span_ok bufs Span_default -> budget < 2 ^ 63 ->
  zlen archive < 2 ^ 63 -> chain_inv archive bufs budget s ->
  (idx = 0 -> forall b n i bud a, get b i = Some a -> span_ok b Span_default -> 0 < i ->
     tree_wf b n -> 0 <= bud < 2 ^ 63 -> zlen a < 2 ^ 63 -> folded b bud (rec b n i bud)) ->
  returns (chain_round rec idx s) /\
  (forall s', chain_round rec idx s = Ok (inl s') ->
     chain_inv archive bufs budget s' /\ s.1 < s'.1) /\
  (forall x, chain_round rec idx s = Ok (inr x) -> x = s.2).
Proof.
  destruct s as [pos [[b nodes] bud]]. intros Hb Hdef Hbud Ha (Hpos&Hwf&Hbu&more&->&Htot) Hrec.
  unfold chain_round. pose proof (total_len_nonneg more).
  rewrite (proj2 (at_Ok _ _ _) (get_app_Some _ _ _ _ Hb)). cbn [bindR].
  destruct (get_from archive pos) as [r|] eqn:Er; cbn [mbind option_bind];
    [|by split_and!; naive_solver].
  destruct (position _ r) as [n|] eqn:Ep; [|by split_and!; naive_solver].
  apply position_Some in Ep as (Hn&_&_). apply get_range_zlen in Er.
  rewrite slice_eq by lia. cbn [bindR]. set (rest := sub archive _ _).
  assert (Hrest : zlen rest = zlen archive - (pos + n)) by (apply zlen_sub; lia).
  destruct (sniff rest) as [codec|] eqn:Es.
  - destruct (Z.eqb_spec idx 0) as [->|]; cbn [negb]; [|done].
    destruct (decode_stream_ok codec rest bud) as [Hret Hok]; [lia|lia|].
    destruct (decode_stream codec rest bud) as [[out used]|e| | |]; cbn [bindR]; try done.
    destruct (Hok out used eq_refl) as [Hout Hused]. rewrite subw_eq by lia. cbn [bindR].
    destruct (Hrec eq_refl ((bufs ++ more) ++ [out]) nodes (zlen ((bufs ++ more) ++ [out]) - 1)
      (bud - zlen out) out) as [Hr2 Ho2].
    + rewrite zlen_app, zlen_cons, zlen_nil. apply get_snoc. right. split; [lia|done].
    + by rewrite <- app_assoc; apply span_ok_app.
    + rewrite !zlen_app, zlen_cons, zlen_nil. pose proof (get_lt _ _ _ Hb).
      pose proof (zlen_nonneg more). lia.
    + by apply tree_wf_app.
    + pose proof (zlen_nonneg out). lia.
    + lia.
    + destruct (rec _ _ _ _) as [[[b' n'] bud']|e| | |]; cbn [bindR]; try done.
      destruct (Ho2 _ _ _ eq_refl) as (Hwf'&Hb'&m2&->&Hm2). split_and!; [done| |done].
      intros s' [= <-]. cbn [fst]. split; [|lia]. unfold chain_inv. split_and!; [lia|lia|done|lia|].
      exists (more ++ [out] ++ m2). split; [by rewrite !app_assoc|].
      rewrite !total_len_app. cbn [total_len]. lia.
  - destruct (negb _ || negb _); [done|].
    destruct (insert_newc_spec (bufs ++ more) archive idx nodes (pos + n)) as [Hr2 Ho2];
      [by apply get_app_Some|by apply span_ok_app|done|lia|done|].
    destruct (insert_newc_archive _ _ _ _) as [[p n']|e| | |]; cbn [bindR]; try done.
    destruct (Ho2 _ _ eq_refl) as [Hwf' Hp]. split_and!; [done| |done].
    intros s' [= <-]. cbn [fst]. split; [|lia]. unfold chain_inv. split_and!; [lia|lia|done|lia|eauto].
Qed.

Lemma chain_spec depth : forall idx archive bufs nodes budget,
  (0 < depth)%nat -> (idx = 0 -> (1 < depth)%nat) ->
  get bufs idx = Some archive -> span_ok bufs Span_default -> tree_wf bufs nodes ->
  0 <= budget < 2 ^ 63 -> zlen archive < 2 ^ 63 ->
  folded bufs budget (insert_chain depth bufs nodes idx budget).
Proof.
  induction depth as [|depth IH]; intros idx archive bufs nodes budget Hd Hd0 Hb Hdef Hwf Hbud Ha; [lia|].
  cbn [insert_chain]. pose proof (zlen_nonneg archive).
  assert (H0 : chain_inv archive bufs budget (0, (bufs, nodes, budget))).
  { unfold chain_inv. split_and!; [lia|lia|done|lia|]. exists []. split; [by rewrite app_nil_r|done]. }
  assert (Hround : forall s, chain_inv archive bufs budget s ->
    returns (chain_round (insert_chain depth) idx s) /\
    (forall s', chain_round (insert_chain depth) idx s = Ok (inl s') ->
       chain_inv archive bufs budget s' /\ s.1 < s'.1) /\
    (forall x, chain_round (insert_chain depth) idx s = Ok (inr x) -> x = s.2)).
  { intros s Hs. apply (chain_round_spec _ _ archive bufs budget); try done; [lia|].
    intros Hidx b n i bud a Hg Hdf Hi Hw Hbd Hz. apply (IH i a); [|lia|done..].
    specialize (Hd0 Hidx). lia. }
  split.
  - apply (loop_returns _ (chain_inv archive bufs budget) (fun s => zlen archive + 3 - s.1));
      [|done|cbn [fst]; lia].
    intros s Hs. destruct (Hround s Hs) as (Hr&Hn&_). split_and!.
    + destruct s as [pos [[b n] bud]]. destruct Hs as [Hp _]. cbn [fst]. lia.
    + done.
    + intros s' Hs'. apply Hn in Hs' as [? ?]. split; [done|lia].
  - intros bufs' nodes' budget' Hl.
    apply (loop_inv _ (chain_inv archive bufs budget)) in Hl as (s&Hs&Hb'); [| |done].
    + apply (Hround s Hs) in Hb'. destruct s as [pos [[b n] bud]]. cbn [snd] in Hb'.
      injection Hb' as -> -> ->. destruct Hs as (_&?&?&?). done.
    + intros s s' Hs Hb'. by apply (Hround s Hs) in Hb' as [? _].
Qed.
End ChainLaws.

(** ** Mounting and reading *)

Definition cpio_wf (fs : Cpio) : Prop :=
  tree_wf (cp_buffers fs) (cp_nodes fs) /\
  Forall (fun b => zlen b <= MAX_BOOT_FILE_BYTES) (cp_buffers fs).

Lemma tree_wf_root b bufs : tree_wf (b :: bufs) [dir 493].
Proof.
  assert (Hget : forall i n, get [dir 493] i = Some n -> i = 0 /\ n = dir 493).
  { intros i n [Hi Hl]%get_Some. apply list_lookup_singleton_Some in Hl as [? <-]. split; [lia|done]. }
  constructor.
  - by exists (dir 493).
  - intros i n nm c [-> ->]%Hget. done.
  - intros i j n m a c d [-> ->]%Hget _. done.
  - intros i n [-> ->]%Hget. exists b. split_and!; [done|cbn; lia..|].
    cbn. pose proof (zlen_nonneg b). lia.
Qed.

Lemma insert_entries_spec bufs archive : get bufs 0 = Some archive -> span_ok bufs Span_default ->
  forall es nodes, Forall (fun e => 0 <= ce_off e /\ 0 <= ce_len e /\ ce_off e + ce_len e <= zlen archive) es ->
  tree_wf bufs nodes ->
  exists nodes', insert_entries nodes es = Ok nodes' /\ tree_wf bufs nodes'.
Proof.
  intros Hb Hdef. induction es as [|e es IH]; intros nodes Hes Hwf; cbn [insert_entries]; [eauto|].
  apply Forall_cons_1 in Hes as [He Hes].
  destruct (insert_Ok bufs (file_kind (ce_mode e)) (Z.land (ce_mode e) 4095)
    (mkSpan 0 (ce_off e) (ce_len e)) nodes (ce_name e)) as (nodes1&->&Hwf1);
    [by exists archive|done|done|]. cbn [bindR]. by apply IH.
Qed.

Lemma Forall_total bufs m : Forall (fun b : list byte => zlen b <= m) bufs \/ total_len bufs <= m ->
  Forall (fun b => zlen b <= m) bufs.
Proof.
  intros [?|H]; [done|]. induction bufs as [|b bs IH]; simpl in H; constructor.
  - pose proof (total_len_nonneg bs). lia.
  - apply IH. pose proof (zlen_nonneg b). lia.
Qed.

Section Mount.
Context {D : Decoders} {DL : DecoderLaws D} {R : CpioReader} {RL : CpioReaderLaws R}.
Context {S : Type} `{SourceLaws S}.

Lemma cpio_open_spec (src : S) : src_valid src ->
  returns (cpio_open src) /\ forall fs, cpio_open src = Ok fs -> cpio_wf fs.
Proof.
  intros Hv. unfold cpio_open. pose proof (src_len_range src Hv) as Hlen.
  destruct (checked_full_read_len (src_len src)) as [len|e| | |] eqn:Ec; cbn [bindR];
    try (pose proof (returns_checked_full (src_len src)) as Hr; rewrite Ec in Hr; done).
  apply checked_full_Ok in Ec as [Hmax ->].
  assert (Hret : returns (src_read_at src 0 (src_len src))) by (apply src_read_returns; [done|lia|lia]).
  destruct (src_read_at src 0 (src_len src)) as [archive|e| | |] eqn:Er; cbn [bindR]; try done.
  apply read_zlen in Er; [|done|lia..].
  assert (Hg : get [archive] 0 = Some archive) by done.
  assert (Hdef : span_ok [archive] Span_default).
  { exists archive. split_and!; [done|cbn; lia..|]. cbn. lia. }
  pose proof (tree_wf_root archive []) as Hroot.
  assert (Ha : zlen archive <= MAX_BOOT_FILE_BYTES) by lia.
  destruct (_ || _).
  - assert (checked_full_read_len MAX_BOOT_FILE_BYTES = Ok MAX_BOOT_FILE_BYTES) as -> by done.
    cbn [bindR].
    destruct (chain_spec 2 0 archive [archive] [dir 493] MAX_BOOT_FILE_BYTES) as [Hr Ho];
      try done; try (unfold MAX_BOOT_FILE_BYTES in *; lia).
    destruct (insert_chain 2 _ _ _ _) as [[[b n] bud]|e| | |]; cbn [bindR]; try done.
    destruct (Ho _ _ _ eq_refl) as (Hwf&Hb&more&->&Hm). split; [done|]. intros fs [= <-].
    split; [done|]. cbn [cp_buffers]. constructor; [done|]. apply Forall_total. right. lia.
  - destruct (insert_entries_spec [archive] archive Hg Hdef (iter_files archive) [dir 493])
      as (nodes&Hn&Hwf); [|done|].
    { apply list.Forall_forall. intros e He. by apply iter_files_spans. }
    unfold insert_single. rewrite Hn. cbn [bindR]. split; [done|]. intros fs [= <-].
    split; [done|]. by repeat constructor.
Qed.

Lemma bytes_Ok fs n i : cpio_wf fs -> get (cp_nodes fs) i = Some n ->
  exists b, get (cp_buffers fs) (sp_buf (nd_data n)) = Some b /\
    bytes fs (nd_data n) = Ok (sub b (sp_off (nd_data n)) (sp_len (nd_data n))) /\
    zlen (sub b (sp_off (nd_data n)) (sp_len (nd_data n))) = sp_len (nd_data n) /\
    0 <= sp_len (nd_data n) <= MAX_BOOT_FILE_BYTES.
Proof.
  intros [Hwf Hmax] Hn. destruct (tw_span _ _ Hwf _ _ Hn) as (b&Hb&?&?&?). exists b.
  split; [done|]. unfold bytes. rewrite (proj2 (at_Ok _ _ _) Hb). cbn [bindR].
  rewrite slice_eq by lia. split; [do 2 f_equal; lia|]. split; [by apply zlen_sub|].
  split; [done|]. apply get_Some in Hb as [_ Hb].
  pose proof (Forall_lookup_1 _ _ _ _ Hmax Hb) as Hbm. cbn beta in Hbm. lia.
Qed.

(** The operations of a mounted archive come back at any handle. *)
Lemma cpio_dir_entries_wp nodes children : Forall (fun c => 0 <= c.2 < zlen nodes) children ->
  wp (dir_entries nodes children) (fun _ => True).
Proof.
  induction 1 as [|[nm c] rest Hc _ IH]; [done|]. cbn [dir_entries fst snd] in *.
  apply wp_bind, wp_at; [done|]. intros n _. apply wp_bind. by eapply wp_mono.
Qed.

Lemma cpio_read_dir_wp fs d : cpio_wf fs -> wp (cpio_read_dir fs d) (fun _ => True).
Proof.
  intros [Hwf _]. unfold cpio_read_dir, node. apply wp_bind, wp_ok_or. intros n Hn.
  destruct (negb _); [done|]. apply cpio_dir_entries_wp, list.Forall_forall. intros [nm c] Hc.
  unfold btree_iter in Hc. rewrite merge_sort_Permutation, elem_of_map_to_list in Hc.
  pose proof (tw_child _ _ Hwf _ _ _ _ Hn Hc). apply get_Some in Hn as [? _]. cbn [snd]. lia.
Qed.

Lemma cpio_read_link_wp fs id : cpio_wf fs -> wp (cpio_read_link fs id) (fun _ => True).
Proof.
  intros Hwf. unfold cpio_read_link, node. apply wp_bind, wp_ok_or. intros n Hn. destruct (negb _); [done|].
  by destruct (bytes_Ok fs n id Hwf Hn) as (b&_&->&_).
Qed.

Lemma cpio_read_at_wp fs id off buf : cpio_wf fs -> 0 <= off ->
  wp (cpio_read_at fs id off buf) (fun '(k, b) => zlen b = zlen buf /\ 0 <= k <= zlen buf).
Proof.
  intros Hwf Ho. unfold cpio_read_at, node. apply wp_bind, wp_ok_or. intros n Hn. destruct (bool_decide _); [done|].
  pose proof (zlen_nonneg buf). destruct (bytes_Ok fs n id Hwf Hn) as (b&_&->&Hz&_). cbn [bindR].
  rewrite Z.geb_leb. destruct (Z.leb_spec (zlen (sub b (sp_off (nd_data n)) (sp_len (nd_data n)))) off); [cbn [wpx]; lia|].
  destruct (copy_out (sub b (sp_off (nd_data n)) (sp_len (nd_data n))) buf off ltac:(lia)) as (b'&Hs&Hw&Hb&Hk&_).
  rewrite Hs. cbn [bindR]. rewrite Hw. cbn [bindR wpx]. lia.
Qed.

(** [read_at] of a file serves exactly its span. *)
Lemma cpio_read_at_serves fs cx id n c :
  get (cp_nodes fs) id = Some n -> nd_kind n <> Directory -> bytes fs (nd_data n) = Ok c ->
  serves (F := Cpio) (S := S) (fun s => s = (fs, cx)) id c.
Proof.
  intros Hn Hk Hc off buf s -> Hoff _.
  pose proof (zlen_nonneg buf).
  cbn [read_at Cpio_Frontend on_self]. unfold on_self, cpio_read_at, node. rewrite Hn. cbn [ok_or bindR].
  rewrite bool_decide_eq_false_2 by done. rewrite Hc. cbn [bindR]. rewrite Z.geb_leb.
  destruct (copy_out c buf off Hoff) as (b&Hs&Hw&Hb&Hk0&Heq).
  set (k := Z.min (zlen buf) (zlen c - off)) in *.
  destruct (Z.leb_spec (zlen c) off); [exists 0, buf, (fs, cx)|exists k, b, (fs, cx)].
  - rewrite !sub_nil. split_and!; done || lia.
  - rewrite Hs. cbn [bindR]. rewrite Hw. cbn [bindR]. split_and!; done || lia.
Qed.

(** A walk through the frontend leaves it alone and ends at a node of the tree. *)
Lemma cpio_Walk s n comps k s' n' :
  Walk (F := Cpio) (S := S) s n comps k s' n' -> cpio_wf s.1 ->
  is_Some (get (cp_nodes s.1) n) -> s' = s /\ is_Some (get (cp_nodes s.1) n').
Proof.
  induction 1 as [s n|s n comp rest child md k s1 s2 s' n' Hd Hl Hm Hk Hw IH
                 |s n comp rest child md target k s1 s2 s3 s' n' Hd Hl Hm Hk Hrl Hu Hw IH];
    intros Hwf Hn; [done| |].
  all: destruct s as [fs cx]; cbn [fst] in *; cbn in Hl, Hm; unfold on_self in *; simplify_eq;
    cbn [fst] in *; unfold cpio_lookup in *; unfold node in *.
  all: destruct Hn as [nd Hnd]; rewrite Hnd in *; cbn [ok_or bindR] in *;
    destruct (negb _); simplify_eq;
    destruct (nd_children nd !! comp) as [ch|] eqn:Ech; simplify_eq.
  all: destruct Hwf as [Htree Hmax];
    pose proof (tw_child _ _ Htree _ _ _ _ Hnd Ech); pose proof (get_lt _ _ _ Hnd).
  - apply IH; [by split|]. apply get_is_Some. lia.
  - cbn in Hrl. unfold on_self in Hrl. simplify_eq. cbn [fst] in *. apply IH; [by split|].
    apply get_is_Some. case_match; cbn; lia.
Qed.

(** Reading a resolved path gives the node's span. *)
Lemma cpio_read_resolved fs cx path id s' :
  cpio_wf fs -> resolve (F := Cpio) (S := S) path (fs, cx) = (Ok id, s') ->
  s' = (fs, cx) /\ exists n b, get (cp_nodes fs) id = Some n /\
    get (cp_buffers fs) (sp_buf (nd_data n)) = Some b /\
    read_path (F := Cpio) (S := S) path (fs, cx)
    = (if decide (nd_kind n = Directory) then Err IsDirectory
       else Ok (sub b (sp_off (nd_data n)) (sp_len (nd_data n))), (fs, cx)).
Proof.
  intros Hwf Hres. pose proof Hres as Hw. unfold resolve in Hw.
  apply bindST_Ok in Hw as (fs1&s1&Hg&Hw). unfold getST in Hg. simplify_eq.
  apply resolve_loop_sound in Hw as (k&_&Hw). rewrite push_components_app in Hw.
  destruct (tw_root _ _ (proj1 Hwf)) as (r&Hr&_).
  apply cpio_Walk in Hw as [-> [n Hn]]; [|done|by exists r]. cbn [fst] in Hn. split; [done|].
  destruct (bytes_Ok fs n id Hwf Hn) as (b&Hb&Hby&Hlen&Hmax). exists n, b. split_and!; [done..|].
  unfold read_path, bindST. rewrite Hres.
  assert (Hmd : metadata (F := Cpio) (S := S) id (fs, cx) = (cpio_metadata fs id, (fs, cx))) by done.
  rewrite Hmd. unfold cpio_metadata, node. rewrite Hn. cbn [ok_or bindR md_kind md_size].
  destruct (decide (nd_kind n = Directory)) as [Hd|Hd]; [done|].
  rewrite bool_decide_eq_false_2 by done. unfold liftR.
  rewrite (proj2 (checked_full_Ok (sp_len (nd_data n)) (sp_len (nd_data n)))) by (split; [lia|done]).
  set (c := sub b _ _) in *. set (len := sp_len (nd_data n)) in *.
  destruct (read_loop_serves _ id c len (cpio_read_at_serves fs cx id n c Hn Hd Hby) ltac:(unfold MAX_BOOT_FILE_BYTES in Hmax; lia)
    (Datatypes.S (Z.to_nat len)) 0 (zeros len) (fs, cx)) as (s'&->&->); try done; try lia.
  - apply zlen_zeros. lia.
  - by rewrite Hlen, Z.min_id, <- Hlen, sub_all.
Qed.
End Mount.

(** ** Writing newc archives *)

Record NewcEntry : Type := mkNewc {
  ne_ino : Z; ne_mode : Z; ne_uid : Z; ne_gid : Z; ne_nlink : Z; ne_mtime : Z;
  ne_devmajor : Z; ne_devminor : Z; ne_rdevmajor : Z; ne_rdevminor : Z;
  ne_name : name; ne_data : list byte;
}.
Definition ne_inode (e : NewcEntry) : Z * Z * Z := (ne_devmajor e, ne_devminor e, ne_ino e).

Definition hex_digit (v : Z) : byte := to_u8 (if v <? 10 then 48 + v else 87 + v).
(** The [k] hex digits of [n], most significant first. *)
Fixpoint hex_digits (k : nat) (n : Z) : list byte :=
  match k with
  | O => []
  | S k' => hex_digits k' (n / 16) ++ [hex_digit (n mod 16)]
  end.

(** The 13 header fields; the check is the byte sum in the CRC format. *)
Definition newc_fields (crc : bool) (e : NewcEntry) : list Z :=
  [ne_ino e; ne_mode e; ne_uid e; ne_gid e; ne_nlink e; ne_mtime e; zlen (ne_data e);
   ne_devmajor e; ne_devminor e; ne_rdevmajor e; ne_rdevminor e; zlen (ne_name e) + 1;
   if crc then byte_sum (ne_data e) else 0].

Definition pad4 (l : list byte) : list byte := l ++ zeros (align4 (zlen l) - zlen l).
Definition newc_header (crc : bool) (e : NewcEntry) : list byte :=
  pad4 (((if crc then CRC_MAGIC else NEWC_MAGIC) ++ concat (hex_digits 8 <$> newc_fields crc e)) ++
        ne_name e ++ [x00]).
Definition newc_record (crc : bool) (e : NewcEntry) : list byte :=
  newc_header crc e ++ pad4 (ne_data e).

Definition newc_trailer : NewcEntry := mkNewc 0 0 0 0 1 0 0 0 0 0 TRAILER [].
Definition newc_archive (crc : bool) (es : list NewcEntry) : list byte :=
  concat (newc_record crc <$> es) ++ newc_record crc newc_trailer.

Definition u32_ok (z : Z) : Prop := 0 <= z < 2 ^ 32.
Definition newc_ok (e : NewcEntry) : Prop :=
  Forall u32_ok [ne_ino e; ne_mode e; ne_uid e; ne_gid e; ne_nlink e; ne_mtime e;
                 zlen (ne_data e); ne_devmajor e; ne_devminor e; ne_rdevmajor e; ne_rdevminor e] /\
  zlen (ne_name e) < MAX_NAME.

Lemma to_digit16_hex_digit v : 0 <= v < 16 -> to_digit16 (hex_digit v) = Some v.
Proof.
  intros Hv.
  assert (Hall : Forall (fun v => to_digit16 (hex_digit v) = Some v) (seqZ 0 16))
    by (repeat constructor).
  apply (proj1 (list.Forall_forall _ _) Hall), elem_of_seqZ. lia.
Qed.

Lemma hex_fold_app l k acc : hex_fold acc (l ++ k) = (let! a := hex_fold acc l in hex_fold a k).
Proof.
  revert acc. induction l as [|d l IH]; intros acc; simpl; [done|].
  destruct (to_digit16 d); simpl; [apply IH|done].
Qed.

Lemma hex_fold_digits k : (k <= 8)%nat -> forall n, 0 <= n ->
  hex_fold 0 (hex_digits k n) = Ok (n mod 16 ^ Z.of_nat k).
Proof.
  induction k as [|k IH]; intros Hk n Hn.
  - cbn. by rewrite Z.mod_1_r.
  - cbn [hex_digits]. rewrite hex_fold_app, IH by (lia || by apply Z.div_pos). cbn [bindR hex_fold].
    pose proof (Z.mod_pos_bound n 16 ltac:(lia)). rewrite to_digit16_hex_digit by done.
    cbn [ok_or bindR].
    pose proof (Z.mod_pos_bound (n / 16) (16 ^ Z.of_nat k) ltac:(lia)) as Hm.
    assert (16 ^ Z.of_nat k <= 16 ^ 7) by (apply Z.pow_le_mono_r; lia).
    rewrite Z.mod_small.
    2:{ rewrite Z.shiftl_mul_pow2 by lia. change (16 ^ 7) with (2 ^ 28) in *.
        change (2 ^ 32) with (2 ^ 28 * 16). change (2 ^ 4) with 16. lia. }
    rewrite lor_shiftl_add by lia. f_equal.
    replace (Z.of_nat (S k)) with (1 + Z.of_nat k) by lia. rewrite Z.pow_add_r by lia.
    change (16 ^ 1) with 16. rewrite Z.rem_mul_r by lia. change (2 ^ 4) with 16. lia.
Qed.

Lemma length_hex_digits k n : length (hex_digits k n) = k.
Proof. revert n. induction k as [|k IH]; intros n; simpl; [done|]. rewrite length_app, IH. simpl. lia. Qed.
Lemma zlen_hex8s fs : zlen (concat (hex_digits 8 <$> fs)) = 8 * zlen fs.
Proof.
  induction fs as [|f fs IH]; [done|]. cbn [fmap list_fmap concat].
  rewrite zlen_app, IH, zlen_cons. unfold zlen at 1. rewrite length_hex_digits. lia.
Qed.

Lemma hex_field_written pre magic fs post i f :
  zlen magic = 6 -> 0 <= i -> get fs i = Some f -> u32_ok f ->
  hex_field (pre ++ magic ++ concat (hex_digits 8 <$> fs) ++ post) (zlen pre) i = Ok f.
Proof.
  intros Hm Hi [_ Hf]%get_Some Hr. unfold hex_field.
  rewrite <- (take_drop_middle fs (Z.to_nat i) f Hf).
  rewrite fmap_app, concat_app, fmap_cons. cbn [concat]. rewrite <- !app_assoc, 2!app_assoc.
  assert (Hl : zlen (take (Z.to_nat i) fs) = i).
  { unfold zlen. rewrite length_take. apply lookup_lt_Some in Hf. lia. }
  rewrite (get_range_app _ (hex_digits 8 f)).
  - cbn [ok_or bindR]. rewrite hex_fold_digits by (lia || apply Hr).
    unfold u32_ok in Hr. rewrite Z.mod_small; [done|]. change (16 ^ Z.of_nat 8) with (2 ^ 32). lia.
  - rewrite !zlen_app, zlen_hex8s, Hl. lia.
  - rewrite !zlen_app, zlen_hex8s, Hl. unfold zlen at 4. rewrite length_hex_digits. lia.
Qed.

(** The record of an entry written in [archive]. *)
Record rec_of (archive : list byte) (e : NewcEntry) (r : Record_) : Prop := mkRecOf {
  ro_mode : r_mode r = ne_mode e;
  ro_inode : r_inode r = ne_inode e;
  ro_nlink : r_nlink r = ne_nlink e;
  ro_name : slice archive (fst (r_name r)) (fst (r_name r) + snd (r_name r)) = Ok (ne_name e);
  ro_data : slice archive (fst (r_data r)) (fst (r_data r) + snd (r_data r)) = Ok (ne_data e);
  ro_len : snd (r_data r) = zlen (ne_data e);
}.

Lemma zlen_pad4 l : zlen (pad4 l) = align4 (zlen l).
Proof.
  unfold pad4. pose proof (align4_spec (zlen l)). rewrite zlen_app, zlen_zeros by lia. lia.
Qed.

Lemma zlen_newc_header crc e :
  zlen (newc_header crc e) = align4 (NEWC_HEADER + (zlen (ne_name e) + 1)).
Proof.
  unfold newc_header. rewrite zlen_pad4. f_equal. rewrite !zlen_app, zlen_hex8s.
  destruct crc; change (zlen [x00]) with 1; unfold newc_fields;
    rewrite !zlen_cons, zlen_nil; unfold NEWC_HEADER; change (zlen CRC_MAGIC) with 6;
    change (zlen NEWC_MAGIC) with 6; lia.
Qed.

Lemma zlen_newc_record crc e :
  zlen (newc_record crc e)
  = align4 (NEWC_HEADER + (zlen (ne_name e) + 1)) + align4 (zlen (ne_data e)).
Proof. unfold newc_record. by rewrite zlen_app, zlen_newc_header, zlen_pad4. Qed.

Lemma byte_sum_range l : 0 <= byte_sum l < 2 ^ 32.
Proof.
  assert (Hg : forall a, 0 <= a < 2 ^ 32 ->
    0 <= foldl (fun a b => (a + u8 b) mod 2 ^ 32) a l < 2 ^ 32); [|apply Hg; lia].
  induction l as [|b l IH]; intros a Ha; cbn [foldl]; [done|]. apply IH, Z.mod_pos_bound. lia.
Qed.

Section Written.
Context (pre post archive : list byte) (crc : bool) (e : NewcEntry).
Context (Ha : archive = pre ++ newc_record crc e ++ post) (Hlen : zlen archive < 2 ^ 63).
Context (Hpre : zlen pre mod 4 = 0) (Hok : newc_ok e).

Let magic := if crc then CRC_MAGIC else NEWC_MAGIC.
Let hd := magic ++ concat (hex_digits 8 <$> newc_fields crc e).
Let nm := ne_name e ++ [x00].
Let z1 := zeros (align4 (zlen (hd ++ nm)) - zlen (hd ++ nm)).
Let z2 := zeros (align4 (zlen (ne_data e)) - zlen (ne_data e)).
(** Where the data starts. *)
Let ds := zlen pre + align4 (NEWC_HEADER + (zlen (ne_name e) + 1)).

Lemma written_layout : archive = pre ++ hd ++ nm ++ z1 ++ ne_data e ++ z2 ++ post.
Proof.
  rewrite Ha. unfold newc_record, newc_header, pad4. fold magic hd nm. fold z1 z2.
  by rewrite <- !app_assoc.
Qed.

Lemma written_hd : zlen hd = NEWC_HEADER.
Proof. unfold hd, magic. rewrite zlen_app, zlen_hex8s. unfold newc_fields. by destruct crc. Qed.

Lemma written_field i f : 0 <= i -> newc_fields crc e !! Z.to_nat i = Some f ->
  hex_field archive (zlen pre) i = Ok f.
Proof.
  intros Hi Hf. rewrite written_layout. unfold hd. rewrite <- !app_assoc.
  apply hex_field_written; [unfold magic; by destruct crc|done|by apply get_Some|].
  destruct Hok as [Hfs Hn]. apply (Forall_lookup_1 u32_ok (newc_fields crc e) (Z.to_nat i) f); [|done].
  unfold newc_fields, u32_ok in *. rewrite !Forall_cons in Hfs. unfold MAX_NAME in Hn.
  pose proof (byte_sum_range (ne_data e)). pose proof (zlen_nonneg (ne_name e)).
  rewrite !Forall_cons. destruct Hfs as (?&?&?&?&?&?&?&?&?&?&?&_). split_and!; try done; destruct crc; lia.
Qed.

Lemma written_nul : get archive (zlen pre + NEWC_HEADER + (zlen (ne_name e) + 1) - 1) = Some x00.
Proof.
  rewrite written_layout. unfold nm. rewrite <- (app_assoc (ne_name e)).
  rewrite (app_assoc hd), (app_assoc pre). change ([x00] ++ ?x) with (x00 :: x).
  rewrite <- written_hd. pose proof (zlen_nonneg (pre ++ hd ++ ne_name e)) as Hz.
  rewrite !zlen_app in Hz. apply get_Some. split; [lia|].
  replace (Z.to_nat _) with (length (pre ++ hd ++ ne_name e)); [by rewrite list_lookup_middle|].
  rewrite !length_app. unfold zlen. lia.
Qed.

Lemma written_name :
  slice archive (zlen pre + NEWC_HEADER) (zlen pre + NEWC_HEADER + zlen (ne_name e))
  = Ok (ne_name e).
Proof.
  rewrite written_layout. unfold nm. rewrite <- (app_assoc (ne_name e)), (app_assoc pre).
  rewrite <- written_hd. apply slice_app; rewrite zlen_app; lia.
Qed.

Lemma written_ds : align4 (zlen pre + NEWC_HEADER + (zlen (ne_name e) + 1)) = ds /\ ds mod 4 = 0 /\
  ds = zlen (pre ++ hd ++ nm ++ z1).
Proof.
  split_and!.
  - rewrite <- Z.add_assoc, align4_add by done. done.
  - unfold ds. rewrite Z.add_mod, Hpre by lia.
    pose proof (align4_spec (NEWC_HEADER + (zlen (ne_name e) + 1))) as [_ Hz]. by rewrite Hz.
  - pose proof (align4_spec (zlen (hd ++ nm))) as [Hz1 _].
    rewrite !zlen_app. unfold z1. rewrite zlen_zeros by lia.
    unfold ds, nm. rewrite !zlen_app, written_hd. change (zlen [x00]) with 1. lia.
Qed.

Lemma written_data : slice archive ds (ds + zlen (ne_data e)) = Ok (ne_data e).
Proof.
  destruct written_ds as (_&_&Hds). rewrite written_layout.
  replace (pre ++ hd ++ nm ++ z1 ++ ne_data e ++ z2 ++ post)
    with ((pre ++ hd ++ nm ++ z1) ++ ne_data e ++ z2 ++ post) by (by rewrite <- !app_assoc).
  apply slice_app; lia.
Qed.

Lemma written_next : align4 (ds + zlen (ne_data e)) = zlen pre + zlen (newc_record crc e).
Proof.
  destruct written_ds as (_&Hds&_). rewrite align4_add, zlen_newc_record by done. unfold ds. lia.
Qed.

Lemma parse_written :
  exists r, parse_record archive (zlen pre) crc = Ok (r, zlen pre + zlen (newc_record crc e)) /\
    rec_of archive e r.
Proof.
  pose proof written_data as Hdata. pose proof Hdata as (_&Hfit&_)%slice_Ok.
  destruct Hok as [_ Hn]. pose proof (zlen_nonneg (ne_name e)). pose proof (zlen_nonneg (ne_data e)).
  unfold parse_record.
  rewrite (written_field 0 (ne_ino e)), (written_field 1 (ne_mode e)), (written_field 4 (ne_nlink e)),
    (written_field 6 (zlen (ne_data e))), (written_field 7 (ne_devmajor e)),
    (written_field 8 (ne_devminor e)), (written_field 11 (zlen (ne_name e) + 1)),
    (written_field 12 (if crc then byte_sum (ne_data e) else 0)) by done.
  cbn [bindR]. rewrite (proj2 (Z.eqb_neq _ _)) by lia. rewrite Z.gtb_ltb, (proj2 (Z.ltb_ge _ _)) by lia.
  cbn [orb]. rewrite (bool_decide_eq_true_2 _ written_nul). cbn [negb].
  rewrite (proj1 written_ds). unfold checked_add.
  rewrite (proj2 (Z.ltb_lt _ _)) by lia. cbn [mbind option_bind].
  rewrite (proj2 (Z.leb_le _ _)) by done. cbn [ok_or bindR].
  replace (if crc && _ then _ else Ok tt) with (Ok tt : Res unit).
  2:{ destruct crc; cbn [andb]; [|done]. destruct (_ =? S_IFREG); [|done].
      rewrite Hdata. cbn [bindR]. by rewrite Z.eqb_refl. }
  cbn [bindR]. eexists. split; [by rewrite written_next|].
  constructor; try done; cbn [r_name fst snd]. rewrite <- written_name. f_equal. lia.
Qed.
End Written.

(** ** Reading a written archive back *)

Definition entry_name_ok (e : NewcEntry) : Prop :=
  utf8_valid (ne_name e) = true /\ ne_name e <> TRAILER.

Lemma newc_trailer_ok : newc_ok newc_trailer.
Proof.
  split; [|done]. repeat (apply Forall_cons; split; [split; done|]). constructor.
Qed.

Lemma record_round_written pre post archive crc e records :
  archive = pre ++ newc_record crc e ++ post -> zlen archive < 2 ^ 63 ->
  zlen pre mod 4 = 0 -> newc_ok e ->
  exists r, rec_of archive e r /\
    record_round archive (zlen pre, records)
    = Ok (if bool_decide (ne_name e = TRAILER)
          then inr (zlen pre + zlen (newc_record crc e), records)
          else inl (zlen pre + zlen (newc_record crc e), records ++ [r])).
Proof.
  intros Ha Hlen Hpre Hok.
  destruct (parse_written pre post archive crc e Ha Hlen Hpre Hok) as (r&Hp&Hr).
  exists r. split; [done|]. unfold record_round.
  rewrite (written_layout pre post archive crc e Ha) at 1. rewrite <- !app_assoc.
  rewrite get_range_app by (destruct crc; done). cbn [ok_or bindR].
  assert (Hc : bool_decide ((if crc then CRC_MAGIC else NEWC_MAGIC) = CRC_MAGIC) = crc) by by destruct crc.
  assert (Hm : negb crc && negb (bool_decide ((if crc then CRC_MAGIC else NEWC_MAGIC) = NEWC_MAGIC))
    = false) by by destruct crc.
  rewrite Hc, Hm, Hp. cbn [bindR].
  destruct (r_name r) as [no nl] eqn:En. pose proof (ro_name _ _ _ Hr) as Hn. rewrite En in Hn.
  cbn [fst snd] in Hn. rewrite Hn. cbn [bindR]. by destruct (bool_decide (ne_name e = TRAILER)).
Qed.

Lemma zlen_newc_record_mod4 crc e : zlen (newc_record crc e) mod 4 = 0.
Proof.
  rewrite zlen_newc_record, Z.add_mod by lia.
  destruct (align4_spec (NEWC_HEADER + (zlen (ne_name e) + 1))) as [_ ->].
  by destruct (align4_spec (zlen (ne_data e))) as [_ ->].
Qed.

Lemma records_written crc post archive : zlen archive < 2 ^ 63 ->
  forall es pre records,
  archive = pre ++ newc_archive crc es ++ post -> zlen pre mod 4 = 0 ->
  Forall newc_ok es -> Forall entry_name_ok es ->
  exists rs, Forall2 (rec_of archive) es rs /\
    LoopsTo (record_round archive) (zlen pre, records)
      (Ok (zlen pre + zlen (newc_archive crc es), records ++ rs)).
Proof.
  intros Hlen. induction es as [|e es IH]; intros pre records Ha Hpre Hok Hnm.
  - exists []. split; [constructor|].
    destruct (record_round_written pre post archive crc newc_trailer records Ha Hlen Hpre newc_trailer_ok)
      as (r&_&Hr). apply LoopsTo_break. rewrite Hr, app_nil_r. done.
  - apply Forall_cons_1 in Hok as [Hok Hoks], Hnm as [[_ Hn] Hnms].
    assert (Ha' : archive = pre ++ newc_record crc e ++ (newc_archive crc es ++ post)).
    { rewrite Ha. unfold newc_archive. cbn [fmap list_fmap concat]. by rewrite <- !app_assoc. }
    destruct (record_round_written pre _ archive crc e records Ha' Hlen Hpre Hok) as (r&Hrof&Hr).
    rewrite bool_decide_eq_false_2 in Hr by done.
    destruct (IH (pre ++ newc_record crc e) (records ++ [r])) as (rs&Hrs&Hl); try done.
    { by rewrite Ha', <- app_assoc. }
    { rewrite zlen_app, Z.add_mod, Hpre, zlen_newc_record_mod4 by lia. done. }
    exists (r :: rs). split; [by constructor|].
    apply (LoopsTo_round _ _ _ _ Hr). rewrite zlen_app, <- app_assoc in Hl.
    replace (zlen pre + zlen (newc_archive crc (e :: es)))
      with (zlen pre + zlen (newc_record crc e) + zlen (newc_archive crc es)); [done|].
    unfold newc_archive. cbn [fmap list_fmap concat]. rewrite !zlen_app. lia.
Qed.

(** The last element that satisfies [p]. *)
Fixpoint last_match {A} (p : A -> bool) (l : list A) : option A :=
  match l with
  | [] => None
  | x :: l' => match last_match p l' with
               | Some y => Some y
               | None => if p x then Some x else None
               end
  end.

Definition is_link (mode nlink : Z) : bool := (Z.land mode S_IFMT =? S_IFREG) && (nlink >? 1).

(** The data a hard-linked file shares: the last non-empty data recorded for its
    inode; any other entry has its own. *)
Definition link_data (es : list NewcEntry) (e : NewcEntry) : list byte :=
  if is_link (ne_mode e) (ne_nlink e) then
    match last_match (fun x => is_link (ne_mode x) (ne_nlink x) && (zlen (ne_data x) >? 0) &&
                               bool_decide (ne_inode x = ne_inode e)) es with
    | Some x => ne_data x
    | None => ne_data e
    end
  else ne_data e.

Lemma linked_lookup rs i :
  linked rs !! i
  = r_data <$> last_match (fun r => is_link (r_mode r) (r_nlink r) && (snd (r_data r) >? 0) &&
                                    bool_decide (r_inode r = i)) rs.
Proof.
  unfold linked.
  assert (Hg : forall m : gmap (Z * Z * Z) (Z * Z), foldl (fun m r =>
    if (Z.land (r_mode r) S_IFMT =? S_IFREG) && (r_nlink r >? 1) && (snd (r_data r) >? 0)
    then <[r_inode r := r_data r]> m else m) m rs !! i =
    match last_match (fun r => is_link (r_mode r) (r_nlink r) && (snd (r_data r) >? 0) &&
                               bool_decide (r_inode r = i)) rs with
    | Some r => Some (r_data r) | None => m !! i end).
  { induction rs as [|r rs IH]; intros m; [done|]. cbn [foldl last_match]. rewrite IH.
    destruct (last_match _ rs); [done|]. unfold is_link.
    destruct (_ && _ && _) eqn:E; cbn [andb]; [|by rewrite ?E].
    destruct (bool_decide_reflect (r_inode r = i)) as [<-|Hne]; [apply lookup_insert_eq|].
    by apply lookup_insert_ne. }
  rewrite Hg. by destruct (last_match _ _).
Qed.

Lemma last_match_Forall2 {A B} (P : A -> B -> Prop) p q l k :
  Forall2 P l k -> (forall x y, P x y -> p x = q y) ->
  match last_match p l, last_match q k with
  | Some x, Some y => P x y
  | None, None => True
  | _, _ => False
  end.
Proof.
  intros HF Hpq. induction HF as [|x y l k Hxy HF IH]; simpl; [done|].
  destruct (last_match p l), (last_match q k); try done. rewrite (Hpq x y Hxy). by destruct (q y).
Qed.

Lemma file_kind_regular mode :
  bool_decide (file_kind mode = Regular) = (Z.land mode S_IFMT =? S_IFREG).
Proof.
  unfold file_kind. destruct (Z.eqb_spec (Z.land mode S_IFMT) S_IFDIR) as [->|]; [done|].
  destruct (_ =? S_IFREG); [done|]. by destruct (_ =? S_IFLNK).
Qed.

(** The span every record of a written archive is inserted with. *)
Lemma record_span archive es rs e r idx :
  Forall2 (rec_of archive) es rs -> rec_of archive e r ->
  exists sp : Z * Z, (if bool_decide (file_kind (r_mode r) = Regular) && (r_nlink r >? 1)
    then default (r_data r) (linked rs !! r_inode r) else r_data r) = sp /\
    slice archive (sp_off (mkSpan idx sp.1 sp.2)) (sp_off (mkSpan idx sp.1 sp.2) + sp.2)
    = Ok (link_data es e).
Proof.
  intros HF Hr. eexists. split; [done|]. cbn [sp_off]. rewrite file_kind_regular, linked_lookup.
  unfold link_data, is_link. rewrite (ro_mode _ _ _ Hr), (ro_nlink _ _ _ Hr).
  destruct (_ && _); [|by eapply ro_data].
  pose proof (last_match_Forall2 (rec_of archive)
    (fun x => is_link (ne_mode x) (ne_nlink x) && (zlen (ne_data x) >? 0) &&
              bool_decide (ne_inode x = ne_inode e))
    (fun x => is_link (r_mode x) (r_nlink x) && (snd (r_data x) >? 0) &&
              bool_decide (r_inode x = r_inode r)) es rs HF) as Hlm.
  unfold is_link in Hlm.
  destruct (last_match _ es) as [x|], (last_match _ rs) as [y|]; cbn [fmap option_fmap option_map default];
    try (exfalso; apply Hlm; intros ?? [-> -> -> _ _ ->]; by rewrite (ro_inode _ _ _ Hr)).
  - eapply ro_data, Hlm. intros ?? [-> -> -> _ _ ->]. by rewrite (ro_inode _ _ _ Hr).
  - by eapply ro_data.
Qed.

(** Insert a list of written entries, each with its span. *)
Fixpoint insert_all (nodes : list Node) (l : list (NewcEntry * Span)) : Res (list Node) :=
  match l with
  | [] => Ok nodes
  | (e, sp) :: l' =>
      let! nodes := insert nodes (ne_name e) (file_kind (ne_mode e)) (Z.land (ne_mode e) 4095) sp in
      insert_all nodes l'
  end.

Lemma insert_records_written archive idx es rs :
  Forall2 (rec_of archive) es rs -> forall es1 rs1,
  Forall2 (rec_of archive) es1 rs1 -> Forall entry_name_ok es1 ->
  exists spans,
    Forall2 (fun e sp => sp_buf sp = idx /\
      slice archive (sp_off sp) (sp_off sp + sp_len sp) = Ok (link_data es e)) es1 spans /\
    forall nodes, insert_records archive idx (linked rs) nodes rs1 = insert_all nodes (zip es1 spans).
Proof.
  intros HF. induction es1 as [|e es1 IH]; intros rs1 HF1 Hn.
  - apply Forall2_nil_inv_l in HF1 as ->. exists []. split; [constructor|done].
  - apply Forall2_cons_inv_l in HF1 as (r&rs1'&Hr&HF1&->). apply Forall_cons_1 in Hn as [[Hu _] Hn].
    destruct (record_span archive es rs e r idx HF Hr) as ([off len]&Hsp&Hd).
    destruct (IH rs1' HF1 Hn) as (spans&Hs&He). exists (mkSpan idx off len :: spans).
    split; [by constructor|]. intros nodes.
    cbn [insert_records]. rewrite (ro_name _ _ _ Hr). cbn [bindR]. rewrite Hu. cbn [bindR].
    rewrite Hsp, (ro_mode _ _ _ Hr). cbn [zip zip_with insert_all].
    destruct (insert nodes (ne_name e) _ _ _) as [nodes1|?| | |]; cbn [bindR]; auto.
Qed.

(** An archive written from any list of entries, at any 4-byte-aligned place
    of a buffer, is read back entry by entry: every entry is folded into the tree
    under its name, kind and mode, with a span that holds its data (for hard
    links, the last non-empty data of the inode), and the position after the
    trailer is reported. *)
Lemma newc_archive_written archive pre post crc es idx nodes :
  archive = pre ++ newc_archive crc es ++ post -> zlen archive < 2 ^ 63 ->
  zlen pre mod 4 = 0 -> Forall newc_ok es -> Forall entry_name_ok es ->
  exists spans,
    Forall2 (fun e sp => sp_buf sp = idx /\
      slice archive (sp_off sp) (sp_off sp + sp_len sp) = Ok (link_data es e)) es spans /\
    insert_newc_archive archive idx nodes (zlen pre)
    = (let! nodes' := insert_all nodes (zip es spans) in
       Ok (zlen pre + zlen (newc_archive crc es), nodes')).
Proof.
  intros Ha Hlen Hpre Hok Hnm.
  destruct (records_written crc post archive Hlen es pre [] Ha Hpre Hok Hnm) as (rs&HF&Hl).
  destruct (insert_records_written archive idx es rs HF es rs HF Hnm) as (spans&Hs&Hi).
  exists spans. split; [done|]. unfold insert_newc_archive.
  destruct (records_spec archive (zlen pre)) as [Hr _]; [|done|].
  { rewrite Ha, zlen_app. pose proof (zlen_nonneg pre).
    pose proof (zlen_nonneg (newc_archive crc es ++ post)). lia. }
  rewrite (loop_eq _ _ _ Hr Hl). cbn [bindR app]. by rewrite Hi.
Qed.

(** ** Properties *)

(** Folding a record into the tree: it never panics and keeps the tree; the
    path then leads to a node with the record's kind, mode and data, unless the
    record is a directory and the path already existed, which changes no content;
    every path that resolved before still does, to the same node, whose content
    is unchanged unless it is the record's own path. *)
Theorem cpio_insert_spec bufs kind mode data nodes path :
  span_ok bufs data -> span_ok bufs Span_default -> tree_wf bufs nodes -> components path <> [] ->
  exists nodes' t n', insert nodes path kind mode data = Ok nodes' /\ tree_wf bufs nodes' /\
    walk nodes' 0 (components path) = Some t /\ get nodes' t = Some n' /\
    (kind <> Directory \/ walk nodes 0 (components path) = None -> content n' = (kind, mode, data)) /\
    (forall q i n, walk nodes 0 q = Some i -> get nodes i = Some n ->
       exists m, walk nodes' 0 q = Some i /\ get nodes' i = Some m /\
         (q <> components path \/ kind = Directory -> content m = content n)).
Proof.
  intros Hsp Hdef Hwf Hne.
  destruct (insert_spec bufs kind mode data nodes path Hsp Hdef Hwf)
    as (nodes'&t&Hi&Hwf'&Hw&Hk&Hn'). destruct (Hn' Hne) as (n'&Hg&Hc).
  exists nodes', t, n'. split_and!; try done. intros q i n Hq Hn.
  destruct (Hk i n Hn) as (m&Hm&_&Hmc). exists m.
  pose proof (keeps_walk _ _ _ q Hk 0 i Hq) as Hq'. split_and!; [done..|]. intros Hd. apply Hmc.
  destruct Hd as [Hd|?]; [|by right; right]. left. intros ->. apply Hd.
  by apply (walk_inj bufs nodes' Hwf' q (components path) t).
Qed.

(** C33.  Mounting any medium as a cpio archive comes back, whatever its bytes; a
    mounted volume is a tree whose nodes' data lie inside its buffers, each of
    them within the whole-file cap. *)
Theorem cpio_open_sound {D : Decoders} {DL : DecoderLaws D} {R : CpioReader}
    {RL : CpioReaderLaws R} {S} `{SourceLaws S} (src : S) :
  src_valid src ->
  returns (cpio_open src) /\ forall fs, cpio_open src = Ok fs -> cpio_wf fs.
Proof. apply cpio_open_spec. Qed.

(** On a mounted archive, reading a path that resolves (symbolic links
    followed) gives exactly the bytes of the span of the node reached, or refuses
    a directory, and resolution leaves the volume as it was. *)
Theorem cpio_read_path {D : Decoders} {DL : DecoderLaws D} {R : CpioReader}
    {RL : CpioReaderLaws R} {S} `{SourceLaws S} (src : S) fs cx path id s' :
  src_valid src -> cpio_open src = Ok fs ->
  resolve (F := Cpio) (S := S) path (fs, cx) = (Ok id, s') ->
  s' = (fs, cx) /\ exists n b, get (cp_nodes fs) id = Some n /\
    get (cp_buffers fs) (sp_buf (nd_data n)) = Some b /\
    read_path (F := Cpio) (S := S) path (fs, cx)
    = (if decide (nd_kind n = Directory) then Err IsDirectory
       else Ok (sub b (sp_off (nd_data n)) (sp_len (nd_data n))), (fs, cx)).
Proof.
  intros Hv Ho Hr. apply cpio_read_resolved; [|done].
  by apply (cpio_open_spec src Hv).
Qed.

(** ** Witnesses *)

#[local] Instance NoOldFormats : CpioReader := { iter_files _ := [] }.
#[local] Instance NoOldFormats_laws : CpioReaderLaws NoOldFormats.
Proof. constructor. intros archive e He. inversion He. Qed.

Definition w_entry (ino mode nlink : Z) (nm : string) (data : list byte) : NewcEntry :=
  mkNewc ino mode 0 0 nlink 0 8 1 0 0 (bytes_of nm) data.
(** A directory, a file with a hard link, and a symbolic link to it. *)
Definition w_entries : list NewcEntry :=
  [w_entry 1 (16384 + 493) 2 "d" []; w_entry 7 (32768 + 420) 2 "b" [];
   w_entry 7 (32768 + 420) 2 "d/a" (bytes_of "hi"); w_entry 9 (40960 + 511) 1 "s" (bytes_of "/d/a")].
Definition w_image : list byte := newc_archive false w_entries ++ zeros 6.
Definition w_src : SliceSource := mkSlice w_image.
Definition w_fs : Cpio :=
  match cpio_open w_src with Ok fs => fs | _ => mkCpio [] [] end.
Definition w_cx : SubstrateCtx := mkCtx (BlockCache.new 0) NoVerifier.

Lemma cpio_insert_spec_witness :
  exists nodes', insert [dir 493] (bytes_of "x/y") Regular 420 (mkSpan 0 0 1) = Ok nodes' /\
    tree_wf [[x61]] nodes'.
Proof.
  destruct (cpio_insert_spec [[x61]] Regular 420 (mkSpan 0 0 1) [dir 493] (bytes_of "x/y"))
    as (nodes'&t&n'&Hi&Hwf&_).
  - exists [x61]. vm_compute. split; [reflexivity|]. split_and!; discriminate.
  - exists [x61]. vm_compute. split; [reflexivity|]. split_and!; discriminate.
  - apply tree_wf_root.
  - vm_compute. discriminate.
  - exists nodes'. split; [exact Hi|exact Hwf].
Defined.

Lemma cpio_open_sound_witness : returns (cpio_open w_src) /\ cpio_wf w_fs.
Proof.
  destruct (cpio_open_sound w_src) as [Hr Hwf]; [vm_compute; reflexivity|].
  split; [exact Hr|]. apply Hwf. vm_compute. reflexivity.
Defined.

(** The hard link "b" reads the data stored with "d/a". *)
Lemma cpio_read_path_witness :
  read_path (F := Cpio) (S := SliceSource) (bytes_of "b") (w_fs, w_cx)
  = (Ok (bytes_of "hi"), (w_fs, w_cx)).
Proof.
  destruct (cpio_read_path w_src w_fs w_cx (bytes_of "b") 2 (w_fs, w_cx)) as [_ Hn];
    [vm_compute; reflexivity|vm_compute; reflexivity|vm_compute; reflexivity|].
  destruct Hn as (n&b&Hn&Hb&->).
  assert (get (cp_nodes w_fs) 2 = Some (mkNode Regular (mkSpan 0 340 2) 420 ∅)) as Hg
    by (vm_compute; reflexivity).
  rewrite Hg in Hn. injection Hn as <-.
  assert (get (cp_buffers w_fs) 0 = Some w_image) as Hg0 by (vm_compute; reflexivity).
  cbn [nd_data sp_buf] in Hb. rewrite Hg0 in Hb. apply (inj Some) in Hb. rewrite <- Hb.
  vm_compute. reflexivity.
Defined.
