(* ===== verification/CpioTree.v ===== *)
(** * An initramfs is the tree its archives say

    A mounted cpio is a tree, whatever bytes it was mounted from.  For chained newc
    archives it is the tree of their records: [put] says what one record does, and
    [image_paths] what all of them make, without nodes, handles or buffers. *)
From S2P Require Import Prelude Text Cache Substrate Path Codec Stream Cpio Tree.
Open Scope Z_scope.

(** ** Any mounted archive *)

(** The tree at a node. *)
Inductive cpio_tree (fs : Cpio) : Z -> Tree -> Prop :=
| Cpio_leaf i n t c : get (cp_nodes fs) i = Some n -> nd_kind n = tree_kind t ->
    content_of t = Some c \/ t = TLink c -> bytes fs (nd_data n) = Ok c -> cpio_tree fs i t
| Cpio_dir i n es : get (cp_nodes fs) i = Some n -> nd_kind n = Directory ->
    Forall2 (fun c x => c.1 = x.1 /\ cpio_tree fs c.2 x.2) (btree_iter name_entry_le (nd_children n)) es ->
    cpio_tree fs i (TDir es).

Lemma btree_iter_elem {V} (m : gmap name V) c : c ∈ btree_iter name_entry_le m <-> m !! c.1 = Some c.2.
Proof. unfold btree_iter. rewrite merge_sort_Permutation, <- elem_of_map_to_list. by destruct c. Qed.

Lemma find_child_btree {V} (m : gmap name V) nm : find_child nm (btree_iter name_entry_le m) = m !! nm.
Proof.
  destruct (find_child nm (btree_iter name_entry_le m)) as [v|] eqn:E.
  - by apply find_child_elem, btree_iter_elem in E.
  - destruct (m !! nm) as [v|] eqn:Em; [|done].
    destruct (find_child_is_Some nm (btree_iter name_entry_le m) v) as [w Hw]; [by apply btree_iter_elem|congruence].
Qed.

Lemma Forall_Forall2_exists {A B} (P : A -> B -> Prop) l :
  Forall (fun a => exists b, P a b) l -> exists k, Forall2 P l k.
Proof.
  induction 1 as [|a l [b Hb] _ [k Hk]]; [by exists []|]. exists (b :: k). by constructor.
Qed.

(** Children come after their parents: the nodes below any node are a tree. *)
Lemma cpio_tree_exists fs : cpio_wf fs -> forall i, is_Some (get (cp_nodes fs) i) -> exists t, cpio_tree fs i t.
Proof.
  intros Hwf i. assert (exists k : nat, (Z.to_nat (zlen (cp_nodes fs) - i) <= k)%nat) as [k Hk] by eauto.
  revert i Hk. induction k as [|k IH]; intros i Hk [n Hn]; pose proof (get_lt _ _ _ Hn); [lia|].
  destruct (bytes_Ok fs n i Hwf Hn) as (b&_&Hb&_).
  destruct (nd_kind n) eqn:Ek; [by exists (TFile (sub b (sp_off (nd_data n)) (sp_len (nd_data n)))); eapply Cpio_leaf; eauto
    | |by exists (TLink (sub b (sp_off (nd_data n)) (sp_len (nd_data n)))); eapply Cpio_leaf; eauto
    |by exists (TOther (sub b (sp_off (nd_data n)) (sp_len (nd_data n)))); eapply Cpio_leaf; eauto].
  destruct (Forall_Forall2_exists (fun c x => c.1 = x.1 /\ cpio_tree fs c.2 x.2)
    (btree_iter name_entry_le (nd_children n))) as [es Hes].
  { apply list.Forall_forall. intros [nm c] Hc%btree_iter_elem. cbn [fst snd] in *.
    pose proof (tw_child _ _ (proj1 Hwf) _ _ _ _ Hn Hc). destruct (IH c) as [t Ht]; [lia|apply get_is_Some; lia|].
    by exists (nm, t). }
  exists (TDir es). by eapply Cpio_dir.
Qed.

Section Refines.
Context {D : Decoders} {R : CpioReader} {S : Type} `{SourceLaws S} (fs : Cpio) (wf : cpio_wf fs).

(** The volume of the state and the node. *)
Definition cpio_stands (s : Cpio * SubstrateCtx) (n : NodeId) (t : Tree) : Prop := s.1 = fs /\ cpio_tree fs n t.

Lemma cpio_node n t : cpio_tree fs n t -> exists nd, get (cp_nodes fs) n = Some nd /\ nd_kind nd = tree_kind t.
Proof. destruct 1 as [i nd t c Hn|i nd es Hn]; by exists nd. Qed.

Lemma cpio_children nd es : Forall2 (fun c x => c.1 = x.1 /\ cpio_tree fs c.2 x.2) (btree_iter name_entry_le (nd_children nd)) es ->
  forall nm, match nd_children nd !! nm, find_child nm es with
             | Some m, Some c => cpio_tree fs m c
             | None, None => True
             | _, _ => False
             end.
Proof.
  intros HF nm. rewrite <- find_child_btree. by apply find_child_Forall2.
Qed.

Lemma dir_entries_trees l es : Forall2 (fun c x => c.1 = x.1 /\ cpio_tree fs c.2 x.2) l es ->
  exists out, dir_entries (cp_nodes fs) l = Ok out /\
    Forall2 (fun e x => de_name e = x.1 /\ de_kind e = tree_kind x.2 /\ cpio_tree fs (de_node e) x.2) out es.
Proof.
  induction 1 as [|[nm c] x l es [Hn Ht] _ (out&Hout&HF)]; [by exists []|]. cbn [fst snd dir_entries] in *.
  destruct (cpio_node _ _ Ht) as (nd&Hnd&Hk). rewrite (proj2 (at_Ok _ _ _) Hnd). cbn [bindR]. rewrite Hout. cbn [bindR].
  eexists. split; [reflexivity|]. by constructor.
Qed.

Lemma cpio_implements_read_dir s n t : cpio_stands s n t ->
  implements (F := Cpio) (S := S) cpio_stands (fun s' => Forall2 (lists cpio_stands s')) (read_dir (S := S) n)
    (match t with TDir es => Ok es | _ => Err NotDirectory end) s.
Proof.
  destruct s as [fs' cx]. intros [Hs Ht]. cbn [fst] in Hs.
  apply (implements_here _ _ _ (cpio_read_dir fs' n)); [reflexivity|]. rewrite Hs. unfold cpio_read_dir, node.
  destruct Ht as [i nd t c Hn Hk Hc|i nd es Hn Hk HF]; rewrite Hn; cbn [ok_or bindR]; rewrite Hk.
  - assert (Hd : tree_kind t <> Directory) by (destruct Hc as [Hc| ->]; [by destruct t|done]).
    rewrite bool_decide_eq_false_2 by done. destruct t; done.
  - rewrite bool_decide_eq_true_2 by done. cbn [negb]. destruct (dir_entries_trees _ _ HF) as (out&->&HO).
    exists out. split; [done|]. eapply Forall2_impl; [exact HO|]. intros e x (?&?&?). split; [done|]. by split.
Qed.

#[export] Instance CpioTree : TreeFs Cpio S cpio_stands.
Proof.
  split.
  - intros [fs' cx] n t nm [Hs Ht]. cbn [fst] in Hs. apply (implements_here _ _ _ (cpio_lookup fs' n nm)); [reflexivity|].
    rewrite Hs. unfold cpio_lookup, node. destruct Ht as [i nd t c Hn Hk Hc|i nd es Hn Hk HF]; rewrite Hn; cbn [ok_or bindR]; rewrite Hk.
    + assert (Hd : tree_kind t <> Directory) by (destruct Hc as [Hc| ->]; [by destruct t|done]).
      rewrite bool_decide_eq_false_2 by done. destruct t; done.
    + rewrite bool_decide_eq_true_2 by done. cbn [negb]. eexists. split; [done|].
      pose proof (cpio_children _ _ HF nm) as Hc.
      destruct (nd_children nd !! nm), (find_child nm es); try done; by split.
  - apply cpio_implements_read_dir.
  - intros [fs' cx] n t [Hs Ht]. cbn [fst] in Hs. apply (implements_here _ _ _ (cpio_metadata fs' n)); [reflexivity|].
    rewrite Hs. unfold cpio_metadata, node. destruct Ht as [i nd t c Hn Hk Hc Hb|i nd es Hn Hk HF]; rewrite Hn;
      cbn [ok_or bindR]; rewrite Hk; (eexists; split; [reflexivity|]); (split; [done|]); [|by intros c'].
    intros c' Hc'. cbn [md_size]. rewrite bool_decide_eq_false_2 by (by destruct t).
    destruct Hc as [Hc| ->]; [|done]. assert (c' = c) as -> by congruence.
    destruct (bytes_Ok fs nd i wf Hn) as (b&_&Hb2&Hz&_). rewrite Hb in Hb2. injection Hb2 as ->. by rewrite Hz.
  - intros [fs' cx] n target [Hs Ht]. cbn [fst] in Hs. apply (implements_here _ _ _ (cpio_read_link fs' n)); [reflexivity|].
    rewrite Hs. unfold cpio_read_link, node. inversion Ht as [i nd t c Hn Hk Hc Hb|]; subst i t. rewrite Hn. cbn [ok_or bindR].
    rewrite Hk. cbn [tree_kind]. rewrite bool_decide_eq_true_2 by done. cbn [negb]. rewrite Hb. cbn [bindR].
    destruct Hc as [Hc|Hc]; [done|]. injection Hc as ->. by eexists.
  - intros [fs' cx] n t c off buf [Hs Ht] Hc _ Ho Hb. cbn [fst] in Hs. subst fs'.
    assert (exists nd, get (cp_nodes fs) n = Some nd /\ nd_kind nd <> Directory /\ bytes fs (nd_data nd) = Ok c) as (nd&Hn&Hk&Hby).
    { destruct Ht as [i nd t c' Hn Hk Hc' Hby|]; [|done]. exists nd. rewrite Hk. split; [done|]. split; [by destruct t|].
      destruct Hc' as [Hc'| ->]; [|done]. by assert (c' = c) as -> by congruence. }
    destruct (cpio_read_at_serves fs cx n nd c Hn Hk Hby off buf (fs, cx) eq_refl Ho Hb) as (k&b&s'&E&->&Hp).
    apply (implements_here _ _ _ (Ok (k, b))); [exact E|]. by exists (k, b).
Qed.
End Refines.

(** ** What the records of an image say *)

Definition entry_tree (kind : FileKind) (d : list byte) : Tree :=
  match kind with Regular => TFile d | Directory => TDir [] | Symlink => TLink d | Other => TOther d end.

(** The child of a name replaced, or put at its place in the order of names. *)
Fixpoint set_child (nm : name) (f : option Tree -> Tree) (es : list (name * Tree)) : list (name * Tree) :=
  match es with
  | [] => [(nm, f None)]
  | (x, t) :: es' =>
      if decide (x = nm) then (x, f (Some t)) :: es'
      else if name_leb nm x then (nm, f None) :: es else (x, t) :: set_child nm f es'
  end.

(** One record.  Directories on the way are made; nothing goes below what is not
    one; a record takes its path's place, but a directory leaves what is there. *)
Fixpoint tree_put (kind : FileKind) (d : list byte) (comps : list name) (t : option Tree) : Tree :=
  match comps with
  | [] => match t with
          | Some old => if decide (kind = Directory) then old else entry_tree kind d
          | None => entry_tree kind d
          end
  | c :: cs => match default (TDir []) t with
               | TDir es => TDir (set_child c (tree_put kind d cs) es)
               | leaf => leaf
               end
  end.

Definition record_tree (es : list NewcEntry) (t : Tree) (e : NewcEntry) : Tree :=
  match components (ne_name e) with
  | [] => t
  | comps => tree_put (file_kind (ne_mode e)) (link_data es e) comps (Some t)
  end.

(** One archive, with zeros behind its trailer. *)
Record Arch : Type := mkArch { ar_crc : bool; ar_entries : list NewcEntry; ar_pad : Z }.
Definition arch_bytes (a : Arch) : list byte := newc_archive (ar_crc a) (ar_entries a) ++ zeros (ar_pad a).
Definition arch_tree (t : Tree) (a : Arch) : Tree := foldl (record_tree (ar_entries a)) t (ar_entries a).

(** A member of an image: an archive, or a run of archives compressed to [z]. *)
Inductive Member : Type := Plain (a : Arch) | Packed (z : list byte) (pad : Z) (l : list Arch).
Definition member_bytes (x : Member) : list byte :=
  match x with Plain a => arch_bytes a | Packed z pad _ => z ++ zeros pad end.
Definition member_archs (x : Member) : list Arch := match x with Plain a => [a] | Packed _ _ l => l end.
Definition image_bytes (ms : list Member) : list byte := concat (member_bytes <$> ms).
Definition run_bytes (l : list Arch) : list byte := image_bytes (Plain <$> l).

(** The tree of all records, in the order of the image. *)
Definition image_tree (ms : list Member) : Tree := foldl arch_tree (TDir []) (ms ≫= member_archs).

Definition arch_ok (a : Arch) : Prop :=
  Forall newc_ok (ar_entries a) /\ Forall entry_name_ok (ar_entries a) /\ 0 <= ar_pad a.

(** From [pos] on, archives begin at multiples of four. *)
Fixpoint run_ok (pos : Z) (l : list Arch) : Prop :=
  match l with
  | [] => True
  | a :: l' => pos mod 4 = 0 /\ arch_ok a /\ run_ok (pos + zlen (arch_bytes a)) l'
  end.

(** From [pos] on, with room for [budget] unpacked bytes: a compressed run is
    recognised and unpacks. *)
Fixpoint image_ok `{Decoders} (pos budget : Z) (ms : list Member) : Prop :=
  match ms with
  | [] => True
  | Plain a :: ms' => pos mod 4 = 0 /\ arch_ok a /\ image_ok (pos + zlen (arch_bytes a)) budget ms'
  | Packed z pad l :: ms' =>
      0 <= pad /\
      (exists codec, sniff (image_bytes ms) = Some codec /\
         decode_stream codec (image_bytes ms) budget = Ok (run_bytes l, zlen z)) /\
      run_ok 0 l /\
      image_ok (pos + zlen z + pad) (budget - zlen (run_bytes l)) ms'
  end.

(** ** Lemmas: the same, path by path *)

(** What is at every path: a node's kind and data. *)
Definition Paths : Type := list name -> option (FileKind * list byte).

Definition put (m : Paths) (comps : list name) (kind : FileKind) (d : list byte) : Paths := fun q =>
  if decide (comps = []) then m q
  else if decide (q = comps) then
    Some (match m q with Some old => if decide (kind = Directory) then old else (kind, d) | None => (kind, d) end)
  else if decide (q `prefix_of` comps) then Some (default (Directory, []) (m q))
  else m q.

(** A parent is there before its children. *)
Definition closed (m : Paths) : Prop := forall q r, m q = None -> m (q ++ r) = None.

Definition name_lt (a b : name) : Prop := name_leb a b = true /\ a <> b.

(** The tree at a path: a directory's entries are the paths one name longer, in
    the order of names. *)
Inductive paths_tree (m : Paths) : list name -> Tree -> Prop :=
| Paths_leaf q t c : m q = Some (tree_kind t, c) -> content_of t = Some c \/ t = TLink c -> paths_tree m q t
| Paths_dir q d es : m q = Some (Directory, d) -> StronglySorted name_lt es.*1 ->
    (forall nm, is_Some (m (q ++ [nm])) <-> nm ∈ es.*1) ->
    Forall (fun e => paths_tree m (q ++ [e.1]) e.2) es -> paths_tree m q (TDir es).

Lemma paths_tree_ext m m' : forall q t, (forall r, m (q ++ r) = m' (q ++ r)) -> paths_tree m q t -> paths_tree m' q t.
Proof.
  fix IH 4. intros q t Hm Ht. pose proof (Hm []) as Hq. rewrite app_nil_r in Hq.
  destruct Ht as [q t c Hc Ho|q d es Hd Hs Hk HF].
  - apply (Paths_leaf _ _ _ c); [by rewrite <- Hq|done].
  - apply (Paths_dir _ _ d); [by rewrite <- Hq|done|intros nm; by rewrite <- Hm|].
    clear Hs Hk Hd Hq. revert HF. generalize es. fix IHF 2. intros es' [|[nm t] es1 Ht HF]; [constructor|].
    constructor; [|by apply IHF]. apply IH; [|exact Ht]. intros r. cbn. by rewrite <- !app_assoc.
Qed.

(** *** The order of names *)

Lemma name_leb_refl a : name_leb a a = true.
Proof. induction a as [|x a IH]; [done|]. cbn. by rewrite Z.eqb_refl, IH, orb_true_r. Qed.

Lemma name_leb_total a : forall b, name_leb a b = true \/ name_leb b a = true.
Proof.
  induction a as [|x a IH]; intros [|y b]; cbn; auto. destruct (Z.lt_trichotomy (u8 x) (u8 y)) as [?|[E|?]].
  - left. by rewrite (proj2 (Z.ltb_lt _ _)).
  - rewrite E, Z.ltb_irrefl, Z.eqb_refl. cbn. apply IH.
  - right. by rewrite (proj2 (Z.ltb_lt _ _)).
Qed.

Lemma name_leb_cons x a y b : name_leb (x :: a) (y :: b) = true <-> u8 x < u8 y \/ x = y /\ name_leb a b = true.
Proof.
  cbn. rewrite orb_true_iff, andb_true_iff, Z.ltb_lt, Z.eqb_eq. split; intros [?|[E ?]]; auto; right; split; try done.
  - by apply u8_inj.
  - by subst.
Qed.

Lemma name_leb_trans a : forall b c, name_leb a b = true -> name_leb b c = true -> name_leb a c = true.
Proof.
  induction a as [|x a IH]; intros [|y b] [|z c] Hab Hbc; try done.
  apply name_leb_cons in Hab, Hbc. apply name_leb_cons. destruct Hab as [?|[-> ?]], Hbc as [?|[-> ?]]; eauto with lia.
Qed.

Lemma name_leb_antisym a : forall b, name_leb a b = true -> name_leb b a = true -> a = b.
Proof.
  induction a as [|x a IH]; intros [|y b] Hab Hba; try done.
  apply name_leb_cons in Hab, Hba. destruct Hab as [?|[-> ?]], Hba as [?|[? ?]]; simplify_eq; try lia. f_equal. by apply IH.
Qed.

#[local] Instance name_lt_strict : StrictOrder name_lt.
Proof.
  split; [by intros a [_ ?]|]. intros a b c [Hab Hne] [Hbc _]. split; [by eapply name_leb_trans|].
  intros ->. by apply Hne, name_leb_antisym.
Qed.

Lemma name_lt_or a b : a <> b -> name_leb a b = false -> name_lt b a.
Proof. intros Hne Hf. destruct (name_leb_total a b) as [?|?]; [congruence|]. by split. Qed.

(** *** Children *)

Lemma set_child_names nm f es x : x ∈ (set_child nm f es).*1 <-> x = nm \/ x ∈ es.*1.
Proof.
  induction es as [|[y t] es IH]; [cbn; set_solver|]. cbn [set_child].
  destruct (decide (y = nm)) as [->|]; [cbn; set_solver|]. destruct (name_leb nm y); cbn; set_solver.
Qed.

Lemma StronglySorted_cons_inv {A} (R : relation A) x l : StronglySorted R (x :: l) -> StronglySorted R l /\ Forall (R x) l.
Proof. by inversion 1. Qed.

Lemma set_child_sorted nm f es : StronglySorted name_lt es.*1 -> StronglySorted name_lt (set_child nm f es).*1.
Proof.
  induction es as [|[y t] es IH]; intros Hs; cbn [set_child]; [by repeat constructor|].
  destruct (decide (y = nm)) as [->|Hne]; [done|]. cbn in Hs. apply StronglySorted_cons_inv in Hs as [Hs Hy].
  destruct (name_leb nm y) eqn:El.
  - assert (name_lt nm y) by by split. cbn. constructor; [by constructor|]. constructor; [done|].
    eapply Forall_impl; [exact Hy|]. intros z Hz. by trans y.
  - cbn. constructor; [by apply IH|]. apply list.Forall_forall. intros x [->|Hx]%set_child_names.
    + by apply name_lt_or.
    + by apply (proj1 (list.Forall_forall _ _) Hy).
Qed.

Lemma set_child_Forall (Q : name * Tree -> Prop) nm f es : StronglySorted name_lt es.*1 ->
  (forall x t, (x, t) ∈ es -> x <> nm -> Q (x, t)) ->
  (forall t, (nm, t) ∈ es -> Q (nm, f (Some t))) -> (nm ∉ es.*1 -> Q (nm, f None)) ->
  Forall Q (set_child nm f es).
Proof.
  induction es as [|[y t] es IH]; intros Hs Hother Hat Hno; cbn [set_child].
  { constructor; [|constructor]. apply Hno. cbn. set_solver. }
  cbn in Hs. apply StronglySorted_cons_inv in Hs as [Hs Hy].
  assert (Hgt : forall x s, (x, s) ∈ es -> name_lt y x).
  { intros x s Hx. apply (proj1 (list.Forall_forall _ _) Hy). apply list_elem_of_fmap. by exists (x, s). }
  destruct (decide (y = nm)) as [->|Hne].
  { constructor; [apply Hat; set_solver|]. apply list.Forall_forall. intros [x s] Hx. apply Hother; [set_solver|].
    intros ->. by apply (irreflexivity name_lt nm), (Hgt nm s). }
  destruct (name_leb nm y) eqn:El.
  - assert (Hlt : name_lt nm y) by by split.
    assert (Hnm : nm ∉ ((y, t) :: es).*1).
    { cbn. intros [?|([x s]&E&Hx)%list_elem_of_fmap]%elem_of_cons; [done|]. cbn in E. subst x.
      apply (irreflexivity name_lt nm). trans y; [done|by eapply Hgt]. }
    constructor; [by apply Hno|]. apply list.Forall_forall. intros [x s] Hx. apply Hother; [done|].
    intros ->. apply Hnm, list_elem_of_fmap. by exists (nm, s).
  - constructor; [apply Hother; set_solver|]. apply IH; [done| | |].
    + intros x s Hx. apply Hother. set_solver.
    + intros s Hx. apply Hat. set_solver.
    + intros Hx. apply Hno. cbn. set_solver.
Qed.

(** *** A record in the tree and in the paths *)

Lemma put_above m p kind d q r : q ++ r = p -> r <> [] -> put m p kind d q = Some (default (Directory, []) (m q)).
Proof.
  intros <- Hr. unfold put. rewrite decide_False by (by intros [_ ?]%app_eq_nil).
  rewrite decide_False by (by rewrite <- (app_nil_r q) at 1; intros <-%(inj (app q))).
  rewrite decide_True; [done|]. by exists r.
Qed.

Lemma put_off m p kind d q : ~ q `prefix_of` p -> put m p kind d q = m q.
Proof.
  intros Hq. unfold put. destruct (decide (p = [])); [done|]. rewrite decide_False by (by intros ->; apply Hq).
  by rewrite decide_False.
Qed.

Lemma put_at m p kind d : p <> [] -> put m p kind d p =
  Some (match m p with Some old => if decide (kind = Directory) then old else (kind, d) | None => (kind, d) end).
Proof. intros Hp. unfold put. by rewrite decide_False, decide_True. Qed.

Lemma not_prefix_longer {A} (p q : list A) x r : ~ (p ++ q) ++ x :: r `prefix_of` p.
Proof. intros [k Hk]. apply (f_equal length) in Hk. rewrite !length_app in Hk. cbn in Hk. lia. Qed.

Lemma not_prefix_branch {A} (q : list A) c x cs r : x <> c -> ~ (q ++ [x]) ++ r `prefix_of` q ++ c :: cs.
Proof. intros Hne [k Hk]. rewrite <- !app_assoc in Hk. apply (inj (app q)) in Hk. by injection Hk. Qed.

Lemma paths_tree_leaf m q kind d : m q = Some (kind, d) ->
  (kind = Directory -> forall nm, m (q ++ [nm]) = None) -> paths_tree m q (entry_tree kind d).
Proof.
  intros Hq Hn. destruct kind; [by eapply Paths_leaf; [exact Hq|left]| |by eapply Paths_leaf; [exact Hq|right]
    |by eapply Paths_leaf; [exact Hq|left]].
  apply (Paths_dir _ _ d); [done|constructor| |constructor]. intros nm. rewrite Hn by done. cbn. set_solver.
Qed.

Lemma put_closed m p kind d : closed m -> closed (put m p kind d).
Proof.
  intros Hc q r. unfold put. destruct (decide (p = [])) as [|Hp]; [apply Hc|].
  destruct (decide (q = p)); [done|]. destruct (decide (q `prefix_of` p)) as [|Hq]; [done|]. intros Hm.
  assert (~ q ++ r `prefix_of` p) by (intros [k ->]; apply Hq; exists (r ++ k); by rewrite app_assoc).
  rewrite decide_False by (by intros <-). rewrite decide_False by done. by apply Hc.
Qed.

(** A directory under which a record goes in. *)
Lemma paths_tree_child m q d es kind dat c cs : closed m -> StronglySorted name_lt es.*1 ->
  put m (q ++ c :: cs) kind dat q = Some (Directory, d) ->
  (forall nm, is_Some (m (q ++ [nm])) <-> nm ∈ es.*1) -> Forall (fun e => paths_tree m (q ++ [e.1]) e.2) es ->
  (forall t, match t with Some t => paths_tree m (q ++ [c]) t | None => m (q ++ [c]) = None end ->
     paths_tree (put m (q ++ c :: cs) kind dat) (q ++ [c]) (tree_put kind dat cs t)) ->
  paths_tree (put m (q ++ c :: cs) kind dat) q (TDir (set_child c (tree_put kind dat cs) es)).
Proof.
  intros Hcl Hs Hq Hk HF IH. rewrite list.Forall_forall in HF.
  apply (Paths_dir _ _ d); [done|by apply set_child_sorted| |].
  - intros nm. rewrite set_child_names, <- Hk. destruct (decide (nm = c)) as [->|Hne].
    + assert (E : (q ++ [c]) ++ cs = q ++ c :: cs) by by rewrite <- app_assoc.
      split; [by left|]. intros _. destruct cs as [|c' cs].
      * rewrite put_at by (by destruct q). eauto.
      * rewrite (put_above _ _ _ _ _ (c' :: cs)) by done. eauto.
    + rewrite put_off; [naive_solver|]. rewrite <- (app_nil_r (q ++ [nm])). by apply not_prefix_branch.
  - apply set_child_Forall; [done| | |].
    + intros x t Hx Hne. eapply paths_tree_ext; [|by apply (HF (x, t))]. intros r. cbn.
      symmetry. apply put_off. by apply not_prefix_branch.
    + intros t Ht. apply (IH (Some t)). by apply (HF (c, t)).
    + intros Hno. apply (IH None). apply eq_None_not_Some. by rewrite Hk.
Qed.

Lemma paths_tree_put m kind d : closed m -> forall cs q t, q ++ cs <> [] ->
  match t with Some t => paths_tree m q t | None => m q = None end ->
  paths_tree (put m (q ++ cs) kind d) q (tree_put kind d cs t).
Proof.
  intros Hcl. induction cs as [|c cs IH]; intros q t Hne Ht; cbn [tree_put].
  - rewrite app_nil_r in *.
    assert (Hleaf : put m q kind d q = Some (kind, d) -> (kind = Directory -> m q = None) ->
      paths_tree (put m q kind d) q (entry_tree kind d)).
    { intros Hq Hk. apply (paths_tree_leaf _ _ _ d); [done|]. intros Hd nm. rewrite put_off; [by apply Hcl, Hk|].
      rewrite <- (app_nil_r q) at 1. apply not_prefix_longer. }
    destruct t as [t|].
    + destruct (decide (kind = Directory)) as [Hk|Hk].
      * eapply paths_tree_ext; [|exact Ht]. intros [|x r].
        -- rewrite app_nil_r, put_at by done. inversion Ht as [? ? ? E|? ? ? E]; subst; rewrite E; by rewrite decide_True.
        -- rewrite put_off; [done|]. rewrite <- (app_nil_r q) at 1. apply not_prefix_longer.
      * apply Hleaf; [|done]. rewrite put_at by done. destruct (m q); [by rewrite decide_False|done].
    + apply Hleaf; [|done]. by rewrite put_at, Ht.
  - assert (Hq := put_above m (q ++ c :: cs) kind d q (c :: cs) eq_refl ltac:(done)).
    assert (Hrec : forall t, match t with Some t => paths_tree m (q ++ [c]) t | None => m (q ++ [c]) = None end ->
      paths_tree (put m (q ++ c :: cs) kind d) (q ++ [c]) (tree_put kind d cs t)).
    { intros t' Ht'. specialize (IH (q ++ [c]) t'). rewrite <- app_assoc in IH. by apply IH. }
    destruct t as [t|]; cbn [default].
    + destruct Ht as [q t c' Hm Ho|q d' es Hm Hs Hk HF].
      * assert (exists leaf, t = leaf /\ match t with TDir _ => False | _ => True end) as (_&_&Hl) by
          (exists t; split; [done|]; destruct Ho as [Ho| ->]; [by destruct t|done]).
        rewrite Hm in Hq. assert (paths_tree (put m (q ++ c :: cs) kind d) q t) by (by eapply Paths_leaf).
        by destruct t.
      * rewrite Hm in Hq. by eapply paths_tree_child.
    + rewrite Ht in Hq. eapply paths_tree_child; [done|constructor|exact Hq| |constructor|done].
      intros nm. rewrite (Hcl q [nm] Ht). cbn. set_solver.
Qed.

(** ** Lemmas: a record in the nodes and in the paths *)

Section Insert.
Context (bufs : list (list byte)).

Definition span_bytes (sp : Span) : option (list byte) :=
  b ← get bufs (sp_buf sp); Some (sub b (sp_off sp) (sp_len sp)).

(** The paths of a table of nodes. *)
Definition node_paths (nodes : list Node) : Paths := fun q =>
  i ← walk nodes 0 q; n ← get nodes i; d ← span_bytes (nd_data n); Some (nd_kind n, d).

(** Every node has a path. *)
Definition reachable (nodes : list Node) : Prop :=
  forall i, 0 <= i < zlen nodes -> exists p, walk nodes 0 p = Some i.

(** The nodes [insert_comps] adds are on the path. *)
Lemma insert_comps_new kind mode data :
  span_ok bufs data -> span_ok bufs Span_default ->
  forall comps nodes cur n nodes', tree_wf bufs nodes -> get nodes cur = Some n ->
  insert_comps kind mode data nodes cur comps = Ok nodes' ->
  zlen nodes <= zlen nodes' /\
  forall i, zlen nodes <= i < zlen nodes' -> exists p x, p `prefix_of` comps /\ p <> [] /\
    walk nodes' cur p = Some i /\ get nodes' i = Some x /\ (p <> comps -> content x = (Directory, 493, Span_default)).
Proof.
  intros Hsp Hdef. induction comps as [|c cs IH]; intros nodes cur n nodes' Hwf Hn Hi.
  { injection Hi as <-. split; [lia|]. intros i Hi. lia. }
  pose proof (get_lt _ _ _ Hn) as Hlt. cbn [insert_comps] in Hi. rewrite (proj2 (at_Ok _ _ _) Hn) in Hi. cbn [bindR] in Hi.
  (* the step into the child at [c], once [c] is there *)
  assert (Hstep : forall nodes1 n1 ch, tree_wf bufs nodes1 -> get nodes1 cur = Some n1 -> nd_children n1 !! c = Some ch ->
    insert_comps kind mode data nodes1 ch cs = Ok nodes' -> zlen nodes1 <= zlen nodes' /\
    forall i, zlen nodes1 <= i < zlen nodes' -> exists p x, p `prefix_of` c :: cs /\ p <> [] /\
      walk nodes' cur p = Some i /\ get nodes' i = Some x /\ (p <> c :: cs -> content x = (Directory, 493, Span_default))).
  { intros nodes1 n1 ch Hwf1 Hn1 Hc Hi1. pose proof (tw_child _ _ Hwf1 _ _ _ _ Hn1 Hc).
    destruct (proj2 (get_is_Some nodes1 ch)) as [nc Hnc]; [pose proof (get_lt _ _ _ Hn1); lia|].
    destruct (IH nodes1 ch nc nodes' Hwf1 Hnc Hi1) as [Hle Hnew]. split; [done|]. intros i Hr.
    destruct (Hnew i Hr) as (p&x&Hp&Hne&Hw&Hx&Hd). exists (c :: p), x. split; [by apply prefix_cons|]. split; [done|].
    destruct (insert_comps_spec bufs kind mode data Hsp Hdef cs nodes1 ch nc Hwf1 Hnc) as (n2&t&E&_&_&Hk&_).
    rewrite Hi1 in E. injection E as <-. destruct (Hk _ _ Hn1) as (n1'&Hn1'&Hsub&_).
    split; [by rewrite (walk_cons _ cur n1' c p ch) by (done || by eapply lookup_weaken)|]. split; [done|].
    intros Hpc. apply Hd. congruence. }
  destruct (nd_children n !! c) as [ch|] eqn:Ec.
  - destruct (decide (cs = [])) as [->|Hcs].
    + rewrite bool_decide_eq_true_2 in Hi by done. cbn [andb insert_comps] in Hi. rewrite bindR_ret in Hi.
      assert (zlen nodes' = zlen nodes) as ->; [|split; [lia|intros i Hr; lia]].
      destruct (negb _); [|by injection Hi as <-]. unfold upd in Hi. apply bindR_Ok in Hi as (x&_&[= <-]). apply zlen_insert.
    + rewrite (bool_decide_eq_false_2 (cs = [])) in Hi by done. cbn [andb bindR] in Hi. by apply (Hstep nodes n ch).
  - rewrite (upd_eq _ _ _ n) in Hi by by apply get_app_Some. cbn [bindR] in Hi.
    set (new := if bool_decide (cs = []) then _ else _) in *. set (nodes1 := <[_ := _]> _) in *.
    assert (Hid : get nodes1 (zlen nodes) = Some new).
    { unfold nodes1. rewrite get_insert_ne by lia. apply get_snoc. by right. }
    assert (Hz1 : zlen nodes1 = zlen nodes + 1) by (unfold nodes1; rewrite zlen_insert, zlen_app, zlen_cons, zlen_nil; lia).
    assert (Hwf1 : tree_wf bufs nodes1).
    { unfold nodes1, new. destruct (bool_decide (cs = [])); by apply tree_wf_fresh. }
    assert (Hn1 : exists n1, get nodes1 cur = Some n1 /\ nd_children n1 !! c = Some (zlen nodes)).
    { eexists. split; [by apply (get_insert_eq _ _ n), get_app_Some|]. apply lookup_insert_eq. }
    destruct Hn1 as (n1&Hn1&Hc1). destruct (Hstep nodes1 n1 (zlen nodes) Hwf1 Hn1 Hc1 Hi) as [Hle Hnew].
    split; [lia|]. intros i Hr. destruct (decide (i = zlen nodes)) as [->|Hne]; [|apply Hnew; lia].
    destruct (insert_comps_spec bufs kind mode data Hsp Hdef cs nodes1 (zlen nodes) new Hwf1 Hid)
      as (n2&t&E&Hwf2&Hw&Hk&_). rewrite Hi in E. injection E as <-.
    destruct (Hk _ _ Hid) as (x&Hx&_&Hcx). destruct (Hk _ _ Hn1) as (n1'&Hn1'&Hsub&_).
    exists [c], x. split; [by apply prefix_cons, prefix_nil|]. split; [done|].
    split; [by rewrite (walk_cons _ cur n1' c [] (zlen nodes)) by (done || by eapply lookup_weaken)|]. split; [done|].
    intros Hcs. assert (cs <> []) as Hcs' by (by intros ->). rewrite Hcx.
    + unfold new. by rewrite bool_decide_eq_false_2.
    + left. pose proof (walk_ge _ _ Hwf2 _ _ _ Hw Hcs'). lia.
Qed.

Lemma span_bytes_ok sp : span_ok bufs sp -> is_Some (span_bytes sp).
Proof. intros (b&Hb&_). unfold span_bytes. rewrite Hb. by eexists. Qed.

Lemma span_bytes_default : span_ok bufs Span_default -> span_bytes Span_default = Some [].
Proof. intros (b&Hb&_). unfold span_bytes. cbn [sp_buf Span_default] in *. rewrite Hb. cbn. by rewrite sub_nil. Qed.

Lemma walk_prefix nodes : forall p cur q t, walk nodes cur (p ++ q) = Some t -> exists i, walk nodes cur p = Some i.
Proof.
  induction p as [|c p IH]; intros cur q t; simpl; [by exists cur|].
  destruct (get nodes cur) as [n|]; simpl; [|done]. destruct (nd_children n !! c); simpl; [|done]. apply IH.
Qed.

Lemma walk_node nodes q i : tree_wf bufs nodes -> walk nodes 0 q = Some i -> exists n, get nodes i = Some n.
Proof.
  intros Hwf Hw. destruct q as [|c q _] using rev_ind.
  - injection Hw as <-. destruct (tw_root _ _ Hwf) as (n&?&_). by exists n.
  - apply walk_snoc in Hw as (p&n&_&Hn&Hc). pose proof (tw_child _ _ Hwf _ _ _ _ Hn Hc). pose proof (get_lt _ _ _ Hn).
    destruct (proj2 (get_is_Some nodes i)) as [x Hx]; [lia|by exists x].
Qed.

Lemma node_paths_at nodes q i n d : walk nodes 0 q = Some i -> get nodes i = Some n -> span_bytes (nd_data n) = Some d ->
  node_paths nodes q = Some (nd_kind n, d).
Proof. intros Hw Hn Hd. unfold node_paths. rewrite Hw. cbn. rewrite Hn. cbn. by rewrite Hd. Qed.

Lemma node_paths_None nodes q : tree_wf bufs nodes -> node_paths nodes q = None <-> walk nodes 0 q = None.
Proof.
  intros Hwf. unfold node_paths. destruct (walk nodes 0 q) as [i|] eqn:Ew; [|done]. split; [|done].
  destruct (walk_node nodes q i Hwf Ew) as [n Hn]. cbn. rewrite Hn. cbn.
  destruct (span_bytes_ok (nd_data n) (tw_span _ _ Hwf _ _ Hn)) as [d ->]. done.
Qed.

(** A path that was there keeps its kind and bytes, unless it is the record's and not a directory's. *)
Lemma old_paths nodes nodes' kind comps t q i : tree_wf bufs nodes -> tree_wf bufs nodes' ->
  Cpio.keeps nodes nodes' (fun i => i <> t \/ comps = [] \/ kind = Directory) -> walk nodes' 0 comps = Some t ->
  walk nodes 0 q = Some i -> q <> comps \/ kind = Directory -> node_paths nodes' q = node_paths nodes q.
Proof.
  intros Hwf Hwf' Hk Hw Hq Hc. destruct (walk_node nodes q i Hwf Hq) as [n Hn].
  pose proof (keeps_walk _ _ _ q Hk 0 i Hq) as Hq'.
  destruct (Hk i n Hn) as (m&Hm&_&Hmc). assert (content m = content n) as Hcm.
  { apply Hmc. destruct Hc as [Hc|?]; [left|by right; right]. intros ->.
    by apply Hc, (walk_inj bufs nodes' Hwf' q comps t). }
  unfold node_paths. rewrite Hq, Hq'. cbn. rewrite Hn, Hm. cbn. unfold content in Hcm. injection Hcm as -> _ ->. done.
Qed.

(** A path that was not there leads to a node made on the way to the record. *)
Lemma new_paths nodes nodes' comps P q i : tree_wf bufs nodes' -> reachable nodes -> Cpio.keeps nodes nodes' P ->
  (forall i, zlen nodes <= i < zlen nodes' -> exists p x, p `prefix_of` comps /\ p <> [] /\
    walk nodes' 0 p = Some i /\ get nodes' i = Some x /\ (p <> comps -> content x = (Directory, 493, Span_default))) ->
  walk nodes 0 q = None -> walk nodes' 0 q = Some i -> q `prefix_of` comps /\
  exists x, get nodes' i = Some x /\ (q <> comps -> content x = (Directory, 493, Span_default)).
Proof.
  intros Hwf' Hreach Hk Hnew Hq Hq'. destruct (walk_node nodes' q i Hwf' Hq') as [x Hx]. pose proof (get_lt _ _ _ Hx).
  destruct (decide (i < zlen nodes)) as [Hlt|Hge].
  - destruct (Hreach i) as [p Hp]; [lia|]. pose proof (keeps_walk _ _ _ p Hk 0 i Hp) as Hp'.
    rewrite (walk_inj bufs nodes' Hwf' q p i Hq' Hp') in Hq. congruence.
  - destruct (Hnew i) as (p&y&Hp&_&Hp'&Hy&Hcy); [lia|]. rewrite (walk_inj bufs nodes' Hwf' q p i Hq' Hp') in *.
    split; [done|]. by exists y.
Qed.

(** Inserting a record does to the paths what [put] says. *)
Lemma insert_paths nodes path kind mode data d nodes' :
  span_ok bufs data -> span_ok bufs Span_default -> tree_wf bufs nodes -> reachable nodes ->
  span_bytes data = Some d -> insert nodes path kind mode data = Ok nodes' ->
  tree_wf bufs nodes' /\ reachable nodes' /\
  forall q, node_paths nodes' q = put (node_paths nodes) (components path) kind d q.
Proof.
  intros Hsp Hdef Hwf Hreach Hd Hi. set (comps := components path).
  destruct (insert_spec bufs kind mode data nodes path Hsp Hdef Hwf) as (n2&t&E&Hwf'&Hw&Hk&Ht).
  rewrite Hi in E. injection E as <-. fold comps in Hw, Hk, Ht. unfold insert in Hi. fold comps in Hi.
  destruct (tw_root _ _ Hwf) as (r&Hr&_).
  destruct (insert_comps_new kind mode data Hsp Hdef comps nodes 0 r nodes' Hwf Hr Hi) as [Hle Hnew].
  split; [done|]. split.
  { intros i Hir. destruct (decide (i < zlen nodes)) as [Hlt|Hge].
    - destruct (Hreach i) as [p Hp]; [lia|]. exists p. by eapply keeps_walk.
    - destruct (Hnew i) as (p&_&_&_&Hp&_); [lia|]. by exists p. }
  intros q. unfold put. destruct (decide (comps = [])) as [Hnil|Hne].
  { rewrite Hnil in Hi. by injection Hi as <-. }
  destruct (Ht Hne) as (nt&Hnt&Hct).
  assert (Hold : forall i, walk nodes 0 q = Some i -> q <> comps \/ kind = Directory ->
    node_paths nodes' q = node_paths nodes q).
  { intros i. eapply old_paths; [exact Hwf|exact Hwf'|exact Hk|exact Hw]. }
  pose proof (fun i => new_paths nodes nodes' comps _ q i Hwf' Hreach Hk Hnew) as Hnewq.
  assert (Hrec : forall n, content n = (kind, mode, data) -> span_bytes (nd_data n) = Some d /\ nd_kind n = kind).
  { intros n. unfold content. by intros [= -> _ ->]. }
  destruct (decide (q = comps)) as [->|Hqc]; [|destruct (decide (q `prefix_of` comps)) as [Hpre|Hpre]].
  - destruct (walk nodes 0 comps) as [i|] eqn:Eq.
    + pose proof (keeps_walk _ _ _ comps Hk 0 i Eq) as Hq'. assert (i = t) as -> by congruence.
      destruct (walk_node nodes comps t Hwf Eq) as [n Hn]. destruct (span_bytes_ok _ (tw_span _ _ Hwf _ _ Hn)) as [dn Hdn].
      pose proof (node_paths_at _ _ _ _ _ Eq Hn Hdn) as Hm. rewrite Hm.
      destruct (decide (kind = Directory)) as [Hkd|Hkd]; [by rewrite (Hold t) by auto|].
      destruct (Hrec nt) as [Hdt <-]; [apply Hct; by left|]. by apply (node_paths_at nodes' comps t).
    + apply (node_paths_None nodes comps Hwf) in Eq as Hm. rewrite Hm.
      destruct (Hrec nt) as [Hdt <-]; [apply Hct; by right|]. by apply (node_paths_at nodes' comps t).
  - destruct (walk nodes 0 q) as [i|] eqn:Eq.
    + rewrite (Hold i) by auto. destruct (node_paths nodes q) eqn:Em; [done|].
      apply (node_paths_None nodes q Hwf) in Em. congruence.
    + apply (node_paths_None nodes q Hwf) in Eq as Hm. rewrite Hm. cbn [default]. destruct Hpre as [rest Hrest].
      rewrite Hrest in Hw. destruct (walk_prefix nodes' q 0 rest t Hw) as [i Hi'].
      destruct (Hnewq i eq_refl Hi') as (_&x&Hx&Hcx). specialize (Hcx Hqc). unfold content in Hcx. injection Hcx as Hk1 _ Hd1.
      rewrite (node_paths_at nodes' q i x []); [by rewrite Hk1|done|done|]. rewrite Hd1. by apply span_bytes_default.
  - destruct (walk nodes 0 q) as [i|] eqn:Eq; [by apply (Hold i); auto|].
    apply (node_paths_None nodes q Hwf) in Eq as Hm. rewrite Hm. apply node_paths_None; [done|].
    destruct (walk nodes' 0 q) as [i|] eqn:Eq'; [|done]. destruct (Hnewq i eq_refl eq_refl) as [? _]. done.
Qed.

(** The nodes hold a tree of records. *)
Record holds (nodes : list Node) (t : Tree) : Prop := mkHolds {
  ho_wf : tree_wf bufs nodes;
  ho_reach : reachable nodes;
  ho_dir : tree_kind t = Directory;
  ho_tree : paths_tree (node_paths nodes) [] t;
}.

Lemma node_paths_closed nodes : tree_wf bufs nodes -> closed (node_paths nodes).
Proof.
  intros Hwf q r Hq. apply node_paths_None in Hq; [|done]. apply node_paths_None; [done|].
  destruct (walk nodes 0 (q ++ r)) as [t|] eqn:E; [|done]. apply walk_prefix in E as [i Hi]. congruence.
Qed.

Lemma insert_holds nodes path kind mode data d t : span_ok bufs data -> span_ok bufs Span_default ->
  span_bytes data = Some d -> holds nodes t ->
  exists nodes', insert nodes path kind mode data = Ok nodes' /\
    holds nodes' (match components path with [] => t | comps => tree_put kind d comps (Some t) end).
Proof.
  intros Hsp Hdef Hd [Hwf Hreach Hdir Ht]. destruct (insert_Ok bufs kind mode data nodes path Hsp Hdef Hwf) as (nodes'&Hi&_).
  destruct (insert_paths nodes path kind mode data d nodes' Hsp Hdef Hwf Hreach Hd Hi) as (Hwf'&Hreach'&Hp).
  exists nodes'. split; [done|]. constructor; [done|done| |].
  - destruct (components path); [done|]. cbn [tree_put default]. by destruct t.
  - eapply (paths_tree_ext (put (node_paths nodes) (components path) kind d)); [intros r; by rewrite Hp|].
    destruct (components path) as [|c cs] eqn:E.
    + eapply paths_tree_ext; [|exact Ht]. intros r. unfold put. by rewrite decide_True.
    + apply (paths_tree_put _ _ _ (node_paths_closed _ Hwf) (c :: cs) [] (Some t)); done.
Qed.

(** The records of an archive, in order, with data where the spans are. *)
Lemma insert_all_holds archive idx es : get bufs idx = Some archive -> span_ok bufs Span_default ->
  forall es1 spans nodes t,
  Forall2 (fun e sp => sp_buf sp = idx /\ slice archive (sp_off sp) (sp_off sp + sp_len sp) = Ok (link_data es e)) es1 spans ->
  holds nodes t ->
  exists nodes', insert_all nodes (zip es1 spans) = Ok nodes' /\ holds nodes' (foldl (record_tree es) t es1).
Proof.
  intros Hb Hdef es1 spans nodes t HF. revert nodes t.
  induction HF as [|e sp es1 spans [Hidx Hsl] HF IH]; intros nodes t Hh; [by exists nodes|].
  apply slice_Ok in Hsl as (?&?&Hd). rewrite Z.add_simpl_l in Hd.
  destruct (insert_holds nodes (ne_name e) (file_kind (ne_mode e)) (Z.land (ne_mode e) 4095) sp (link_data es e) t)
    as (nodes1&Hi&Hh1).
  - exists archive. rewrite Hidx. split; [done|]. lia.
  - done.
  - unfold span_bytes. rewrite Hidx, Hb. cbn. by rewrite Hd.
  - done.
  - cbn [zip zip_with insert_all foldl]. rewrite Hi. cbn [bindR]. by apply IH.
Qed.

Lemma newc_holds archive idx pre post crc es nodes t : get bufs idx = Some archive -> span_ok bufs Span_default ->
  archive = pre ++ newc_archive crc es ++ post -> zlen archive < 2 ^ 63 -> zlen pre mod 4 = 0 ->
  Forall newc_ok es -> Forall entry_name_ok es -> holds nodes t ->
  exists nodes', insert_newc_archive archive idx nodes (zlen pre) = Ok (zlen pre + zlen (newc_archive crc es), nodes') /\
    holds nodes' (foldl (record_tree es) t es).
Proof.
  intros Hb Hdef Ha Hz Hm Hok Hnm Hh.
  destruct (newc_archive_written archive pre post crc es idx nodes Ha Hz Hm Hok Hnm) as (spans&HF&Hi).
  destruct (insert_all_holds archive idx es Hb Hdef es spans nodes t HF Hh) as (nodes'&E&Hh').
  exists nodes'. split; [|done]. by rewrite Hi, E.
Qed.
End Insert.

(** Buffers come at the end. *)
Lemma holds_app bufs more nodes t : holds bufs nodes t -> holds (bufs ++ more) nodes t.
Proof.
  intros [Hwf ? ? Ht]. constructor; [by apply tree_wf_app|done|done|]. eapply paths_tree_ext; [|exact Ht].
  intros q. cbn. unfold node_paths. destruct (walk nodes 0 q) as [i|]; [|done]. cbn.
  destruct (get nodes i) as [n|] eqn:En; [|done]. cbn. destruct (tw_span _ _ Hwf _ _ En) as (b&Hb&_).
  unfold span_bytes. by rewrite (get_app_Some _ _ _ _ Hb), Hb.
Qed.

(** ** Lemmas: the chain *)

Lemma newc_archive_magic crc es : exists l, newc_archive crc es = (if crc then CRC_MAGIC else NEWC_MAGIC) ++ l.
Proof.
  unfold newc_archive. destruct es as [|e es]; cbn [fmap list_fmap concat]; unfold newc_record, newc_header, pad4;
    rewrite <- !app_assoc; by eexists.
Qed.

Lemma sniff_newc (crc : bool) l : sniff ((if crc then CRC_MAGIC else NEWC_MAGIC) ++ l) = None.
Proof. by destruct crc. Qed.

(** No compressed format begins with a zero. *)
Lemma sniff_head l codec : sniff l = Some codec -> exists b l', l = b :: l' /\ u8 b <> 0.
Proof.
  unfold sniff. destruct l as [|b l]; [done|]. intros Hs. exists b, l. split; [done|]. intros Hb.
  assert (b = x00) as -> by by apply u8_inj. done.
Qed.

Lemma position_zeros k b l : 0 <= k -> u8 b <> 0 -> position (fun b => negb (u8 b =? 0)) (zeros k ++ b :: l) = Some k.
Proof.
  intros Hk Hb. rewrite position_first.
  - by rewrite zlen_zeros.
  - unfold zeros. apply Forall_replicate. done.
  - by apply negb_true_iff, Z.eqb_neq.
Qed.

Lemma position_all_zeros k : position (fun b => negb (u8 b =? 0)) (zeros k) = None.
Proof. unfold zeros. induction (Z.to_nat k) as [|n IH]; [done|]. cbn. by rewrite IH. Qed.

Section Chained.
Context {D : Decoders} {DL : DecoderLaws D}.

Definition plain (x : Member) : Prop := match x with Plain _ => True | Packed _ _ _ => False end.

(** What unpacking into buffer [i] does with a run of archives. *)
Definition unpacks (rec : list (list byte) -> list Node -> Z -> Z -> Res (list (list byte) * list Node * Z)) : Prop :=
  forall bufs nodes i budget t l, 0 < i -> get bufs i = Some (run_bytes l) -> span_ok bufs Span_default ->
  run_ok 0 l -> zlen (run_bytes l) < 2 ^ 63 -> 0 <= budget < 2 ^ 63 -> holds bufs nodes t ->
  exists nodes', rec bufs nodes i budget = Ok (bufs, nodes', budget) /\ holds bufs nodes' (foldl arch_tree t l).

Section Archive.
Context (rec : list (list byte) -> list Node -> Z -> Z -> Res (list (list byte) * list Node * Z)).
Context (idx : Z) (archive : list byte) (Hlen : zlen archive < 2 ^ 63).

(** Zeros to the end of the buffer. *)
Lemma round_end pre k bufs nodes budget : archive = pre ++ zeros k -> get bufs idx = Some archive ->
  chain_round rec idx (zlen pre, (bufs, nodes, budget)) = Ok (inr (bufs, nodes, budget)).
Proof.
  intros Ha Hb. unfold chain_round. rewrite (proj2 (at_Ok _ _ _) Hb). cbn [bindR].
  rewrite Ha, get_from_app by done. cbn [mbind option_bind]. by rewrite position_all_zeros.
Qed.

(** Zeros, then what a member begins with. *)
Lemma round_start pre k b l bufs nodes budget : archive = pre ++ zeros k ++ b :: l -> 0 <= k -> u8 b <> 0 ->
  get bufs idx = Some archive ->
  chain_round rec idx (zlen pre, (bufs, nodes, budget))
  = match sniff (b :: l) with
    | Some codec =>
        if negb (idx =? 0) then Err (Corrupt "cpio_compressed_inside_compressed")
        else
          let! (out, used) := decode_stream codec (b :: l) budget in
          let! budget := subw budget (zlen out) in
          let! (buffers, nodes, budget) := rec (bufs ++ [out]) nodes (zlen bufs) budget in
          Ok (inl (zlen pre + k + used, (buffers, nodes, budget)))
    | None =>
        if negb (starts_with (b :: l) CRC_MAGIC || starts_with (b :: l) NEWC_MAGIC) || negb ((zlen pre + k) mod 4 =? 0)
        then Err (Corrupt "cpio_junk_between_archives")
        else
          let! (pos, nodes) := insert_newc_archive archive idx nodes (zlen pre + k) in
          Ok (inl (pos, (bufs, nodes, budget)))
    end.
Proof.
  intros Ha Hk Hb0 Hb. unfold chain_round. rewrite (proj2 (at_Ok _ _ _) Hb). cbn [bindR].
  rewrite Ha at 1. rewrite get_from_app by done. cbn [mbind option_bind]. rewrite position_zeros by done.
  assert (Hp : zlen (pre ++ zeros k) = zlen pre + k) by (by rewrite zlen_app, zlen_zeros).
  assert (slice archive (zlen pre + k) (zlen archive) = Ok (b :: l)) as ->.
  { rewrite Ha, app_assoc. apply slice_app_end; [by rewrite Hp|]. by rewrite zlen_app. }
  cbn [bindR]. destruct (sniff (b :: l)); [|done]. destruct (negb (idx =? 0)); [done|].
  destruct (decode_stream _ _ _) as [[out used]|e| | |]; cbn [bindR]; try done.
  destruct (subw _ _); cbn [bindR]; try done. rewrite zlen_app, zlen_cons, zlen_nil.
  by replace (zlen bufs + (1 + 0) - 1) with (zlen bufs) by lia.
Qed.

Lemma round_plain pre k a rest bufs nodes budget t : archive = pre ++ zeros k ++ arch_bytes a ++ rest ->
  0 <= k -> (zlen pre + k) mod 4 = 0 -> arch_ok a -> get bufs idx = Some archive -> span_ok bufs Span_default ->
  holds bufs nodes t ->
  exists nodes', holds bufs nodes' (arch_tree t a) /\
    chain_round rec idx (zlen pre, (bufs, nodes, budget))
    = Ok (inl (zlen (pre ++ zeros k ++ newc_archive (ar_crc a) (ar_entries a)), (bufs, nodes', budget))).
Proof.
  intros Ha Hk Hm (Hok&Hnm&Hpad) Hb Hdef Hh. unfold arch_bytes in Ha. rewrite <- app_assoc in Ha.
  assert (Hp : zlen (pre ++ zeros k) = zlen pre + k) by (by rewrite zlen_app, zlen_zeros).
  destruct (newc_holds bufs archive idx (pre ++ zeros k) (zeros (ar_pad a) ++ rest) (ar_crc a) (ar_entries a) nodes t)
    as (nodes'&Hi&Hh'); try done; [by rewrite Ha, <- app_assoc|by rewrite Hp|].
  exists nodes'. split; [done|]. destruct (newc_archive_magic (ar_crc a) (ar_entries a)) as [l Hl].
  rewrite Hl, <- app_assoc in Ha. pose proof (sniff_newc (ar_crc a) (l ++ zeros (ar_pad a) ++ rest)) as Hs.
  set (w := _ ++ l ++ zeros (ar_pad a) ++ rest) in *. assert (exists b l', w = b :: l' /\ u8 b <> 0) as (b&l'&Hw&Hb0).
  { unfold w. destruct (ar_crc a); cbn; by eexists _, _. }
  assert (Hmag : (starts_with w CRC_MAGIC || starts_with w NEWC_MAGIC) = true) by (unfold w; by destruct (ar_crc a)).
  rewrite Hw in *. rewrite (round_start pre k b l') by done. rewrite Hs, Hmag, (proj2 (Z.eqb_eq _ _) Hm). cbn [negb orb].
  rewrite <- Hp, Hi. cbn [bindR]. by rewrite (app_assoc pre), (zlen_app (pre ++ zeros k)).
Qed.

Lemma round_packed pre k z pad l ms bufs nodes budget t codec : idx = 0 -> unpacks rec ->
  archive = pre ++ zeros k ++ image_bytes (Packed z pad l :: ms) -> 0 <= k -> 0 <= budget < 2 ^ 63 ->
  sniff (image_bytes (Packed z pad l :: ms)) = Some codec ->
  decode_stream codec (image_bytes (Packed z pad l :: ms)) budget = Ok (run_bytes l, zlen z) -> run_ok 0 l ->
  get bufs idx = Some archive -> span_ok bufs Span_default -> holds bufs nodes t ->
  zlen (run_bytes l) <= budget /\
  exists nodes', holds (bufs ++ [run_bytes l]) nodes' (foldl arch_tree t l) /\
    chain_round rec idx (zlen pre, (bufs, nodes, budget))
    = Ok (inl (zlen (pre ++ zeros k ++ z), (bufs ++ [run_bytes l], nodes', budget - zlen (run_bytes l)))).
Proof.
  intros Hidx Hrec Ha Hk Hbud Hs Hdec Hrun Hb Hdef Hh.
  destruct (decode_stream_ok codec (image_bytes (Packed z pad l :: ms)) budget) as [_ Hout]; [done| |].
  { rewrite Ha, !zlen_app in Hlen. pose proof (zlen_nonneg pre). pose proof (zlen_nonneg (zeros k)). lia. }
  destruct (Hout _ _ Hdec) as [Hsz _]. split; [done|]. destruct (sniff_head _ _ Hs) as (b&l'&Hw&Hb0).
  pose proof (get_lt _ _ _ Hb). pose proof (zlen_nonneg (run_bytes l)).
  destruct (Hrec (bufs ++ [run_bytes l]) nodes (zlen bufs) (budget - zlen (run_bytes l)) t l) as (nodes'&Hr&Hh').
  - lia.
  - apply get_snoc. by right.
  - by apply span_ok_app.
  - done.
  - lia.
  - lia.
  - by apply holds_app.
  - exists nodes'. split; [done|]. rewrite Hw in *. rewrite (round_start pre k b l') by done.
    rewrite Hs, Hidx. cbn [negb Z.eqb]. rewrite Hdec. cbn [bindR]. rewrite subw_eq by lia. cbn [bindR]. rewrite Hr. cbn [bindR].
    do 3 f_equal. rewrite !zlen_app, zlen_zeros by done. lia.
Qed.

(** The loop over the members left. *)
Lemma chain_holds ms : idx = 0 /\ unpacks rec \/ Forall plain ms -> forall pre k bufs nodes budget t,
  archive = pre ++ zeros k ++ image_bytes ms -> 0 <= k -> 0 <= budget < 2 ^ 63 -> image_ok (zlen pre + k) budget ms ->
  get bufs idx = Some archive -> span_ok bufs Span_default -> holds bufs nodes t ->
  exists bufs' nodes' budget',
    LoopsTo (chain_round rec idx) (zlen pre, (bufs, nodes, budget)) (Ok (bufs', nodes', budget')) /\
    holds bufs' nodes' (foldl arch_tree t (ms ≫= member_archs)) /\ (Forall plain ms -> bufs' = bufs /\ budget' = budget).
Proof.
  induction ms as [|x ms IH]; intros Hrec pre k bufs nodes budget t Ha Hk Hbud Hok Hb Hdef Hh.
  { cbn in Ha. rewrite app_nil_r in Ha. exists bufs, nodes, budget. split; [|by split].
    apply LoopsTo_break. by eapply round_end. }
  destruct x as [a|z pad l]; cbn [image_ok] in Hok.
  - destruct Hok as (Hm&Hoka&Hok). pose proof Hoka as (_&_&Hpad).
    destruct (round_plain pre k a (image_bytes ms) bufs nodes budget t Ha Hk Hm Hoka Hb Hdef Hh) as (nodes1&Hh1&Hround).
    destruct (IH ltac:(destruct Hrec as [?|?%Forall_cons_1]; [by left|right; tauto])
      (pre ++ zeros k ++ newc_archive (ar_crc a) (ar_entries a)) (ar_pad a) bufs nodes1 budget (arch_tree t a))
      as (bufs'&nodes'&budget'&Hl&Hh'&Hp); try done.
    { rewrite Ha. unfold image_bytes. cbn [fmap list_fmap concat member_bytes]. unfold arch_bytes. by rewrite <- !app_assoc. }
    { replace (zlen _ + ar_pad a) with (zlen pre + k + zlen (arch_bytes a)); [done|].
      unfold arch_bytes. rewrite !zlen_app, !zlen_zeros by done. lia. }
    exists bufs', nodes', budget'. split; [by eapply LoopsTo_round|]. split; [done|]. intros [_ ?]%Forall_cons_1. by apply Hp.
  - destruct Hok as (Hpad&(codec&Hs&Hdec)&Hrun&Hok).
    destruct Hrec as [[Hidx Hrec]|[[] _]%Forall_cons_1].
    destruct (round_packed pre k z pad l ms bufs nodes budget t codec) as (Hsz&nodes1&Hh1&Hround); try done.
    pose proof (zlen_nonneg (run_bytes l)).
    destruct (IH ltac:(by left) (pre ++ zeros k ++ z) pad (bufs ++ [run_bytes l]) nodes1 (budget - zlen (run_bytes l))
      (foldl arch_tree t l)) as (bufs'&nodes'&budget'&Hl&Hh'&_); try done.
    { rewrite Ha. unfold image_bytes. cbn [fmap list_fmap concat member_bytes]. by rewrite <- !app_assoc. }
    { lia. }
    { replace (zlen _ + pad) with (zlen pre + k + zlen z + pad); [done|]. rewrite !zlen_app, zlen_zeros by done. lia. }
    { by apply get_app_Some. }
    { by apply span_ok_app. }
    exists bufs', nodes', budget'. split; [by eapply LoopsTo_round|]. split; [|by intros [[] _]%Forall_cons_1].
    cbn [mbind list_bind member_archs]. by rewrite foldl_app.
Qed.
End Archive.

Lemma chain_image depth idx archive ms bufs nodes budget t : zlen archive < 2 ^ 63 ->
  archive = image_bytes ms -> idx = 0 /\ unpacks (insert_chain depth) \/ Forall plain ms ->
  (idx = 0 -> (0 < depth)%nat) -> 0 <= budget < 2 ^ 63 -> image_ok 0 budget ms ->
  get bufs idx = Some archive -> span_ok bufs Span_default -> holds bufs nodes t ->
  exists bufs' nodes' budget', insert_chain (Datatypes.S depth) bufs nodes idx budget = Ok (bufs', nodes', budget') /\
    holds bufs' nodes' (foldl arch_tree t (ms ≫= member_archs)) /\ (Forall plain ms -> bufs' = bufs /\ budget' = budget).
Proof.
  intros Hlen Ha Hrec Hd Hbud Hok Hb Hdef Hh.
  destruct (chain_holds (insert_chain depth) idx archive Hlen ms Hrec [] 0 bufs nodes budget t)
    as (bufs'&nodes'&budget'&Hl&Hh'&Hp); try done.
  exists bufs', nodes', budget'. split; [|done].
  destruct (chain_spec (Datatypes.S depth) idx archive bufs nodes budget) as [Hr _]; try done; [lia| |apply Hh|].
  { intros Hi. specialize (Hd Hi). lia. }
  cbn [insert_chain] in *. by apply loop_eq.
Qed.

Lemma run_image l : forall pos budget, run_ok pos l -> image_ok pos budget (Plain <$> l).
Proof. induction l as [|a l IH]; intros pos budget; [done|]. intros (?&?&?). split; [done|]. split; [done|]. by apply IH. Qed.
Lemma run_archs l : (Plain <$> l) ≫= member_archs = l.
Proof. induction l as [|a l IH]; [done|]. cbn. f_equal. exact IH. Qed.

Lemma insert_chain_unpacks depth : unpacks (insert_chain (Datatypes.S depth)).
Proof.
  intros bufs nodes i budget t l Hi Hb Hdef Hrun Hlen Hbud Hh.
  assert (Hpl : Forall plain (Plain <$> l)) by by apply Forall_fmap, list.Forall_forall.
  destruct (chain_image depth i (run_bytes l) (Plain <$> l) bufs nodes budget t) as (bufs'&nodes'&budget'&E&Hh'&Hp);
    try done; [by right|lia|by apply run_image|].
  destruct (Hp Hpl) as [-> ->]. rewrite run_archs in Hh'. by exists nodes'.
Qed.
End Chained.

(** ** Lemmas: from paths to the mounted tree *)

Lemma name_lt_NoDup l : StronglySorted name_lt l -> NoDup l.
Proof.
  induction 1 as [|x l _ IH Hx]; constructor; [|done]. intros Hin. apply (irreflexivity name_lt x).
  by apply (proj1 (list.Forall_forall _ _) Hx).
Qed.

Lemma btree_iter_sorted {V} (m : gmap name V) : StronglySorted name_lt (btree_iter name_entry_le m).*1.
Proof.
  assert (Hs : StronglySorted name_entry_le (btree_iter name_entry_le m)).
  { apply StronglySorted_merge_sort; [intros a b c; apply name_leb_trans|intros a b; apply name_leb_total]. }
  assert (Hn : NoDup (btree_iter name_entry_le m).*1).
  { unfold btree_iter. rewrite merge_sort_Permutation. apply NoDup_fst_map_to_list. }
  revert Hn. induction Hs as [|e l _ IH He]; cbn; [constructor|]. intros [Hni Hn]%NoDup_cons.
  constructor; [by apply IH|]. apply Forall_fmap, list.Forall_forall. intros x Hx. cbn. split.
  - by apply (proj1 (list.Forall_forall _ _) He).
  - intros E. apply Hni. rewrite E. by apply list_elem_of_fmap_2.
Qed.

Lemma name_lt_unique l k : StronglySorted name_lt l -> StronglySorted name_lt k -> (forall x, x ∈ l <-> x ∈ k) -> l = k.
Proof.
  intros Hl Hk He. assert (AntiSymm (=) name_lt) by (intros a b [? ?] [? ?]; by apply name_leb_antisym).
  apply (StronglySorted_unique name_lt); [done|done|].
  apply NoDup_Permutation; [by apply name_lt_NoDup..|done].
Qed.

Section Mounted.
Context (bufs : list (list byte)) (nodes : list Node) (wf : tree_wf bufs nodes).

Lemma node_paths_inv q k d : node_paths bufs nodes q = Some (k, d) -> exists i n, walk nodes 0 q = Some i /\
  get nodes i = Some n /\ nd_kind n = k /\ bytes (mkCpio bufs nodes) (nd_data n) = Ok d.
Proof.
  unfold node_paths. destruct (walk nodes 0 q) as [i|]; [|done]. cbn. destruct (get nodes i) as [n|] eqn:En; [|done]. cbn.
  destruct (tw_span _ _ wf _ _ En) as (b&Hb&?&?&?). unfold span_bytes. rewrite Hb. cbn. intros [= <- <-].
  exists i, n. split_and!; try done. unfold bytes. cbn [cp_buffers]. rewrite (proj2 (at_Ok _ _ _) Hb). cbn [bindR].
  rewrite slice_eq by lia. do 2 f_equal. lia.
Qed.

Lemma node_children_names q i n (es : list (name * Tree)) : walk nodes 0 q = Some i -> get nodes i = Some n ->
  StronglySorted name_lt es.*1 -> (forall nm, is_Some (node_paths bufs nodes (q ++ [nm])) <-> nm ∈ es.*1) ->
  (btree_iter name_entry_le (nd_children n)).*1 = es.*1.
Proof.
  intros Hw Hn Hs Hk. apply name_lt_unique; [apply btree_iter_sorted|done|]. intros x. rewrite <- Hk.
  assert (is_Some (node_paths bufs nodes (q ++ [x])) <-> is_Some (walk nodes 0 (q ++ [x]))) as ->.
  { rewrite <- !not_eq_None_Some. by rewrite (node_paths_None bufs nodes). }
  rewrite list_elem_of_fmap. split.
  - intros ([y c]&->&Hc%btree_iter_elem). exists c. apply walk_snoc. by exists i, n.
  - intros [c (p&n'&Hp&Hn'&Hc)%walk_snoc]. exists (x, c). split; [done|]. apply btree_iter_elem. cbn. congruence.
Qed.

Lemma paths_tree_node : forall q t, paths_tree (node_paths bufs nodes) q t ->
  forall i, walk nodes 0 q = Some i -> cpio_tree (mkCpio bufs nodes) i t.
Proof.
  fix IH 3. intros q t Ht i Hw. destruct Ht as [q t c Hm Ho|q d es Hm Hs Hk HF];
    apply node_paths_inv in Hm as (j&n&Hj&Hn&Hkd&Hb); assert (j = i) as -> by congruence.
  - by apply (Cpio_leaf _ _ n _ c).
  - apply (Cpio_dir _ _ n); [done|done|]. pose proof (node_children_names q i n es Hw Hn Hs Hk) as Hnames.
    assert (Hl : Forall (fun c => walk nodes 0 (q ++ [c.1]) = Some c.2) (btree_iter name_entry_le (nd_children n))).
    { apply list.Forall_forall. intros c Hc%btree_iter_elem. apply walk_snoc. by exists i, n. }
    clear Hs Hk. revert HF Hnames Hl. generalize (btree_iter name_entry_le (nd_children n)). revert es.
    fix IHF 3. intros es l [|e es' He HF] Hnm Hl; [by destruct l|]. destruct l as [|c l]; [done|]. cbn in Hnm. injection Hnm as Hce Hnm.
    apply Forall_cons_1 in Hl as [Hc Hl]. constructor; [|by apply IHF]. split; [done|]. apply (IH _ _ He). by rewrite <- Hce.
Qed.
End Mounted.

Lemma holds_root archive bufs : holds (archive :: bufs) [dir 493] (TDir []).
Proof.
  pose proof (zlen_nonneg archive). constructor; [apply tree_wf_root| |done|].
  - intros i Hi. change (zlen [dir 493]) with 1 in Hi. assert (i = 0) as -> by lia. by exists [].
  - apply (Paths_dir _ _ []); [| constructor| |constructor].
    + done.
    + intros nm. cbn. split; [by intros []|set_solver].
Qed.

(** ** Properties *)

Section Properties.
Context {D : Decoders} {DL : DecoderLaws D} {R : CpioReader} {RL : CpioReaderLaws R}.

(** C16.  A mounted cpio archive, whatever its bytes, is a tree: operations by path,
    in any number and order, answer as they do on that tree. *)
Theorem cpio_refines_tree {S} `{SourceLaws S} (src : S) fs cx :
  src_valid src -> cpio_open src = Ok fs ->
  exists top, cpio_tree fs 0 top /\
    forall ops, session (F := Cpio) (S := S) ops (fs, cx) = tree_op top <$> ops.
Proof.
  intros Hv Ho. destruct (cpio_open_spec src Hv) as [_ Hwf]. specialize (Hwf fs Ho).
  destruct (tw_root _ _ (proj1 Hwf)) as (r&Hr&Hk). destruct (cpio_tree_exists fs Hwf 0) as [top Ht]; [by exists r|].
  exists top. split; [done|]. intros ops. pose proof (CpioTree (S := S) fs Hwf).
  apply (session_refines (stands := cpio_stands fs)); [|by split].
  inversion Ht as [i n t c Hn Hkn Hc|]; subst; [|done]. congruence.
Qed.

(** C8.  An initramfs image mounts as the tree its records say: archives one after
    the other with zeros between them, plain or compressed runs of them, in the
    newc or the CRC format; later records over earlier ones, hard links sharing
    their data.  Operations by path answer as they do on that tree. *)
Theorem initramfs_refines_tree {S} `{ReliableSource S} (src : S) cx a ms :
  let image := Plain a :: ms in
  src_valid src -> has src 0 (image_bytes image) -> src_len src = zlen (image_bytes image) ->
  zlen (image_bytes image) <= MAX_BOOT_FILE_BYTES -> image_ok 0 MAX_BOOT_FILE_BYTES image ->
  exists fs, cpio_open src = Ok fs /\
    forall ops, session (F := Cpio) (S := S) ops (fs, cx) = tree_op (image_tree image) <$> ops.
Proof.
  intros image Hv Hhas Hsz Hmax Hok.
  assert (exists bufs nodes, cpio_open src = Ok (mkCpio bufs nodes) /\ holds bufs nodes (image_tree image))
    as (bufs&nodes&Hopen&Hh).
  { set (archive := image_bytes image) in *. pose proof (zlen_nonneg archive). unfold MAX_BOOT_FILE_BYTES in *.
    destruct (chain_image 1 0 archive image [archive] [dir 493] MAX_BOOT_FILE_BYTES (TDir []))
      as (bufs&nodes&budget&E&Hh&_); try done.
    - lia.
    - left. split; [done|apply insert_chain_unpacks].
    - lia.
    - exists archive. split; [done|]. cbn [sp_off sp_len Span_default]. lia.
    - apply holds_root.
    - exists bufs, nodes. split; [|done]. unfold cpio_open.
      rewrite (proj2 (checked_full_Ok (src_len src) (src_len src))) by (unfold MAX_BOOT_FILE_BYTES; split; [lia|done]).
      cbn [bindR]. rewrite Hsz, (has_read src 0 archive) by done. cbn [bindR].
      assert (starts_with archive NEWC_MAGIC || starts_with archive CRC_MAGIC = true) as ->.
      { unfold archive, image, image_bytes, arch_bytes. cbn [fmap list_fmap concat member_bytes]. unfold arch_bytes.
        destruct (newc_archive_magic (ar_crc a) (ar_entries a)) as [l ->]. by destruct (ar_crc a). }
      assert (checked_full_read_len MAX_BOOT_FILE_BYTES = Ok MAX_BOOT_FILE_BYTES) as -> by done.
      cbn [bindR]. by rewrite E. }
  exists (mkCpio bufs nodes). split; [done|]. intros ops. destruct (cpio_open_spec src Hv) as [_ Hwf].
  specialize (Hwf _ Hopen). pose proof (CpioTree (S := S) _ Hwf).
  apply (session_refines (stands := cpio_stands (mkCpio bufs nodes))); [apply Hh|]. split; [done|].
  apply paths_tree_node with (q := []); [apply Hh|apply Hh|done].
Qed.
End Properties.

(** ** Witnesses

    The shape of a distribution's image: an archive, a compressed one that overrides a
    file and adds others, and one in the CRC format with more links. *)

#[local] Instance NoOldCpio : CpioReader := { iter_files _ := [] }.
#[local] Instance NoOldCpio_laws : CpioReaderLaws NoOldCpio.
Proof. constructor. intros archive e He. inversion He. Qed.

Definition ct_first : Arch := mkArch false w_entries 7.
Definition ct_second : Arch :=
  mkArch false [w_entry 1 (32768 + 420) 1 "b" (bytes_of "new"); w_entry 2 (32768 + 420) 1 "d/e/f" []] 4.
Definition ct_third : Arch :=
  mkArch true [w_entry 3 (40960 + 511) 1 "d/l" (bytes_of "../b"); w_entry 4 (40960 + 511) 1 "l" (bytes_of "s")] 0.
Definition ct_packed : list byte :=
  LZ4_LEGACY_MAGIC ++ le_bytes 4 (zlen (run_bytes [ct_second])) ++ run_bytes [ct_second].
Definition ct_members : list Member := [Packed ct_packed 5 [ct_second]; Plain ct_third].
Definition ct_image : list byte := image_bytes (Plain ct_first :: ct_members).
Definition ct_src : SliceSource := mkSlice ct_image.

#[local] Instance u32_ok_dec z : Decision (u32_ok z).
Proof. unfold u32_ok. apply _. Defined.
#[local] Instance newc_ok_dec e : Decision (newc_ok e).
Proof. unfold newc_ok. apply _. Defined.
#[local] Instance entry_name_ok_dec e : Decision (entry_name_ok e).
Proof. unfold entry_name_ok. apply _. Defined.
#[local] Instance arch_ok_dec a : Decision (arch_ok a).
Proof. unfold arch_ok. apply _. Defined.

Lemma ct_archs_ok : arch_ok ct_first /\ arch_ok ct_second /\ arch_ok ct_third.
Proof. apply (bool_decide_eq_true_1 _). vm_compute. reflexivity. Qed.

Lemma ct_image_ok : image_ok 0 MAX_BOOT_FILE_BYTES (Plain ct_first :: ct_members).
Proof.
  destruct ct_archs_ok as (?&?&?). split; [done|]. split; [done|]. split; [done|]. split.
  { exists SLz4Legacy. split; vm_compute; reflexivity. }
  split; [done|]. split; [vm_compute; reflexivity|]. done.
Qed.

Definition ct_ops : list PathOp :=
  [OpRead (bytes_of "s"); OpRead (bytes_of "/d/l"); OpRead (bytes_of "b"); OpRead (bytes_of "d/e/f");
   OpList (bytes_of "/"); OpList (bytes_of "d"); OpStat (bytes_of "l"); OpRead (bytes_of "b/x"); OpRead (bytes_of "d")].

Lemma cpio_refines_tree_witness :
  exists top, cpio_tree w_fs 0 top /\
    session (F := Cpio) (S := SliceSource) [OpRead (bytes_of "b")] (w_fs, w_cx) = tree_op top <$> [OpRead (bytes_of "b")].
Proof.
  destruct (cpio_refines_tree w_src w_fs w_cx) as (top&Ht&Hs); [vm_compute; reflexivity|vm_compute; reflexivity|].
  exists top. split; [exact Ht|]. apply Hs.
Defined.

Lemma initramfs_refines_tree_witness :
  exists fs, cpio_open ct_src = Ok fs /\
    session (F := Cpio) (S := SliceSource) ct_ops (fs, w_cx)
    = [Ok (ABytes (bytes_of "hi")); Err (InvalidPath "'..' not supported"); Ok (ABytes (bytes_of "new")); Ok (ABytes []);
       Ok (AList [(bytes_of "b", Regular); (bytes_of "d", Directory); (bytes_of "l", Symlink); (bytes_of "s", Symlink)]);
       Ok (AList [(bytes_of "a", Regular); (bytes_of "e", Directory); (bytes_of "l", Symlink)]);
       Ok (AStat Regular 2); Err NotDirectory; Err IsDirectory].
Proof.
  destruct (initramfs_refines_tree ct_src w_cx ct_first ct_members) as (fs&Ho&Hs).
  - vm_compute. reflexivity.
  - apply (bool_decide_eq_true_1 _). vm_compute. reflexivity.
  - reflexivity.
  - vm_compute. discriminate.
  - apply ct_image_ok.
  - exists fs. split; [exact Ho|]. rewrite Hs. vm_compute. reflexivity.
Defined.
