(* ===== verification/Romfs.v ===== *)
(** * The romfs reader ([crates/lamfold-romfs/src/romfs.rs])

    Big-endian 16-byte-aligned headers chained by their [next] field, hard links
    resolved to the header they name.  The frontend keeps only the source and the
    first header's offset, so every operation is a function of them. *)
From S2P Require Import Prelude Text Cache Substrate Path.
Open Scope Z_scope.

Definition MAGIC : list byte := bytes_of "-rom1fs-".
Definition MAX_NAME : Z := 256.
Definition MAX_LINK_HOPS : nat := 8.

Definition FT_HARDLINK : Z := 0.
Definition FT_DIRECTORY : Z := 1.
Definition FT_REGULAR : Z := 2.
Definition FT_SYMLINK : Z := 3.

Record Header : Type := mkHeader {
  h_next_off : Z;
  h_ftype : Z;
  h_info : Z;
  h_size : Z;
  h_name : name;
  h_data_off : Z;
}.

Definition align16 (n : Z) : Z := Z.land (n + 15) (Z.lnot 15).

Definition be_u32 (b : list byte) (o : Z) : Res Z := be_field 4 "romfs: truncated u32" b o.

Definition kind (ftype : Z) : FileKind :=
  if ftype =? FT_DIRECTORY then Directory
  else if ftype =? FT_REGULAR then Regular
  else if ftype =? FT_SYMLINK then Symlink
  else Other.

Definition is_nul (b : byte) : bool := u8 b =? 0.

Section Romfs.
Context {S : Type} `{BlockSource S}.

Record Romfs : Type := mkRomfs { rf_src : S; rf_first_hdr : Z }.

Definition read_header (src : S) (off : Z) : Res Header :=
  let avail := Z.min (16 + MAX_NAME) (saturating_sub (src_len src) off) in
  if avail <? 16 then Err (Corrupt "romfs: truncated header")
  else
    let! win := src_read_at src off avail in
    let! next_raw := be_u32 win 0 in
    let! info := be_u32 win 4 in
    let! size := be_u32 win 8 in
    let! name_bytes := slice win 16 (zlen win) in
    let! nul := ok_or (position is_nul name_bytes) (Corrupt "romfs: unterminated name") in
    let! raw := slice name_bytes 0 nul in
    let name := from_utf8_lossy raw in
    let! d := addw 64 off 16 in
    let! data_off := addw 64 d (align16 (nul + 1)) in
    Ok (mkHeader (Z.land next_raw 0xFFFFFFF0) (Z.land next_raw 7) info size name data_off).

(** [hops] headers may still be read. *)
Fixpoint resolve_hops (src : S) (hops : nat) (off : Z) : Res (Z * Header) :=
  match hops with
  | O => Err (Corrupt "romfs: hard link chain too long")
  | Datatypes.S hops' =>
      let! h := read_header src off in
      if negb (h_ftype h =? FT_HARDLINK) then Ok (off, h)
      else resolve_hops src hops' (h_info h)
  end.
Definition resolved_header (src : S) (off : Z) : Res (Z * Header) :=
  resolve_hops src (Datatypes.S MAX_LINK_HOPS) off.

Definition romfs_probe (src : S) : Res bool :=
  if src_len src <? 16 then Ok false
  else let! m := src_read_at src 0 8 in Ok (bool_decide (m = MAGIC)).

Definition romfs_open (src : S) : Res Romfs :=
  if src_len src <? 16 then Err (Corrupt "romfs: shorter than header")
  else
    let head := zeros (16 + MAX_NAME) in
    let avail := Z.min (16 + MAX_NAME) (src_len src) in
    let! head := read_into src 0 head 0 avail in
    let! m := slice head 0 8 in
    if negb (bool_decide (m = MAGIC)) then Err (Corrupt "romfs: bad magic")
    else
      let! volname := slice head 16 avail in
      let! nul := ok_or (position is_nul volname) (Corrupt "romfs: unterminated volume name") in
      Ok (mkRomfs src (16 + align16 (nul + 1))).

(** The bound of the [for] loop of [read_dir]. *)
Definition MAX_SIBLINGS : Z := 1000000.

(** One turn of the loop; the state is the counter, the offset and the listing. *)
Definition dir_round (src : S) (s : Z * Z * list DirEntry)
    : Res ((Z * Z * list DirEntry) + list DirEntry) :=
  let '(i, o, out) := s in
  if (i >=? MAX_SIBLINGS) || (o =? 0) then Ok (inr out)
  else
    let! h := read_header src o in
    let! out :=
      if negb (bool_decide (h_name h = bytes_of ".")) && negb (bool_decide (h_name h = bytes_of ".."))
      then
        let! (node, target) := resolved_header src o in
        Ok (out ++ [mkDirEntry (h_name h) node (kind (h_ftype target))])
      else Ok out in
    Ok (inl (i + 1, h_next_off h, out)).

Definition romfs_read_dir (fs : Romfs) (dir : NodeId) : Res (list DirEntry) :=
  let! (_, head) := resolved_header (rf_src fs) dir in
  if negb (h_ftype head =? FT_DIRECTORY) then Err NotDirectory
  else loop (dir_round (rf_src fs)) (0, h_info head, []).

Definition romfs_lookup (fs : Romfs) (dir : NodeId) (nm : name) : Res (option NodeId) :=
  let! es := romfs_read_dir fs dir in Ok (find_entry nm es).

Definition romfs_metadata (fs : Romfs) (node : NodeId) : Res Metadata :=
  let! (_, h) := resolved_header (rf_src fs) node in
  Ok (mkMetadata (kind (h_ftype h)) (h_size h) 0).

Definition romfs_read_at (fs : Romfs) (node : NodeId) (off : Z) (buf : list byte)
    : Res (Z * list byte) :=
  let! (_, h) := resolved_header (rf_src fs) node in
  if h_ftype h =? FT_DIRECTORY then Err IsDirectory
  else if off >=? h_size h then Ok (0, buf)
  else
    let! left_ := subw (h_size h) off in
    let n := Z.min (zlen buf) left_ in
    let! pos := addw 64 (h_data_off h) off in
    let! buf := read_into (rf_src fs) pos buf 0 n in
    Ok (n, buf).

Definition romfs_read_link (fs : Romfs) (node : NodeId) : Res (option (list byte)) :=
  let! (_, h) := resolved_header (rf_src fs) node in
  if negb (h_ftype h =? FT_SYMLINK) then Ok None
  else
    let! len := checked_full_read_len (h_size h) in
    let! target := src_read_at (rf_src fs) (h_data_off h) len in
    Ok (Some target).
End Romfs.
Arguments Romfs S : clear implicits.

#[export] Instance Romfs_Frontend {S} `{BlockSource S} : FoldFrontend (Romfs S) S := {
  TAG := "romfs";
  probe := romfs_probe;
  open_ src cx := (romfs_open src, cx);
  root := rf_first_hdr;
  lookup_ d nm := on_self (fun fs => romfs_lookup fs d nm);
  read_dir d := on_self (fun fs => romfs_read_dir fs d);
  metadata n := on_self (fun fs => romfs_metadata fs n);
  read_at n off buf := on_self (fun fs => romfs_read_at fs n off buf);
  read_link n := on_self (fun fs => romfs_read_link fs n);
}.

(** ** Lemmas *)

Lemma align16_spec n : n <= align16 n <= n + 15 /\ align16 n mod 16 = 0.
Proof.
  assert (align16 n = n + 15 - (n + 15) mod 16) as -> by (apply (land_lnot_ones (n + 15) 4); lia).
  pose proof (Z.mod_pos_bound (n + 15) 16 ltac:(lia)). split; [lia|].
  by rewrite Zminus_mod, Z.mod_mod, Z.sub_diag by lia.
Qed.

Section Laws.
Context {S : Type} `{SourceLaws S}.
Implicit Types src : S.

(** Every field of a header that was read is in range. *)
Definition header_ok src (h : Header) : Prop :=
  0 <= h_next_off h < 2 ^ 32 /\ 0 <= h_ftype h < 8 /\ 0 <= h_info h < 2 ^ 32 /\
  0 <= h_size h < 2 ^ 32 /\ 0 <= h_data_off h <= src_len src + 32.

Lemma read_header_wp src off : src_valid src -> 0 <= off < 2 ^ 64 ->
  wp (read_header src off) (header_ok src).
Proof.
  intros Hv Hoff. unfold read_header, saturating_sub. pose proof (src_len_range src Hv).
  unfold MAX_NAME. set (avail := Z.min _ _). destruct (Z.ltb_spec avail 16); [done|].
  apply wp_bind, wp_read; [done|lia|lia|]. intros win _ Hw _.
  do 3 (apply wp_bind, wp_be_field; intros ? ? _). change (256 ^ 4) with (2 ^ 32) in *.
  apply wp_bind, wp_slice; [lia|lia|].
  set (nb := sub win 16 (zlen win - 16)). assert (Hnb : zlen nb = avail - 16) by (unfold nb; rewrite zlen_sub; lia).
  apply wp_bind, wp_ok_or. intros nul [Hnul _]%position_Some.
  apply wp_bind, wp_slice; [lia|lia|]. pose proof (align16_spec (nul + 1)) as [Hal _].
  apply wp_bind, wp_addw; [lia|]. apply wp_bind, wp_addw; [lia|]. unfold header_ok.
  cbn [wpx h_next_off h_ftype h_info h_size h_data_off].
  pose proof (land_range v 0xFFFFFFF0 ltac:(lia)). pose proof (land_range v 7 ltac:(lia)). lia.
Qed.

Lemma resolve_hops_wp src hops : src_valid src -> forall off, 0 <= off < 2 ^ 64 ->
  wp (resolve_hops src hops off) (fun '(t, h) => 0 <= t < 2 ^ 64 /\ header_ok src h).
Proof.
  intros Hv. induction hops as [|hops IH]; intros off Hoff; [done|]. cbn [resolve_hops].
  apply wp_bind. eapply wp_mono; [by apply read_header_wp|]. intros h Hh.
  destruct (negb _); [done|]. apply IH. destruct Hh as (_&_&?&_). lia.
Qed.

Lemma resolved_header_wp src off : src_valid src -> 0 <= off < 2 ^ 64 ->
  wp (resolved_header src off) (fun '(t, h) => 0 <= t < 2 ^ 64 /\ header_ok src h).
Proof. intros. by apply resolve_hops_wp. Qed.

(** Listings hold only node handles of 64 bits. *)
Definition listing_ok (es : list DirEntry) : Prop := Forall (fun e => 0 <= de_node e < 2 ^ 64) es.

Lemma romfs_dir_round_wp src i o out : src_valid src -> 0 <= o < 2 ^ 64 -> listing_ok out ->
  wp (dir_round src (i, o, out)) (fun r => match r with
    | inl (i', o', out') => i < MAX_SIBLINGS /\ i' = i + 1 /\ 0 <= o' < 2 ^ 64 /\ listing_ok out'
    | inr es => listing_ok es
    end).
Proof.
  intros Hv Ho Hout. unfold dir_round. rewrite Z.geb_leb. destruct (Z.leb_spec MAX_SIBLINGS i); [done|].
  cbn [orb]. destruct (o =? 0); [done|].
  apply wp_bind. eapply wp_mono; [by apply read_header_wp|]. intros h (Hn&_).
  apply wp_bind. apply (wp_mono _ listing_ok).
  - destruct (_ && _); [|done]. apply wp_bind.
    eapply wp_mono; [by apply resolved_header_wp|]. intros [t th] [Ht _]. cbn [wpx].
    apply Forall_app. split; [done|]. apply Forall_singleton. exact Ht.
  - intros out' Ho'. cbn [wpx]. split_and!; done || lia.
Qed.

Lemma romfs_read_dir_wp fs dir : src_valid (rf_src fs) -> 0 <= dir < 2 ^ 64 ->
  wp (romfs_read_dir fs dir) listing_ok.
Proof.
  intros Hv Hd. unfold romfs_read_dir. apply wp_bind.
  eapply wp_mono; [by apply resolved_header_wp|]. intros [t h] [Ht (_&_&Hi&_)].
  destruct (negb _); [done|].
  apply (wp_loop _ (fun s => 0 <= s.1.1 <= MAX_SIBLINGS /\ 0 <= s.1.2 < 2 ^ 64 /\ listing_ok s.2)
    (fun s => MAX_SIBLINGS - s.1.1)).
  - cbn [fst snd]. unfold MAX_SIBLINGS. split_and!; try lia. constructor.
  - cbn [fst]. unfold MAX_SIBLINGS. lia.
  - intros [[i o] out] (Hi'&Ho&Hout). cbn [fst snd] in *. split; [lia|].
    eapply wp_mono; [by apply romfs_dir_round_wp|]. intros [[[i' o'] out']|es]; [|done]. cbn [fst snd].
    intros (?&->&?&?). split; [split_and!; done || lia|lia].
Qed.

(** The listing's handles are those [lookup] gives. *)
Lemma find_entry_ok nm es n : listing_ok es -> find_entry nm es = Some n -> 0 <= n < 2 ^ 64.
Proof. apply (find_entry_Forall (fun n => 0 <= n < 2 ^ 64)). Qed.

Lemma romfs_open_wp src : src_valid src ->
  wp (romfs_open src) (fun fs => rf_src fs = src /\ 0 <= rf_first_hdr fs < 2 ^ 64).
Proof.
  intros Hv. unfold romfs_open. pose proof (src_len_range src Hv).
  destruct (Z.ltb_spec (src_len src) 16); [done|]. unfold MAX_NAME.
  set (avail := Z.min _ _). assert (Hz : zlen (zeros (16 + 256)) = 272) by (apply zlen_zeros; lia).
  apply wp_bind, wp_read_into; [done|lia|lia|lia|lia|]. intros head _ Hh _ _.
  apply wp_bind, wp_slice; [lia|lia|]. destruct (negb _); [done|].
  apply wp_bind, wp_slice; [lia|lia|]. apply wp_bind, wp_ok_or.
  intros nul [Hnul _]%position_Some. rewrite zlen_sub in Hnul by lia.
  pose proof (align16_spec (nul + 1)) as [? _]. split; [done|]. cbn [rf_first_hdr]. lia.
Qed.

Lemma romfs_read_at_wp fs node off buf : src_valid (rf_src fs) -> 0 <= node < 2 ^ 64 ->
  0 <= off < 2 ^ 64 -> zlen buf < 2 ^ 63 ->
  wp (romfs_read_at fs node off buf) (fun '(n, b) => zlen b = zlen buf /\
    exists t h, resolved_header (rf_src fs) node = Ok (t, h) /\ h_ftype h <> FT_DIRECTORY /\
      n = Z.max 0 (Z.min (zlen buf) (h_size h - off)) /\
      sub b 0 n = region (src_byte (rf_src fs)) (h_data_off h + off) n).
Proof.
  intros Hv Hn Ho Hb. pose proof (zlen_nonneg buf). pose proof (src_len_range _ Hv).
  unfold romfs_read_at. eapply wp_bind_eq; [by apply resolved_header_wp|].
  intros [t h] Ht [_ (_&_&_&Hs&Hd)]. destruct (Z.eqb_spec (h_ftype h) FT_DIRECTORY); [done|].
  rewrite Z.geb_leb. destruct (Z.leb_spec (h_size h) off).
  - cbn [wpx]. split; [done|]. exists t, h. split_and!; [done|done|lia|by rewrite sub_nil].
  - apply wp_bind, wp_subw; [lia|]. apply wp_bind, wp_addw; [lia|].
    apply wp_bind, wp_read_front; [done|lia|lia|done|]. intros r Hr _ Hreg.
    cbn [wpx]. split; [done|]. exists t, h. split_and!; [done|done|lia|done].
Qed.

Lemma romfs_read_link_wp fs node : src_valid (rf_src fs) -> 0 <= node < 2 ^ 64 ->
  wp (romfs_read_link fs node) (fun _ => True).
Proof.
  intros Hv Hn. unfold romfs_read_link. apply wp_bind. eapply wp_mono; [by apply resolved_header_wp|].
  intros [t h] [_ (_&_&_&Hs&Hd)]. destruct (negb _); [done|]. pose proof (src_len_range _ Hv).
  apply wp_bind, wp_checked_full. unfold MAX_BOOT_FILE_BYTES. intros Hmax.
  by apply wp_bind, wp_read; [done|lia|lia|].
Qed.

(** ** Written headers *)

(** A header as [genromfs] writes it: [next] is a multiple of 16, the low bits
    hold the type and the exec bit. *)
Definition header_bytes (next ftype info size checksum : Z) (nm : name) : list byte :=
  be_bytes 4 (next + ftype) ++ be_bytes 4 info ++ be_bytes 4 size ++ be_bytes 4 checksum ++
  nm ++ [x00] ++ zeros (align16 (zlen nm + 1) - (zlen nm + 1)).

Lemma zlen_header_bytes next ftype info size checksum nm :
  zlen (header_bytes next ftype info size checksum nm) = 16 + align16 (zlen nm + 1).
Proof.
  unfold header_bytes. pose proof (align16_spec (zlen nm + 1)).
  rewrite !zlen_app, !zlen_be_bytes, zlen_zeros by lia. change (zlen [x00]) with 1. lia.
Qed.

Lemma next_and_type next ftype : 0 <= next < 2 ^ 32 -> next mod 16 = 0 -> 0 <= ftype < 16 ->
  Z.land (next + ftype) 0xFFFFFFF0 = next /\ Z.land (next + ftype) 7 = ftype mod 8 /\
  next + ftype < 2 ^ 32.
Proof.
  intros Hn H16 Ht. pose proof (Z.div_mod next 16 ltac:(lia)) as Hd.
  assert (Hlt : next + ftype < 2 ^ 32).
  { change (2 ^ 32) with (268435456 * 16) in *. lia. }
  assert (Hm : (next + ftype) mod 16 = ftype).
  { rewrite Hd, H16, Z.add_0_r, Z.mul_comm, Z.add_comm, Z.mod_add by lia. apply Z.mod_small. lia. }
  split_and!; [| |done].
  - change 0xFFFFFFF0 with (Z.land (Z.ones 32) (Z.lnot (Z.ones 4))).
    rewrite Z.land_assoc, (Z.land_ones _ 32), Z.mod_small, land_lnot_ones by lia.
    change (2 ^ 4) with 16. lia.
  - change 7 with (Z.ones 3). rewrite Z.land_ones by lia. change (2 ^ 3) with 8.
    rewrite Hd, H16, Z.add_0_r. replace (16 * (next / 16) + ftype) with (ftype + (2 * (next / 16)) * 8) by lia.
    by rewrite Z.mod_add.
Qed.

Lemma read_written_header `{!ReliableSource S} src off next ftype info size checksum nm :
  let hb := header_bytes next ftype info size checksum nm in
  src_valid src -> 0 <= off -> off + zlen hb <= src_len src ->
  region (src_byte src) off (zlen hb) = hb ->
  0 <= next < 2 ^ 32 -> next mod 16 = 0 -> 0 <= ftype < 16 -> 0 <= info < 2 ^ 32 ->
  0 <= size < 2 ^ 32 -> 0 <= checksum < 2 ^ 32 ->
  zlen nm < MAX_NAME -> Forall (fun b => is_nul b = false) nm ->
  read_header src off
  = Ok (mkHeader next (ftype mod 8) info size (from_utf8_lossy nm) (off + zlen hb)).
Proof.
  intros hb Hv Hoff Hfit Hreg Hnext H16 Ht Hinfo Hsize Hck Hnm Hnul.
  pose proof (src_len_range src Hv). pose proof (zlen_nonneg nm).
  assert (Hhb : zlen hb = 16 + align16 (zlen nm + 1)) by apply zlen_header_bytes.
  pose proof (align16_spec (zlen nm + 1)) as [Hal Hal16]. unfold MAX_NAME in Hnm.
  assert (Hal256 : align16 (zlen nm + 1) <= 256).
  { pose proof (Z.div_mod (align16 (zlen nm + 1)) 16 ltac:(lia)). lia. }
  unfold read_header, saturating_sub, MAX_NAME. set (avail := Z.min _ _).
  assert (Hav : zlen hb <= avail <= 272) by lia. rewrite (proj2 (Z.ltb_ge _ _)) by lia.
  rewrite src_read_in_range by (done || lia). cbn [bindR].
  replace avail with (zlen hb + (avail - zlen hb)) by lia.
  rewrite region_split, Hreg by lia. set (tail := region _ _ _).
  set (win := hb ++ tail). set (z := zeros (align16 (zlen nm + 1) - (zlen nm + 1)) ++ tail).
  set (p := be_bytes 4 (next + ftype) ++ be_bytes 4 info ++ be_bytes 4 size ++ be_bytes 4 checksum).
  assert (Hwin : win = p ++ nm ++ x00 :: z).
  { unfold win, hb, header_bytes, p, z. by rewrite <- !app_assoc. }
  destruct (next_and_type next ftype Hnext H16 Ht) as (Hn1&Hn2&Hlt). unfold be_u32.
  assert (E0 : be_field 4 "romfs: truncated u32" win 0 = Ok (next + ftype)).
  { rewrite Hwin. unfold p. rewrite <- !app_assoc. apply (be_field_app _ [] 4); [done|done|].
    change (256 ^ Z.of_nat 4) with (2 ^ 32). lia. }
  assert (E4 : be_field 4 "romfs: truncated u32" win 4 = Ok info).
  { rewrite Hwin. unfold p. rewrite <- !app_assoc. by apply be_field_app. }
  assert (E8 : be_field 4 "romfs: truncated u32" win 8 = Ok size).
  { rewrite Hwin. unfold p. rewrite <- !app_assoc, (app_assoc (be_bytes 4 (next + ftype))).
    by apply be_field_app. }
  rewrite E0. cbn [bindR]. rewrite E4. cbn [bindR]. rewrite E8. cbn [bindR]. rewrite Hwin.
  assert (Hp : zlen p = 16) by done.
  rewrite slice_eq by (rewrite zlen_app, Hp; pose proof (zlen_nonneg (nm ++ x00 :: z)); lia). cbn [bindR].
  assert (Hnb : sub (p ++ nm ++ x00 :: z) 16 (zlen (p ++ nm ++ x00 :: z) - 16) = nm ++ x00 :: z).
  { rewrite sub_app_r by lia. rewrite Hp, zlen_app, Hp. replace (16 - 16) with 0 by lia.
    replace (16 + zlen (nm ++ x00 :: z) - 16) with (zlen (nm ++ x00 :: z)) by lia. apply sub_all. }
  rewrite Hnb, position_first by done. cbn [ok_or bindR].
  rewrite slice_eq by (rewrite ?zlen_app; pose proof (zlen_nonneg (x00 :: z)); lia). cbn [bindR].
  rewrite Z.sub_0_r, sub_0_app. unfold addw. rewrite (proj2 (Z.ltb_lt (off + 16) _)) by lia. cbn [bindR].
  rewrite (proj2 (Z.ltb_lt _ _)) by lia. cbn [bindR].
  rewrite Hn1, Hn2. do 2 f_equal. lia.
Qed.

(** ** Hard links and listings *)

(** From [off], [k] hard links lead to the header [h] at [t]. *)
Inductive LinkChain src : Z -> nat -> Z -> Header -> Prop :=
| LinkChain_here off h :
    read_header src off = Ok h -> h_ftype h <> FT_HARDLINK -> LinkChain src off 0 off h
| LinkChain_hop off l k t h :
    read_header src off = Ok l -> h_ftype l = FT_HARDLINK ->
    LinkChain src (h_info l) k t h -> LinkChain src off (Datatypes.S k) t h.

Lemma resolve_hops_iff src hops : forall off t h,
  resolve_hops src hops off = Ok (t, h) <-> exists k, (k < hops)%nat /\ LinkChain src off k t h.
Proof.
  induction hops as [|hops IH]; intros off t h; cbn [resolve_hops].
  - split; [done|]. intros (k&?&_). lia.
  - split.
    + intros (l&Hl&Hr)%bindR_Ok. destruct (Z.eqb_spec (h_ftype l) FT_HARDLINK); cbn [negb] in Hr.
      * apply IH in Hr as (k&?&?). exists (Datatypes.S k). split; [lia|]. by eapply LinkChain_hop.
      * injection Hr as <- <-. exists 0%nat. split; [lia|]. by constructor.
    + intros (k&Hk&Hc). inversion Hc as [? ? Hh Hf|? l k' ? ? Hl Hf Hc']; subst.
      * rewrite Hh. cbn [bindR]. by rewrite (proj2 (Z.eqb_neq _ _)).
      * rewrite Hl. cbn [bindR]. rewrite (proj2 (Z.eqb_eq _ _)) by done. cbn [negb].
        apply IH. exists k'. split; [lia|done].
Qed.

(** The sibling chain from [o]: headers linked by [next], ending at offset 0. *)
Inductive Siblings src : Z -> list (Z * Header) -> Prop :=
| Siblings_end : Siblings src 0 []
| Siblings_next o h l :
    o <> 0 -> read_header src o = Ok h -> Siblings src (h_next_off h) l ->
    Siblings src o ((o, h) :: l).

Definition is_dot (nm : name) : bool :=
  bool_decide (nm = bytes_of ".") || bool_decide (nm = bytes_of "..").

(** The entries of a sibling chain: each name with the node and kind of the
    header it resolves to, dot entries left out. *)
Fixpoint sibling_entries src (l : list (Z * Header)) : Res (list DirEntry) :=
  match l with
  | [] => Ok []
  | (o, h) :: l' =>
      if is_dot (h_name h) then sibling_entries src l'
      else
        let! (t, th) := resolved_header src o in
        let! es := sibling_entries src l' in
        Ok (mkDirEntry (h_name h) t (kind (h_ftype th)) :: es)
  end.

Lemma siblings_LoopsTo src o l : src_valid src -> Siblings src o l -> forall i out,
  0 <= o < 2 ^ 64 -> i + zlen l <= MAX_SIBLINGS ->
  exists r, LoopsTo (dir_round src) (i, o, out) r /\
    match sibling_entries src l with
    | Ok es => r = Ok (out ++ es)
    | Err e => r = Err e
    | _ => False
    end.
Proof.
  intros Hv Hs. induction Hs as [|o h l Ho Hh Hs IH]; intros i out Hoff Hi.
  - exists (Ok out). split; [|cbn [sibling_entries]; by rewrite app_nil_r]. apply LoopsTo_break. unfold dir_round.
    rewrite Z.eqb_refl, orb_true_r. done.
  - rewrite zlen_cons in Hi. pose proof (zlen_nonneg l).
    pose proof (wp_Ok _ _ _ (read_header_wp src o Hv Hoff) Hh) as [Hn _].
    assert (Hround : dir_round src (i, o, out) =
      (let! out := if negb (is_dot (h_name h)) then
         let! (node, target) := resolved_header src o in
         Ok (out ++ [mkDirEntry (h_name h) node (kind (h_ftype target))]) else Ok out in
       Ok (inl (i + 1, h_next_off h, out)))).
    { unfold dir_round. rewrite Z.geb_leb, (proj2 (Z.leb_gt _ _)), (proj2 (Z.eqb_neq _ _)) by (done || lia).
      cbn [orb]. rewrite Hh. cbn [bindR]. unfold is_dot. by rewrite negb_orb. }
    cbn [sibling_entries]. destruct (is_dot (h_name h)); cbn [negb bindR] in Hround.
    + destruct (IH (i + 1) out) as (r&Hr&Hm); [lia|lia|]. exists r. split; [|done].
      by eapply LoopsTo_round.
    + pose proof (resolved_header_wp src o Hv Hoff) as Hw.
      destruct (resolved_header src o) as [[t th]|e| | |]; cbn [bindR] in *; try done.
      2:{ exists (Err e). split; [by apply LoopsTo_err|done]. }
      destruct (IH (i + 1) (out ++ [mkDirEntry (h_name h) t (kind (h_ftype th))])) as (r&Hr&Hm); [lia|lia|].
      exists r. split; [by eapply LoopsTo_round|].
      destruct (sibling_entries src l) as [es|e| | |]; cbn [bindR]; try done.
      by rewrite Hm, <- app_assoc.
Qed.

(** The listing is that of the sibling chain. *)
Lemma read_dir_siblings (fs : Romfs S) dir t head l :
  src_valid (rf_src fs) -> 0 <= dir < 2 ^ 64 ->
  resolved_header (rf_src fs) dir = Ok (t, head) -> h_ftype head = FT_DIRECTORY ->
  Siblings (rf_src fs) (h_info head) l -> zlen l <= MAX_SIBLINGS ->
  romfs_read_dir fs dir = sibling_entries (rf_src fs) l.
Proof.
  intros Hv Hdir Hres Hk Hs Hl.
  pose proof (wp_Ok _ _ _ (resolved_header_wp _ dir Hv Hdir) Hres) as [_ (_&_&Hi&_)].
  pose proof (wp_returns _ _ (romfs_read_dir_wp fs dir Hv Hdir)) as Hret.
  unfold romfs_read_dir in *. rewrite Hres in *. cbn [bindR] in *. rewrite Hk, Z.eqb_refl in *.
  cbn [negb] in *. destruct (siblings_LoopsTo (rf_src fs) (h_info head) l Hv Hs 0 [])
    as (r&Hr&Hm); [lia|lia|]. rewrite (loop_eq _ _ _ Hret Hr).
  destruct (sibling_entries _ _); by subst.
Qed.
End Laws.

(** ** Properties *)

(** On any medium and for any node handles and offsets of 64 bits, mounting
    a romfs and every operation on it comes back: no corrupt field makes it panic
    or loop, cyclic sibling and link chains included. *)
Theorem romfs_total {S} `{SourceLaws S} (src : S) :
  src_valid src ->
  returns (romfs_open src) /\
  forall fs, romfs_open src = Ok fs -> forall node off buf nm,
    0 <= node < 2 ^ 64 -> 0 <= off < 2 ^ 64 -> zlen buf < 2 ^ 63 ->
    returns (romfs_read_dir fs node) /\ returns (romfs_lookup fs node nm) /\
    returns (romfs_metadata fs node) /\ returns (romfs_read_at fs node off buf) /\
    returns (romfs_read_link fs node).
Proof.
  intros Hv. pose proof (romfs_open_wp src Hv) as Ho. split; [by eapply wp_returns|].
  intros fs Hfs node off buf nm Hn Hoff Hb. destruct (wp_Ok _ _ _ Ho Hfs) as [Hsrc _].
  rewrite <- Hsrc in Hv. pose proof (romfs_read_dir_wp fs node Hv Hn) as Hd.
  pose proof (resolved_header_wp (rf_src fs) node Hv Hn) as Hr. split_and!.
  - by eapply wp_returns.
  - unfold romfs_lookup. apply returns_bindR; [by eapply wp_returns|done].
  - unfold romfs_metadata. apply returns_bindR; [by eapply wp_returns|]. by intros [t h].
  - eapply wp_returns. by apply romfs_read_at_wp.
  - eapply wp_returns. by apply romfs_read_link_wp.
Qed.

(** A header written on the medium is read back: the next offset, the type
    without the exec bit, the info and size fields, the name, and the data offset
    just past the padded name. *)
Theorem romfs_header_roundtrip {S} `{ReliableSource S} (src : S)
    off next ftype info size checksum nm :
  let hb := header_bytes next ftype info size checksum nm in
  src_valid src -> 0 <= off -> off + zlen hb <= src_len src ->
  region (src_byte src) off (zlen hb) = hb ->
  0 <= next < 2 ^ 32 -> next mod 16 = 0 -> 0 <= ftype < 16 -> 0 <= info < 2 ^ 32 ->
  0 <= size < 2 ^ 32 -> 0 <= checksum < 2 ^ 32 ->
  zlen nm < MAX_NAME -> Forall (fun b => is_nul b = false) nm ->
  read_header src off
  = Ok (mkHeader next (ftype mod 8) info size (from_utf8_lossy nm) (off + zlen hb)).
Proof. apply read_written_header. Qed.

(** A directory whose children form a chain of at most a million headers is
    listed child by child in chain order, dot entries left out, every hard link
    standing for the header that at most eight links lead to. *)
Theorem romfs_read_dir_lists {S} `{SourceLaws S} (fs : Romfs S) dir t head l :
  src_valid (rf_src fs) -> 0 <= dir < 2 ^ 64 ->
  resolved_header (rf_src fs) dir = Ok (t, head) -> h_ftype head = FT_DIRECTORY ->
  Siblings (rf_src fs) (h_info head) l -> zlen l <= MAX_SIBLINGS ->
  romfs_read_dir fs dir = sibling_entries (rf_src fs) l /\
  forall off t h, resolved_header (rf_src fs) off = Ok (t, h) <->
    exists k, (k <= MAX_LINK_HOPS)%nat /\ LinkChain (rf_src fs) off k t h.
Proof.
  intros Hv Hdir Hres Hk Hs Hl. split.
  - by apply (read_dir_siblings fs dir t head l).
  - intros off t' h. unfold resolved_header. rewrite resolve_hops_iff.
    split; intros (k&?&?); exists k; (split; [lia|done]).
Qed.

(** A successful read of a file gives as many bytes as fit the buffer and are
    left of the size its (resolved) header records, and they are the medium's
    bytes from the header's data offset on. *)
Theorem romfs_read_at_content {S} `{SourceLaws S} (fs : Romfs S) node off buf n b :
  src_valid (rf_src fs) -> 0 <= node < 2 ^ 64 -> 0 <= off < 2 ^ 64 -> zlen buf < 2 ^ 63 ->
  romfs_read_at fs node off buf = Ok (n, b) ->
  zlen b = zlen buf /\ exists t h, resolved_header (rf_src fs) node = Ok (t, h) /\
    h_ftype h <> FT_DIRECTORY /\ n = Z.max 0 (Z.min (zlen buf) (h_size h - off)) /\
    sub b 0 n = region (src_byte (rf_src fs)) (h_data_off h + off) n.
Proof.
  intros Hv Hn Ho Hb Hr. exact (wp_Ok _ _ _ (romfs_read_at_wp fs node off buf Hv Hn Ho Hb) Hr).
Qed.

(** ** Witnesses: a volume with one file *)

Definition w_bytes : list byte :=
  MAGIC ++ zeros 8 ++ bytes_of "vol" ++ zeros 13 ++
  header_bytes 64 1 32 0 0 (bytes_of ".") ++ header_bytes 0 10 0 2 0 (bytes_of "a") ++
  bytes_of "hi" ++ zeros 14.
Definition w_src : SliceSource := mkSlice w_bytes.
Definition w_fs : Romfs SliceSource := mkRomfs w_src 32.

Lemma romfs_total_witness :
  romfs_open w_src = Ok w_fs /\ returns (romfs_read_dir w_fs 32) /\
  returns (romfs_read_at w_fs (2 ^ 64 - 1) 0 []).
Proof.
  assert (Ho : romfs_open w_src = Ok w_fs) by (vm_compute; reflexivity).
  destruct (romfs_total w_src) as [_ Hops]; [vm_compute; reflexivity|].
  split; [exact Ho|]. split.
  - apply (Hops w_fs Ho 32 0 [] []); [lia|lia|vm_compute; reflexivity].
  - apply (Hops w_fs Ho (2 ^ 64 - 1) 0 [] []); [lia|lia|vm_compute; reflexivity].
Defined.

Lemma romfs_header_roundtrip_witness :
  read_header w_src 64 = Ok (mkHeader 0 2 0 2 (bytes_of "a") 96).
Proof.
  etransitivity; [apply (romfs_header_roundtrip w_src 64 0 10 0 2 0 (bytes_of "a"))
                 |vm_compute; reflexivity];
    [vm_compute; reflexivity|lia|vm_compute; discriminate|vm_compute; reflexivity|lia|reflexivity
    |lia|lia|lia|lia|vm_compute; reflexivity|repeat constructor].
Defined.

Lemma romfs_read_dir_lists_witness :
  romfs_read_dir w_fs 32 = Ok [mkDirEntry (bytes_of "a") 64 Regular].
Proof.
  destruct (romfs_read_dir_lists w_fs 32 32 (mkHeader 64 1 32 0 (bytes_of ".") 64)
    [(32, mkHeader 64 1 32 0 (bytes_of ".") 64); (64, mkHeader 0 2 0 2 (bytes_of "a") 96)])
    as [Hd _]; [vm_compute; reflexivity|lia|vm_compute; reflexivity|reflexivity| |discriminate|].
  - apply Siblings_next; [discriminate|vm_compute; reflexivity|].
    apply Siblings_next; [discriminate|vm_compute; reflexivity|]. apply Siblings_end.
  - rewrite Hd. vm_compute. reflexivity.
Defined.

Lemma romfs_read_at_content_witness :
  sub (bytes_of "i?") 0 1 = region (src_byte w_src) 97 1.
Proof.
  destruct (romfs_read_at_content w_fs 64 1 (bytes_of "??") 1 (bytes_of "i?")) as (_&t&h&Hh&_&_&Hs);
    [vm_compute; reflexivity|lia|lia|vm_compute; reflexivity|vm_compute; reflexivity|].
  assert (Hr : resolved_header (rf_src w_fs) 64 = Ok (64, mkHeader 0 2 0 2 (bytes_of "a") 96))
    by (vm_compute; reflexivity).
  rewrite Hr in Hh. injection Hh as _ <-. exact Hs.
Defined.
