(* ===== verification/RomTree.v ===== *)
(** * A written romfs is the tree that was written

    The format from the writer's side: headers, hard links, sibling chains and file
    data as bytes of the medium, and the trees they make up; mounted and used by
    path such a volume is its tree. *)
From S2P Require Import Prelude Text Cache Substrate Path Tree Romfs.
Open Scope Z_scope.

(** ** Written volumes *)

(** The fields of a header; [wh_type] has the type in its low three bits. *)
Record WHeader : Type := mkW {
  wh_next : Z; wh_type : Z; wh_info : Z; wh_size : Z; wh_checksum : Z; wh_name : list byte;
}.
Definition wh_bytes (w : WHeader) : list byte :=
  header_bytes (wh_next w) (wh_type w) (wh_info w) (wh_size w) (wh_checksum w) (wh_name w).
Definition wh_ok (w : WHeader) : Prop :=
  0 <= wh_next w < 2 ^ 32 /\ wh_next w mod 16 = 0 /\ 0 <= wh_type w < 16 /\ 0 <= wh_info w < 2 ^ 32 /\
  0 <= wh_size w < 2 ^ 32 /\ 0 <= wh_checksum w < 2 ^ 32 /\
  zlen (wh_name w) < MAX_NAME /\ Forall (fun b => is_nul b = false) (wh_name w).
Definition wh_kind (w : WHeader) : FileKind := kind (wh_type w mod 8).

Section Media.
Context {S : Type} `{SourceLaws S} (src : S).

Definition header_at (off : Z) (w : WHeader) : Prop := wh_ok w /\ has src off (wh_bytes w).

(** [k] hard links lead from [off] to the header [w] at [t]. *)
Inductive leads : Z -> nat -> Z -> WHeader -> Prop :=
| Leads_here off w : header_at off w -> wh_type w mod 8 <> FT_HARDLINK -> leads off 0 off w
| Leads_hop off l k t w : header_at off l -> wh_type l mod 8 = FT_HARDLINK ->
    leads (wh_info l) k t w -> leads off (Datatypes.S k) t w.

(** The siblings from [off] on. *)
Inductive chain : Z -> list (Z * WHeader) -> Prop :=
| Chain_end : chain 0 []
| Chain_next off w l : off <> 0 -> header_at off w -> chain (wh_next w) l -> chain off ((off, w) :: l).

(** The node at [off]. *)
Inductive rom_tree : Z -> Tree -> Prop :=
| Rom_file off k t w c : leads off k t w -> (k <= MAX_LINK_HOPS)%nat -> wh_kind w = Regular ->
    zlen c = wh_size w -> has src (t + zlen (wh_bytes w)) c -> rom_tree off (TFile c)
| Rom_link off k t w c : leads off k t w -> (k <= MAX_LINK_HOPS)%nat -> wh_kind w = Symlink ->
    zlen c = wh_size w -> zlen c <= MAX_BOOT_FILE_BYTES -> has src (t + zlen (wh_bytes w)) c -> rom_tree off (TLink c)
| Rom_other off k t w c : leads off k t w -> (k <= MAX_LINK_HOPS)%nat -> wh_kind w = Other ->
    zlen c = wh_size w -> has src (t + zlen (wh_bytes w)) c -> rom_tree off (TOther c)
| Rom_dir off k t w l es : leads off k t w -> (k <= MAX_LINK_HOPS)%nat -> wh_kind w = Directory ->
    chain (wh_info w) l -> zlen l <= MAX_SIBLINGS ->
    Forall2 (fun c x => from_utf8_lossy (wh_name c.2) = x.1 /\ rom_tree c.1 x.2)
      (filter (fun c => is_dot (from_utf8_lossy (wh_name c.2)) = false) l) es ->
    rom_tree off (TDir es).

(** The volume header, before the root's. *)
Definition volume_at (vol : list byte) : Prop :=
  zlen vol < MAX_NAME /\ Forall (fun b => is_nul b = false) vol /\
  exists rest, zlen rest = 8 /\ has src 0 (MAGIC ++ rest ++ vol ++ [x00]).
Definition first_header (vol : list byte) : Z := 16 + align16 (zlen vol + 1).
End Media.

(** ** Lemmas *)

Section Refines.
Context {S : Type} `{SourceLaws S} `{!ReliableSource S} (src : S) (Hv : src_valid src).

Definition header_of (off : Z) (w : WHeader) : Header :=
  mkHeader (wh_next w) (wh_type w mod 8) (wh_info w) (wh_size w) (from_utf8_lossy (wh_name w))
    (off + zlen (wh_bytes w)).

Lemma header_at_read off w : header_at src off w -> read_header src off = Ok (header_of off w).
Proof. intros [(?&?&?&?&?&?&?&?) (?&?&?)]. by apply read_written_header. Qed.

Lemma leads_resolved off k t w : leads src off k t w -> (k <= MAX_LINK_HOPS)%nat ->
  resolved_header src off = Ok (t, header_of t w).
Proof.
  intros Hl Hk. apply resolve_hops_iff. exists k. split; [lia|]. clear Hk.
  induction Hl as [off w Hw Ht|off l k t w Hw Ht _ IH].
  - constructor; [by apply header_at_read|done].
  - econstructor; [by apply header_at_read|done|exact IH].
Qed.

Lemma leads_target off k t w : leads src off k t w -> leads src t 0 t w.
Proof. induction 1; [by constructor|done]. Qed.

Lemma leads_at off k t w : leads src off k t w -> header_at src t w.
Proof. by induction 1. Qed.

(** A node is what its hard links lead to. *)
Lemma rom_tree_resolved off t :
  rom_tree src off t -> exists o w, resolved_header src off = Ok (o, header_of o w) /\ header_at src o w /\
    wh_kind w = tree_kind t /\ rom_tree src o t.
Proof.
  intros Ht. assert (exists k o w, leads src off k o w /\ (k <= MAX_LINK_HOPS)%nat /\ wh_kind w = tree_kind t /\
    rom_tree src o t) as (k&o&w&Hl&Hk&?&?).
  { destruct Ht as [off k o w c Hl|off k o w c Hl|off k o w c Hl|off k o w l es Hl]; exists k, o, w;
      (split; [done|]); (split; [done|]); (split; [done|]); apply leads_target in Hl;
      [eapply Rom_file|eapply Rom_link|eapply Rom_other|eapply Rom_dir]; try done; unfold MAX_LINK_HOPS; lia. }
  exists o, w. split; [by eapply leads_resolved|]. split; [by eapply leads_at|done].
Qed.

Lemma chain_siblings off l : chain src off l ->
  Siblings src off ((fun c => (c.1, header_of c.1 c.2)) <$> l).
Proof.
  induction 1 as [|off w l Hne Hw _ IH]; [constructor|]. cbn [fmap list_fmap fst snd].
  econstructor; [done|by apply header_at_read|exact IH].
Qed.

(** The listing of a chain, whose nodes stand for the trees it was written for. *)
Lemma sibling_entries_written (l : list (Z * WHeader)) es :
  Forall2 (fun c x => from_utf8_lossy (wh_name c.2) = x.1 /\ rom_tree src c.1 x.2)
    (filter (fun c => is_dot (from_utf8_lossy (wh_name c.2)) = false) l) es ->
  exists out, sibling_entries src ((fun c => (c.1, header_of c.1 c.2)) <$> l) = Ok out /\
    Forall2 (fun e x => de_name e = x.1 /\ de_kind e = tree_kind x.2 /\ rom_tree src (de_node e) x.2) out es.
Proof.
  revert es. induction l as [|[o w] l IH]; intros es HF; cbn [fmap list_fmap sibling_entries fst snd header_of h_name].
  { inversion HF; subst. exists []. split; [done|constructor]. }
  destruct (is_dot _) eqn:Ed.
  - rewrite filter_cons_False in HF by (cbn [snd]; by rewrite Ed). by apply IH.
  - rewrite filter_cons_True in HF by (cbn [snd]; by rewrite Ed).
    inversion HF as [|? x ? es' [Hn Ht] HF']; subst. cbn [fst snd] in Hn, Ht.
    destruct (rom_tree_resolved _ _ Ht) as (t&w'&->&_&Hk&Ht'). cbn [bindR].
    destruct (IH _ HF') as (out&->&HO). cbn [bindR]. eexists. split; [reflexivity|].
    constructor; [|done]. cbn. done.
Qed.

(** Where a node can be. *)
Lemma rom_tree_range off t : rom_tree src off t -> 0 <= off < 2 ^ 64.
Proof.
  assert (forall k t w, leads src off k t w -> 0 <= off < 2 ^ 64) as Hl.
  { pose proof (src_len_range src Hv). intros k t' w Hl.
    assert (exists w, header_at src off w) as [w' (_&?&?&_)] by (destruct Hl; eauto).
    pose proof (zlen_nonneg (wh_bytes w')). lia. }
  intros Ht. destruct Ht; by eapply Hl.
Qed.

Lemma rom_read_dir fs off t : rf_src fs = src -> rom_tree src off t ->
  match t with
  | TDir es => exists out, romfs_read_dir fs off = Ok out /\
      Forall2 (fun e x => de_name e = x.1 /\ de_kind e = tree_kind x.2 /\ rom_tree src (de_node e) x.2) out es
  | _ => romfs_read_dir fs off = Err NotDirectory
  end.
Proof.
  intros Hs Ht. pose proof (rom_tree_range _ _ Ht) as Hr.
  assert (Hd : forall es, t = TDir es -> exists o w l, resolved_header src off = Ok (o, header_of o w) /\
    wh_kind w = Directory /\ chain src (wh_info w) l /\ zlen l <= MAX_SIBLINGS /\
    Forall2 (fun c x => from_utf8_lossy (wh_name c.2) = x.1 /\ rom_tree src c.1 x.2)
      (filter (fun c => is_dot (from_utf8_lossy (wh_name c.2)) = false) l) es).
  { clear Hs. intros es ->. inversion Ht as [| | |? k o w l ? Hl Hk Hkd Hc Hn HF]; subst. exists o, w, l.
    split; [by eapply leads_resolved|done]. }
  destruct (rom_tree_resolved _ _ Ht) as (o&w&Ho&_&Hk&_).
  assert (Hkind : kind (h_ftype (header_of o w)) = tree_kind t) by done.
  destruct t as [c|es|tg|]; cbn [tree_kind] in Hkind.
  2:{ destruct (Hd es eq_refl) as (o'&w'&l&Ho'&Hkd&Hc&Hn&HF).
    destruct (sibling_entries_written l es HF) as (out&Hout&HO). exists out. split; [|done].
    rewrite <- Hout, <- Hs. apply (read_dir_siblings fs off o' (header_of o' w')); rewrite ?Hs; try done.
    - unfold wh_kind, kind in Hkd. by destruct (Z.eqb_spec (wh_type w' mod 8) FT_DIRECTORY); repeat case_match.
    - by apply chain_siblings.
    - unfold zlen in *. by rewrite length_fmap. }
  all: unfold romfs_read_dir; rewrite Hs, Ho; cbn [bindR]; unfold kind in Hkind;
    by destruct (h_ftype (header_of o w) =? FT_DIRECTORY).
Qed.

Lemma rom_metadata fs off t : rf_src fs = src -> rom_tree src off t ->
  exists md, romfs_metadata fs off = Ok md /\ md_kind md = tree_kind t /\ size_of t (md_size md).
Proof.
  intros Hs Ht. unfold romfs_metadata. rewrite Hs. clear Hs.
  destruct Ht as [off k o w c Hl Hk Hkd Hz|off k o w c Hl Hk Hkd|off k o w c Hl Hk Hkd Hz|off k o w l es Hl Hk Hkd];
    rewrite (leads_resolved _ _ _ _ Hl Hk); cbn [bindR]; eexists; (split; [reflexivity|]);
    (split; [exact Hkd|]); intros c'; cbn; congruence.
Qed.

Lemma rom_read_link fs off target : rf_src fs = src -> rom_tree src off (TLink target) ->
  romfs_read_link fs off = Ok (Some target).
Proof.
  intros Hs Ht. unfold romfs_read_link. rewrite Hs. clear Hs.
  inversion Ht as [|? k o w ? Hl Hk Hkd Hz Hcap (?&?&Hreg)| |]; subst.
  rewrite (leads_resolved _ _ _ _ Hl Hk). cbn [bindR header_of h_ftype h_size h_data_off].
  assert (wh_type w mod 8 = FT_SYMLINK) as ->.
  { unfold wh_kind, kind in Hkd. repeat case_match; try done. by apply Z.eqb_eq. }
  rewrite Z.eqb_refl, (proj2 (checked_full_Ok (wh_size w) (zlen target))) by lia. cbn [negb bindR].
  pose proof (zlen_nonneg target). pose proof (src_len_range src Hv).
  by rewrite src_read_in_range, Hreg by (done || lia).
Qed.

Lemma rom_read_at fs off t c o buf : rf_src fs = src -> rom_tree src off t -> content_of t = Some c ->
  0 <= o <= zlen c -> zlen buf < 2 ^ 63 ->
  exists r, romfs_read_at fs off o buf = Ok r /\ part_of o buf r c.
Proof.
  intros Hs Ht Hc Ho Hb. unfold romfs_read_at. rewrite Hs. clear Hs.
  assert (exists k o w, leads src off k o w /\ (k <= MAX_LINK_HOPS)%nat /\ wh_kind w <> Directory /\
    zlen c = wh_size w /\ has src (o + zlen (wh_bytes w)) c) as (k&p&w&Hl&Hk&Hkd&Hz&?&?&Hreg).
  { destruct Ht as [off k p w ? Hl Hk Hkd|off k p w ? Hl Hk Hkd|off k p w ? Hl Hk Hkd|off k p w ? ? Hl Hk Hkd];
      try done; injection Hc as <-; exists k, p, w; rewrite Hkd; done. }
  clear Ht. rewrite (leads_resolved _ _ _ _ Hl Hk). cbn [bindR header_of h_ftype h_size h_data_off].
  assert (wh_type w mod 8 <> FT_DIRECTORY) as Hd.
  { intros E. unfold wh_kind, kind in Hkd. by rewrite E in Hkd. }
  rewrite (proj2 (Z.eqb_neq _ _) Hd), <- Hz, Z.geb_leb. pose proof (zlen_nonneg buf). pose proof (src_len_range src Hv).
  destruct (Z.leb_spec (zlen c) o).
  { eexists. split; [reflexivity|]. apply empty_part; lia. }
  rewrite subw_eq by lia. cbn [bindR]. rewrite addw_eq by lia. cbn [bindR].
  set (n := Z.min (zlen buf) (zlen c - o)). set (d := p + zlen (wh_bytes w)) in *.
  destruct (read_front_Ok src (d + o) buf n) as (b&->&Hbz&Hsub); try done; try lia.
  cbn [bindR]. eexists. split; [reflexivity|]. apply full_part; [lia|done|]. fold n. rewrite Hsub.
  rewrite <- sub_region with (n := zlen c) by lia. by rewrite Hreg.
Qed.

(** ** The frontend holds the tree *)

Definition rom_stands (s : Romfs S * SubstrateCtx) (n : NodeId) (t : Tree) : Prop :=
  rf_src s.1 = src /\ rom_tree src n t.

Lemma rom_implements_read_dir s n t : rom_stands s n t ->
  implements rom_stands (fun s' => Forall2 (lists rom_stands s')) (read_dir n)
    (match t with TDir es => Ok es | _ => Err NotDirectory end) s.
Proof.
  destruct s as [fs cx]. intros [Hs Ht]. cbn [fst] in Hs.
  apply (implements_here _ _ _ (romfs_read_dir fs n)); [reflexivity|].
  pose proof (rom_read_dir fs n t Hs Ht) as Hd. destruct t; try done.
  destruct Hd as (out&->&HF). exists out. split; [done|]. eapply Forall2_impl; [exact HF|].
  intros e x (?&?&?). split; [done|]. by split.
Qed.

#[export] Instance RomTree : TreeFs (Romfs S) S rom_stands.
Proof.
  split.
  - intros [fs cx] n t nm Hs.
    apply lookup_searches; [|by apply rom_implements_read_dir].
    cbn [lookup_ read_dir Romfs_Frontend]. unfold on_self, romfs_lookup, bindST. by destruct (romfs_read_dir fs n).
  - apply rom_implements_read_dir.
  - intros [fs cx] n t [Hs Ht]. destruct (rom_metadata fs n t Hs Ht) as (md&E&?&?).
    apply (implements_here _ _ _ (Ok md)); [cbn [metadata Romfs_Frontend]; unfold on_self; by rewrite E|].
    by exists md.
  - intros [fs cx] n target [Hs Ht]. apply (implements_here _ _ _ (romfs_read_link fs n)); [reflexivity|].
    rewrite (rom_read_link fs n target Hs Ht). by eexists.
  - intros [fs cx] n t c off buf [Hs Ht] Hc _ Ho Hb. destruct (rom_read_at fs n t c off buf Hs Ht Hc Ho Hb) as (r&E&Hp).
    apply (implements_here _ _ _ (Ok r)); [cbn [read_at Romfs_Frontend]; unfold on_self; by rewrite E|].
    by exists r.
Qed.

Lemma rom_open vol : volume_at src vol -> romfs_open src = Ok (mkRomfs src (first_header vol)).
Proof.
  intros (Hlen&Hnul&rest&Hrest&_&Hin&Hreg). unfold MAX_NAME in Hlen.
  pose proof (zlen_nonneg vol). pose proof (src_len_range src Hv).
  set (hd := MAGIC ++ rest ++ vol ++ [x00]) in *.
  assert (Hz : zlen hd = 17 + zlen vol) by (unfold hd; rewrite !zlen_app, Hrest; change (zlen MAGIC) with 8; change (zlen [x00]) with 1; lia).
  unfold romfs_open, MAX_NAME. rewrite (proj2 (Z.ltb_ge _ _)) by lia. set (avail := Z.min _ _).
  destruct (read_front_Ok src 0 (zeros (16 + 256)) avail) as (b&->&Hbz&Hb);
    rewrite ?zlen_zeros in * by lia; try done; try lia. cbn [bindR].
  assert (Hav : zlen hd <= avail) by lia.
  assert (Hpre : sub b 0 avail = hd ++ region (src_byte src) (zlen hd) (avail - zlen hd)).
  { rewrite Hb. replace avail with (zlen hd + (avail - zlen hd)) at 1 by lia. rewrite region_split, Hreg by lia. done. }
  set (tl := region _ (zlen hd) _) in *.
  assert (Hsub : forall lo n, 0 <= lo -> 0 <= n -> lo + n <= avail -> sub b lo n = sub (hd ++ tl) lo n).
  { intros lo n ? ? ?. rewrite <- Hpre, sub_sub by lia. done. }
  assert (Happ : hd ++ tl = (MAGIC ++ rest) ++ vol ++ x00 :: tl) by (unfold hd; by rewrite <- !app_assoc).
  assert (Hp : zlen (MAGIC ++ rest) = 16) by (rewrite zlen_app, Hrest; done).
  rewrite slice_eq by lia. cbn [bindR]. rewrite Hsub, Happ by lia. change (8 - 0) with (zlen MAGIC).
  rewrite <- !app_assoc, sub_0_app, bool_decide_eq_true_2 by done. cbn [negb].
  rewrite slice_eq by lia. cbn [bindR]. rewrite Hsub, Happ by lia.
  rewrite sub_app_r, Hp by lia. change (16 - 16) with 0.
  assert (Hall : sub (vol ++ x00 :: tl) 0 (avail - 16) = vol ++ x00 :: tl).
  { rewrite <- (sub_all (vol ++ x00 :: tl)) at 2. f_equal. unfold tl. rewrite zlen_app, zlen_cons, zlen_region; lia. }
  rewrite Hall, position_first by done. done.
Qed.

(** C15.  A romfs volume is the tree written on it.  On a medium with a volume header
    and a tree of headers below it, whatever session of reads, listings and queries
    by path, the mounted volume gives the answers of the abstract file system,
    errors included: files whole, entries in order and with their kinds, hard links
    and symbolic links followed. *)
Theorem romfs_refines_tree vol top cx ops :
  volume_at src vol -> rom_tree src (first_header vol) top -> tree_kind top = Directory ->
  exists fs, romfs_open src = Ok fs /\ session (F := Romfs S) (S := S) ops (fs, cx) = tree_op top <$> ops.
Proof.
  intros Hvol Ht Hd. exists (mkRomfs src (first_header vol)). split; [by apply rom_open|].
  by apply (session_refines top Hd).
Qed.
End Refines.

(** ** Witness: a volume with a directory, a file, a hard link and a symbolic link *)

Definition rw_dot : WHeader := mkW 64 9 32 0 0 (bytes_of ".").
Definition rw_a : WHeader := mkW 112 10 0 2 7 (bytes_of "a").
Definition rw_d : WHeader := mkW 144 9 176 0 0 (bytes_of "d").
Definition rw_b : WHeader := mkW 0 0 64 0 0 (bytes_of "b").
Definition rw_l : WHeader := mkW 0 3 0 2 0 (bytes_of "l").
Definition rw_image : list byte :=
  MAGIC ++ zeros 8 ++ bytes_of "vol" ++ zeros 13 ++ wh_bytes rw_dot ++
  wh_bytes rw_a ++ bytes_of "hi" ++ zeros 14 ++ wh_bytes rw_d ++ wh_bytes rw_b ++
  wh_bytes rw_l ++ bytes_of "/a" ++ zeros 14.
Definition rw_src : SliceSource := mkSlice rw_image.
Definition rw_tree : Tree :=
  TDir [(bytes_of "a", TFile (bytes_of "hi")); (bytes_of "d", TDir [(bytes_of "l", TLink (bytes_of "/a"))]);
        (bytes_of "b", TFile (bytes_of "hi"))].

Lemma rw_header off w : bool_decide (header_at rw_src off w) = true -> header_at rw_src off w.
Proof. apply bool_decide_eq_true. Qed.

Lemma rw_has off bytes : bool_decide (has rw_src off bytes) = true -> has rw_src off bytes.
Proof. apply bool_decide_eq_true. Qed.

Lemma rw_file off k : leads rw_src off k 64 rw_a -> (k <= MAX_LINK_HOPS)%nat ->
  rom_tree rw_src off (TFile (bytes_of "hi")).
Proof.
  intros Hl Hk. apply (Rom_file _ off k 64 rw_a); [done|done|vm_compute; reflexivity..|].
  apply rw_has. vm_compute. reflexivity.
Qed.

Ltac rw_leads := apply Leads_here; [apply rw_header; vm_compute; reflexivity|vm_compute; discriminate].
Ltac rw_chain :=
  repeat (apply Chain_next; [discriminate|apply rw_header; vm_compute; reflexivity|]); apply Chain_end.

Lemma rw_a_leads : leads rw_src 64 0 64 rw_a.
Proof. rw_leads. Qed.

Lemma rw_holds : rom_tree rw_src 32 rw_tree.
Proof.
  apply (Rom_dir _ 32 0 32 rw_dot [(32, rw_dot); (64, rw_a); (112, rw_d); (144, rw_b)]);
    [rw_leads|lia|reflexivity|rw_chain|vm_compute; discriminate|].
  change (filter _ _) with [(64, rw_a); (112, rw_d); (144, rw_b)].
  apply Forall2_cons; split; [split; [reflexivity|]|apply Forall2_cons; split; [split; [reflexivity|]
    |apply Forall2_cons; split; [split; [reflexivity|]|apply Forall2_nil_2]]].
  - apply (rw_file 64 0); [exact rw_a_leads|lia].
  - apply (Rom_dir _ 112 0 112 rw_d [(176, rw_l)]); [rw_leads|lia|reflexivity|rw_chain|vm_compute; discriminate|].
    change (filter _ _) with [(176, rw_l)]. apply Forall2_cons. split; [split; [reflexivity|]|apply Forall2_nil_2].
    apply (Rom_link _ 176 0 176 rw_l); [rw_leads|lia|vm_compute; reflexivity|vm_compute; reflexivity|vm_compute; discriminate|].
    apply rw_has. vm_compute. reflexivity.
  - apply (rw_file 144 1); [|unfold MAX_LINK_HOPS; lia].
    apply (Leads_hop _ 144 rw_b); [apply rw_header; vm_compute; reflexivity|reflexivity|exact rw_a_leads].
Qed.

Lemma rw_volume : volume_at rw_src (bytes_of "vol").
Proof.
  split; [reflexivity|]. split; [repeat constructor|]. exists (zeros 8). split; [reflexivity|].
  apply rw_has. vm_compute. reflexivity.
Qed.

Lemma rw_valid : src_valid rw_src.
Proof. vm_compute. reflexivity. Qed.

Lemma romfs_refines_tree_witness :
  exists fs, romfs_open rw_src = Ok fs /\
    session (F := Romfs SliceSource) (S := SliceSource)
      [OpRead (bytes_of "b"); OpList (bytes_of "/"); OpRead (bytes_of "/d/l"); OpStat (bytes_of "d/x")] (fs, mock_ctx)
    = [Ok (ABytes (bytes_of "hi"));
       Ok (AList [(bytes_of "a", Regular); (bytes_of "d", Directory); (bytes_of "b", Regular)]);
       Ok (ABytes (bytes_of "hi")); Err NotFound].
Proof.
  destruct (romfs_refines_tree rw_src rw_valid (bytes_of "vol") rw_tree mock_ctx
    [OpRead (bytes_of "b"); OpList (bytes_of "/"); OpRead (bytes_of "/d/l"); OpStat (bytes_of "d/x")]) as (fs&Ho&Hs);
    [exact rw_volume|exact rw_holds|reflexivity|].
  exists fs. split; [exact Ho|]. rewrite Hs. vm_compute. reflexivity.
Defined.
