(* ===== verification/Cramfs.v ===== *)
(** * The cramfs reader ([crates/lamfold-cramfs/src/cramfs.rs])

    Bitfield-packed inodes, directories as runs of records, files as a block
    index followed by zlib pages.  The inflater is that of [Codec.Decoders]. *)
From S2P Require Import Prelude Text Cache Substrate Path Codec.
Open Scope Z_scope.

Definition MAGIC : Z := 0x28CD3D45.
Definition ROOT_INODE_OFF : Z := 64.
Definition PAGE : Z := 4096.
Definition FLAG_EXT_BLOCK_POINTERS : Z := 0x800.

Record CrInode : Type := mkCrInode { ci_mode : Z; ci_size : Z; ci_namelen : Z; ci_data_off : Z }.

(** [u32::from_le_bytes([b[o], b[o + 1], b[o + 2], b[o + 3]])]. *)
Definition u32_at (b : list byte) (o : Z) : Res Z :=
  let! w := slice b o (o + 4) in Ok (le_num w).

(** [u32::swap_bytes]. *)
Definition swap_bytes (z : Z) : Z := be_num (le_bytes 4 z).

Definition kind (mode : Z) : FileKind :=
  let t := Z.land mode 0xF000 in
  if t =? 0x8000 then Regular
  else if t =? 0x4000 then Directory
  else if t =? 0xA000 then Symlink
  else Other.

Section Cramfs.
Context {D : Decoders} {S : Type} `{BlockSource S}.

Record Cramfs : Type := mkCramfs { cr_src : S }.

Definition parse_inode (src : S) (off : Z) : Res CrInode :=
  let! b := src_read_at src off 12 in
  let! w0 := u32_at b 0 in
  let! w1 := u32_at b 4 in
  let! w2 := u32_at b 8 in
  Ok (mkCrInode (Z.land w0 0xFFFF mod 2 ^ 16) (Z.land w1 0x00FFFFFF) (Z.land w2 0x3F * 4)
        (Z.shiftr w2 6 * 4)).

(** One page of [read_whole]; the state is the output and the start of the page. *)
Definition page_step (src : S) (idx : list byte) (total : Z) (i : Z) (s : list byte * Z)
    : Res (list byte * Z) :=
  let '(out, start) := s in
  let! end_ := u32_at idx (i * 4) in
  let! room := subw total (zlen out) in
  let want := Z.min PAGE room in
  if end_ <=? start then Ok (out ++ zeros want, end_)
  else
    let! comp := src_read_at src start (end_ - start) in
    let! page := decode Zlib comp want in
    Ok (out ++ page, end_).

Definition read_whole (src : S) (inode : CrInode) : Res (list byte) :=
  let! total := checked_full_read_len (ci_size inode) in
  if total =? 0 then Ok []
  else
    let nblocks := div_ceil (ci_size inode) PAGE in
    let! idx := src_read_at src (ci_data_off inode) (nblocks * 4) in
    let! start := addw 64 (ci_data_off inode) (nblocks * 4) in
    let! (out, _) := for_loop (Z.to_nat nblocks) 0 (page_step src idx total) ([], start) in
    Ok (take (Z.to_nat total) out).

Definition cramfs_probe (src : S) : Res bool :=
  if src_len src <? ROOT_INODE_OFF + 12 then Ok false
  else let! m := src_read_at src 0 4 in Ok (le_num m =? MAGIC).

Definition cramfs_open (src : S) : Res Cramfs :=
  if src_len src <? ROOT_INODE_OFF + 12 then Err (Corrupt "cramfs: shorter than superblock")
  else
    let! head := src_read_at src 0 12 in
    let! magic := u32_at head 0 in
    if negb (magic =? MAGIC) then
      Err (if swap_bytes magic =? MAGIC then Unsupported "cramfs: big-endian image"
           else Corrupt "cramfs: bad magic")
    else
      let! flags := u32_at head 8 in
      if negb (Z.land flags FLAG_EXT_BLOCK_POINTERS =? 0)
      then Err (Unsupported "cramfs: EXT_BLOCK_POINTERS extension")
      else Ok (mkCramfs src).

(** [name.split(|&b| b == 0).next()]. *)
Definition first_segment (nm : list byte) : list byte :=
  match position (fun b => u8 b =? 0) nm with Some i => sub nm 0 i | None => nm end.

(** One turn of the [while p < end] loop of [read_dir]. *)
Definition dir_round (src : S) (end_ : Z) (s : Z * list DirEntry)
    : Res ((Z * list DirEntry) + list DirEntry) :=
  let '(p, out) := s in
  if negb (p <? end_) then Ok (inr out)
  else
    let! child := parse_inode src p in
    let! q := addw 64 p 12 in
    let! nm := src_read_at src q (ci_namelen child) in
    let out := out ++ [mkDirEntry (from_utf8_lossy (first_segment nm)) p (kind (ci_mode child))] in
    let! p := addw 64 p (12 + ci_namelen child) in
    Ok (inl (p, out)).

Definition cramfs_read_dir (fs : Cramfs) (dir : NodeId) : Res (list DirEntry) :=
  let! inode := parse_inode (cr_src fs) dir in
  if negb (bool_decide (kind (ci_mode inode) = Directory)) then Err NotDirectory
  else
    let! end_ := addw 64 (ci_data_off inode) (ci_size inode) in
    loop (dir_round (cr_src fs) end_) (ci_data_off inode, []).

Definition cramfs_lookup (fs : Cramfs) (dir : NodeId) (nm : name) : Res (option NodeId) :=
  let! es := cramfs_read_dir fs dir in Ok (find_entry nm es).

Definition cramfs_metadata (fs : Cramfs) (node : NodeId) : Res Metadata :=
  let! inode := parse_inode (cr_src fs) node in
  Ok (mkMetadata (kind (ci_mode inode)) (ci_size inode) (Z.land (ci_mode inode) 4095)).

Definition cramfs_read_at (fs : Cramfs) (node : NodeId) (off : Z) (buf : list byte)
    : Res (Z * list byte) :=
  let! inode := parse_inode (cr_src fs) node in
  if bool_decide (kind (ci_mode inode) = Directory) then Err IsDirectory
  else if off >=? ci_size inode then Ok (0, buf)
  else
    let! data := read_whole (cr_src fs) inode in
    let start := off in
    let n := Z.min (zlen buf) (saturating_sub (zlen data) start) in
    let! chunk := slice data start (start + n) in
    let! buf := write_at buf 0 chunk in
    Ok (n, buf).

Definition cramfs_read_link (fs : Cramfs) (node : NodeId) : Res (option (list byte)) :=
  let! inode := parse_inode (cr_src fs) node in
  if negb (bool_decide (kind (ci_mode inode) = Symlink)) then Ok None
  else
    let! data := read_whole (cr_src fs) inode in
    Ok (Some data).
End Cramfs.
Arguments Cramfs S : clear implicits.

#[export] Instance Cramfs_Frontend {D : Decoders} {S} `{BlockSource S} : FoldFrontend (Cramfs S) S := {
  TAG := "cramfs";
  probe := cramfs_probe;
  open_ src cx := (cramfs_open src, cx);
  root _ := ROOT_INODE_OFF;
  lookup_ d nm := on_self (fun fs => cramfs_lookup fs d nm);
  read_dir d := on_self (fun fs => cramfs_read_dir fs d);
  metadata n := on_self (fun fs => cramfs_metadata fs n);
  read_at n off buf := on_self (fun fs => cramfs_read_at fs n off buf);
  read_link n := on_self (fun fs => cramfs_read_link fs n);
}.

(** ** Lemmas *)

Lemma u32_at_wp b o P : 0 <= o -> o + 4 <= zlen b ->
  (0 <= le_num (sub b o 4) < 2 ^ 32 -> P (le_num (sub b o 4))) -> wp (u32_at b o) P.
Proof.
  intros Ho Hb HP. unfold u32_at. apply wp_bind, wp_slice; [lia|lia|].
  replace (o + 4 - o) with 4 by lia. apply HP.
  pose proof (le_num_range (sub b o 4)) as Hr. by rewrite zlen_sub in Hr by lia.
Qed.

Section Laws.
Context {D : Decoders} {DL : DecoderLaws D} {S : Type} `{SourceLaws S}.
Implicit Types src : S.

Definition inode_ok (i : CrInode) : Prop :=
  0 <= ci_mode i < 2 ^ 16 /\ 0 <= ci_size i < 2 ^ 24 /\ 0 <= ci_namelen i < 256 /\
  0 <= ci_data_off i < 2 ^ 28.

Lemma parse_inode_wp src off : src_valid src -> 0 <= off < 2 ^ 64 ->
  wp (parse_inode src off) (fun i => inode_ok i /\ off + 12 <= src_len src).
Proof.
  intros Hv Ho. unfold parse_inode. apply wp_bind, wp_read; [done|lia|lia|]. intros b _ Hb Hend.
  do 3 (apply wp_bind, u32_at_wp; [lia|lia|]; intros ?). cbn [wpx]. split; [|done].
  unfold inode_ok. cbn [ci_mode ci_size ci_namelen ci_data_off].
  set (w2 := le_num (sub b 8 4)) in *.
  pose proof (land_range (le_num (sub b 4 4)) 0x00FFFFFF ltac:(lia)).
  pose proof (land_range w2 0x3F ltac:(lia)).
  pose proof (Z.mod_pos_bound (Z.land (le_num (sub b 0 4)) 0xFFFF) (2 ^ 16) ltac:(lia)).
  assert (Hs : 0 <= Z.shiftr w2 6 < 2 ^ 26).
  { rewrite Z.shiftr_div_pow2 by lia. split; [apply Z.div_pos; lia|].
    apply Z.div_lt_upper_bound; [lia|]. change (2 ^ 6 * 2 ^ 26) with (2 ^ 32). lia. }
  change (2 ^ 28) with (2 ^ 26 * 4). lia.
Qed.

Lemma page_step_wp src idx total i out start nblocks :
  src_valid src -> 0 <= i < nblocks -> zlen idx = nblocks * 4 -> 0 <= start < 2 ^ 63 ->
  zlen out <= total -> total < 2 ^ 63 ->
  wp (page_step src idx total i (out, start)) (fun '(out', end_) =>
    0 <= end_ < 2 ^ 63 /\ zlen out' <= total).
Proof.
  intros Hv Hi Hidx Hst Hout Ht. unfold page_step. pose proof (zlen_nonneg out).
  apply wp_bind, u32_at_wp; [lia|lia|]. intros He. set (e := le_num _) in *.
  apply wp_bind, wp_subw; [lia|]. destruct (Z.leb_spec e start).
  - cbn [wpx]. rewrite zlen_app, zlen_zeros by (unfold PAGE; lia). lia.
  - apply wp_bind, wp_read; [done|lia|lia|]. intros comp _ _ _.
    set (want := Z.min PAGE (total - zlen out)).
    assert (0 <= want) by (unfold want, PAGE; lia).
    apply wp_bind, (wp_mono _ (fun page => zlen page <= want)).
    + apply wp_iff. split; [by apply decode_returns|]. intros page Hp. by eapply decode_len.
    + intros page Hp. cbn [wpx]. rewrite zlen_app. unfold want in Hp. lia.
Qed.

Lemma read_whole_wp src inode : src_valid src -> inode_ok inode ->
  wp (read_whole src inode) (fun data => zlen data <= ci_size inode).
Proof.
  intros Hv (_&Hs&_&Hd). unfold read_whole. apply wp_bind, wp_checked_full. intros _.
  destruct (Z.eqb_spec (ci_size inode) 0) as [E|]; [cbn; rewrite zlen_nil; lia|].
  set (nb := div_ceil (ci_size inode) PAGE).
  assert (Hnb : 0 <= nb <= 4096).
  { unfold nb, PAGE. split; [apply div_ceil_nonneg; lia|].
    destruct (div_ceil_spec (ci_size inode) 4096 ltac:(lia) ltac:(lia)) as [?|[? ->]]; lia. }
  apply wp_bind, wp_read; [done|lia|lia|]. intros idx _ Hidx _.
  apply wp_bind, wp_addw; [lia|]. apply wp_bind.
  apply (wp_for_loop (fun _ s => 0 <= s.2 < 2 ^ 63 /\ zlen s.1 <= ci_size inode)).
  - cbn [fst snd]. rewrite zlen_nil. lia.
  - intros j [out start] Hj [Hst Ho]. cbn [fst snd] in *.
    eapply wp_mono; [apply (page_step_wp src idx _ j out start nb); try done; lia|].
    by intros [out' e].
  - intros [out e] [_ Ho]. cbn [wpx fst] in *. unfold zlen in *. rewrite length_take. lia.
Qed.

(** Listings hold only node handles of 64 bits. *)
Definition listing_ok (es : list DirEntry) : Prop := Forall (fun e => 0 <= de_node e < 2 ^ 64) es.

Lemma cramfs_dir_round_wp src end_ p out : src_valid src -> end_ < 2 ^ 63 -> 0 <= p < 2 ^ 64 -> listing_ok out ->
  wp (dir_round src end_ (p, out)) (fun r => match r with
    | inl (p', out') => p < p' < 2 ^ 64 /\ p < end_ /\ listing_ok out' | inr es => listing_ok es end).
Proof.
  intros Hv He Hp Ho. unfold dir_round. destruct (Z.ltb_spec p end_); cbn [negb]; [|done].
  apply wp_bind. eapply wp_mono; [by apply parse_inode_wp|]. intros child [(_&_&Hn&_) _].
  apply wp_bind, wp_addw; [lia|]. apply wp_bind, wp_read; [done|lia|lia|]. intros nm _ _ _.
  apply wp_bind, wp_addw; [lia|]. cbn [wpx]. split; [lia|]. split; [lia|].
  apply Forall_app. split; [done|by apply Forall_singleton].
Qed.

Lemma cramfs_read_dir_wp fs dir : src_valid (cr_src fs) -> 0 <= dir < 2 ^ 64 ->
  wp (cramfs_read_dir fs dir) listing_ok.
Proof.
  intros Hv Hd. unfold cramfs_read_dir. apply wp_bind.
  eapply wp_mono; [by apply parse_inode_wp|]. intros inode [(_&Hs&_&Hdo) _].
  destruct (negb _); [done|]. apply wp_bind, wp_addw; [lia|].
  set (end_ := ci_data_off inode + ci_size inode).
  apply (wp_loop _ (fun s => 0 <= s.1 < 2 ^ 64 /\ listing_ok s.2) (fun s => Z.max 0 (end_ - s.1))).
  - cbn [fst snd]. split; [lia|constructor].
  - cbn [fst]. lia.
  - intros [p out] [Hp Ho]. cbn [fst snd] in *. split; [lia|].
    eapply wp_mono; [apply cramfs_dir_round_wp; [done|lia|done|done]|].
    intros [[p' out']|es]; [|done]. cbn [fst snd]. intros (?&?&?). split; [split; [lia|done]|lia].
Qed.

Lemma cramfs_read_link_wp fs node : src_valid (cr_src fs) -> 0 <= node < 2 ^ 64 ->
  wp (cramfs_read_link fs node) (fun _ => True).
Proof.
  intros Hv Hn. unfold cramfs_read_link. apply wp_bind. eapply wp_mono; [by apply parse_inode_wp|].
  intros inode [Hok _]. destruct (negb _); [done|]. apply wp_bind. by eapply wp_mono; [by apply read_whole_wp|].
Qed.

(** What [read_at] does once the file is inflated: past the recorded size it
    reads nothing, inside the inflated data it copies, and between the two it
    panics. *)
Lemma read_at_data fs node off buf inode data :
  parse_inode (cr_src fs) node = Ok inode -> kind (ci_mode inode) <> Directory ->
  0 <= off < ci_size inode -> read_whole (cr_src fs) inode = Ok data ->
  (off <= zlen data ->
   exists n b, cramfs_read_at fs node off buf = Ok (n, b) /\ zlen b = zlen buf /\
     n = Z.min (zlen buf) (zlen data - off) /\ sub b 0 n = sub data off n) /\
  (zlen data < off -> cramfs_read_at fs node off buf = Panic).
Proof.
  intros Hi Hk Ho Hd. unfold cramfs_read_at. rewrite Hi. cbn [bindR].
  rewrite bool_decide_eq_false_2 by done. rewrite Z.geb_leb, (proj2 (Z.leb_gt _ _)) by lia.
  rewrite Hd. cbn [bindR]. unfold saturating_sub. split; intros Hlt.
  - destruct (copy_out data buf off ltac:(lia)) as (b&Hs&Hw&Hb&Hk0&Heq).
    rewrite Z.max_r by lia. rewrite Hs. cbn [bindR]. rewrite Hw. cbn [bindR]. eauto 6.
  - rewrite Z.max_l by lia. pose proof (zlen_nonneg buf). rewrite Z.min_r by lia.
    unfold slice, get_range. rewrite (proj2 (Z.leb_gt (off + 0) _)) by lia.
    by rewrite andb_false_r.
Qed.

(** A read at an offset that is not in the gap between the data and the recorded size. *)
Lemma cramfs_read_at_wp fs node off buf : src_valid (cr_src fs) -> 0 <= node < 2 ^ 64 -> 0 <= off ->
  (forall inode data, parse_inode (cr_src fs) node = Ok inode -> read_whole (cr_src fs) inode = Ok data ->
     ~ (zlen data < off < ci_size inode)) ->
  wp (cramfs_read_at fs node off buf) (fun '(k, b) => zlen b = zlen buf /\ 0 <= k <= zlen buf /\
    forall inode data, parse_inode (cr_src fs) node = Ok inode -> read_whole (cr_src fs) inode = Ok data ->
      k = 0 \/ off + k <= zlen data).
Proof.
  intros Hv Hn Hoff Hgap. pose proof (parse_inode_wp _ node Hv Hn) as Hi. pose proof (zlen_nonneg buf).
  destruct (parse_inode (cr_src fs) node) as [inode|e| | |] eqn:Ei; try done;
    [|unfold cramfs_read_at; by rewrite Ei].
  destruct Hi as [Hok _]. pose proof (read_whole_wp _ inode Hv Hok) as Hw.
  destruct (decide (kind (ci_mode inode) = Directory)) as [Hk|Hk].
  { unfold cramfs_read_at. rewrite Ei. cbn [bindR]. by rewrite bool_decide_eq_true_2. }
  destruct (Z.le_gt_cases (ci_size inode) off) as [Hge|Hlt].
  { unfold cramfs_read_at. rewrite Ei. cbn [bindR].
    rewrite bool_decide_eq_false_2, Z.geb_leb, (proj2 (Z.leb_le _ _)) by done. cbn [wpx].
    split; [done|]. split; [lia|]. intros. by left. }
  destruct (read_whole (cr_src fs) inode) as [data|e| | |] eqn:Er; try done.
  - destruct (read_at_data fs node off buf inode data Ei Hk ltac:(lia) Er) as [Hin _].
    specialize (Hgap inode data eq_refl Er). destruct (Hin ltac:(lia)) as (n&b&->&Hb&->&_). cbn [wpx].
    split; [done|]. split; [lia|]. intros i d [= <-] Hd. assert (d = data) as -> by congruence. lia.
  - unfold cramfs_read_at. rewrite Ei. cbn [bindR].
    rewrite bool_decide_eq_false_2, Z.geb_leb, (proj2 (Z.leb_gt _ _)), Er by (done || lia). done.
Qed.

Lemma cramfs_open_wp src : src_valid src -> wp (cramfs_open src) (fun fs => cr_src fs = src).
Proof.
  intros Hv. pose proof (src_len_range src Hv). unfold cramfs_open.
  destruct (Z.ltb_spec (src_len src) (ROOT_INODE_OFF + 12)); [done|].
  apply wp_bind, wp_read; [done|lia|lia|]. intros head _ Hh _.
  apply wp_bind, u32_at_wp; [lia|lia|]. intros _. destruct (negb _); [done|].
  apply wp_bind, u32_at_wp; [lia|lia|]. intros _. by destruct (negb _).
Qed.

(** ** Written inodes and files *)

(** An inode as [mkcramfs] packs it: [namelen] and [offset] in 4-byte units. *)
Definition inode_bytes (mode uid size gid namelen offset : Z) : list byte :=
  le_bytes 4 (mode + uid * 2 ^ 16) ++ le_bytes 4 (size + gid * 2 ^ 24) ++
  le_bytes 4 (namelen + offset * 2 ^ 6).

Lemma u32_at_written p v r o : o = zlen p -> 0 <= v < 2 ^ 32 ->
  u32_at (p ++ le_bytes 4 v ++ r) o = Ok v.
Proof.
  intros -> Hv. unfold u32_at, slice. rewrite get_range_app by (rewrite ?zlen_le_bytes; lia).
  cbn [bindR]. rewrite le_num_le_bytes. by rewrite Z.mod_small.
Qed.

Lemma low_bits x y k : 0 <= k -> 0 <= x < 2 ^ k -> Z.land (x + y * 2 ^ k) (Z.ones k) = x.
Proof. intros Hk Hx. rewrite Z.land_ones, Z.mod_add by lia. by apply Z.mod_small. Qed.

Lemma parse_written_inode `{!ReliableSource S} src off mode uid size gid namelen offset :
  src_valid src -> 0 <= off -> off + 12 <= src_len src ->
  region (src_byte src) off 12 = inode_bytes mode uid size gid namelen offset ->
  0 <= mode < 2 ^ 16 -> 0 <= uid < 2 ^ 16 -> 0 <= size < 2 ^ 24 -> 0 <= gid < 2 ^ 8 ->
  0 <= namelen < 2 ^ 6 -> 0 <= offset < 2 ^ 26 ->
  parse_inode src off = Ok (mkCrInode mode size (4 * namelen) (4 * offset)).
Proof.
  intros Hv Ho Hfit Hreg Hm Hu Hs Hg Hn Hof. unfold parse_inode.
  rewrite src_read_in_range by (done || lia). cbn [bindR]. rewrite Hreg. unfold inode_bytes.
  set (w0 := mode + uid * 2 ^ 16). set (w1 := size + gid * 2 ^ 24). set (w2 := namelen + offset * 2 ^ 6).
  assert (Hw0 : 0 <= w0 < 2 ^ 32) by (unfold w0; change (2 ^ 32) with (2 ^ 16 * 2 ^ 16); lia).
  assert (Hw1 : 0 <= w1 < 2 ^ 32) by (unfold w1; change (2 ^ 32) with (2 ^ 8 * 2 ^ 24); lia).
  assert (Hw2 : 0 <= w2 < 2 ^ 32) by (unfold w2; change (2 ^ 32) with (2 ^ 26 * 2 ^ 6); lia).
  assert (E0 : u32_at (le_bytes 4 w0 ++ le_bytes 4 w1 ++ le_bytes 4 w2) 0 = Ok w0)
    by by apply (u32_at_written [] w0).
  assert (E1 : u32_at (le_bytes 4 w0 ++ le_bytes 4 w1 ++ le_bytes 4 w2) 4 = Ok w1)
    by by apply u32_at_written.
  assert (E2 : u32_at (le_bytes 4 w0 ++ le_bytes 4 w1 ++ le_bytes 4 w2) 8 = Ok w2).
  { rewrite app_assoc, <- (app_nil_r (le_bytes 4 w2)). by apply u32_at_written. }
  rewrite E0. cbn [bindR]. rewrite E1. cbn [bindR]. rewrite E2. cbn [bindR].
  change 0xFFFF with (Z.ones 16). change 0x00FFFFFF with (Z.ones 24). change 0x3F with (Z.ones 6).
  unfold w0, w1 at 1, w2 at 1. rewrite !low_bits by lia. rewrite Z.mod_small by lia.
  rewrite Z.shiftr_div_pow2 by lia. unfold w2. rewrite Z.div_add, (Z.div_small namelen) by lia.
  do 2 f_equal; lia.
Qed.

Section File.
Context `{!ReliableSource S} (src : S) (c : list byte) (data_off : Z) (comp : list byte -> list byte).
Let len := zlen c.
Let n := div_ceil len PAGE.
(** Page [i] of the content, and where its compressed form ends on the medium. *)
Definition page (i : Z) : list byte := sub c (i * PAGE) (Z.min PAGE (zlen c - i * PAGE)).
Definition page_end (i : Z) : Z :=
  data_off + div_ceil (zlen c) PAGE * 4 + zlen (concat ((fun j => comp (page j)) <$> seqZ 0 (i + 1))).
(** The block index followed by the compressed pages. *)
Definition file_bytes : list byte :=
  concat ((fun i => le_bytes 4 (page_end i)) <$> seqZ 0 (div_ceil (zlen c) PAGE)) ++
  concat ((fun i => comp (page i)) <$> seqZ 0 (div_ceil (zlen c) PAGE)).

Context (Hv : src_valid src) (Hdo : 0 <= data_off) (Hfit : data_off + zlen file_bytes <= src_len src).
Context (Hreg : region (src_byte src) data_off (zlen file_bytes) = file_bytes).
Context (Hend : data_off + zlen file_bytes < 2 ^ 32) (Hlen : 0 < zlen c <= MAX_BOOT_FILE_BYTES).
(** Each page is stored compressed, or not at all when it is all zero. *)
Context (Hcomp : forall i, 0 <= i < div_ceil (zlen c) PAGE ->
  match comp (page i) with
  | [] => page i = zeros (zlen (page i))
  | z => decode Zlib z (zlen (page i)) = Ok (page i)
  end).

Let idx := concat ((fun i => le_bytes 4 (page_end i)) <$> seqZ 0 n).
Let pages := concat ((fun i => comp (page i)) <$> seqZ 0 n).

Lemma file_n : 0 < n /\ PAGE * (n - 1) < len <= PAGE * n.
Proof.
  unfold n, PAGE. pose proof (div_ceil_ge len 4096 ltac:(lia)).
  destruct (div_ceil_spec len 4096 ltac:(lia) ltac:(unfold len; lia)) as [?|[? ?]]; unfold len in *; lia.
Qed.

Lemma file_idx : zlen idx = n * 4.
Proof. destruct file_n. apply zlen_concat_width; [lia|]. intros. apply zlen_le_bytes. Qed.

Lemma file_len : zlen file_bytes = n * 4 + zlen pages.
Proof. unfold file_bytes. by rewrite zlen_app, <- file_idx. Qed.

(** Reading inside the file's bytes. *)
Lemma file_read a m : 0 <= a -> 0 <= m -> a + m <= zlen file_bytes ->
  src_read_at src (data_off + a) m = Ok (sub file_bytes a m).
Proof.
  intros Ha Hm Ham. rewrite src_read_in_range by (done || lia). rewrite <- Hreg.
  rewrite sub_region by lia. done.
Qed.

(** The bytes before page [i]'s compressed form. *)
Let before (i : Z) : list byte := concat ((fun j => comp (page j)) <$> seqZ 0 i).

Lemma page_end_pred i : 0 <= i -> page_end (i - 1) = data_off + n * 4 + zlen (before i).
Proof. intros. unfold page_end, before. by replace (i - 1 + 1) with i by lia. Qed.

Lemma page_end_step i : 0 <= i -> page_end i = page_end (i - 1) + zlen (comp (page i)).
Proof.
  intros Hi. rewrite page_end_pred by done. unfold page_end, before.
  rewrite concat_seqZ_succ, zlen_app by done. unfold n, len. lia.
Qed.

Lemma before_le i : 0 <= i < n -> zlen (before i) + zlen (comp (page i)) <= zlen pages.
Proof.
  intros Hi. unfold pages, before. rewrite (concat_seqZ_split _ n i), !zlen_app by done.
  pose proof (zlen_nonneg (concat ((fun j => comp (page j)) <$> seqZ (i + 1) (n - i - 1)))). lia.
Qed.

Lemma page_read i : 0 <= i < n ->
  src_read_at src (page_end (i - 1)) (page_end i - page_end (i - 1)) = Ok (comp (page i)).
Proof.
  intros Hi. rewrite (page_end_step i), (page_end_pred i) by lia.
  pose proof (zlen_nonneg (before i)). pose proof (zlen_nonneg (comp (page i))).
  replace (_ + zlen (comp (page i)) - _) with (zlen (comp (page i))) by lia.
  rewrite <- Z.add_assoc. pose proof (before_le i Hi). pose proof file_idx as Hidx.
  rewrite file_read by (pose proof file_len; lia).
  f_equal. unfold file_bytes. fold len n idx pages. rewrite sub_app_r by lia.
  replace (n * 4 + zlen (before i) - zlen idx) with (zlen (before i)) by lia.
  unfold pages. rewrite (concat_seqZ_split _ n i) by done. fold (before i).
  rewrite sub_app_r, Z.sub_diag by lia. apply sub_0_app.
Qed.

(** The loop's state at page [i]. *)
Lemma page_step_at i : 0 <= i < n ->
  page_step src idx len i (sub c 0 (Z.min (i * PAGE) len), page_end (i - 1))
  = Ok (sub c 0 (Z.min ((i + 1) * PAGE) len), page_end (i + 1 - 1)).
Proof.
  intros Hi. destruct file_n as [Hn Hl]. unfold PAGE in *. unfold page_step.
  assert (He : 0 <= page_end i < 2 ^ 32).
  { rewrite (page_end_step i), (page_end_pred i) by lia. pose proof (before_le i Hi).
    pose proof (zlen_nonneg (before i)). pose proof (zlen_nonneg (comp (page i))). pose proof file_len. lia. }
  assert (Hptr : u32_at idx (i * 4) = Ok (page_end i)).
  { unfold u32_at. unfold idx. rewrite (slice_concat_width _ 4 n i Hi) by (intros; apply zlen_le_bytes).
    cbn [bindR]. rewrite le_num_le_bytes. by rewrite Z.mod_small. }
  rewrite Hptr. cbn [bindR]. rewrite (Z.min_l (i * 4096)) by lia.
  rewrite zlen_sub by (unfold len in *; lia). rewrite subw_eq by lia. cbn [bindR]. unfold PAGE.
  set (want := Z.min 4096 (len - i * 4096)).
  assert (Hpage : page i = sub c (i * 4096) want) by done.
  assert (Hw : zlen (page i) = want) by (rewrite Hpage; apply zlen_sub; unfold want, len in *; lia).
  assert (Hnext : sub c 0 (i * 4096) ++ page i = sub c 0 (Z.min ((i + 1) * 4096) len)).
  { rewrite Hpage. rewrite <- (Z.add_0_l (i * 4096)) at 2. rewrite sub_app_split by (unfold want; lia).
    f_equal. unfold want. lia. }
  replace (i + 1 - 1) with i by lia. specialize (Hcomp i Hi). rewrite Hw in Hcomp.
  pose proof (page_end_step i ltac:(lia)) as Hstep.
  destruct (Z.leb_spec (page_end i) (page_end (i - 1))) as [Hle|Hgt].
  - destruct (comp (page i)) as [|z zs] eqn:Ez; [by rewrite <- Hcomp, Hnext|].
    rewrite zlen_cons in Hstep. pose proof (zlen_nonneg zs). lia.
  - rewrite page_read by done. cbn [bindR].
    destruct (comp (page i)) as [|z zs]; [rewrite zlen_nil in Hstep; lia|].
    rewrite Hcomp. cbn [bindR]. by rewrite Hnext.
Qed.

Lemma read_whole_written mode namelen :
  read_whole src (mkCrInode mode (zlen c) namelen data_off) = Ok c.
Proof.
  destruct file_n as [Hn Hl]. pose proof file_idx as Hidx. unfold read_whole. cbn [ci_size ci_data_off].
  rewrite (proj2 (checked_full_Ok (zlen c) (zlen c))) by (split; [lia|done]). cbn [bindR].
  rewrite (proj2 (Z.eqb_neq _ _)) by lia. fold len n.
  assert (Hfb : n * 4 <= zlen file_bytes).
  { rewrite file_len. pose proof (zlen_nonneg pages). lia. }
  rewrite <- (Z.add_0_r data_off) at 1. rewrite file_read by lia. cbn [bindR].
  assert (sub file_bytes 0 (n * 4) = idx) as ->.
  { unfold file_bytes. fold len n idx pages. rewrite <- Hidx. apply sub_0_app. }
  unfold addw. rewrite (proj2 (Z.ltb_lt _ _)) by lia. cbn [bindR].
  pose proof (for_loop_states (fun i => (sub c 0 (Z.min (i * PAGE) len), page_end (i - 1)))
    (Z.to_nat n) (page_step src idx len) 0) as Hf. cbn beta in Hf.
  assert (Hs0 : (sub c 0 (Z.min (0 * PAGE) len), page_end (0 - 1)) = ([], data_off + n * 4)).
  { rewrite page_end_pred by lia. unfold before. cbn. rewrite zlen_nil. f_equal; [|lia].
    unfold len. rewrite Z.min_l by lia. apply sub_nil. }
  rewrite Hs0 in Hf. rewrite Hf.
  - cbn [bindR]. rewrite Z2Nat.id by lia. f_equal. unfold PAGE in *. rewrite Z.min_r by lia.
    unfold len. rewrite sub_all. unfold zlen. rewrite Nat2Z.id. by apply take_ge.
  - intros j Hj. rewrite Z2Nat.id in Hj by lia. apply page_step_at. lia.
Qed.
End File.
End Laws.

(** ** Properties *)

(** C34.  On any medium mounting a cramfs comes back, and so does every operation
    at any 64-bit node handle, with one exception: a read at an offset inside the
    recorded size but past what the pages inflate to panics. *)
Theorem cramfs_total {D : Decoders} {DL : DecoderLaws D} {S} `{SourceLaws S} (src : S) :
  src_valid src ->
  returns (cramfs_open src) /\
  forall fs, cramfs_open src = Ok fs -> forall node off buf nm,
    0 <= node < 2 ^ 64 -> 0 <= off < 2 ^ 64 ->
    returns (cramfs_read_dir fs node) /\ returns (cramfs_lookup fs node nm) /\
    returns (cramfs_metadata fs node) /\ returns (cramfs_read_link fs node) /\
    (returns (cramfs_read_at fs node off buf) \/
     exists inode data, parse_inode (cr_src fs) node = Ok inode /\
       read_whole (cr_src fs) inode = Ok data /\ zlen data < off < ci_size inode).
Proof.
  intros Hv. pose proof (cramfs_open_wp src Hv) as Ho.
  split; [by eapply wp_returns|]. intros fs Hfs node off buf nm Hn Hoff.
  rewrite <- (wp_Ok _ _ _ Ho Hfs) in Hv.
  pose proof (cramfs_read_dir_wp fs node Hv Hn) as Hd. pose proof (parse_inode_wp _ node Hv Hn) as Hi. split_and!.
  - by eapply wp_returns.
  - unfold cramfs_lookup. apply returns_bindR; [by eapply wp_returns|done].
  - unfold cramfs_metadata. apply returns_bindR; [by eapply wp_returns|done].
  - eapply wp_returns. by apply cramfs_read_link_wp.
  - destruct (parse_inode (cr_src fs) node) as [inode|e| | |] eqn:Ei;
      [destruct (read_whole (cr_src fs) inode) as [data|e| | |] eqn:Er;
        [destruct (decide (zlen data < off < ci_size inode)) as [Hgap|Hgap]; [right; by exists inode, data|]|..]|..];
      left; (eapply wp_returns, cramfs_read_at_wp; [done|done|lia|]; intros i d Hi' Hd'; rewrite Ei in Hi'; try done;
       injection Hi' as <-; rewrite Er in Hd'; try done; by injection Hd' as <-).
Qed.

(** C35.  A read inside the size an inode records panics exactly when the offset is
    past the data the file's pages inflate to (a page may inflate to less than a
    page); up to there it copies the data. *)
Theorem cramfs_read_at_short {D : Decoders} {S} `{BlockSource S} (fs : Cramfs S)
    node off buf inode data :
  parse_inode (cr_src fs) node = Ok inode -> kind (ci_mode inode) <> Directory ->
  0 <= off < ci_size inode -> read_whole (cr_src fs) inode = Ok data ->
  (off <= zlen data ->
   exists n b, cramfs_read_at fs node off buf = Ok (n, b) /\ zlen b = zlen buf /\
     n = Z.min (zlen buf) (zlen data - off) /\ sub b 0 n = sub data off n) /\
  (zlen data < off -> cramfs_read_at fs node off buf = Panic).
Proof. apply read_at_data. Qed.

(** A file written as a packed inode, a block index and compressed pages
    (all-zero pages may be left out as holes) reads back as its content: each
    [read_at] gives the bytes from the offset on, as many as fit and remain. *)
Theorem cramfs_file_roundtrip {D : Decoders} {S} `{ReliableSource S} (fs : Cramfs S)
    (c : list byte) comp node mode uid gid namelen offset off buf :
  let src := cr_src fs in
  let data := file_bytes c (4 * offset) comp in
  src_valid src -> 0 <= node -> node + 12 <= src_len src ->
  region (src_byte src) node 12 = inode_bytes mode uid (zlen c) gid namelen offset ->
  0 <= mode < 2 ^ 16 -> 0 <= uid < 2 ^ 16 -> 0 < zlen c < 2 ^ 24 -> 0 <= gid < 2 ^ 8 ->
  0 <= namelen < 2 ^ 6 -> 0 <= offset < 2 ^ 26 -> kind mode <> Directory ->
  4 * offset + zlen data <= src_len src -> 4 * offset + zlen data < 2 ^ 32 ->
  region (src_byte src) (4 * offset) (zlen data) = data ->
  (forall i, 0 <= i < div_ceil (zlen c) PAGE ->
     match comp (page c i) with
     | [] => page c i = zeros (zlen (page c i))
     | z => decode Zlib z (zlen (page c i)) = Ok (page c i)
     end) ->
  0 <= off < zlen c ->
  exists n b, cramfs_read_at fs node off buf = Ok (n, b) /\ zlen b = zlen buf /\
    n = Z.min (zlen buf) (zlen c - off) /\ sub b 0 n = sub c off n.
Proof.
  intros src data Hv Hn Hfit Hino Hm Hu Hs Hg Hnl Ho Hk Hdfit Hend Hreg Hcomp Hoff.
  assert (Hi : parse_inode src node = Ok (mkCrInode mode (zlen c) (4 * namelen) (4 * offset)))
    by (apply (parse_written_inode src node mode uid (zlen c) gid namelen offset); done || lia).
  assert (Hw : read_whole src (mkCrInode mode (zlen c) (4 * namelen) (4 * offset)) = Ok c).
  { apply (read_whole_written src c (4 * offset) comp); try done; [lia|].
    unfold MAX_BOOT_FILE_BYTES. lia. }
  apply (proj1 (read_at_data fs node off buf _ c Hi Hk Hoff Hw)). lia.
Qed.

(** ** Witnesses, with stored pages *)

(** A zero page, stored as a hole, and three more bytes. *)
Definition w_content : list byte := zeros 4096 ++ bytes_of "abc".
Definition w_comp (p : list byte) : list byte := if bool_decide (p = zeros (zlen p)) then [] else p.
Definition w_bytes : list byte :=
  le_bytes 4 MAGIC ++ zeros 60 ++ inode_bytes 33188 0 4099 0 0 19 ++ file_bytes w_content 76 w_comp.
Definition w_src : SliceSource := mkSlice w_bytes.
Definition w_fs : Cramfs SliceSource := mkCramfs w_src.

Lemma cramfs_total_witness :
  returns (cramfs_open w_src) /\ returns (cramfs_read_link w_fs 64) /\
  returns (cramfs_read_dir w_fs (2 ^ 64 - 1)).
Proof.
  destruct (cramfs_total w_src) as [Ho Hops]; [vm_compute; reflexivity|]. split; [exact Ho|].
  assert (Hfs : cramfs_open w_src = Ok w_fs) by (vm_compute; reflexivity). split.
  - apply (Hops w_fs Hfs 64 0 [] []); lia.
  - apply (Hops w_fs Hfs (2 ^ 64 - 1) 0 [] []); lia.
Defined.

(** A recorded size of ten bytes over a page that inflates to three. *)
Definition w_short : Cramfs SliceSource :=
  mkCramfs (mkSlice (inode_bytes 33188 0 10 0 0 3 ++ le_bytes 4 19 ++ bytes_of "abc")).

Lemma cramfs_read_at_short_witness : cramfs_read_at w_short 0 5 (zeros 4) = Panic.
Proof.
  apply (cramfs_read_at_short w_short 0 5 (zeros 4) (mkCrInode 33188 10 0 12) (bytes_of "abc"));
    [vm_compute; reflexivity|vm_compute; discriminate|cbn; lia|vm_compute; reflexivity
    |vm_compute; reflexivity].
Defined.

Lemma cramfs_file_roundtrip_witness :
  exists n b, cramfs_read_at w_fs 64 4094 (zeros 4) = Ok (n, b) /\
    sub b 0 n = [x00; x00; x61; x62].
Proof.
  destruct (cramfs_file_roundtrip w_fs w_content w_comp 64 33188 0 0 0 19 4094 (zeros 4))
    as (n&b&Hr&_&Hn&Hb);
    [vm_compute; reflexivity|lia|vm_compute; discriminate|vm_compute; reflexivity|lia|lia
    |vm_compute; split; reflexivity|lia|lia|lia|vm_compute; discriminate
    |vm_compute; discriminate|vm_compute; reflexivity|vm_compute; reflexivity| 
    |vm_compute; split; [discriminate|reflexivity]|].
  - intros i Hi. assert (Hd : div_ceil (zlen w_content) PAGE = 2) by (vm_compute; reflexivity).
    rewrite Hd in Hi. assert (i = 0 \/ i = 1) as [->| ->] by lia; vm_compute; reflexivity.
  - exists n, b. split; [exact Hr|]. rewrite Hb, Hn. vm_compute. reflexivity.
Defined.
