(* ===== verification/CramTree.v ===== *)
(** * A written cramfs is the tree that was written

    The format from the writer's side: packed inodes behind their names, directories
    as runs of them, files and links as block indexes with compressed pages; mounted
    and used by path such a volume is the tree they make up. *)
From S2P Require Import Prelude Text Cache Substrate Path Codec Tree Cramfs.
Open Scope Z_scope.

(** ** Written volumes *)

(** An inode and, in a directory, the name behind it. *)
Record Node : Type := mkNode {
  no_mode : Z; no_uid : Z; no_size : Z; no_gid : Z; no_offset : Z; no_name : list byte;
}.
(** Names are padded to four bytes. *)
Definition no_namelen (w : Node) : Z := div_ceil (zlen (no_name w)) 4.
Definition no_inode (w : Node) : list byte :=
  inode_bytes (no_mode w) (no_uid w) (no_size w) (no_gid w) (no_namelen w) (no_offset w).
Definition no_bytes (w : Node) : list byte :=
  no_inode w ++ no_name w ++ zeros (4 * no_namelen w - zlen (no_name w)).
Definition no_ok (w : Node) : Prop :=
  0 <= no_mode w < 2 ^ 16 /\ 0 <= no_uid w < 2 ^ 16 /\ 0 <= no_size w < 2 ^ 24 /\ 0 <= no_gid w < 2 ^ 8 /\
  0 <= no_offset w < 2 ^ 26 /\ zlen (no_name w) < 253 /\ Forall (fun b => u8 b <> 0) (no_name w).
Definition no_kind (w : Node) : FileKind := kind (no_mode w).
Definition no_data (w : Node) : Z := 4 * no_offset w.

(** The records of a directory from [off] on, each at its place. *)
Fixpoint places (off : Z) (l : list Node) : list (Z * Node) :=
  match l with [] => [] | w :: l => (off, w) :: places (off + zlen (no_bytes w)) l end.
Definition dir_bytes (l : list Node) : list byte := concat (no_bytes <$> l).

Section Media.
Context {D : Decoders} {S : Type} `{SourceLaws S} (src : S).

Definition node_at (off : Z) (w : Node) : Prop := no_ok w /\ has src off (no_inode w).

(** The pages of [c] at byte [off]: each compressed by [comp], or a hole. *)
Definition pages_at (off : Z) (c : list byte) : Prop :=
  zlen c <> 0 -> exists comp, has src off (file_bytes c off comp) /\
    off + zlen (file_bytes c off comp) < 2 ^ 32 /\
    forall i, 0 <= i < div_ceil (zlen c) PAGE ->
      match comp (page c i) with
      | [] => page c i = zeros (zlen (page c i))
      | z => decode Zlib z (zlen (page c i)) = Ok (page c i)
      end.

(** The node whose inode is at [off]. *)
Inductive cram_tree : Z -> Tree -> Prop :=
| Cram_file off w c : node_at off w -> no_kind w = Regular -> no_size w = zlen c -> pages_at (no_data w) c ->
    cram_tree off (TFile c)
| Cram_link off w c : node_at off w -> no_kind w = Symlink -> no_size w = zlen c -> pages_at (no_data w) c ->
    cram_tree off (TLink c)
| Cram_other off w c : node_at off w -> no_kind w = Other -> no_size w = zlen c -> pages_at (no_data w) c ->
    cram_tree off (TOther c)
| Cram_dir off w l es : node_at off w -> no_kind w = Directory -> no_size w = zlen (dir_bytes l) ->
    has src (no_data w) (dir_bytes l) -> Forall no_ok l ->
    Forall2 (fun p x => from_utf8_lossy (no_name p.2) = x.1 /\ cram_tree p.1 x.2) (places (no_data w) l) es ->
    cram_tree off (TDir es).

(** A little-endian superblock without extended block pointers. *)
Definition superblock_at (size flags : Z) : Prop :=
  has src 0 (le_bytes 4 MAGIC ++ le_bytes 4 size ++ le_bytes 4 flags) /\
  0 <= flags < 2 ^ 32 /\ Z.land flags FLAG_EXT_BLOCK_POINTERS = 0 /\ ROOT_INODE_OFF + 12 <= src_len src.
End Media.

(** ** Lemmas *)

Section Refines.
Context {D : Decoders} {DL : DecoderLaws D} {S : Type} `{SourceLaws S} `{!ReliableSource S} (src : S) (Hv : src_valid src).

Definition inode_of (w : Node) : CrInode := mkCrInode (no_mode w) (no_size w) (4 * no_namelen w) (no_data w).

Lemma namelen_range w : no_ok w -> 0 <= no_namelen w < 2 ^ 6 /\ zlen (no_name w) <= 4 * no_namelen w.
Proof.
  intros (_&_&_&_&_&Hn&_). unfold no_namelen. pose proof (zlen_nonneg (no_name w)).
  destruct (div_ceil_spec (zlen (no_name w)) 4 ltac:(lia) ltac:(lia)) as [?|[? ->]]; [|lia].
  pose proof (div_ceil_ge (zlen (no_name w)) 4 ltac:(lia)). lia.
Qed.

Lemma zlen_no_inode w : zlen (no_inode w) = 12.
Proof. done. Qed.
Lemma zlen_no_bytes w : no_ok w -> zlen (no_bytes w) = 12 + 4 * no_namelen w.
Proof.
  intros Hok. pose proof (namelen_range w Hok). unfold no_bytes. rewrite !zlen_app, zlen_no_inode, zlen_zeros by lia. lia.
Qed.

Lemma node_at_parse off w : node_at src off w -> parse_inode src off = Ok (inode_of w).
Proof.
  intros [Hok (Ho&Hin&Hreg)]. pose proof (namelen_range w Hok) as [Hn _]. destruct Hok as (?&?&?&?&?&?&?).
  apply (parse_written_inode src off (no_mode w) (no_uid w) (no_size w) (no_gid w) (no_namelen w) (no_offset w)); done.
Qed.

Lemma pages_read w c : no_ok w -> no_size w = zlen c -> pages_at src (no_data w) c ->
  read_whole src (inode_of w) = Ok c.
Proof.
  intros Hok Hz Hp. unfold inode_of. rewrite Hz. destruct (decide (zlen c = 0)) as [E|E].
  { rewrite E. by apply zlen_0_nil in E as ->. }
  destruct (Hp E) as (comp&(?&?&?)&?&Hc). destruct Hok as (_&_&Hs&_). rewrite Hz in Hs. pose proof (zlen_nonneg c).
  apply (read_whole_written src c (no_data w) comp); try done. unfold MAX_BOOT_FILE_BYTES. lia.
Qed.

Lemma first_segment_padded nm k : Forall (fun b => u8 b <> 0) nm -> 0 <= k -> first_segment (nm ++ zeros k) = nm.
Proof.
  intros Hn Hk. assert (HF : Forall (fun b => (u8 b =? 0) = false) nm).
  { eapply Forall_impl; [exact Hn|]. intros b. apply Z.eqb_neq. }
  unfold first_segment. destruct (decide (k = 0)) as [->|Hne].
  - change (zeros 0) with (@nil byte). rewrite app_nil_r.
    destruct (position _ nm) as [i|] eqn:E; [|done]. apply position_Some in E as (_&(b&Hb&Hz)&_).
    apply (Forall_lookup_1 _ _ _ _ HF) in Hb. congruence.
  - assert (zeros k = x00 :: zeros (k - 1)) as ->.
    { unfold zeros. replace (Z.to_nat k) with (Datatypes.S (Z.to_nat (k - 1))) by lia. done. }
    rewrite position_first by done. apply sub_0_app.
Qed.

Lemma cram_inode off t : cram_tree src off t -> exists w, node_at src off w /\ no_kind w = tree_kind t /\
  size_of t (no_size w) /\ (forall c, content_of t = Some c \/ t = TLink c -> read_whole src (inode_of w) = Ok c).
Proof.
  intros [off' w c Hw Hk Hz Hp|off' w c Hw Hk Hz Hp|off' w c Hw Hk Hz Hp|off' w l es Hw Hk Hz]; exists w; (split; [done|]);
    (split; [done|]); (split; [intros c'; cbn; congruence|]); intros c' [Hc|Hc]; try done; injection Hc as <-;
    apply pages_read; done || apply Hw.
Qed.

(** The entries of a written directory. *)
Definition entry_at (p : Z * Node) : DirEntry :=
  mkDirEntry (from_utf8_lossy (no_name p.2)) p.1 (no_kind p.2).

Lemma dir_LoopsTo l : Forall no_ok l -> forall off end_ out, has src off (dir_bytes l) ->
  end_ = off + zlen (dir_bytes l) ->
  LoopsTo (dir_round src end_) (off, out) (Ok (out ++ (entry_at <$> places off l))).
Proof.
  pose proof (src_len_range src Hv) as Hlen.
  induction 1 as [|w l Hw Hl IH]; intros off end_ out Hd ->; cbn [places fmap list_fmap].
  { apply LoopsTo_break. unfold dir_round. change (zlen (dir_bytes [])) with 0. rewrite Z.add_0_r, Z.ltb_irrefl, app_nil_r. done. }
  unfold dir_bytes in *. cbn [fmap list_fmap concat] in *. apply has_app in Hd as [Hnode Hrest].
  unfold no_bytes in Hnode. rewrite zlen_app, Z.add_assoc.
  pose proof (namelen_range w Hw) as [Hn1 Hn2]. pose proof (zlen_no_bytes w Hw) as Hz.
  pose proof (zlen_nonneg (concat (no_bytes <$> l))). destruct Hnode as (Ho&Hin&Hreg).
  assert (Hnode : has src off (no_bytes w)) by (split; [done|split; [done|done]]).
  apply has_app in Hnode as [Hino Hname]. rewrite zlen_no_inode in Hname.
  change (entry_at (off, w) :: ?r) with ([entry_at (off, w)] ++ r). rewrite app_assoc.
  eapply LoopsTo_round; [|apply IH; [exact Hrest|lia]].
  unfold dir_round. fold (no_bytes w) in Hin. rewrite (proj2 (Z.ltb_lt _ _)) by lia. cbn [negb].
  rewrite (node_at_parse off w) by done. cbn [bindR inode_of ci_namelen ci_mode].
  rewrite addw_eq by lia. cbn [bindR].
  assert (Hnz : zlen (no_name w ++ zeros (4 * no_namelen w - zlen (no_name w))) = 4 * no_namelen w)
    by (rewrite zlen_app, zlen_zeros; lia).
  rewrite <- Hnz at 1. rewrite has_read by done. cbn [bindR]. rewrite addw_eq by lia. cbn [bindR].
  rewrite first_segment_padded by (lia || apply Hw). do 2 f_equal. f_equal. lia.
Qed.

Lemma places_at l : Forall no_ok l -> forall off, has src off (dir_bytes l) ->
  Forall (fun p => node_at src p.1 p.2) (places off l).
Proof.
  unfold dir_bytes. induction 1 as [|w l Hw Hl IH]; intros off Hd; cbn [places fmap list_fmap concat] in *; [constructor|].
  apply has_app in Hd as [Hnode Hrest]. constructor; [|by apply IH]. split; [done|]. by apply has_app in Hnode as [? _].
Qed.

Lemma node_at_kind off w w' : node_at src off w -> node_at src off w' -> no_kind w = no_kind w'.
Proof. intros Hw%node_at_parse Hw'%node_at_parse. unfold no_kind, inode_of in *. congruence. Qed.

Lemma cram_tree_range off t : cram_tree src off t -> 0 <= off < 2 ^ 64.
Proof.
  intros (w&(_&?&?&_)&_)%cram_inode. rewrite zlen_no_inode in *. pose proof (src_len_range src Hv). lia.
Qed.

Lemma cram_read_dir fs off t : cr_src fs = src -> cram_tree src off t ->
  match t with
  | TDir es => exists out, cramfs_read_dir fs off = Ok out /\
      Forall2 (fun e x => de_name e = x.1 /\ de_kind e = tree_kind x.2 /\ cram_tree src (de_node e) x.2) out es
  | _ => cramfs_read_dir fs off = Err NotDirectory
  end.
Proof.
  intros Hs Ht. assert (Hret : returns (cramfs_read_dir fs off)).
  { eapply wp_returns, cramfs_read_dir_wp; [by rewrite Hs|by eapply cram_tree_range]. }
  revert Hret. unfold cramfs_read_dir. rewrite Hs. clear Hs.
  destruct Ht as [off w c Hw Hk|off w c Hw Hk|off w c Hw Hk|off w l es Hw Hk Hz Hd Hl HF];
    rewrite (node_at_parse off w Hw); cbn [bindR inode_of ci_mode ci_data_off ci_size];
    change (kind (no_mode w)) with (no_kind w); rewrite Hk; try done. cbn [bool_decide negb].
  pose proof (src_len_range src Hv). pose proof Hd as (?&?&_). rewrite bool_decide_eq_true_2 by done. cbn [negb].
  rewrite addw_eq by lia. cbn [bindR]. intros Hret.
  exists (entry_at <$> places (no_data w) l). split.
  - pose proof (dir_LoopsTo l Hl (no_data w) _ [] Hd eq_refl) as HL. rewrite <- Hz in HL. by apply loop_eq.
  - pose proof (places_at l Hl _ Hd) as Hat. clear Hd Hl Hz Hret. induction HF as [|p x ps xs [Hn Ht] _ IH]; [constructor|].
    apply Forall_cons in Hat as [Hp Hat]. constructor; [|by apply IH]. split; [done|]. split; [|done].
    destruct (cram_inode p.1 x.2 Ht) as (w'&Hw'&Hk'&_). cbn [entry_at de_kind]. by rewrite (node_at_kind _ _ _ Hp Hw').
Qed.

(** ** The frontend holds the tree *)

Definition cram_stands (s : Cramfs S * SubstrateCtx) (n : NodeId) (t : Tree) : Prop :=
  cr_src s.1 = src /\ cram_tree src n t.

Lemma cram_implements_read_dir s n t : cram_stands s n t ->
  implements cram_stands (fun s' => Forall2 (lists cram_stands s')) (read_dir n)
    (match t with TDir es => Ok es | _ => Err NotDirectory end) s.
Proof.
  destruct s as [fs cx]. intros [Hs Ht]. cbn [fst] in Hs.
  apply (implements_here _ _ _ (cramfs_read_dir fs n)); [reflexivity|].
  pose proof (cram_read_dir fs n t Hs Ht) as Hd. destruct t; try done.
  destruct Hd as (out&->&HF). exists out. split; [done|]. eapply Forall2_impl; [exact HF|].
  intros e x (?&?&?). split; [done|]. by split.
Qed.

#[export] Instance CramTree : TreeFs (Cramfs S) S cram_stands.
Proof.
  split.
  - intros [fs cx] n t nm Hs. apply lookup_searches; [|by apply cram_implements_read_dir].
    cbn [lookup_ read_dir Cramfs_Frontend]. unfold on_self, cramfs_lookup, bindST. by destruct (cramfs_read_dir fs n).
  - apply cram_implements_read_dir.
  - intros [fs cx] n t [Hs Ht]. destruct (cram_inode n t Ht) as (w&Hw&Hk&Hz&_). cbn [fst] in Hs.
    apply (implements_here _ _ _ (cramfs_metadata fs n)); [reflexivity|]. unfold cramfs_metadata.
    rewrite Hs, (node_at_parse n w Hw). by eexists.
  - intros [fs cx] n target [Hs Ht]. destruct (cram_inode n _ Ht) as (w&Hw&Hk&_&Hr). cbn [fst] in Hs.
    apply (implements_here _ _ _ (cramfs_read_link fs n)); [reflexivity|]. unfold cramfs_read_link.
    rewrite Hs, (node_at_parse n w Hw). cbn [bindR inode_of ci_mode]. change (kind (no_mode w)) with (no_kind w).
    rewrite Hk, bool_decide_eq_true_2 by done. cbn [negb]. change (mkCrInode _ _ _ _) with (inode_of w).
    rewrite (Hr target) by auto. by eexists.
  - intros [fs cx] n t c off buf [Hs Ht] Hc _ Ho Hb. destruct (cram_inode n _ Ht) as (w&Hw&Hk&Hz&Hr). cbn [fst] in Hs.
    apply Hz in Hc as Hz'. assert (Hd : no_kind w <> Directory) by (rewrite Hk; by destruct t).
    apply (implements_here _ _ _ (cramfs_read_at fs n off buf)); [reflexivity|].
    destruct (decide (off = zlen c)) as [->|Hne].
    + exists (0, buf). split; [|apply empty_part; lia]. unfold cramfs_read_at. rewrite Hs, (node_at_parse n w Hw).
      cbn [bindR inode_of ci_mode ci_size]. change (kind (no_mode w)) with (no_kind w). by rewrite bool_decide_eq_false_2, Hz', Z.geb_leb, Z.leb_refl by done.
    + destruct (read_at_data fs n off buf (inode_of w) c) as [Hin _].
      * rewrite Hs. by apply node_at_parse.
      * exact Hd.
      * cbn in *. lia.
      * rewrite Hs. apply Hr. auto.
      * destruct (Hin ltac:(lia)) as (k&b&E&?&->&?). eexists. split; [exact E|]. by apply full_part.
Qed.

Lemma cram_open size flags : superblock_at src size flags -> cramfs_open src = Ok (mkCramfs src).
Proof.
  intros (Hh&Hf&Hext&Hlen). unfold cramfs_open. rewrite (proj2 (Z.ltb_ge _ _)) by done.
  change 12 with (zlen (le_bytes 4 MAGIC ++ le_bytes 4 size ++ le_bytes 4 flags)). rewrite has_read by done.
  set (h := le_bytes 4 MAGIC ++ le_bytes 4 size ++ le_bytes 4 flags).
  assert (E0 : u32_at h 0 = Ok MAGIC) by by apply (u32_at_written [] MAGIC).
  assert (E8 : u32_at h 8 = Ok flags).
  { unfold h. rewrite app_assoc, <- (app_nil_r (le_bytes 4 flags)), <- app_assoc. rewrite app_assoc. by apply u32_at_written. }
  cbn [bindR]. rewrite E0. cbn [bindR]. rewrite Z.eqb_refl. cbn [negb]. rewrite E8. cbn [bindR].
  by rewrite Hext.
Qed.

(** C14.  A cramfs volume is the tree written on it.  On a medium with a superblock
    and, from the root inode on, a tree of packed inodes, directories and compressed
    or missing pages, whatever session of reads, listings and queries by path, the
    mounted volume gives the answers of the abstract file system, errors included. *)
Theorem cramfs_refines_tree size flags top cx ops :
  superblock_at src size flags -> cram_tree src ROOT_INODE_OFF top -> tree_kind top = Directory ->
  exists fs, cramfs_open src = Ok fs /\ session (F := Cramfs S) (S := S) ops (fs, cx) = tree_op top <$> ops.
Proof.
  intros Hsb Ht Hd. exists (mkCramfs src). split; [by eapply cram_open|]. by apply (session_refines top Hd).
Qed.
End Refines.

(** ** Witness: a directory with a file and a link, pages stored verbatim *)

Definition cw_root : Node := mkNode 0x41ed 0 32 0 19 [].
Definition cw_f : Node := mkNode 0x81a4 1 5 2 27 (bytes_of "f").
Definition cw_l : Node := mkNode 0xa1ff 0 1 0 30 (bytes_of "l").
Definition cw_image : list byte :=
  le_bytes 4 MAGIC ++ le_bytes 4 128 ++ le_bytes 4 3 ++ zeros 52 ++ no_inode cw_root ++
  dir_bytes [cw_f; cw_l] ++ file_bytes (bytes_of "hello") 108 id ++ zeros 3 ++ file_bytes (bytes_of "f") 120 id ++ zeros 3.
Definition cw_src : SliceSource := mkSlice cw_image.
Definition cw_tree : Tree := TDir [(bytes_of "f", TFile (bytes_of "hello")); (bytes_of "l", TLink (bytes_of "f"))].

Lemma cw_has off bytes : bool_decide (has cw_src off bytes) = true -> has cw_src off bytes.
Proof. apply bool_decide_eq_true. Qed.

Lemma cw_node off w : bool_decide (no_ok w) = true -> bool_decide (has cw_src off (no_inode w)) = true -> node_at cw_src off w.
Proof. intros Hw%bool_decide_eq_true Hh%cw_has. by split. Qed.

(** One page, stored as it is. *)
Lemma cw_pages off c : 0 < zlen c <= 4096 -> decode Zlib c (zlen c) = Ok c ->
  bool_decide (has cw_src off (file_bytes c off id)) = true -> off + zlen (file_bytes c off id) < 2 ^ 32 ->
  pages_at cw_src off c.
Proof.
  intros Hc Hd Hh%cw_has He _. exists id. split; [done|]. split; [done|]. intros i Hi.
  assert (Hn : div_ceil (zlen c) PAGE = 1).
  { unfold div_ceil, PAGE. symmetry. apply (Z.div_unique _ _ _ (zlen c - 1)); lia. }
  rewrite Hn in Hi. assert (i = 0) as -> by lia. unfold page, PAGE. rewrite Z.min_r, Z.sub_0_r, sub_all by lia.
  destruct c as [|b c]; [rewrite zlen_nil in Hc; lia|]. exact Hd.
Qed.

Lemma cw_holds : cram_tree cw_src ROOT_INODE_OFF cw_tree.
Proof.
  apply (Cram_dir _ ROOT_INODE_OFF cw_root [cw_f; cw_l]);
    [apply cw_node; vm_compute; reflexivity|vm_compute; reflexivity|vm_compute; reflexivity
    |apply cw_has; vm_compute; reflexivity|apply (bool_decide_unpack _); vm_compute; exact I|].
  change (places _ _) with [(76, cw_f); (92, cw_l)].
  apply Forall2_cons; split; [split; [reflexivity|]|apply Forall2_cons; split; [split; [reflexivity|]|apply Forall2_nil_2]].
  - apply (Cram_file _ 76 cw_f); [apply cw_node; vm_compute; reflexivity|vm_compute; reflexivity|reflexivity|].
    apply cw_pages; [vm_compute; split; [reflexivity|discriminate]|vm_compute; reflexivity..].
  - apply (Cram_link _ 92 cw_l); [apply cw_node; vm_compute; reflexivity|vm_compute; reflexivity|reflexivity|].
    apply cw_pages; [vm_compute; split; [reflexivity|discriminate]|vm_compute; reflexivity..].
Qed.

Lemma cw_superblock : superblock_at cw_src 128 3.
Proof.
  split; [apply cw_has; vm_compute; reflexivity|]. split; [lia|]. split; [reflexivity|vm_compute; discriminate].
Qed.
Lemma cw_valid : src_valid cw_src.
Proof. vm_compute. reflexivity. Qed.

Lemma cramfs_refines_tree_witness :
  exists fs, cramfs_open cw_src = Ok fs /\
    session (F := Cramfs SliceSource) (S := SliceSource)
      [OpRead (bytes_of "/l"); OpList []; OpRead (bytes_of "f/x"); OpStat (bytes_of "./f")] (fs, mock_ctx)
    = [Ok (ABytes (bytes_of "hello")); Ok (AList [(bytes_of "f", Regular); (bytes_of "l", Symlink)]);
       Err NotDirectory; Ok (AStat Regular 5)].
Proof.
  destruct (cramfs_refines_tree cw_src cw_valid 128 3 cw_tree mock_ctx
    [OpRead (bytes_of "/l"); OpList []; OpRead (bytes_of "f/x"); OpStat (bytes_of "./f")]) as (fs&Ho&Hs);
    [exact cw_superblock|exact cw_holds|reflexivity|].
  exists fs. split; [exact Ho|]. rewrite Hs. vm_compute. reflexivity.
Defined.
