(* ===== verification/Squash.v ===== *)
(** * SquashFS frontend ([crates/lamfold-squash/src/squash.rs])

    Superblock, compressed metadata blocks, inodes, directory listings, data
    blocks and fragments.  The mounted volume keeps the inodes it has met in a
    node table; [read_dir] is the one operation that grows it.  Offsets taken
    from the medium are added with [addw]: the code does not check these sums. *)
From S2P Require Import Prelude Text Cache Substrate Codec Nodes.
Open Scope Z_scope.

Definition MAGIC : Z := 0x73717368.
Definition META_MAX : Z := 8192.
Definition NO_FRAGMENT : Z := 0xFFFFFFFF.
Definition SIZE_UNCOMPRESSED : Z := Z.shiftl 1 24.
Definition SIZE_MASK : Z := 0x00FFFFFF.

Inductive Body : Type :=
| BDir (abs_block offset size : Z)
| BFile (block_sizes block_offsets : list Z) (frag_idx frag_off : Z)
| BSymlink (target : list byte)
| BOther.

Record SquashInode : Type := mkInode { si_kind : FileKind; si_size : Z; si_body : Body }.

Definition le_u16 : list byte -> Z -> Res Z := le_field 2 "squashfs: truncated u16".
Definition le_u32 : list byte -> Z -> Res Z := le_field 4 "squashfs: truncated u32".
Definition le_u64 : list byte -> Z -> Res Z := le_field 8 "squashfs: truncated u64".

(** Where each data block starts; the running offset is a [u64]. *)
Fixpoint block_offsets (at_ : Z) (block_sizes : list Z) : Res (list Z) :=
  match block_sizes with
  | [] => Ok []
  | bs :: rest =>
      let! next := addw 64 at_ (Z.land bs SIZE_MASK) in
      let! offs := block_offsets next rest in
      Ok (at_ :: offs)
  end.

(** [(0..n).map(|i| le_u32(&full, hdr + i * 4)).collect::<Result<_>>()]. *)
Definition read_block_sizes (full : list byte) (hdr n : Z) : Res (list Z) :=
  for_loop (Z.to_nat n) 0 (fun i acc =>
    let! v := le_u32 full (hdr + i * 4) in Ok (acc ++ [v])) [].

(** One entry of a directory listing: the inner loop of [dir_entries]. *)
Definition entry_round (listing : list byte) (start total : Z) (s : Z * list (name * Z) * Z)
    : Res ((Z * list (name * Z) * Z) + (list (name * Z) * Z)) :=
  let '(k, out, p) := s in
  if negb (k <? total) then Ok (inr (out, p))
  else if p + 8 >? zlen listing then Ok (inr (out, p))
  else
    let! eoff := le_u16 listing p in
    let! nlen := le_u16 listing (p + 6) in
    let nlen := nlen + 1 in
    let! nm := ok_or (get_range listing (p + 8) (p + 8 + nlen)) (Corrupt "squashfs: dir entry name OOB") in
    Ok (inl (k + 1, out ++ [(from_utf8_lossy nm, Z.lor (Z.shiftl start 16) eoff)], p + (8 + nlen))).

(** One directory header and its entries. *)
Definition header_round (listing : list byte) (s : list (name * Z) * Z)
    : Res ((list (name * Z) * Z) + list (name * Z)) :=
  let '(out, p) := s in
  if negb (p + 12 <=? zlen listing) then Ok (inr out)
  else
    let! count := le_u32 listing p in
    let! start := le_u32 listing (p + 4) in
    let! s := loop (entry_round listing start (count + 1)) (0, out, p + 12) in
    Ok (inl s).

Section Squash.
Context {D : Decoders} {S : Type} `{BlockSource S}.

Record SquashFs : Type := mkSquash {
  sq_src : S;
  sq_codec : Codec;
  sq_block_size : Z;
  sq_inode_table_start : Z;
  sq_directory_table_start : Z;
  sq_fragment_table_start : Z;
  sq_nodes : list SquashInode;
  sq_by_ref : gmap Z NodeId;
}.
Implicit Types fs : SquashFs.

Definition read_meta_block fs (at_ : Z) : Res (list byte * Z) :=
  let! hdr := src_read_at (sq_src fs) at_ 2 in
  let h := le_num hdr in
  let uncompressed := negb (Z.land h 0x8000 =? 0) in
  let len := Z.land h 0x7FFF in
  let! at2 := addw 64 at_ 2 in
  let! raw := src_read_at (sq_src fs) at2 len in
  let! data := if uncompressed then Ok raw else decode (sq_codec fs) raw META_MAX in
  let! next := addw 64 at2 len in
  Ok (data, next).

(** Copy what the block at hand has from [pos] on, up to [length] bytes in all. *)
Definition take_chunk (length : Z) (out block : list byte) (next pos : Z)
    : Res ((list byte * list byte * Z * Z) + list byte) :=
  let take := Z.min (length - zlen out) (zlen block - pos) in
  let! chunk := slice block pos (pos + take) in
  Ok (inl (out ++ chunk, block, next, pos + take)).

(** One turn of the [while out.len() < length] loop of [read_meta_span]; the
    state is the output, the block, the offset after it and the position in it. *)
Definition span_round fs (length : Z) (s : list byte * list byte * Z * Z)
    : Res ((list byte * list byte * Z * Z) + list byte) :=
  let '(out, block, next, pos) := s in
  if negb (zlen out <? length) then Ok (inr out)
  else if pos >=? zlen block then
    let! (b, n) := read_meta_block fs next in
    if zlen b =? 0 then Ok (inr out) else take_chunk length out b n 0
  else take_chunk length out block next pos.

Definition read_meta_span fs (abs_block offset length : Z) : Res (list byte) :=
  let! _ := checked_full_read_len length in
  let! (block, next) := read_meta_block fs abs_block in
  loop (span_round fs length) ([], block, next, offset).

Definition block_count fs (size frag_idx : Z) : Z :=
  if negb (frag_idx =? NO_FRAGMENT) then size / sq_block_size fs
  else div_ceil size (sq_block_size fs).

(** The tail of the two regular-file inodes: [hdr] bytes, then the sizes of the
    blocks. *)
Definition parse_file fs (abs off hdr blocks_start size frag_idx frag_off : Z) : Res SquashInode :=
  let n := block_count fs size frag_idx in
  let! n4 := mulw 64 n 4 in
  let! length := addw 64 hdr n4 in
  let! full := read_meta_span fs abs off length in
  let! block_sizes := read_block_sizes full hdr n in
  let! offs := block_offsets blocks_start block_sizes in
  Ok (mkInode Regular size (BFile block_sizes offs frag_idx frag_off)).

Definition parse_inode fs (inode_ref : Z) : Res SquashInode :=
  let! abs := addw 64 (sq_inode_table_start fs) (Z.shiftr inode_ref 16) in
  let off := Z.land inode_ref 0xFFFF in
  let! head := read_meta_span fs abs off 16 in
  let! itype := le_u16 head 0 in
  if itype =? 1 then
    let! b := read_meta_span fs abs off 32 in
    let! size := le_u16 b 24 in
    let! blk := le_u32 b 16 in
    let! abs_block := addw 64 (sq_directory_table_start fs) blk in
    let! offset := le_u16 b 26 in
    Ok (mkInode Directory size (BDir abs_block offset size))
  else if itype =? 8 then
    let! b := read_meta_span fs abs off 40 in
    let! size := le_u32 b 20 in
    let! blk := le_u32 b 24 in
    let! abs_block := addw 64 (sq_directory_table_start fs) blk in
    let! offset := le_u16 b 34 in
    Ok (mkInode Directory size (BDir abs_block offset size))
  else if itype =? 2 then
    let! h := read_meta_span fs abs off 32 in
    let! blocks_start := le_u32 h 16 in
    let! frag_idx := le_u32 h 20 in
    let! frag_off := le_u32 h 24 in
    let! size := le_u32 h 28 in
    parse_file fs abs off 32 blocks_start size frag_idx frag_off
  else if itype =? 9 then
    let! h := read_meta_span fs abs off 56 in
    let! blocks_start := le_u64 h 16 in
    let! size := le_u64 h 24 in
    let! frag_idx := le_u32 h 44 in
    let! frag_off := le_u32 h 48 in
    parse_file fs abs off 56 blocks_start size frag_idx frag_off
  else if (itype =? 3) || (itype =? 10) then
    let! h := read_meta_span fs abs off 24 in
    let! tlen := le_u32 h 20 in
    let! target_size := checked_full_read_len tlen in
    let! full := read_meta_span fs abs off (24 + target_size) in
    let! target := ok_or (get_range full 24 (24 + target_size)) (Corrupt "squashfs: symlink target OOB") in
    Ok (mkInode Symlink target_size (BSymlink target))
  else Ok (mkInode Other 0 BOther).

(** The volume with other tables. *)
Definition with_nodes fs (tables : list SquashInode * gmap Z NodeId) : SquashFs :=
  mkSquash (sq_src fs) (sq_codec fs) (sq_block_size fs) (sq_inode_table_start fs)
    (sq_directory_table_start fs) (sq_fragment_table_start fs) tables.1 tables.2.

#[export] Instance Squash_Nodes : NodeFs SquashFs Z SquashInode := {
  fs_nodes := sq_nodes;
  fs_keys := sq_by_ref;
  fs_with := with_nodes;
  fs_parse := parse_inode;
  fs_kind := si_kind;
}.

Definition dir_entries fs (abs_block offset size : Z) : Res (list (name * Z)) :=
  let! listing := read_meta_span fs abs_block offset (saturating_sub size 3) in
  loop (header_round listing) ([], 0).

Definition read_data_block fs (at_ raw_size : Z) : Res (list byte) :=
  let len := Z.land raw_size SIZE_MASK in
  if len =? 0 then Ok []
  else
    let! raw := src_read_at (sq_src fs) at_ len in
    if negb (Z.land raw_size SIZE_UNCOMPRESSED =? 0) then Ok raw
    else decode (sq_codec fs) raw (sq_block_size fs).

Definition read_fragment fs (idx : Z) : Res (list byte) :=
  let meta_blk := idx / 512 in
  let in_block := idx mod 512 in
  let! at_ := addw 64 (sq_fragment_table_start fs) (meta_blk * 8) in
  let! ptr := src_read_at (sq_src fs) at_ 8 in
  let! fe := read_meta_span fs (le_num ptr) (in_block * 16) 16 in
  let! start := le_u64 fe 0 in
  let! raw_size := le_u32 fe 8 in
  read_data_block fs start raw_size.

Definition squash_probe (src : S) : Res bool :=
  if src_len src <? 4 then Ok false
  else let! m := src_read_at src 0 4 in Ok (le_num m =? MAGIC).

Definition codec_of (id : Z) : Res Codec :=
  if id =? 1 then Ok Zlib else if id =? 3 then Ok Lzo else if id =? 4 then Ok Xz
  else if id =? 5 then Ok Lz4 else if id =? 6 then Ok Zstd
  else if id =? 2 then Err (Unsupported "squashfs: legacy lzma1 compression")
  else Err (Unsupported "squashfs: unknown compression id").

(** The volume before its root is parsed, and the root's reference. *)
Definition read_superblock (src : S) : Res (Z * SquashFs) :=
  if src_len src <? 96 then Err (Corrupt "squashfs: source shorter than superblock")
  else
    let! sb := src_read_at src 0 96 in
    let! magic := le_u32 sb 0 in
    if negb (magic =? MAGIC) then Err (Corrupt "squashfs: bad magic")
    else
      let! cid := le_u16 sb 20 in
      let! codec := codec_of cid in
      let! block_size := le_u32 sb 12 in
      if (block_size =? 0) || (block_size >? Z.shiftl 1 20)
      then Err (Corrupt "squashfs: implausible block size")
      else
        let! root_ref := le_u64 sb 32 in
        let! its := le_u64 sb 64 in
        let! dts := le_u64 sb 72 in
        let! fts := le_u64 sb 80 in
        Ok (root_ref, mkSquash src codec block_size its dts fts [] ∅).

Definition squash_open (src : S) : Res SquashFs :=
  let! (root_ref, me) := read_superblock src in
  let! root := parse_inode me root_ref in
  let (r, me) := intern root_ref root me in
  let! _ := r in
  Ok me.

Definition squash_read_dir (dir : NodeId) : ST SquashFs (list DirEntry) :=
  let* fs := getST in
  let* ino := liftR (inode fs dir) in
  match si_body ino with
  | BDir abs_block offset size =>
      let* entries := liftR (dir_entries fs abs_block offset size) in
      intern_entries entries []
  | _ => errST NotDirectory
  end.

Definition squash_lookup (dir : NodeId) (nm : name) : ST SquashFs (option NodeId) :=
  let* es := squash_read_dir dir in retST (find_entry nm es).

Definition squash_metadata fs (node : NodeId) : Res Metadata :=
  let! ino := inode fs node in
  Ok (mkMetadata (si_kind ino) (si_size ino) 0).

(** What the window copies from the block at [idx]: [want] bytes from [within]. *)
Definition block_window fs (block_sizes offs : list Z) (frag_idx frag_off idx within want : Z)
    : Res (list byte) :=
  match get block_sizes idx with
  | Some raw =>
      if Z.land raw SIZE_MASK =? 0 then Ok (zeros want)
      else
        let! at_ := at_ offs idx in
        let! block := read_data_block fs at_ raw in
        ok_or (get_range block within (within + want))
          (Corrupt "squashfs: data block shorter than its file")
  | None =>
      if negb (frag_idx =? NO_FRAGMENT) && (idx =? zlen block_sizes) then
        let! frag := read_fragment fs frag_idx in
        let start := frag_off + within in
        ok_or (get_range frag start (start + want)) (Corrupt "squashfs: fragment tail OOB")
      else Err (Corrupt "squashfs: file longer than its blocks")
  end.

(** One turn of the [while pos < end] loop of [read_at]. *)
Definition window_round fs (block_sizes offs : list Z) (frag_idx frag_off size off end_ : Z)
    (s : Z * list byte) : Res ((Z * list byte) + list byte) :=
  let '(pos, buf) := s in
  if negb (pos <? end_) then Ok (inr buf)
  else
    let bs := sq_block_size fs in
    let idx := pos / bs in
    let within := pos mod bs in
    let! room := subw size (idx * bs) in
    let block_len := Z.min bs room in
    let! rest := subw block_len within in
    let want := Z.min rest (end_ - pos) in
    let! _ := slice buf (pos - off) (pos - off + want) in
    let! src := block_window fs block_sizes offs frag_idx frag_off idx within want in
    let! buf := write_at buf (pos - off) src in
    Ok (inl (pos + want, buf)).

Definition squash_read_at fs (node : NodeId) (off : Z) (buf : list byte) : Res (Z * list byte) :=
  let! ino := inode fs node in
  match si_body ino with
  | BFile block_sizes offs frag_idx frag_off =>
      if off >=? si_size ino then Ok (0, buf)
      else
        let! lim := addw 64 off (zlen buf) in
        let end_ := Z.min (si_size ino) lim in
        let! buf := loop (window_round fs block_sizes offs frag_idx frag_off (si_size ino) off end_)
                      (off, buf) in
        Ok (end_ - off, buf)
  | _ => Err (if bool_decide (si_kind ino = Directory) then IsDirectory
              else Unsupported "squashfs: read of a non-regular inode")
  end.

Definition squash_read_link fs (node : NodeId) : Res (option (list byte)) :=
  let! ino := inode fs node in
  match si_body ino with
  | BSymlink t => Ok (Some t)
  | _ => Ok None
  end.
End Squash.
Arguments SquashFs S : clear implicits.

#[export] Instance SquashFs_Frontend {D : Decoders} {S} `{BlockSource S}
    : FoldFrontend (SquashFs S) S := {
  TAG := "squashfs";
  probe := squash_probe;
  open_ src cx := (squash_open src, cx);
  root _ := 0;
  lookup_ d nm := on_frontend (squash_lookup d nm);
  read_dir d := on_frontend (squash_read_dir d);
  metadata n := on_self (fun fs => squash_metadata fs n);
  read_at n off buf := on_self (fun fs => squash_read_at fs n off buf);
  read_link n := on_self (fun fs => squash_read_link fs n);
}.

(** ** Lemmas: every call comes back or overflows *)

(** An inode of the node table, as [parse_inode] makes them. *)
Definition body_ok (b : Body) : Prop :=
  match b with
  | BDir abs_block offset size => 0 <= abs_block < 2 ^ 64 /\ 0 <= offset < 2 ^ 16 /\ 0 <= size < 2 ^ 32
  | BFile sizes offs frag_idx frag_off =>
      zlen offs = zlen sizes /\ Forall (fun o => 0 <= o < 2 ^ 64) offs /\
      0 <= frag_idx < 2 ^ 32 /\ 0 <= frag_off < 2 ^ 32
  | _ => True
  end.
Definition inode_ok (i : SquashInode) : Prop := 0 <= si_size i < 2 ^ 64 /\ body_ok (si_body i).

Lemma block_offsets_wp at_ sizes : 0 <= at_ < 2 ^ 64 ->
  wpx True (block_offsets at_ sizes) (fun offs =>
    zlen offs = zlen sizes /\ Forall (fun o => 0 <= o < 2 ^ 64) offs).
Proof.
  revert at_. induction sizes as [|bs sizes IH]; intros at_ Ha; cbn [block_offsets]; [done|].
  pose proof (land_range bs SIZE_MASK ltac:(done)).
  apply wp_bind, wp_addw_x; [done|]. intros Hs. apply wp_bind.
  eapply wp_mono; [by apply IH; lia|]. intros offs [Hl HF]. cbn [wpx].
  rewrite !zlen_cons, Hl. by split; [|constructor].
Qed.

Lemma read_block_sizes_wp {X : Prop} full hdr n : wpx X (read_block_sizes full hdr n) (fun _ => True).
Proof.
  unfold read_block_sizes. apply (wp_for_loop (fun _ _ => True)); [done| |done].
  intros j acc _ _. by apply wp_bind, wp_le_field.
Qed.

Definition refs_ok (l : list (name * Z)) : Prop := Forall (fun e => 0 <= e.2 < 2 ^ 48) l.

Lemma entry_round_wp {X : Prop} listing start total k out p :
  0 <= start < 2 ^ 32 -> 0 <= p <= zlen listing -> refs_ok out ->
  wpx X (entry_round listing start total (k, out, p)) (fun r => match r with
    | inl (_, out', p') => refs_ok out' /\ p < p' <= zlen listing
    | inr (out', p') => refs_ok out' /\ p' = p end).
Proof.
  intros Hst Hp Hout. unfold entry_round. destruct (negb _); [by split|].
  rewrite Z.gtb_ltb. destruct (Z.ltb_spec (zlen listing) (p + 8)); [by split|].
  apply wp_bind, wp_le_field. intros eoff He _. apply wp_bind, wp_le_field. intros nlen Hn _.
  apply wp_bind, wp_ok_or. intros nm (?&?&_)%get_range_Some. cbn [wpx].
  change (256 ^ 2) with (2 ^ 16) in *. split; [|lia].
  apply Forall_app. split; [done|]. apply Forall_singleton. cbn [snd].
  rewrite lor_shiftl_add by lia. change (2 ^ 48) with (2 ^ 32 * 2 ^ 16). nia.
Qed.

Lemma header_round_wp {X : Prop} listing out p :
  0 <= p <= zlen listing -> zlen listing < 2 ^ 63 -> refs_ok out ->
  wpx X (header_round listing (out, p)) (fun r => match r with
    | inl (out', p') => refs_ok out' /\ p < p' <= zlen listing
    | inr out' => refs_ok out' end).
Proof.
  intros Hp Hlen Hout. unfold header_round. destruct (Z.leb_spec (p + 12) (zlen listing)); cbn [negb]; [|done].
  apply wp_bind, wp_le_field. intros count Hc _. apply wp_bind, wp_le_field. intros start Hst _.
  change (256 ^ 4) with (2 ^ 32) in *. apply wp_bind.
  apply (wp_loop _ (fun s => refs_ok s.1.2 /\ p + 12 <= s.2 <= zlen listing) (fun s => zlen listing - s.2)).
  - cbn [fst snd]. split; [done|lia].
  - cbn [fst snd]. lia.
  - intros [[k out'] p'] [Ho' Hp']. cbn [fst snd] in *. split; [lia|].
    eapply wp_mono; [apply (entry_round_wp listing start (count + 1) k out' p'); [done|lia|done]|].
    intros [[[k' o] q]|[o q]]; cbn [fst snd wpx].
    + intros [? ?]. split; [split; [done|lia]|lia].
    + intros [? ->]. split; [done|lia].
Qed.

(** The outer loop over a listing comes back. *)
Lemma listing_wp {X : Prop} listing : zlen listing < 2 ^ 63 ->
  wpx X (loop (header_round listing) ([], 0)) refs_ok.
Proof.
  intros Hlen. pose proof (zlen_nonneg listing).
  apply (wp_loop _ (fun s => refs_ok s.1 /\ 0 <= s.2 <= zlen listing) (fun s => zlen listing - s.2)).
  - cbn [fst snd]. split; [constructor|lia].
  - cbn [fst snd]. lia.
  - intros [out p]. cbn [fst snd]. intros [Hout Hp]. split; [lia|].
    eapply wp_mono; [apply (header_round_wp listing out p); [lia|lia|done]|].
    intros [[out' p']|out']; cbn [fst snd]; [|done]. intros [? ?]. split; [split; [done|lia]|lia].
Qed.

Section Laws.
Context {D : Decoders} {DL : DecoderLaws D} {S : Type} `{SourceLaws S}.
Implicit Types fs : SquashFs S.

#[export] Instance Squash_NodeLaws : NodeFsLaws (SquashFs S) Z SquashInode.
Proof. constructor; intros; reflexivity || by destruct f. Qed.

(** What the superblock of a mounted volume satisfies. *)
Record geo_ok fs : Prop := mkGeoOk {
  ok_src : src_valid (sq_src fs);
  ok_bs : 0 < sq_block_size fs <= 2 ^ 20;
  ok_its : 0 <= sq_inode_table_start fs < 2 ^ 64;
  ok_dts : 0 <= sq_directory_table_start fs < 2 ^ 64;
  ok_fts : 0 <= sq_fragment_table_start fs < 2 ^ 64;
}.
(** The invariant of a mounted volume. *)
Abbreviation volume_ok := (fs_ok geo_ok inode_ok).

Lemma squash_geo_with fs t : geo_ok fs -> geo_ok (fs_with fs t).
Proof. by intros []. Qed.

Lemma read_meta_block_wp {X : Prop} fs at_ : src_valid (sq_src fs) -> 0 <= at_ < 2 ^ 64 ->
  wpx X (read_meta_block fs at_) (fun '(b, next) => at_ < next < 2 ^ 63 /\ zlen b < 2 ^ 63).
Proof.
  intros Hv Ha. pose proof (src_len_range _ Hv). unfold read_meta_block.
  apply wp_bind, wp_read; [done|lia|lia|]. intros hdr _ _ Hend.
  apply wp_bind, wp_addw; [lia|]. pose proof (land_range (le_num hdr) 0x7FFF ltac:(done)).
  set (len := Z.land _ 0x7FFF) in *.
  apply wp_bind, wp_read; [done|lia|lia|]. intros raw _ Hraw Hend2. apply wp_bind.
  eapply (wp_mono _ (fun data => zlen data < 2 ^ 63)).
  - destruct (negb _); [cbn [wpx]; lia|]. apply wpx_weaken, wp_iff.
    split; [apply decode_returns; unfold META_MAX; lia|].
    intros data Hd. apply decode_len in Hd; unfold META_MAX in *; lia.
  - intros data Hd. apply wp_bind, wp_addw; [lia|]. cbn [wpx]. lia.
Qed.

Lemma take_chunk_wp {X : Prop} length out block next pos :
  0 <= pos < zlen block -> zlen out < length ->
  wpx X (take_chunk length out block next pos) (fun r => match r with
    | inl (out', block', next', pos') =>
        zlen out < zlen out' <= length /\ block' = block /\ next' = next /\ 0 <= pos'
    | inr _ => False end).
Proof.
  intros Hp Ho. unfold take_chunk. set (take := Z.min _ _). apply wp_bind, wp_slice; [lia|lia|].
  replace (pos + take - pos) with take by lia. cbn [wpx]. rewrite zlen_app, zlen_sub by lia.
  split_and!; done || lia.
Qed.

Lemma read_meta_span_wp {X : Prop} fs abs_block offset length :
  src_valid (sq_src fs) -> 0 <= abs_block < 2 ^ 64 -> 0 <= offset -> 0 <= length ->
  wpx X (read_meta_span fs abs_block offset length) (fun out =>
    zlen out <= length <= MAX_BOOT_FILE_BYTES).
Proof.
  intros Hv Ha Ho Hl. unfold read_meta_span. apply wp_bind, wp_checked_full. intros Hcap.
  unfold MAX_BOOT_FILE_BYTES in *.
  apply wp_bind. eapply wp_mono; [by apply read_meta_block_wp|]. intros [block next] [Hn _].
  apply (wp_loop _ (fun s => zlen s.1.1.1 <= length /\ 0 <= s.1.2 < 2 ^ 64 /\ 0 <= s.2)
    (fun s => length - zlen s.1.1.1)).
  - cbn [fst snd]. rewrite zlen_nil. lia.
  - cbn [fst snd]. rewrite zlen_nil. lia.
  - intros [[[out b] nx] pos]. cbn [fst snd]. intros (Hout&Hnx&Hpos). split; [lia|].
    unfold span_round. destruct (Z.ltb_spec (zlen out) length); cbn [negb]; [|cbn [wpx]; lia].
    rewrite Z.geb_leb. destruct (Z.leb_spec (zlen b) pos).
    + apply wp_bind. eapply wp_mono; [by apply read_meta_block_wp|]. intros [b' n'] [Hn' _].
      destruct (Z.eqb_spec (zlen b') 0); [cbn [wpx]; lia|]. pose proof (zlen_nonneg b').
      eapply wp_mono; [apply take_chunk_wp; lia|].
      intros [[[[o' b''] n''] p']|]; [|done]. cbn [fst snd]. intros (?&->&->&?). lia.
    + eapply wp_mono; [apply take_chunk_wp; lia|].
      intros [[[[o' b''] n''] p']|]; [|done]. cbn [fst snd]. intros (?&->&->&?). lia.
Qed.

Lemma block_count_range fs size frag_idx : 0 < sq_block_size fs -> 0 <= size ->
  0 <= block_count fs size frag_idx.
Proof.
  intros Hb Hs. unfold block_count. destruct (negb _); [by apply Z.div_pos|by apply div_ceil_nonneg].
Qed.

Lemma parse_file_wp fs abs off hdr blocks_start size frag_idx frag_off :
  geo_ok fs -> 0 <= abs < 2 ^ 64 -> 0 <= off -> 0 <= hdr ->
  0 <= blocks_start < 2 ^ 64 -> 0 <= size < 2 ^ 64 -> 0 <= frag_idx < 2 ^ 32 -> 0 <= frag_off < 2 ^ 32 ->
  wpx True (parse_file fs abs off hdr blocks_start size frag_idx frag_off) inode_ok.
Proof.
  intros Hok Ha Ho Hh Hbs Hs Hfi Hfo. unfold parse_file.
  pose proof (block_count_range fs size frag_idx ltac:(apply (ok_bs _ Hok)) ltac:(lia)) as Hn.
  set (n := block_count _ _ _) in *.
  apply wp_bind, wp_mulw_x; [done|]. intros _. apply wp_bind, wp_addw_x; [done|]. intros _.
  apply wp_bind. eapply wp_mono; [apply read_meta_span_wp; [apply Hok|lia..]|]. intros full _.
  apply wp_bind. eapply wp_mono; [apply read_block_sizes_wp|]. intros sizes _.
  apply wp_bind. eapply wp_mono; [by apply block_offsets_wp|]. intros offs [Hlen HF].
  cbn [wpx]. split; cbn [si_size si_body body_ok]; [done|]. split_and!; done || lia.
Qed.

(** Read a field that only its range matters of. *)
Ltac wp_field := apply wp_bind, wp_le_field; intros ? ? _;
  change (256 ^ 2) with (2 ^ 16) in *; change (256 ^ 4) with (2 ^ 32) in *;
  change (256 ^ 8) with (2 ^ 64) in *.
Ltac wp_span Hok := apply wp_bind; eapply wp_mono; [apply read_meta_span_wp; [apply Hok|lia..]|];
  intros ? _.

Lemma squash_parse_inode_wp fs r : geo_ok fs -> 0 <= r < 2 ^ 64 -> wpx True (parse_inode fs r) inode_ok.
Proof.
  intros Hok Hr. pose proof (ok_its _ Hok). pose proof (ok_dts _ Hok). unfold parse_inode.
  apply wp_bind, wp_addw_x; [done|]. intros Habs.
  assert (0 <= Z.shiftr r 16) by (apply Z.shiftr_nonneg; lia).
  pose proof (land_range r 0xFFFF ltac:(done)).
  set (abs := _ + Z.shiftr r 16) in *. set (off := Z.land r 0xFFFF) in *.
  assert (Hdir : forall b f, 0 <= b < 2 ^ 32 -> (forall a, 0 <= a < 2 ^ 64 -> wpx True (f a) inode_ok) ->
    wpx True (bindR (addw 64 (sq_directory_table_start fs) b) f) inode_ok).
  { intros b f Hb Hf. apply wp_bind, wp_addw_x; [done|]. intros. apply Hf. lia. }
  wp_span Hok. wp_field.
  destruct (_ =? 1). { wp_span Hok. wp_field. wp_field. apply Hdir; [done|]. intros. wp_field.
    cbn [wpx]. split; cbn [si_size si_body body_ok]; lia. }
  destruct (_ =? 8). { wp_span Hok. wp_field. wp_field. apply Hdir; [done|]. intros. wp_field.
    cbn [wpx]. split; cbn [si_size si_body body_ok]; lia. }
  destruct (_ =? 2). { wp_span Hok. do 4 wp_field. apply parse_file_wp; done || lia. }
  destruct (_ =? 9). { wp_span Hok. do 4 wp_field. apply parse_file_wp; done || lia. }
  destruct (_ || _); [|by split].
  wp_span Hok. wp_field. apply wp_bind, wp_checked_full. intros Hcap. unfold MAX_BOOT_FILE_BYTES in *.
  wp_span Hok. apply wp_bind, wp_ok_or. intros t _. cbn [wpx]. split; cbn [si_size si_body body_ok]; [lia|done].
Qed.

(** ** Listing *)

Lemma dir_entries_wp fs abs_block offset size :
  geo_ok fs -> 0 <= abs_block < 2 ^ 64 -> 0 <= offset ->
  wp (dir_entries fs abs_block offset size) refs_ok.
Proof.
  intros Hok Ha Ho. unfold dir_entries, saturating_sub. apply wp_bind.
  eapply wp_mono; [apply read_meta_span_wp; [apply Hok|lia..]|]. intros listing Hl.
  apply listing_wp. unfold MAX_BOOT_FILE_BYTES in Hl. lia.
Qed.

Lemma squash_extends_src fs fs' : extends fs fs' -> sq_src fs' = sq_src fs.
Proof. by intros [[t ->] _ _]. Qed.

Lemma squash_read_dir_ok fs dir : volume_ok fs ->
  exists r fs', squash_read_dir dir fs = (r, fs') /\ volume_ok fs' /\ extends fs fs' /\
    wpx True r (fun es => exists i abs_block offset size entries,
      inode fs dir = Ok i /\ si_body i = BDir abs_block offset size /\
      dir_entries fs abs_block offset size = Ok entries /\ Forall2 (entry_for fs') entries es).
Proof.
  intros Hok. unfold squash_read_dir. unfold bindST at 1, getST at 1. unfold bindST at 1, liftR at 1.
  pose proof (inode_wp geo_ok inode_ok (X := False) fs dir Hok) as Hi.
  destruct (inode fs dir) as [i|e| | |] eqn:Ei; try done; try by apply fails_here.
  destruct Hi as [_ Hb]. destruct (si_body i) as [a o z| | |] eqn:Eb; try by apply fails_here.
  destruct Hb as (Ha&Ho&_). pose proof (dir_entries_wp fs a o z (ok_geo _ _ _ Hok) Ha ltac:(lia)) as Hd.
  unfold bindST, liftR. destruct (dir_entries fs a o z) as [entries|e| | |] eqn:Ed; try done;
    try by apply fails_here.
  destruct (intern_entries_ok geo_ok inode_ok squash_geo_with (fun e => 0 <= e.2 < 2 ^ 48) entries fs [])
    as (r&fs'&->&Hok'&Hx&Hw); [|done|exact Hd|].
  { intros f x Hf Hx. apply squash_parse_inode_wp; [apply Hf|lia]. }
  exists r, fs'. split; [done|]. split; [done|]. split; [done|].
  eapply wp_mono; [exact Hw|]. intros es (es'&->&HF). by exists i, a, o, z, entries.
Qed.

(** ** Mounting and reading *)

Lemma read_superblock_wp src : src_valid src ->
  wp (read_superblock src) (fun '(root_ref, me) =>
    0 <= root_ref < 2 ^ 64 /\ volume_ok me /\ sq_src me = src).
Proof.
  intros Hv. unfold read_superblock. destruct (_ <? 96); [done|].
  apply wp_bind, wp_read; [done|lia|lia|]. intros sb _ _ _. wp_field. destruct (negb _); [done|].
  wp_field. apply wp_bind, (wp_mono _ (fun _ => True)).
  { unfold codec_of. by repeat case_match. }
  intros codec _. wp_field. destruct (_ || _) eqn:Ebs; [done|].
  apply orb_false_iff in Ebs as [E0%Z.eqb_neq E1]. rewrite Z.gtb_ltb in E1. apply Z.ltb_ge in E1.
  change (Z.shiftl 1 20) with (2 ^ 20) in E1. do 4 wp_field. cbn [wpx].
  split; [done|]. split; [|done].
  constructor; [constructor; cbn; done || lia|by constructor|apply table_ok_empty].
Qed.

Lemma squash_open_wp src : src_valid src ->
  wpx True (squash_open src) (fun fs => volume_ok fs /\ sq_src fs = src).
Proof.
  intros Hv. unfold squash_open. apply wp_bind.
  eapply wp_mono; [by apply wpx_weaken, read_superblock_wp|]. intros [r me] (Hr&Hok&Hsrc).
  apply (wp_bind_eq _ _ inode_ok); [by apply squash_parse_inode_wp; [apply Hok|]|]. intros root Hp Hroot.
  destruct (intern_ok geo_ok inode_ok squash_geo_with me r root Hok Hroot Hp) as (id&fs&->&Hok'&Hx&_). cbn [bindR wpx].
  split; [done|]. by rewrite (squash_extends_src _ _ Hx).
Qed.

Lemma read_data_block_wp {X : Prop} fs at_ raw : geo_ok fs -> 0 <= at_ < 2 ^ 64 ->
  wpx X (read_data_block fs at_ raw) (fun _ => True).
Proof.
  intros Hok Ha. unfold read_data_block. pose proof (land_range raw SIZE_MASK ltac:(done)).
  unfold SIZE_MASK in *. destruct (_ =? 0); [done|].
  apply wp_bind, wp_read; [apply Hok|lia|lia|]. intros b _ _ _. destruct (negb _); [done|].
  apply wpx_weaken, returns_wp, decode_returns. pose proof (ok_bs _ Hok). lia.
Qed.

Lemma read_fragment_wp fs idx : geo_ok fs -> 0 <= idx < 2 ^ 32 ->
  wpx True (read_fragment fs idx) (fun _ => True).
Proof.
  intros Hok Hi. pose proof (ok_fts _ Hok). unfold read_fragment.
  pose proof (Z.div_pos idx 512 ltac:(lia) ltac:(lia)). pose proof (Z.mod_pos_bound idx 512 ltac:(lia)).
  apply wp_bind, wp_addw_x; [done|]. intros.
  apply wp_bind, wp_read; [apply Hok|lia|lia|]. intros ptr _ Hp _.
  pose proof (le_num_range ptr) as Hr. rewrite Hp in Hr. change (256 ^ 8) with (2 ^ 64) in Hr.
  wp_span Hok. do 2 wp_field. by apply read_data_block_wp.
Qed.

Lemma wp_get_range {X : Prop} (l : list byte) lo n e :
  wpx X (ok_or (get_range l lo (lo + n)) e) (fun b => zlen b = n).
Proof. apply wp_ok_or. intros b Hb%get_range_zlen. lia. Qed.

Lemma block_window_wp fs sizes offs frag_idx frag_off idx within want :
  geo_ok fs -> body_ok (BFile sizes offs frag_idx frag_off) -> 0 <= want ->
  wpx True (block_window fs sizes offs frag_idx frag_off idx within want) (fun b => zlen b = want).
Proof.
  intros Hok (Hlen&Hoffs&Hfi&Hfo) Hw. unfold block_window.
  destruct (get sizes idx) as [raw|] eqn:Eg.
  - destruct (_ =? 0); [by apply zlen_zeros|].
    assert (Hi : 0 <= idx < zlen sizes) by (apply get_is_Some; eauto).
    apply wp_bind, wp_at; [lia|]. intros at_ [_ Ha]%get_Some.
    pose proof (Forall_lookup_1 _ _ _ _ Hoffs Ha) as Hat. cbn beta in Hat.
    apply wp_bind. eapply wp_mono; [by apply read_data_block_wp|]. intros block _. apply wp_get_range.
  - destruct (_ && _); [|done].
    apply wp_bind. eapply wp_mono; [by apply read_fragment_wp|]. intros frag _. apply wp_get_range.
Qed.

(** Where the window is: always inside its block, the file and the buffer. *)
Lemma window_spec bs size off end_ pos :
  0 < bs -> 0 <= off <= pos -> pos < end_ -> end_ <= size ->
  let room := size - pos / bs * bs in
  let want := Z.min (Z.min bs room - pos mod bs) (end_ - pos) in
  0 <= room /\ pos mod bs <= Z.min bs room /\ 0 < want /\ pos + want <= end_ /\
  pos = pos / bs * bs + pos mod bs /\ 0 <= pos / bs /\ 0 <= pos mod bs < bs /\
  pos mod bs + want <= Z.min bs room.
Proof.
  intros Hb Ho Hp He. pose proof (Z.div_mod pos bs ltac:(lia)). pose proof (Z.mod_pos_bound pos bs Hb).
  pose proof (Z.div_pos pos bs ltac:(lia) Hb). cbn zeta. lia.
Qed.

Lemma squash_read_at_wp fs node off buf :
  volume_ok fs -> 0 <= off < 2 ^ 64 ->
  wpx True (squash_read_at fs node off buf) (fun '(n, b) => zlen b = zlen buf /\ 0 <= n <= zlen buf).
Proof.
  intros Hok Ho. pose proof (zlen_nonneg buf) as Hbuf. unfold squash_read_at. apply wp_bind.
  eapply wp_mono; [by apply wpx_weaken, (inode_wp geo_ok inode_ok)|]. intros ino [Hs Hb].
  destruct Hok as [Hok _ _].
  destruct (si_body ino) as [| sizes offs fi fo | |]; try done.
  rewrite Z.geb_leb. destruct (Z.leb_spec (si_size ino) off); [cbn [wpx]; lia|].
  apply wp_bind, wp_addw_x; [done|]. intros Hlim.
  set (end_ := Z.min _ _). apply wp_bind. pose proof (ok_bs _ Hok) as [Hbs _].
  apply (wp_loop _ (fun s => off <= s.1 <= end_ /\ zlen s.2 = zlen buf) (fun s => end_ - s.1)).
  - cbn [fst snd]. split; [lia|done].
  - cbn [fst snd]. lia.
  - intros [pos b]. cbn [fst snd]. intros [Hp Hzb]. split; [lia|]. unfold window_round.
    destruct (Z.ltb_spec pos end_) as [Hlt|]; cbn [negb]; [|cbn [wpx]; lia].
    destruct (window_spec (sq_block_size fs) (si_size ino) off end_ pos) as (?&?&Hw&?&_); [lia..|].
    apply wp_bind, wp_subw; [lia|]. apply wp_bind, wp_subw; [lia|].
    set (want := Z.min _ (end_ - pos)) in *.
    apply wp_bind, wp_slice; [lia|lia|]. apply wp_bind.
    eapply wp_mono; [apply block_window_wp; done || lia|]. cbn beta. intros src Hsrc.
    apply wp_bind, wp_write_at; [lia|lia|]. intros r _ Hr. cbn [wpx fst snd].
    split; [split; [lia|congruence]|lia].
Qed.

(** ** Content: metadata spans *)

(** [bs] are the metadata blocks from offset [at_] on, decompressed. *)
Inductive MetaChain fs : Z -> list (list byte) -> Prop :=
| MetaChain_nil at_ : MetaChain fs at_ []
| MetaChain_cons at_ b next bs :
    read_meta_block fs at_ = Ok (b, next) -> b <> [] -> MetaChain fs next bs ->
    MetaChain fs at_ (b :: bs).

Lemma take_chunk_eq length out block next pos : 0 <= pos < zlen block -> zlen out < length ->
  let k := Z.min (length - zlen out) (zlen block - pos) in
  take_chunk length out block next pos = Ok (inl (out ++ sub block pos k, block, next, pos + k)).
Proof.
  intros Hp Ho k. unfold take_chunk. fold k. rewrite slice_eq by lia. cbn [bindR].
  by replace (pos + k - pos) with k by lia.
Qed.

(** Splitting a span at the end of the block. *)
Lemma sub_chunk {A} (block rest : list A) pos n k : 0 <= pos -> 0 <= k <= n -> pos + k <= zlen block ->
  sub (block ++ rest) pos n = sub block pos k ++ sub (block ++ rest) (pos + k) (n - k).
Proof.
  intros. rewrite <- (sub_app_l block rest pos k) by lia. rewrite sub_app_split by lia.
  f_equal. lia.
Qed.

Lemma zlen_pos {A} (l : list A) : l <> [] -> 0 < zlen l.
Proof. destruct l; [done|]. rewrite zlen_cons. pose proof (zlen_nonneg l). lia. Qed.

Lemma span_stop fs length out block next pos : zlen out = length ->
  LoopsTo (span_round fs length) (out, block, next, pos) (Ok out).
Proof.
  intros Ho. apply LoopsTo_break. unfold span_round. by rewrite (proj2 (Z.ltb_ge _ _)) by lia.
Qed.

Lemma span_take fs length out block next pos r :
  zlen out < length -> 0 <= pos < zlen block ->
  let k := Z.min (length - zlen out) (zlen block - pos) in
  LoopsTo (span_round fs length) (out ++ sub block pos k, block, next, pos + k) r ->
  LoopsTo (span_round fs length) (out, block, next, pos) r.
Proof.
  intros Ho Hp k. apply LoopsTo_round. unfold span_round.
  rewrite (proj2 (Z.ltb_lt _ _)) by lia. cbn [negb].
  rewrite Z.geb_leb, (proj2 (Z.leb_gt _ _)) by lia. apply take_chunk_eq; lia.
Qed.

Lemma span_fetch fs length out block next b next' r :
  zlen out < length -> read_meta_block fs next = Ok (b, next') -> b <> [] ->
  let k := Z.min (length - zlen out) (zlen b) in
  LoopsTo (span_round fs length) (out ++ sub b 0 k, b, next', k) r ->
  LoopsTo (span_round fs length) (out, block, next, zlen block) r.
Proof.
  intros Ho Hb Hne%zlen_pos k. apply LoopsTo_round. unfold span_round.
  rewrite (proj2 (Z.ltb_lt _ _)) by lia. cbn [negb].
  rewrite Z.geb_leb, (proj2 (Z.leb_le _ _)) by lia. rewrite Hb. cbn [bindR].
  rewrite (proj2 (Z.eqb_neq _ _)) by lia. rewrite take_chunk_eq by lia. cbn zeta.
  by rewrite Z.sub_0_r, Z.add_0_l.
Qed.

(** After [k] bytes of a block: done, or what is left of the span remains. *)
Lemma span_chunk fs length out block next pos l k rest :
  0 <= pos -> 0 <= k <= length - zlen out -> pos + k <= zlen block -> l = block ++ rest ->
  (forall out', zlen out' = zlen out + k -> zlen out' < length ->
     LoopsTo (span_round fs length) (out', block, next, pos + k)
       (Ok (out' ++ sub l (pos + k) (length - zlen out')))) ->
  LoopsTo (span_round fs length) (out ++ sub block pos k, block, next, pos + k)
    (Ok (out ++ sub l pos (length - zlen out))).
Proof.
  intros Hp Hk Hfit -> Hgo.
  assert (Hz : zlen (out ++ sub block pos k) = zlen out + k) by (rewrite zlen_app, zlen_sub by lia; lia).
  rewrite (sub_chunk block rest pos _ k), app_assoc by lia.
  replace (length - zlen out - k) with (length - zlen (out ++ sub block pos k)) by lia.
  destruct (decide (zlen (out ++ sub block pos k) = length)) as [E|]; [|apply Hgo; done || lia].
  rewrite E, Z.sub_diag, sub_nil, app_nil_r. by apply span_stop.
Qed.

(** The block at hand is used up to its end, the blocks after it in turn. *)
Lemma span_LoopsTo fs length rest : forall out block next pos,
  MetaChain fs next rest -> 0 <= pos <= zlen block -> zlen out <= length ->
  pos + (length - zlen out) <= zlen (block ++ concat rest) ->
  LoopsTo (span_round fs length) (out, block, next, pos)
    (Ok (out ++ sub (block ++ concat rest) pos (length - zlen out))).
Proof.
  induction rest as [|b rest IH]; intros out block next pos Hc Hp Ho Hfit;
    (destruct (decide (zlen out = length)) as [E|];
      [rewrite E, Z.sub_diag, sub_nil, app_nil_r; by apply span_stop|]).
  - cbn [concat] in *. rewrite app_nil_r in *. apply span_take; [lia|lia|].
    apply (span_chunk _ _ _ _ _ _ _ _ []); [lia|lia|lia|by rewrite app_nil_r|lia].
  - inversion Hc as [|? ? next' ? Hb Hne Hc']; subst. cbn [concat] in *. rewrite !zlen_app in *.
    pose proof (zlen_nonneg b). pose proof (zlen_nonneg (concat rest)).
    assert (Hnext : forall o, zlen o < length -> length - zlen o <= zlen b + zlen (concat rest) ->
      LoopsTo (span_round fs length) (o, block, next, zlen block)
        (Ok (o ++ sub (b ++ concat rest) 0 (length - zlen o)))).
    { intros o Hlt Hfo. apply (span_fetch _ _ _ _ _ b next'); [done|done|done|].
      rewrite <- (Z.add_0_l (Z.min _ _)) at 2.
      apply (span_chunk _ _ _ _ _ _ _ _ (concat rest)); [lia|lia|lia|done|].
      intros o' Hz Ho'. apply IH; [done|lia|lia|]. rewrite zlen_app. lia. }
    assert (Hend : forall o : list byte, sub (block ++ b ++ concat rest) (zlen block) (length - zlen o)
      = sub (b ++ concat rest) 0 (length - zlen o)) by (intros; by rewrite sub_app_r, Z.sub_diag by lia).
    destruct (decide (pos = zlen block)) as [->|]; [rewrite Hend; apply Hnext; lia|].
    apply span_take; [lia|lia|]. apply (span_chunk _ _ _ _ _ _ _ _ (b ++ concat rest)); [lia|lia|lia|done|].
    intros o' Hz Ho'. replace (pos + _) with (zlen block) by lia. rewrite Hend. apply Hnext; lia.
Qed.

Lemma read_meta_span_chain fs abs_block block rest offset length :
  src_valid (sq_src fs) -> 0 <= abs_block < 2 ^ 64 -> MetaChain fs abs_block (block :: rest) ->
  0 <= offset <= zlen block -> 0 <= length <= MAX_BOOT_FILE_BYTES ->
  offset + length <= zlen (block ++ concat rest) ->
  read_meta_span fs abs_block offset length = Ok (sub (block ++ concat rest) offset length).
Proof.
  intros Hv Ha Hc Ho Hl Hfit. inversion Hc as [|? ? next ? Hb Hne Hc']; subst.
  pose proof (read_meta_span_wp (X := False) fs abs_block offset length Hv Ha ltac:(lia) ltac:(lia)) as Hw.
  unfold read_meta_span in *. rewrite (proj2 (checked_full_Ok length length)) in * by (split; [lia|done]).
  cbn [bindR] in *. rewrite Hb in *. cbn [bindR] in *.
  apply loop_eq; [by eapply wp_returns|].
  pose proof (span_LoopsTo fs length rest [] block next offset Hc' Ho) as Hs.
  rewrite zlen_nil, Z.sub_0_r in Hs. apply Hs; lia.
Qed.

(** ** Content: files *)

(** The part of the content [c] that block [i] holds. *)
Definition file_block (bs : Z) (c : list byte) (i : Z) : list byte :=
  sub c (i * bs) (Z.min bs (zlen c - i * bs)).

(** [data] holds [blk] from [start] on. *)
Definition holds (data : list byte) (start : Z) (blk : list byte) : Prop :=
  0 <= start /\ start + zlen blk <= zlen data /\ sub data start (zlen blk) = blk.

(** The blocks of a file and its fragment hold the content [c]. *)
Definition stores fs (sizes offs : list Z) (frag_idx frag_off : Z) (c : list byte) : Prop :=
  forall i, 0 <= i -> i * sq_block_size fs < zlen c ->
    let blk := file_block (sq_block_size fs) c i in
    match get sizes i with
    | Some raw =>
        if Z.land raw SIZE_MASK =? 0 then blk = zeros (zlen blk)
        else exists at_ data, get offs i = Some at_ /\ read_data_block fs at_ raw = Ok data /\
               holds data 0 blk
    | None =>
        frag_idx <> NO_FRAGMENT /\ i = zlen sizes /\
        exists frag, read_fragment fs frag_idx = Ok frag /\ holds frag frag_off blk
    end.

Lemma holds_range data start blk within want : holds data start blk ->
  0 <= within -> 0 <= want -> within + want <= zlen blk ->
  get_range data (start + within) (start + within + want) = Some (sub blk within want).
Proof.
  intros (Hs&Hfit&Hsub) Hwi Hwa Hle. apply get_range_Some. split; [lia|]. split; [lia|].
  replace (start + within + want - (start + within)) with want by lia.
  rewrite <- Hsub at 1. by rewrite sub_sub by lia.
Qed.

Lemma block_window_stores fs sizes offs frag_idx frag_off c idx within want :
  stores fs sizes offs frag_idx frag_off c -> 0 < sq_block_size fs -> 0 <= idx ->
  idx * sq_block_size fs < zlen c -> 0 <= within -> 0 <= want ->
  within + want <= Z.min (sq_block_size fs) (zlen c - idx * sq_block_size fs) ->
  block_window fs sizes offs frag_idx frag_off idx within want
  = Ok (sub c (idx * sq_block_size fs + within) want).
Proof.
  intros Hst Hbs Hi Hic Hwi Hwa Hle. specialize (Hst idx Hi Hic). cbn zeta in Hst.
  set (bs := sq_block_size fs) in *. set (blk := file_block bs c idx) in *.
  assert (Hblk : zlen blk = Z.min bs (zlen c - idx * bs)) by (apply zlen_sub; lia).
  assert (Hsub : sub c (idx * bs + within) want = sub blk within want)
    by (symmetry; apply sub_sub; lia).
  rewrite Hsub. unfold block_window. destruct (get sizes idx) as [raw|] eqn:Eg.
  - destruct (_ =? 0); [rewrite Hst, sub_zeros by lia; done|].
    destruct Hst as (o&data&Ho&Hr&Hh). unfold at_. rewrite Ho. cbn [bindR]. rewrite Hr. cbn [bindR].
    apply ok_or_Ok. rewrite <- (Z.add_0_l within) at 1 2. apply holds_range; done || lia.
  - destruct Hst as (Hf&->&frag&Hr&Hh). rewrite Z.eqb_refl, (proj2 (Z.eqb_neq _ _)) by done.
    cbn [negb andb]. rewrite Hr. cbn [bindR]. apply ok_or_Ok. apply holds_range; done || lia.
Qed.

(** One turn of the window over stored content. *)
Lemma window_round_stores fs sizes offs frag_idx frag_off c off end_ pos buf :
  stores fs sizes offs frag_idx frag_off c -> 0 < sq_block_size fs ->
  0 <= off <= pos -> pos < end_ -> end_ <= zlen c -> end_ - off <= zlen buf ->
  exists want b, 0 < want /\ pos + want <= end_ /\
    window_round fs sizes offs frag_idx frag_off (zlen c) off end_ (pos, buf) = Ok (inl (pos + want, b)) /\
    write_at buf (pos - off) (sub c pos want) = Ok b.
Proof.
  intros Hst Hbs Ho Hlt He Hfit. unfold window_round. rewrite (proj2 (Z.ltb_lt _ _)) by lia. cbn [negb].
  destruct (window_spec (sq_block_size fs) (zlen c) off end_ pos) as (Hr&Hm&Hw&Hend&Hpos&Hq&Hmod&Hle);
    [lia..|].
  set (bs := sq_block_size fs) in *. set (want := Z.min _ (end_ - pos)) in *.
  rewrite (subw_eq (zlen c)) by lia. cbn [bindR]. rewrite subw_eq by lia. cbn [bindR]. fold want.
  rewrite slice_eq by lia. cbn [bindR].
  rewrite (block_window_stores fs sizes offs frag_idx frag_off c) by (done || lia). cbn [bindR].
  fold bs. rewrite <- Hpos.
  assert (Hz : zlen (sub c pos want) = want) by (apply zlen_sub; lia).
  destruct (write_at buf (pos - off) (sub c pos want)) as [b|e| | |] eqn:Ew;
    [|by rewrite write_at_eq in Ew by lia..].
  exists want, b. by cbn [bindR].
Qed.

Lemma read_at_stores fs node off buf sizes offs frag_idx frag_off c :
  stores fs sizes offs frag_idx frag_off c -> 0 < sq_block_size fs ->
  inode fs node = Ok (mkInode Regular (zlen c) (BFile sizes offs frag_idx frag_off)) ->
  0 <= off < zlen c -> off + zlen buf < 2 ^ 64 ->
  let n := Z.min (zlen c - off) (zlen buf) in
  exists b, squash_read_at fs node off buf = Ok (n, b) /\
    sub b 0 n = sub c off n /\ drop (Z.to_nat n) b = drop (Z.to_nat n) buf.
Proof.
  intros Hst Hbs Hi Ho Hlim n. unfold squash_read_at. rewrite Hi. cbn [bindR si_body si_size].
  rewrite Z.geb_leb, (proj2 (Z.leb_gt _ _)) by lia. rewrite addw_eq by lia. cbn [bindR].
  pose proof (zlen_nonneg buf). set (end_ := Z.min (zlen c) (off + zlen buf)).
  assert (Hn : end_ - off = n) by (unfold end_, n; lia).
  destruct (loop_succeeds
    (window_round fs sizes offs frag_idx frag_off (zlen c) off end_)
    (fun s => off <= s.1 <= end_ /\ zlen s.2 = zlen buf /\
       sub s.2 0 (s.1 - off) = sub c off (s.1 - off) /\
       drop (Z.to_nat (s.1 - off)) s.2 = drop (Z.to_nat (s.1 - off)) buf)
    (fun s => end_ - s.1) (off, buf)
    (fun b => sub b 0 n = sub c off n /\ drop (Z.to_nat n) b = drop (Z.to_nat n) buf)) as (b&->&Hb).
  - cbn [fst snd]. rewrite Z.sub_diag, !sub_nil. split; [lia|done].
  - cbn [fst snd]. lia.
  - intros [pos b]. cbn [fst snd]. intros (Hp&Hzb&Hs&Hd). split; [lia|].
    destruct (Z.ltb_spec pos end_) as [Hlt|Hge].
    + destruct (window_round_stores fs sizes offs frag_idx frag_off c off end_ pos b)
        as (want&b'&Hw&Hle&Hr&Hwr); [done|done|lia|done|lia|lia|].
      exists (inl (pos + want, b')). split; [exact Hr|]. cbn [fst snd].
      pose proof (write_at_zlen _ _ _ _ Hwr) as Hz'. apply write_at_front in Hwr as [Hs' Hd'].
      assert (Hz : zlen (sub c pos want) = want) by (apply zlen_sub; lia). rewrite Hz in *.
      replace (pos + want - off) with (pos - off + want) by lia.
      split; [|lia]. split; [lia|]. split; [congruence|]. split.
      * rewrite Hs', Hs. replace pos with (off + (pos - off)) at 2 by lia. apply sub_app_split; lia.
      * rewrite Hd', Z2Nat.inj_add, <- !drop_drop, Hd by lia. done.
    + exists (inr b). unfold window_round. rewrite (proj2 (Z.ltb_ge _ _)) by lia.
      split; [done|]. rewrite <- Hn. by replace end_ with pos by lia.
  - exists b. cbn [bindR]. by rewrite Hn.
Qed.

(** ** Content: directory listings *)

(** A directory header with its entries: the metadata block of its inodes and
    their base number, and per entry the name, the offset of its inode in that
    block, the difference of its inode number and its type. *)
Record DirGroup : Type := mkGroup { dg_start : Z; dg_inum : Z; dg_entries : list (list byte * Z * Z * Z) }.

Definition entry_bytes (e : list byte * Z * Z * Z) : list byte :=
  let '(nm, eoff, inum, ty) := e in
  le_bytes 2 eoff ++ le_bytes 2 inum ++ le_bytes 2 ty ++ le_bytes 2 (zlen nm - 1) ++ nm.
Definition group_bytes (g : DirGroup) : list byte :=
  le_bytes 4 (zlen (dg_entries g) - 1) ++ le_bytes 4 (dg_start g) ++ le_bytes 4 (dg_inum g) ++
  concat (entry_bytes <$> dg_entries g).
Definition listing_bytes (gs : list DirGroup) : list byte := concat (group_bytes <$> gs).

Definition entry_ok (e : list byte * Z * Z * Z) : Prop :=
  let '(nm, eoff, inum, ty) := e in 0 < zlen nm <= 2 ^ 16 /\ 0 <= eoff < 2 ^ 16.
Definition group_ok (g : DirGroup) : Prop :=
  0 < zlen (dg_entries g) <= 2 ^ 32 /\ 0 <= dg_start g < 2 ^ 32 /\ Forall entry_ok (dg_entries g).

(** What the listing says: names and inode references. *)
Definition entry_ref (start : Z) (e : list byte * Z * Z * Z) : name * Z :=
  let '(nm, eoff, inum, ty) := e in (from_utf8_lossy nm, start * 2 ^ 16 + eoff).
Definition group_refs (g : DirGroup) : list (name * Z) := entry_ref (dg_start g) <$> dg_entries g.
End Laws.

Lemma zlen_entry_bytes nm eoff inum ty : zlen (entry_bytes (nm, eoff, inum, ty)) = 8 + zlen nm.
Proof. unfold entry_bytes. rewrite !zlen_app, !zlen_le_bytes. lia. Qed.

Lemma get_range_in (l p q r : list byte) lo hi :
  l = p ++ q ++ r -> lo = zlen p -> hi = lo + zlen q -> get_range l lo hi = Some q.
Proof. intros -> -> ->. by apply get_range_app. Qed.

Lemma entry_round_written p r start total k out nm eoff inum ty :
  0 <= start < 2 ^ 32 -> entry_ok (nm, eoff, inum, ty) -> k < total ->
  entry_round (p ++ entry_bytes (nm, eoff, inum, ty) ++ r) start total (k, out, zlen p)
  = Ok (inl (k + 1, out ++ [entry_ref start (nm, eoff, inum, ty)],
             zlen (p ++ entry_bytes (nm, eoff, inum, ty)))).
Proof.
  intros Hst [Hn He] Hk. unfold entry_round. rewrite (proj2 (Z.ltb_lt _ _)) by lia. cbn [negb].
  pose proof (zlen_nonneg p). pose proof (zlen_nonneg r).
  rewrite !zlen_app, zlen_entry_bytes.
  rewrite Z.gtb_ltb, (proj2 (Z.ltb_ge _ _)) by lia.
  set (l := p ++ entry_bytes _ ++ r).
  assert (F0 : le_u16 l (zlen p) = Ok eoff).
  { unfold le_u16, l, entry_bytes. rewrite <- !app_assoc. apply (le_field_app _ _ 2); [done|done|exact He]. }
  assert (F6 : le_u16 l (zlen p + 6) = Ok (zlen nm - 1)).
  { unfold le_u16, l, entry_bytes. rewrite <- !app_assoc.
    replace (p ++ _) with ((p ++ le_bytes 2 eoff ++ le_bytes 2 inum ++ le_bytes 2 ty) ++
      le_bytes 2 (zlen nm - 1) ++ nm ++ r) by by rewrite <- !app_assoc.
    apply (le_field_app _ _ 2); [|done|change (256 ^ Z.of_nat 2) with (2 ^ 16); lia].
    rewrite !zlen_app, !zlen_le_bytes. lia. }
  assert (F8 : get_range l (zlen p + 8) (zlen p + 8 + (zlen nm - 1 + 1)) = Some nm).
  { apply (get_range_in _ (p ++ le_bytes 2 eoff ++ le_bytes 2 inum ++ le_bytes 2 ty ++ le_bytes 2 (zlen nm - 1)) nm r).
    - unfold l, entry_bytes. by rewrite <- !app_assoc.
    - rewrite !zlen_app, !zlen_le_bytes. lia.
    - lia. }
  rewrite F0. cbn [bindR]. rewrite F6. cbn [bindR]. rewrite F8. cbn [bindR ok_or].
  rewrite lor_shiftl_add by lia. do 3 f_equal. lia.
Qed.

(** The inner loop reads the entries of a group. *)
Lemma entries_LoopsTo start total es : forall p r k out,
  0 <= start < 2 ^ 32 -> Forall entry_ok es -> k + zlen es = total ->
  LoopsTo (entry_round (p ++ concat (entry_bytes <$> es) ++ r) start total) (k, out, zlen p)
    (Ok (out ++ (entry_ref start <$> es), zlen (p ++ concat (entry_bytes <$> es)))).
Proof.
  induction es as [|[[[nm eoff] inum] ty] es IH]; intros p r k out Hst Hes Hk.
  - apply LoopsTo_break. unfold entry_round. cbn [fmap list_fmap concat]. rewrite !app_nil_r.
    rewrite zlen_nil in Hk. by rewrite (proj2 (Z.ltb_ge _ _)) by lia.
  - apply Forall_cons in Hes as [He Hes]. rewrite zlen_cons in Hk. pose proof (zlen_nonneg es).
    cbn [fmap list_fmap concat]. rewrite <- app_assoc.
    eapply LoopsTo_round; [apply entry_round_written; done || lia|].
    set (q := p ++ entry_bytes (nm, eoff, inum, ty)).
    replace (p ++ entry_bytes (nm, eoff, inum, ty) ++ concat (entry_bytes <$> es) ++ r)
      with (q ++ concat (entry_bytes <$> es) ++ r) by (unfold q; by rewrite <- app_assoc).
    replace (p ++ entry_bytes (nm, eoff, inum, ty) ++ concat (entry_bytes <$> es))
      with (q ++ concat (entry_bytes <$> es)) by (unfold q; by rewrite <- app_assoc).
    replace (out ++ entry_ref start (nm, eoff, inum, ty) :: (entry_ref start <$> es))
      with ((out ++ [entry_ref start (nm, eoff, inum, ty)]) ++ (entry_ref start <$> es))
      by (by rewrite <- app_assoc).
    apply IH; done || lia.
Qed.

Lemma header_round_written p g r out : group_ok g ->
  refs_ok out -> zlen (p ++ group_bytes g ++ r) < 2 ^ 63 ->
  header_round (p ++ group_bytes g ++ r) (out, zlen p)
  = Ok (inl (out ++ group_refs g, zlen (p ++ group_bytes g))).
Proof.
  intros (Hn&Hst&Hes) Hout Hlen. set (l := p ++ group_bytes g ++ r) in *.
  set (hd := le_bytes 4 (zlen (dg_entries g) - 1) ++ le_bytes 4 (dg_start g) ++ le_bytes 4 (dg_inum g)).
  assert (Hhd : zlen hd = 12) by (unfold hd; by rewrite !zlen_app, !zlen_le_bytes).
  assert (Hl : l = (p ++ hd) ++ concat (entry_bytes <$> dg_entries g) ++ r).
  { unfold l, group_bytes, hd. by rewrite <- !app_assoc. }
  assert (Hend : zlen (p ++ group_bytes g) = zlen ((p ++ hd) ++ concat (entry_bytes <$> dg_entries g))).
  { f_equal. unfold group_bytes, hd. by rewrite <- !app_assoc. }
  pose proof (zlen_nonneg p). pose proof (zlen_nonneg r).
  pose proof (zlen_nonneg (concat (entry_bytes <$> dg_entries g))).
  assert (Hz : zlen l = zlen p + 12 + zlen (concat (entry_bytes <$> dg_entries g)) + zlen r)
    by (rewrite Hl, !zlen_app; lia).
  assert (Hc : le_u32 l (zlen p) = Ok (zlen (dg_entries g) - 1)).
  { unfold le_u32, l, group_bytes. rewrite <- !app_assoc.
    apply (le_field_app _ _ 4); [done|done|change (256 ^ Z.of_nat 4) with (2 ^ 32); lia]. }
  assert (Hs : le_u32 l (zlen p + 4) = Ok (dg_start g)).
  { unfold le_u32, l, group_bytes. rewrite <- !app_assoc.
    rewrite (app_assoc p). apply (le_field_app _ _ 4); [|done|exact Hst].
    by rewrite zlen_app, zlen_le_bytes. }
  pose proof (header_round_wp (X := False) l out (zlen p) ltac:(lia) Hlen Hout) as Hw.
  unfold header_round in *. rewrite (proj2 (Z.leb_le _ _)) in * by lia. cbn [negb] in *.
  rewrite Hc in *. cbn [bindR] in *. rewrite Hs in *. cbn [bindR] in *.
  replace (zlen p + 12) with (zlen (p ++ hd)) in * by (rewrite zlen_app; lia).
  rewrite Hend, Hl in *. erewrite loop_eq; [|..|apply entries_LoopsTo; [done|done|lia]]; [done|].
  apply wp_returns in Hw. by destruct (loop _ _).
Qed.

Lemma group_refs_ok g : group_ok g -> refs_ok (group_refs g).
Proof.
  intros (_&Hst&Hes). unfold refs_ok, group_refs. apply Forall_fmap. eapply Forall_impl; [exact Hes|].
  intros [[[nm eoff] inum] ty] [_ He]. cbn. change (2 ^ 48) with (2 ^ 32 * 2 ^ 16). nia.
Qed.

Lemma headers_LoopsTo gs : forall p out, Forall group_ok gs -> refs_ok out ->
  zlen (p ++ listing_bytes gs) < 2 ^ 63 ->
  LoopsTo (header_round (p ++ listing_bytes gs)) (out, zlen p) (Ok (out ++ (gs ≫= group_refs))).
Proof.
  induction gs as [|g gs IH]; intros p out Hgs Hout Hlen; unfold listing_bytes in *;
    cbn [fmap list_fmap concat mbind list_bind] in *.
  - apply LoopsTo_break. unfold header_round. rewrite !app_nil_r.
    by rewrite (proj2 (Z.leb_gt _ _)) by lia.
  - apply Forall_cons in Hgs as [Hg Hgs].
    eapply LoopsTo_round; [by apply header_round_written|].
    rewrite (app_assoc p) in *. rewrite (app_assoc out).
    apply IH; [done| |done]. apply Forall_app. split; [done|by apply group_refs_ok].
Qed.

(** The loop over a whole listing. *)
Lemma parse_listing gs : Forall group_ok gs -> zlen (listing_bytes gs) < 2 ^ 63 ->
  loop (header_round (listing_bytes gs)) ([], 0) = Ok (gs ≫= group_refs).
Proof.
  intros Hgs Hlen. apply loop_eq; [|apply (headers_LoopsTo gs []); [done|constructor|done]].
  by eapply wp_returns, listing_wp.
Qed.

(** ** Properties *)

(** The states a volume over [src] goes through: mounted, then listed and
    searched any number of times. *)
Inductive Mounted {D : Decoders} {S} `{BlockSource S} (src : S) : SquashFs S -> Prop :=
| Mounted_open fs : squash_open src = Ok fs -> Mounted src fs
| Mounted_read_dir fs dir : Mounted src fs -> Mounted src (squash_read_dir dir fs).2
| Mounted_lookup fs dir nm : Mounted src fs -> Mounted src (squash_lookup dir nm fs).2.

Section Properties.
Context {D : Decoders} {DL : DecoderLaws D} {S : Type} `{SourceLaws S}.
Implicit Types (src : S) (fs : SquashFs S).

#[local] Abbreviation volume_ok := (fs_ok geo_ok inode_ok).

Lemma squash_lookup_ok fs dir nm : volume_ok fs ->
  returns_or_overflow (squash_lookup dir nm fs).1 /\
  (squash_lookup dir nm fs).2 = (squash_read_dir dir fs).2.
Proof.
  intros Hok. unfold squash_lookup, bindST.
  destruct (squash_read_dir_ok fs dir Hok) as (r&fs'&->&_&_&Hw). by destruct r.
Qed.

Lemma squash_mounted_ok src fs : src_valid src -> Mounted src fs -> volume_ok fs /\ sq_src fs = src.
Proof.
  intros Hv. induction 1 as [fs Ho|fs dir _ [Hok Hsrc]|fs dir nm _ [Hok Hsrc]].
  - by apply (wp_Ok _ _ _ (squash_open_wp src Hv)).
  - destruct (squash_read_dir_ok fs dir Hok) as (r&fs'&->&Hok'&Hx&_). cbn [snd].
    split; [done|]. by rewrite (squash_extends_src _ _ Hx).
  - destruct (squash_lookup_ok fs dir nm Hok) as [_ ->].
    destruct (squash_read_dir_ok fs dir Hok) as (r&fs'&->&Hok'&Hx&_). cbn [snd].
    split; [done|]. by rewrite (squash_extends_src _ _ Hx).
Qed.

(** C37.  On any medium, mounting a SquashFS and every operation on a mounted
    volume, whatever listings came before and for any handle, comes back or stops
    at an arithmetic overflow of an on-disk offset: no index or slice is out of
    range and no loop runs for ever.  A read moves at most a buffer. *)
Theorem squash_total src : src_valid src ->
  returns_or_overflow (squash_open src) /\
  forall fs, Mounted src fs -> forall node off buf nm, 0 <= off < 2 ^ 64 ->
    returns_or_overflow (squash_read_dir node fs).1 /\
    returns_or_overflow (squash_lookup node nm fs).1 /\
    returns (squash_metadata fs node) /\ returns (squash_read_link fs node) /\
    returns_or_overflow (squash_read_at fs node off buf) /\
    (forall n b, squash_read_at fs node off buf = Ok (n, b) -> zlen b = zlen buf /\ 0 <= n <= zlen buf).
Proof.
  intros Hv. split; [by eapply wp_returns_x, squash_open_wp|].
  intros fs Hm node off buf nm Hoff. apply (squash_mounted_ok src fs Hv) in Hm as [Hok _].
  pose proof (squash_read_at_wp fs node off buf Hok Hoff) as Hr. split_and!.
  - destruct (squash_read_dir_ok fs node Hok) as (r&fs'&->&_&_&Hw). by eapply wp_returns_x.
  - by apply squash_lookup_ok.
  - apply returns_bindR; [apply returns_ok_or|done].
  - apply returns_bindR; [apply returns_ok_or|]. intros i _. by destruct (si_body i).
  - by eapply wp_returns_x.
  - intros n b Hb. apply (wp_Ok _ _ _ Hr Hb).
Qed.

(** C36.  The node table.  A listing names, in order, the entries of the
    directory; the handle it gives an entry stands for the entry's inode
    reference: [inode] of the handle is what parsing the reference gives, the
    same reference always has the same handle and different references
    different ones.  Handles given out before keep their inode. *)
Theorem squash_read_dir_spec src fs dir es fs' : src_valid src -> Mounted src fs ->
  squash_read_dir dir fs = (Ok es, fs') ->
  (exists i abs_block offset size entries,
     inode fs dir = Ok i /\ si_body i = BDir abs_block offset size /\
     dir_entries fs abs_block offset size = Ok entries /\
     Forall2 (fun x e => de_name e = x.1 /\
       exists i, parse_inode fs x.2 = Ok i /\ inode fs' (de_node e) = Ok i /\ de_kind e = si_kind i)
       entries es /\
     (forall j k x y e f, entries !! j = Some x -> es !! j = Some e ->
        entries !! k = Some y -> es !! k = Some f -> (x.2 = y.2 <-> de_node e = de_node f))) /\
  (forall node i, inode fs node = Ok i -> inode fs' node = Ok i).
Proof.
  intros Hv Hm Hd. apply (squash_mounted_ok src fs Hv) in Hm as [Hok _].
  destruct (squash_read_dir_ok fs dir Hok) as (r&fs1&Hr&Hok'&Hx&Hw). rewrite Hr in Hd.
  injection Hd as -> ->. cbn [wpx] in Hw. destruct Hw as (i&a&o&z&entries&?&?&?&HF).
  split; [|intros node j; by apply extends_inode].
  destruct (entries_for_spec geo_ok inode_ok fs fs' entries es Hok' Hx HF). by exists i, a, o, z, entries.
Qed.

(** C19.  Reading a regular file whose data blocks, sparse blocks and fragment
    hold the content [c] gives exactly the bytes of [c] from the offset on, as many
    as fit the buffer and remain, whatever block boundaries the window crosses; the
    rest of the buffer is untouched. *)
Theorem squash_read_at_content src fs node off buf sizes offs frag_idx frag_off c :
  src_valid src -> Mounted src fs ->
  inode fs node = Ok (mkInode Regular (zlen c) (BFile sizes offs frag_idx frag_off)) ->
  stores fs sizes offs frag_idx frag_off c ->
  0 <= off < zlen c -> off + zlen buf < 2 ^ 64 ->
  let n := Z.min (zlen c - off) (zlen buf) in
  exists b, squash_read_at fs node off buf = Ok (n, b) /\
    sub b 0 n = sub c off n /\ drop (Z.to_nat n) b = drop (Z.to_nat n) buf.
Proof.
  intros Hv Hm Hi Hst Ho Hlim. apply (squash_mounted_ok src fs Hv) in Hm as [Hok _].
  apply (read_at_stores fs node off buf sizes offs frag_idx frag_off c); try done.
  apply (ok_bs _ (ok_geo _ _ _ Hok)).
Qed.

(** A directory listing written as groups of entries, anywhere in a chain of
    metadata blocks and over any number of them, is read back as the names and
    inode references of the entries in order. *)
Theorem squash_dir_roundtrip fs abs_block offset block rest gs pre post :
  src_valid (sq_src fs) -> 0 <= abs_block < 2 ^ 64 ->
  MetaChain fs abs_block (block :: rest) ->
  block ++ concat rest = pre ++ listing_bytes gs ++ post ->
  offset = zlen pre -> offset <= zlen block ->
  zlen (listing_bytes gs) <= MAX_BOOT_FILE_BYTES -> Forall group_ok gs ->
  dir_entries fs abs_block offset (zlen (listing_bytes gs) + 3) = Ok (gs ≫= group_refs).
Proof.
  intros Hv Ha Hc Hb -> Hfit Hcap Hgs. pose proof (zlen_nonneg pre). pose proof (zlen_nonneg post).
  pose proof (zlen_nonneg (listing_bytes gs)). unfold dir_entries, saturating_sub.
  replace (Z.max 0 _) with (zlen (listing_bytes gs)) by lia.
  rewrite (read_meta_span_chain fs abs_block block rest) by (done || lia || (rewrite Hb, !zlen_app; lia)).
  cbn [bindR]. rewrite Hb, sub_app_r, Z.sub_diag, sub_0_app by lia.
  apply parse_listing; [done|]. unfold MAX_BOOT_FILE_BYTES in Hcap. lia.
Qed.
End Properties.

(** ** Witnesses: a volume whose blocks are all stored uncompressed *)

Definition w_stored (l : list byte) : list byte := le_bytes 2 (0x8000 + zlen l) ++ l.
Definition w_groups : list DirGroup := [mkGroup 1 1 [(bytes_of "f", 32, 0, 2)]].
Definition w_superblock (its : Z) : list byte :=
  le_bytes 4 MAGIC ++ zeros 8 ++ le_bytes 4 16 ++ zeros 4 ++ le_bytes 2 1 ++ zeros 10 ++
  le_bytes 8 0x10000 ++ zeros 24 ++ le_bytes 8 its ++ le_bytes 8 300 ++ le_bytes 8 160.
Definition w_root_inode : list byte :=
  le_bytes 2 1 ++ zeros 14 ++ le_bytes 4 0 ++ zeros 4 ++ le_bytes 2 24 ++ zeros 6.
(** A data block, a sparse block, and five bytes of a fragment. *)
Definition w_file_inode : list byte :=
  le_bytes 2 2 ++ zeros 14 ++ le_bytes 4 96 ++ le_bytes 4 0 ++ le_bytes 4 2 ++ le_bytes 4 37 ++
  le_bytes 4 (16 + SIZE_UNCOMPRESSED) ++ le_bytes 4 0.
Definition w_content : list byte := bytes_of "0123456789abcdef" ++ zeros 16 ++ bytes_of "hello".
Definition w_image (its : Z) : Image := mkImage 400 [
  (0, w_superblock its); (96, bytes_of "0123456789abcdef" ++ bytes_of "xxhello.");
  (128, w_stored (le_bytes 8 112 ++ le_bytes 4 (8 + SIZE_UNCOMPRESSED) ++ zeros 4));
  (160, le_bytes 8 128); (201, w_stored (w_root_inode ++ w_file_inode));
  (300, w_stored (listing_bytes w_groups))].
(** The inodes are in the metadata block 1 byte into the inode table. *)
Definition w_src : Image := w_image 200.
Definition w_file : SquashInode :=
  mkInode Regular 37 (BFile [16 + SIZE_UNCOMPRESSED; 0] [96; 112] 0 2).

Definition w_fs0 : SquashFs Image :=
  match squash_open w_src with
  | Ok fs => fs
  | _ => mkSquash w_src Zlib 16 0 0 0 [] ∅
  end.
(** After listing the root. *)
Definition w_fs : SquashFs Image := (squash_read_dir 0 w_fs0).2.
Definition w_entry : DirEntry := mkDirEntry (bytes_of "f") 1 Regular.

Lemma w_open : squash_open w_src = Ok w_fs0.
Proof. vm_compute. reflexivity. Qed.
Lemma w_squash_mounted0 : Mounted w_src w_fs0.
Proof. apply Mounted_open, w_open. Qed.
Lemma w_squash_mounted : Mounted w_src w_fs.
Proof. apply Mounted_read_dir, w_squash_mounted0. Qed.
Lemma w_read_dir : squash_read_dir 0 w_fs0 = (Ok [w_entry], w_fs).
Proof. vm_compute. reflexivity. Qed.

Lemma w_tail : sub w_content 10 27 = bytes_of "abcdef" ++ zeros 16 ++ bytes_of "hello".
Proof. vm_compute. reflexivity. Qed.

(** A superblock whose inode table starts at the end of the address space. *)
Lemma squash_open_overflow : squash_open (w_image (2 ^ 64 - 1)) = Overflow.
Proof. vm_compute. reflexivity. Qed.

Lemma squash_total_witness :
  returns_or_overflow (squash_open (w_image (2 ^ 64 - 1))) /\
  returns_or_overflow (squash_read_dir 0 w_fs).1 /\ returns (squash_metadata w_fs 1).
Proof.
  destruct (squash_total (w_image (2 ^ 64 - 1))) as [Ho _];
    [vm_compute; split; [discriminate|reflexivity]|]. split; [exact Ho|].
  destruct (squash_total w_src) as [_ Hops]; [vm_compute; split; [discriminate|reflexivity]|]. split.
  - destruct (Hops w_fs w_squash_mounted 0 0 [] []) as (Hd&_); [lia|]. exact Hd.
  - destruct (Hops w_fs w_squash_mounted 1 0 [] []) as (_&_&Hm&_); [lia|]. exact Hm.
Defined.

Lemma squash_read_dir_spec_witness :
  exists i, inode w_fs 1 = Ok i /\ si_kind i = Regular.
Proof.
  destruct (squash_read_dir_spec w_src w_fs0 0 [w_entry] w_fs) as [(i&a&o&z&entries&_&_&_&HF&_) _];
    [vm_compute; split; [discriminate|reflexivity]|exact w_squash_mounted0|exact w_read_dir|].
  destruct entries as [|x [|]]; [by inversion HF| |by inversion HF; inversion H4].
  apply Forall2_cons in HF as [(_&j&_&Hj&Hk) _]. exists j. split; [exact Hj|]. symmetry. exact Hk.
Defined.

Lemma w_stores : stores w_fs [16 + SIZE_UNCOMPRESSED; 0] [96; 112] 0 2 w_content.
Proof.
  assert (Hbs : sq_block_size w_fs = 16) by (vm_compute; reflexivity).
  assert (Hz : zlen w_content = 37) by (vm_compute; reflexivity).
  assert (Hd : read_data_block w_fs 96 (16 + SIZE_UNCOMPRESSED) = Ok (bytes_of "0123456789abcdef"))
    by (vm_compute; reflexivity).
  assert (Hf : read_fragment w_fs 0 = Ok (bytes_of "xxhello.")) by (vm_compute; reflexivity).
  intros i Hi Hlt. rewrite Hbs, Hz in *. assert (i = 0 \/ i = 1 \/ i = 2) as [->|[->| ->]] by lia.
  - exists 96, (bytes_of "0123456789abcdef"). split; [reflexivity|]. split; [exact Hd|].
    vm_compute. split; [discriminate|]. split; [discriminate|reflexivity].
  - vm_compute. reflexivity.
  - split; [vm_compute; discriminate|]. split; [reflexivity|]. exists (bytes_of "xxhello.").
    split; [exact Hf|]. vm_compute. split; [discriminate|]. split; [discriminate|reflexivity].
Qed.

Lemma squash_read_at_content_witness :
  exists b, squash_read_at w_fs 1 10 (zeros 30) = Ok (27, b) /\
    sub b 0 27 = bytes_of "abcdef" ++ zeros 16 ++ bytes_of "hello".
Proof.
  destruct (squash_read_at_content w_src w_fs 1 10 (zeros 30) [16 + SIZE_UNCOMPRESSED; 0] [96; 112] 0 2
    w_content) as (b&Hb&Hs&_);
    [vm_compute; split; [discriminate|reflexivity]|exact w_squash_mounted|vm_compute; reflexivity|exact w_stores
    |vm_compute; split; [discriminate|reflexivity]|vm_compute; reflexivity|].
  exists b. split; [exact Hb|]. rewrite <- w_tail. exact Hs.
Defined.

(** The listing of the root, after two bytes of another directory's. *)
Definition w_dir : SquashFs Image :=
  mkSquash (mkImage 100 [(10, w_stored (bytes_of "xx" ++ sub (listing_bytes w_groups) 0 5));
    (19, w_stored (drop 5 (listing_bytes w_groups) ++ bytes_of "y"))]) Zlib 16 0 0 0 [] ∅.

Lemma squash_dir_roundtrip_witness : dir_entries w_dir 10 2 24 = Ok [(bytes_of "f", 65568)].
Proof.
  apply (squash_dir_roundtrip w_dir 10 2 (bytes_of "xx" ++ sub (listing_bytes w_groups) 0 5)
    [drop 5 (listing_bytes w_groups) ++ bytes_of "y"] w_groups (bytes_of "xx") (bytes_of "y"));
    [vm_compute; split; [discriminate|reflexivity]|lia| |vm_compute; reflexivity|vm_compute; reflexivity
    |vm_compute; discriminate|vm_compute; discriminate|].
  - eapply MetaChain_cons; [vm_compute; reflexivity|vm_compute; discriminate|].
    eapply MetaChain_cons; [vm_compute; reflexivity|vm_compute; discriminate|apply MetaChain_nil].
  - apply Forall_singleton. split; [vm_compute; split; [reflexivity|discriminate]|].
    split; [cbn; lia|]. apply Forall_singleton. split; [vm_compute; split; [reflexivity|discriminate]|lia].
Defined.
