(* ===== verification/SquashTree.v ===== *)
(** * A written SquashFS is the tree that was written

    The format from the writer's side: the superblock, chains of metadata blocks,
    inodes of every kind, directory listings, data blocks, sparse blocks and
    fragments as bytes of the medium, and the trees they make up; mounted and used
    by path such a volume is its tree. *)
From S2P Require Import Prelude Text Cache Substrate Path Codec Nodes Tree NodesTree Squash.
Open Scope Z_scope.

(** ** Written inodes *)

(** What every inode begins with, behind its type. *)
Record Common : Type := mkCommon { wc_mode : Z; wc_uid : Z; wc_gid : Z; wc_mtime : Z; wc_number : Z }.

Inductive WInode : Type :=
| WDir (c : Common) (blk nlink size off parent : Z)
| WLDir (c : Common) (nlink size blk parent index off xattr : Z)
| WFile (c : Common) (start frag frag_off size : Z) (sizes : list Z)
| WLFile (c : Common) (start size sparse nlink frag frag_off xattr : Z) (sizes : list Z)
| WLink (ext : bool) (c : Common) (nlink : Z) (target : list byte)
| WSpecial (ty : Z) (c : Common).

Definition common_fields (ty : Z) (c : Common) : list (nat * Z) :=
  [(2%nat, ty); (2%nat, wc_mode c); (2%nat, wc_uid c); (2%nat, wc_gid c); (4%nat, wc_mtime c); (4%nat, wc_number c)].
Definition winode_fields (w : WInode) : list (nat * Z) :=
  match w with
  | WDir c blk nlink size off parent =>
      common_fields 1 c ++ [(4%nat, blk); (4%nat, nlink); (2%nat, size); (2%nat, off); (4%nat, parent)]
  | WLDir c nlink size blk parent index off xattr =>
      common_fields 8 c ++ [(4%nat, nlink); (4%nat, size); (4%nat, blk); (4%nat, parent); (2%nat, index); (2%nat, off); (4%nat, xattr)]
  | WFile c start frag frag_off size _ =>
      common_fields 2 c ++ [(4%nat, start); (4%nat, frag); (4%nat, frag_off); (4%nat, size)]
  | WLFile c start size sparse nlink frag frag_off xattr _ =>
      common_fields 9 c ++ [(8%nat, start); (8%nat, size); (8%nat, sparse); (4%nat, nlink); (4%nat, frag); (4%nat, frag_off); (4%nat, xattr)]
  | WLink ext c nlink target => common_fields (if ext then 10 else 3) c ++ [(4%nat, nlink); (4%nat, zlen target)]
  | WSpecial ty c => common_fields ty c
  end.
(** Behind the fields: the sizes of blocks, the target of a link. *)
Definition winode_tail (w : WInode) : list byte :=
  match w with
  | WFile _ _ _ _ _ sizes | WLFile _ _ _ _ _ _ _ _ sizes => concat (le_bytes 4 <$> sizes)
  | WLink _ _ _ target => target
  | _ => []
  end.
Definition winode_bytes (w : WInode) : list byte := layout (winode_fields w) ++ winode_tail w.

(** Where the blocks of a file are: one behind the other. *)
Fixpoint offsets (at_ : Z) (sizes : list Z) : list Z :=
  match sizes with
  | [] => []
  | s :: rest => at_ :: offsets (at_ + Z.land s SIZE_MASK) rest
  end.
Definition stored_len (sizes : list Z) : Z := foldr (fun s n => Z.land s SIZE_MASK + n) 0 sizes.

Lemma stored_len_nonneg sizes : 0 <= stored_len sizes.
Proof.
  induction sizes as [|s sizes IH]; [done|]. change (stored_len (s :: sizes)) with (Z.land s SIZE_MASK + stored_len sizes).
  pose proof (land_range s SIZE_MASK ltac:(done)). lia.
Qed.

Lemma zlen_sizes l : zlen (concat (le_bytes 4 <$> l)) = zlen l * 4.
Proof.
  induction l as [|x l IH]; [done|]. cbn [fmap list_fmap concat]. rewrite zlen_app, zlen_le_bytes, IH, zlen_cons. lia.
Qed.

Lemma flag_bit x k (b : bool) : 0 <= k -> 0 <= x < 2 ^ k ->
  (Z.land (x + if b then 2 ^ k else 0) (2 ^ k) =? 0) = negb b.
Proof.
  intros Hk Hx. assert (Hbit : Z.testbit (x + if b then 2 ^ k else 0) k = b).
  { apply eq_true_iff_eq. rewrite Z.testbit_true by done. destruct b.
    - rewrite <- (Z.mul_1_l (2 ^ k)) at 1. rewrite Z.div_add, Z.div_small by lia. done.
    - by rewrite Z.add_0_r, Z.div_small by lia. }
  destruct b; cbn [negb]; [apply Z.eqb_neq|apply Z.eqb_eq].
  - intros E. apply (f_equal (fun z => Z.testbit z k)) in E. rewrite Z.land_spec, Hbit, Z.pow2_bits_true, Z.testbit_0_l in E by done. done.
  - apply Z.bits_inj'. intros n Hn. rewrite Z.land_spec, Z.pow2_bits_eqb, Z.testbit_0_l by done.
    destruct (Z.eqb_spec k n) as [<-|]; [by rewrite Hbit|by rewrite andb_false_r].
Qed.

Section Written.
Context {D : Decoders} {DL : DecoderLaws D} {S : Type} `{ReliableSource S}.
(** The medium, and what the superblock says of it. *)
Context (src : S) (codec : Codec) (bs its dts fts : Z).
Definition base : SquashFs S := mkSquash src codec bs its dts fts [] ∅.

Definition inode_of (w : WInode) : SquashInode :=
  match w with
  | WDir _ blk _ size off _ | WLDir _ _ size blk _ _ off _ => mkInode Directory size (BDir (dts + blk) off size)
  | WFile _ start frag frag_off size sizes | WLFile _ start size _ _ frag frag_off _ sizes =>
      mkInode Regular size (BFile sizes (offsets start sizes) frag frag_off)
  | WLink _ _ _ target => mkInode Symlink (zlen target) (BSymlink target)
  | WSpecial _ _ => mkInode Other 0 BOther
  end.

Definition blocks_ok (start size frag : Z) (sizes : list Z) : Prop :=
  zlen sizes = block_count base size frag /\ Forall (fun s => 0 <= s < 2 ^ 32) sizes /\ start + stored_len sizes < 2 ^ 64.
Definition winode_ok (w : WInode) : Prop :=
  Forall field_ok (winode_fields w) /\ zlen (winode_bytes w) <= MAX_BOOT_FILE_BYTES /\
  match w with
  | WDir _ blk _ _ _ _ | WLDir _ _ _ blk _ _ _ _ => dts + blk < 2 ^ 64
  | WFile _ start frag _ size sizes | WLFile _ start size _ _ frag _ _ sizes => blocks_ok start size frag sizes
  | WLink _ _ _ _ => True
  | WSpecial ty _ => ty ∉ [1; 2; 3; 8; 9; 10]
  end.

(** ** Where it is written *)

(** A chain of metadata blocks: a header with the length and whether the block is
    stored as it is, and the block. *)
Inductive meta_blocks : Z -> list (list byte) -> Prop :=
| Meta_end at_ : meta_blocks at_ []
| Meta_block at_ raw (stored : bool) b l :
    has src at_ (le_bytes 2 (zlen raw + if stored then 0x8000 else 0) ++ raw) -> zlen raw < 0x8000 ->
    (if stored then b = raw else decode codec raw META_MAX = Ok b) -> b <> [] ->
    meta_blocks (at_ + 2 + zlen raw) l -> meta_blocks at_ (b :: l).

(** [bytes] are [off] bytes into the chain at [at_], over one or more blocks. *)
Definition meta_at (at_ off : Z) (bytes : list byte) : Prop :=
  exists block l pre post, meta_blocks at_ (block :: l) /\ block ++ concat l = pre ++ bytes ++ post /\
    off = zlen pre /\ off <= zlen block.

Definition inode_at (ref : Z) (w : WInode) : Prop :=
  0 <= ref < 2 ^ 64 /\ winode_ok w /\ meta_at (its + Z.shiftr ref 16) (Z.land ref 0xFFFF) (winode_bytes w).

(** A data block: [raw] has its length and whether it is stored as it is. *)
Definition block_at (at_ raw : Z) (data : list byte) : Prop :=
  exists bytes, has src at_ bytes /\ zlen bytes = Z.land raw SIZE_MASK /\ bytes <> [] /\
    if Z.land raw SIZE_UNCOMPRESSED =? 0 then decode codec bytes bs = Ok data else data = bytes.

Definition fragment_at (idx : Z) (data : list byte) : Prop :=
  exists ptr start raw unused, 0 <= ptr < 2 ^ 64 /\ 0 <= start < 2 ^ 64 /\ 0 <= raw < 2 ^ 32 /\
    has src (fts + idx / 512 * 8) (le_bytes 8 ptr) /\
    meta_at ptr (idx mod 512 * 16) (layout [(8%nat, start); (4%nat, raw); (4%nat, unused)]) /\ block_at start raw data.

(** The blocks of a file and, behind them, the end of the file in a fragment. *)
Definition file_at (sizes offs : list Z) (frag frag_off : Z) (c : list byte) : Prop :=
  forall i, 0 <= i -> i * bs < zlen c ->
    let blk := file_block bs c i in
    match get sizes i with
    | Some raw =>
        if Z.land raw SIZE_MASK =? 0 then blk = zeros (zlen blk)
        else exists at_ data, get offs i = Some at_ /\ block_at at_ raw data /\ holds data 0 blk
    | None =>
        frag <> NO_FRAGMENT /\ i = zlen sizes /\ exists data, fragment_at frag data /\ holds data frag_off blk
    end.

(** The tree at an inode reference. *)
Inductive squash_tree : Z -> Tree -> Prop :=
| Sq_file ref w c sizes offs frag frag_off : inode_at ref w ->
    inode_of w = mkInode Regular (zlen c) (BFile sizes offs frag frag_off) ->
    file_at sizes offs frag frag_off c -> squash_tree ref (TFile c)
| Sq_link ref ext c nlink target : inode_at ref (WLink ext c nlink target) -> squash_tree ref (TLink target)
| Sq_special ref ty c : inode_at ref (WSpecial ty c) -> squash_tree ref (TOther [])
| Sq_dir ref w abs off gs es : inode_at ref w ->
    inode_of w = mkInode Directory (zlen (listing_bytes gs) + 3) (BDir abs off (zlen (listing_bytes gs) + 3)) ->
    meta_at abs off (listing_bytes gs) -> zlen (listing_bytes gs) <= MAX_BOOT_FILE_BYTES -> Forall group_ok gs ->
    Forall2 (fun x e => x.1 = e.1 /\ squash_tree x.2 e.2) (gs ≫= group_refs) es -> squash_tree ref (TDir es).

(** The superblock, with the reference of the root. *)
Definition codec_id : Z :=
  match codec with Zlib => 1 | Lzo => 3 | Xz => 4 | Lz4 => 5 | Zstd => 6 | _ => 0 end.
Definition superblock_at (root : Z) : Prop :=
  exists inodes mtime frags block_log flags ids major minor used id_table xattr lookup,
    let fields := [(4%nat, MAGIC); (4%nat, inodes); (4%nat, mtime); (4%nat, bs); (4%nat, frags); (2%nat, codec_id); (2%nat, block_log);
      (2%nat, flags); (2%nat, ids); (2%nat, major); (2%nat, minor); (8%nat, root); (8%nat, used); (8%nat, id_table); (8%nat, xattr);
      (8%nat, its); (8%nat, dts); (8%nat, fts); (8%nat, lookup)] in
    Forall field_ok fields /\ codec_id <> 0 /\ 0 < bs <= 2 ^ 20 /\ has src 0 (layout fields).

(** ** Lemmas: reading it *)

Context (Hv : src_valid src) (Hgeo : geo_ok base).

Lemma meta_blocks_chain at_ l : meta_blocks at_ l -> MetaChain base at_ l.
Proof.
  induction 1 as [at_|at_ raw stored b l Hhas Hz Hb Hne _ IH]; [constructor|].
  eapply MetaChain_cons; [|done|exact IH]. pose proof (zlen_nonneg raw). pose proof (src_len_range src Hv).
  pose proof Hhas as (Ho&Hin&_). rewrite zlen_app, zlen_le_bytes in Hin. change (Z.of_nat 2) with 2 in Hin.
  apply has_app in Hhas as [Hh Hr]. rewrite zlen_le_bytes in Hr. change (Z.of_nat 2) with 2 in Hr.
  apply has_read in Hh, Hr; [|done..]. rewrite zlen_le_bytes in Hh. change (Z.of_nat 2) with 2 in Hh.
  unfold read_meta_block. cbn [sq_src sq_codec base]. rewrite Hh. cbn [bindR].
  rewrite le_num_le_bytes, Z.mod_small by (change (256 ^ Z.of_nat 2) with 65536; destruct stored; lia).
  change 0x7FFF with (Z.ones 15). rewrite Z.land_ones by lia.
  change 0x8000 with (2 ^ 15). rewrite flag_bit by lia.
  replace ((zlen raw + (if stored then 2 ^ 15 else 0)) mod 2 ^ 15) with (zlen raw)
    by (destruct stored; [change (2 ^ 15) with (1 * 2 ^ 15) at 1; rewrite Z.mod_add by lia|rewrite Z.add_0_r];
        rewrite Z.mod_small by lia; done).
  rewrite addw_eq by lia. cbn [bindR]. rewrite Hr. cbn [bindR].
  destruct stored; cbn [negb]; [subst b|rewrite Hb]; cbn [bindR]; by rewrite addw_eq by lia.
Qed.

(** Any prefix of what is written. *)
Lemma meta_read at_ off bytes n : meta_at at_ off bytes -> 0 <= n <= zlen bytes -> n <= MAX_BOOT_FILE_BYTES ->
  0 <= at_ < 2 ^ 63 /\ read_meta_span base at_ off n = Ok (sub bytes 0 n).
Proof.
  intros (block&l&pre&post&Hm&Hb&Hoff&Hfit) Hn Hcap. pose proof (zlen_nonneg pre). pose proof (zlen_nonneg post).
  pose proof (src_len_range src Hv).
  assert (0 <= at_ < 2 ^ 63) as Hat.
  { inversion Hm as [|? ? ? ? ? (?&Hin&_)]; subst. rewrite zlen_app, zlen_le_bytes in Hin.
    match goal with |- context [at_] => pose proof (zlen_nonneg raw) end. lia. }
  split; [done|]. apply meta_blocks_chain in Hm.
  rewrite (read_meta_span_chain base at_ block l off n); try done; try lia.
  - rewrite Hb, Hoff, sub_app_r, Z.sub_diag, sub_app_l by lia. done.
  - rewrite Hb, !zlen_app. lia.
Qed.

Lemma read_block_sizes_written hd sizes : Forall (fun s => 0 <= s < 2 ^ 32) sizes ->
  read_block_sizes (hd ++ concat (le_bytes 4 <$> sizes)) (zlen hd) (zlen sizes) = Ok sizes.
Proof.
  intros Hs. unfold read_block_sizes. rewrite (for_loop_concat (fun j => [default 0 (sizes !! Z.to_nat j)])).
  - rewrite Z2Nat.id by apply zlen_nonneg. cbn [app]. f_equal.
    rewrite <- (fmap_seqZ (fun s => [s]) sizes 0). clear Hs. induction sizes as [|s l IH]; [done|]. cbn. f_equal. exact IH.
  - intros j acc Hj. rewrite Z2Nat.id in Hj by apply zlen_nonneg.
    destruct (lookup_lt_is_Some_2 sizes (Z.to_nat j)) as [s Hj']; [unfold zlen in Hj; lia|]. rewrite Hj'. cbn [default].
    rewrite <- (take_drop_middle sizes (Z.to_nat j) s Hj') at 1. rewrite fmap_app, concat_app. cbn [fmap list_fmap concat].
    rewrite app_assoc. unfold le_u32. rewrite (le_field_app _ _ 4); [done| |done|exact (Forall_lookup_1 _ _ _ _ Hs Hj')].
    rewrite zlen_app, zlen_sizes. unfold zlen in *. rewrite length_take. lia.
Qed.

Lemma block_offsets_written sizes : forall at_, 0 <= at_ -> at_ + stored_len sizes < 2 ^ 64 ->
  block_offsets at_ sizes = Ok (offsets at_ sizes).
Proof.
  induction sizes as [|s sizes IH]; intros at_ Ha Hs; [done|]. cbn [block_offsets offsets].
  change (stored_len (s :: sizes)) with (Z.land s SIZE_MASK + stored_len sizes) in Hs.
  pose proof (land_range s SIZE_MASK ltac:(done)). pose proof (stored_len_nonneg sizes).
  rewrite addw_eq by lia. cbn [bindR]. rewrite IH by lia. done.
Qed.

Lemma parse_file_written ref hdr start size frag frag_off sizes fields :
  meta_at (its + Z.shiftr ref 16) (Z.land ref 0xFFFF) (layout fields ++ concat (le_bytes 4 <$> sizes)) ->
  zlen (layout fields ++ concat (le_bytes 4 <$> sizes)) <= MAX_BOOT_FILE_BYTES -> hdr = widths fields ->
  0 <= start -> blocks_ok start size frag sizes ->
  parse_file base (its + Z.shiftr ref 16) (Z.land ref 0xFFFF) hdr start size frag frag_off
  = Ok (mkInode Regular size (BFile sizes (offsets start sizes) frag frag_off)).
Proof.
  intros Hm Hcap -> Hst (Hn&Hs&Hsum). pose proof (zlen_nonneg sizes).
  assert (Hz : zlen (layout fields ++ concat (le_bytes 4 <$> sizes)) = widths fields + zlen sizes * 4).
  { rewrite zlen_app, zlen_layout, zlen_sizes. lia. }
  pose proof (zlen_nonneg (layout fields)) as Hw. rewrite zlen_layout in Hw. unfold MAX_BOOT_FILE_BYTES in Hcap.
  unfold parse_file. rewrite <- Hn, mulw_eq by lia. cbn [bindR]. rewrite addw_eq by lia. cbn [bindR].
  destruct (meta_read _ _ _ (widths fields + zlen sizes * 4) Hm) as [_ ->]; [lia|unfold MAX_BOOT_FILE_BYTES; lia|]. cbn [bindR].
  rewrite <- Hz, sub_all, <- zlen_layout, read_block_sizes_written by done. cbn [bindR].
  by rewrite block_offsets_written.
Qed.

(** One field of an inode's bytes, from a prefix of them. *)
Lemma winode_field w tok i k v n o d : Forall field_ok (winode_fields w) -> winode_fields w !! i = Some (k, v) ->
  o = widths (take i (winode_fields w)) -> d = Z.of_nat k -> o + d <= n -> n <= widths (winode_fields w) ->
  le_field d tok (sub (winode_bytes w) 0 n) o = Ok v.
Proof.
  intros Hf Hi Ho Hd Hn Hlen. apply (layout_field tok (winode_fields w) i k v n (winode_tail w) o d); try done.
  - exact (Forall_lookup_1 _ _ _ _ Hf Hi).
  - pose proof (zlen_nonneg (winode_tail w)). lia.
Qed.

Lemma zlen_winode w : zlen (winode_bytes w) = widths (winode_fields w) + zlen (winode_tail w).
Proof. unfold winode_bytes. by rewrite zlen_app, zlen_layout. Qed.

Ltac field i := erewrite (winode_field _ _ i) by (eassumption || reflexivity || (cbn; lia)); cbn [bindR].

Lemma squash_parse_written ref w : inode_at ref w -> parse_inode base ref = Ok (inode_of w).
Proof.
  intros (Href&(Hf&Hcap&Hw)&Hm). pose proof (zlen_winode w) as Hz. pose proof (zlen_nonneg (winode_tail w)).
  pose proof (zlen_nonneg (winode_bytes w)).
  assert (Hspan : forall n, 0 <= n <= widths (winode_fields w) ->
    read_meta_span base (its + Z.shiftr ref 16) (Z.land ref 0xFFFF) n = Ok (sub (winode_bytes w) 0 n)).
  { intros n Hn. apply meta_read; [done|lia..]. }
  assert (Habs : 0 <= its + Z.shiftr ref 16 < 2 ^ 63).
  { apply (meta_read _ _ _ 0 Hm); [lia|]. unfold MAX_BOOT_FILE_BYTES. lia. }
  assert (0 <= Z.shiftr ref 16) by (apply Z.shiftr_nonneg; lia). pose proof (ok_its _ Hgeo). pose proof (ok_dts _ Hgeo).
  cbn [sq_inode_table_start sq_directory_table_start base] in *.
  unfold parse_inode. cbn [sq_inode_table_start sq_directory_table_start base]. rewrite addw_eq by lia. cbn [bindR].
  assert (H16 : 16 <= widths (winode_fields w)) by (by destruct w).
  rewrite (Hspan 16) by lia. cbn [bindR]. unfold le_u16, le_u32, le_u64.
  assert (Hblk : forall i v, winode_fields w !! i = Some (4%nat, v) -> 0 <= v < 2 ^ 32).
  { intros i v Hi. exact (Forall_lookup_1 _ _ _ _ Hf Hi). }
  destruct w as [c blk nlink size off parent|c nlink size blk parent index off xattr|c start frag frag_off size sizes
    |c start size sparse nlink frag frag_off xattr sizes|ext c nlink target|ty c]; cbn [winode_tail] in *.
  - field 0%nat. rewrite (Hspan 32) by done. cbn [Z.eqb Pos.eqb bindR]. field 8%nat. field 6%nat.
    rewrite addw_eq by (pose proof (Hblk 6%nat blk eq_refl); lia). cbn [bindR]. by field 9%nat.
  - field 0%nat. rewrite (Hspan 40) by done. cbn [Z.eqb Pos.eqb bindR]. field 7%nat. field 8%nat.
    rewrite addw_eq by (pose proof (Hblk 8%nat blk eq_refl); lia). cbn [bindR]. by field 11%nat.
  - field 0%nat. rewrite (Hspan 32) by done. cbn [Z.eqb Pos.eqb bindR]. field 6%nat. field 7%nat. field 8%nat. field 9%nat.
    apply (parse_file_written _ _ _ _ _ _ _ _ Hm); try done. apply (Hblk 6%nat start eq_refl).
  - field 0%nat. rewrite (Hspan 56) by done. cbn [Z.eqb Pos.eqb bindR]. field 6%nat. field 7%nat. field 10%nat. field 11%nat.
    apply (parse_file_written _ _ _ _ _ _ _ _ Hm); try done. apply (Forall_lookup_1 field_ok _ 6 (8%nat, start) Hf eq_refl).
  - field 0%nat. assert (Hty : (if ext then 10 else 3) =? 1 = false /\ (if ext then 10 else 3) =? 8 = false /\
      (if ext then 10 else 3) =? 2 = false /\ (if ext then 10 else 3) =? 9 = false /\
      (((if ext then 10 else 3) =? 3) || ((if ext then 10 else 3) =? 10)) = true) by (by destruct ext).
    destruct Hty as (->&->&->&->&->). rewrite (Hspan 24) by (by destruct ext). cbn [bindR].
    assert (Hwd : widths (winode_fields (WLink ext c nlink target)) = 24) by (by destruct ext). rewrite Hwd in *.
    field 7%nat. pose proof (zlen_nonneg target).
    rewrite (proj2 (checked_full_Ok (zlen target) (zlen target))) by (unfold MAX_BOOT_FILE_BYTES in *; split; [lia|done]).
    cbn [bindR]. destruct (meta_read _ _ _ (24 + zlen target) Hm) as [_ ->]; [lia|lia|]. cbn [bindR].
    rewrite <- Hz, sub_all, Hz. unfold winode_bytes. cbn [winode_tail].
    assert (get_range (layout (winode_fields (WLink ext c nlink target)) ++ target) 24 (24 + zlen target) = Some target) as ->;
      [|done].
    pose proof (get_range_app (layout (winode_fields (WLink ext c nlink target))) target [] 24 (24 + zlen target)) as Hg.
    rewrite app_nil_r, zlen_layout, Hwd in Hg. by apply Hg.
  - field 0%nat. assert (Hty : forall k, k ∈ [1; 2; 3; 8; 9; 10] -> ty =? k = false).
    { intros k Hk. apply Z.eqb_neq. by intros ->. }
    by rewrite !Hty by set_solver.
Qed.

Lemma block_at_read at_ raw data : block_at at_ raw data -> read_data_block base at_ raw = Ok data.
Proof.
  intros (bytes&Hhas&Hz&Hne%zlen_pos&Hd). unfold read_data_block. rewrite <- Hz, (proj2 (Z.eqb_neq _ _)) by lia.
  cbn [sq_src sq_codec sq_block_size base]. rewrite (has_read src at_ bytes) by done. cbn [bindR].
  destruct (_ =? 0); cbn [negb]; [done|by subst].
Qed.

Lemma fragment_at_read idx data : 0 <= idx -> fragment_at idx data -> read_fragment base idx = Ok data.
Proof.
  intros Hidx (ptr&start&raw&unused&Hptr&Hstart&Hraw&Hhas&Hm&Hb).
  pose proof (src_len_range src Hv). unfold read_fragment. cbn [sq_fragment_table_start sq_src base].
  pose proof Hhas as (?&Hin&_). rewrite zlen_le_bytes in Hin. rewrite addw_eq by lia. cbn [bindR].
  apply has_read in Hhas; [|done]. rewrite zlen_le_bytes in Hhas. change (Z.of_nat 8) with 8 in Hhas. rewrite Hhas. cbn [bindR].
  rewrite le_num_le_bytes, Z.mod_small by done.
  destruct (meta_read _ _ _ 16 Hm) as [_ ->]; [rewrite zlen_layout; done|done|]. cbn [bindR].
  unfold le_u64, le_u32. rewrite <- (app_nil_r (layout _)).
  rewrite (layout_field _ _ 0 8 start), (layout_field _ _ 1 4 raw) by done. cbn [bindR]. by apply block_at_read.
Qed.

Lemma file_at_stores sizes offs frag frag_off c : 0 <= frag ->
  file_at sizes offs frag frag_off c -> stores base sizes offs frag frag_off c.
Proof.
  intros Hfr Hf i Hi Hlt. specialize (Hf i Hi Hlt). cbn zeta in *. cbn [sq_block_size base].
  destruct (get sizes i) as [raw|].
  - destruct (_ =? 0); [done|]. destruct Hf as (a&data&Ha&Hb&Hh). exists a, data. split; [done|]. split; [by apply block_at_read|done].
  - destruct Hf as (Hfrag&->&data&Hd&Hh). split; [done|]. split; [done|]. exists data. split; [by apply fragment_at_read|done].
Qed.

Lemma dir_at_entries abs off gs : meta_at abs off (listing_bytes gs) -> zlen (listing_bytes gs) <= MAX_BOOT_FILE_BYTES ->
  Forall group_ok gs -> dir_entries base abs off (zlen (listing_bytes gs) + 3) = Ok (gs ≫= group_refs).
Proof.
  intros Hm Hcap Hgs. pose proof (zlen_nonneg (listing_bytes gs)). unfold dir_entries, saturating_sub.
  replace (Z.max 0 _) with (zlen (listing_bytes gs)) by lia.
  destruct (meta_read _ _ _ (zlen (listing_bytes gs)) Hm) as [_ ->]; [lia|done|]. cbn [bindR].
  rewrite sub_all. apply parse_listing; [done|]. unfold MAX_BOOT_FILE_BYTES in Hcap. lia.
Qed.

(** ** The frontend holds the tree *)

Lemma inode_at_parse ref w : inode_at ref w -> parse_inode base ref = Ok (inode_of w) /\ inode_ok (inode_of w).
Proof.
  intros Hw. pose proof (squash_parse_written _ _ Hw) as Hp. split; [done|]. destruct Hw as (Href&_).
  exact (wp_Ok _ _ _ (squash_parse_inode_wp base ref Hgeo Href) Hp).
Qed.

Lemma tree_parses ref t : squash_tree ref t ->
  exists i, fs_parse base ref = Ok i /\ inode_ok i /\ fs_kind i = tree_kind t.
Proof.
  intros Ht. cbn [fs_parse Squash_Nodes fs_kind].
  destruct Ht as [ref w c sizes offs frag frag_off Hw Hi|ref ext c nlink target Hw|ref ty c Hw|ref w abs off gs es Hw Hi];
    destruct (inode_at_parse _ _ Hw) as [Hp Hok]; eexists; (split; [exact Hp|]); (split; [exact Hok|]); by rewrite ?Hi.
Qed.

Definition squash_stands : SquashFs S * SubstrateCtx -> NodeId -> Tree -> Prop :=
  node_stands geo_ok inode_ok base squash_tree.

(** Sizes of blocks that fit a whole read bound the size of a file. *)
Lemma inode_at_size ref w size b : inode_at ref w -> inode_of w = mkInode Regular size b -> 0 <= size < 2 ^ 63.
Proof.
  intros Hw Hi. pose proof (inode_at_parse _ _ Hw) as [_ [Hsz _]]. rewrite Hi in Hsz. cbn [si_size] in Hsz.
  destruct Hw as (_&(_&Hcap&Hw)&_). pose proof (ok_bs _ Hgeo) as Hbs. cbn [sq_block_size base] in Hbs.
  assert (exists (sizes : list Z) frag, zlen sizes * 4 <= MAX_BOOT_FILE_BYTES /\ zlen sizes = block_count base size frag) as (sizes&frag&Hz&Hn).
  { rewrite zlen_winode in Hcap. destruct w as [| |c start frag frag_off sz sizes|c start sz sparse nlink frag frag_off xattr sizes| |];
      try done; cbn [inode_of] in Hi; injection Hi as -> _; exists sizes, frag; destruct Hw as [Hn _]; (split; [|done]);
      cbn [winode_tail] in Hcap; rewrite zlen_sizes in Hcap; cbn in Hcap; lia. }
  unfold block_count in Hn. cbn [sq_block_size base] in Hn. unfold MAX_BOOT_FILE_BYTES in Hz.
  destruct (negb _).
  - pose proof (Z.div_mod size bs ltac:(lia)). pose proof (Z.mod_pos_bound size bs ltac:(lia)). nia.
  - pose proof (div_ceil_ge size bs ltac:(lia)). nia.
Qed.

(** A file's content, through a volume with more nodes. *)
Lemma stands_file fs cx n c : squash_stands (fs, cx) n (TFile c) -> exists sizes offs frag frag_off,
  inode fs n = Ok (mkInode Regular (zlen c) (BFile sizes offs frag frag_off)) /\
  stores fs sizes offs frag frag_off c /\ zlen c < 2 ^ 63.
Proof.
  intros ([Hok [[tb Htb] _ _]]&ref&i&Ht&Hp&Hi). cbn [fst] in *. subst fs.
  inversion Ht as [? w ? sizes offs frag frag_off Hw Hiw Hf| | |]; subst.
  destruct (inode_at_parse _ _ Hw) as [Hp' Hgood]. rewrite Hiw in Hp', Hgood. cbn in Hp. rewrite Hp' in Hp. injection Hp as <-.
  exists sizes, offs, frag, frag_off. split; [done|]. pose proof (inode_at_size _ _ _ _ Hw Hiw).
  split; [|lia]. destruct Hgood as [_ (_&_&?&_)].
  exact (file_at_stores sizes offs frag frag_off c ltac:(lia) Hf).
Qed.

Lemma squash_root_with (f : SquashFs S) t : root (S := S) (fs_with f t) = root (S := S) f.
Proof. reflexivity. Qed.

Lemma squash_implements_read_dir s n t : squash_stands s n t ->
  implements squash_stands (fun s' => Forall2 (lists squash_stands s')) (read_dir (S := S) n)
    (match t with TDir es => Ok es | _ => Err NotDirectory end) s.
Proof.
  destruct s as [fs cx]. intros (Ho&ref&i&Ht&Hp&Hi). cbn [fst] in *. unfold implements.
  cbn [read_dir SquashFs_Frontend on_frontend]. unfold squash_read_dir, bindST, getST, liftR. rewrite Hi.
  cbn [fs_parse Squash_Nodes] in Hp.
  destruct Ht as [ref w c sizes offs frag frag_off Hw Hiw|ref ext c nlink target Hw|ref ty c Hw|ref w abs off gs es Hw Hiw Hm Hcap Hgs HF];
    destruct (inode_at_parse _ _ Hw) as [Hp' _]; rewrite Hp' in Hp; injection Hp as <-.
  1-3: rewrite ?Hiw; cbn; eexists _, _; split; [reflexivity|]; split; [apply keeps_refl|done].
  rewrite Hiw. cbn [si_body].
  assert (dir_entries fs abs off (zlen (listing_bytes gs) + 3) = Ok (gs ≫= group_refs)) as ->.
  { pose proof (dir_at_entries abs off gs Hm Hcap Hgs) as E. by destruct Ho as [_ [[tb ->] _ _]]. }
  destruct (intern_entries_stands geo_ok inode_ok squash_geo_with base squash_tree squash_root_with tree_parses
    (gs ≫= group_refs) es HF fs [] cx Ho) as (out&fs'&->&Ho'&Hx&HL).
  cbn [app]. eexists _, _. split; [reflexivity|]. split.
  - by apply extends_keeps; [|done|done|apply Ho'].
  - by exists out.
Qed.

#[export] Instance SquashTree : TreeFs (SquashFs S) S squash_stands.
Proof.
  split.
  - intros [fs cx] n t nm Hs. apply lookup_searches; [|by apply squash_implements_read_dir].
    apply on_frontend_find.
  - apply squash_implements_read_dir.
  - intros [fs cx] n t (Ho&ref&i&Ht&Hp&Hi). cbn [fst] in *. apply (implements_here _ _ _ (squash_metadata fs n)); [reflexivity|].
    unfold squash_metadata. rewrite Hi. cbn [bindR]. eexists. split; [reflexivity|]. cbn [md_kind md_size].
    cbn [fs_parse Squash_Nodes] in Hp.
    destruct Ht as [ref w c sizes offs frag frag_off Hw Hiw|ref ext c nlink target Hw|ref ty c Hw|ref w abs off gs es Hw Hiw];
      destruct (inode_at_parse _ _ Hw) as [Hp' _]; rewrite Hp' in Hp; injection Hp as <-; rewrite ?Hiw; cbn;
      (split; [done|]); intros c'; cbn; by intros [= <-].
  - intros [fs cx] n target (Ho&ref&i&Ht&Hp&Hi). cbn [fst] in *. apply (implements_here _ _ _ (squash_read_link fs n)); [reflexivity|].
    inversion Ht as [|? ext c nlink ? Hw| |]; subst. destruct (inode_at_parse _ _ Hw) as [Hp' _].
    cbn [fs_parse Squash_Nodes] in Hp. rewrite Hp' in Hp. injection Hp as <-.
    unfold squash_read_link. rewrite Hi. cbn. by eexists.
  - intros [fs cx] n t c off buf Hs Hc Hz Hoff Hb.
    assert (t = TFile c \/ t = TOther [] /\ c = []) as [->|[-> ->]].
    { destruct Hs as (_&ref&i&Ht&_). destruct Ht; try done; injection Hc as ->; auto. }
    2:{ by rewrite zlen_nil in Hz. }
    destruct (stands_file fs cx n c Hs) as (sizes&offs&frag&frag_off&Hi&Hst&Hsz). pose proof (zlen_nonneg buf).
    pose proof (proj1 (proj1 Hs)) as Hok. cbn [fst] in Hok.
    apply (implements_here _ _ _ (squash_read_at fs n off buf)); [reflexivity|].
    pose proof (squash_read_at_wp fs n off buf Hok ltac:(lia)) as Hw.
    destruct (decide (off < zlen c)) as [Hlt|Hge].
    + destruct (read_at_stores fs n off buf sizes offs frag frag_off c) as (b&Hr&Hsub&_); try done; [|lia|lia|].
      { apply (ok_bs _ (ok_geo _ _ _ Hok)). }
      rewrite Z.min_comm in Hr, Hsub. rewrite Hr in *. eexists. split; [reflexivity|]. apply full_part; [lia|by apply Hw|done].
    + unfold squash_read_at. rewrite Hi. cbn [bindR si_body si_size]. rewrite Z.geb_leb, (proj2 (Z.leb_le _ _)) by lia.
      eexists. split; [reflexivity|]. apply empty_part; lia.
Qed.
End Written.

(** ** Properties *)

Section Properties.
Context {D : Decoders} {DL : DecoderLaws D} {S : Type} `{ReliableSource S}.

Lemma superblock_geo (src : S) codec bs its dts fts root : src_valid src ->
  superblock_at src codec bs its dts fts root -> geo_ok (base src codec bs its dts fts).
Proof.
  intros Hv (inodes&mtime&frags&bl&flags&ids&major&minor&used&idt&xattr&lookup&Hf&_&Hbs&_). constructor; [done|done|..].
  - exact (Forall_lookup_1 field_ok _ 15 (8%nat, its) Hf eq_refl).
  - exact (Forall_lookup_1 field_ok _ 16 (8%nat, dts) Hf eq_refl).
  - exact (Forall_lookup_1 field_ok _ 17 (8%nat, fts) Hf eq_refl).
Qed.

Lemma superblock_read (src : S) codec bs its dts fts root : src_valid src ->
  superblock_at src codec bs its dts fts root -> read_superblock src = Ok (root, base src codec bs its dts fts).
Proof.
  intros Hv (inodes&mtime&frags&bl&flags&ids&major&minor&used&idt&xattr&lookup&Hf&Hid&Hbs&Hhas).
  cbn zeta in *. set (fields := _ :: _) in *. pose proof Hhas as (_&Hin&_). rewrite zlen_layout in Hin. change (widths fields) with 96 in Hin.
  assert (Hread : src_read_at src 0 96 = Ok (layout fields)).
  { change 96 with (widths fields). rewrite <- zlen_layout. by apply has_read. }
  assert (Hall : sub (layout fields) 0 96 = layout fields).
  { change 96 with (widths fields). by rewrite <- zlen_layout, sub_all. }
  assert (Hfield : forall tok i k v o d, fields !! i = Some (k, v) -> o = widths (take i fields) -> d = Z.of_nat k -> o + d <= 96 ->
    le_field d tok (layout fields) o = Ok v).
  { intros tok i k v o d Hi Ho Hd Hle. pose proof (layout_field tok fields i k v 96 [] o d) as Hl.
    rewrite app_nil_r, Hall in Hl. apply Hl; try done. exact (Forall_lookup_1 field_ok _ i (k, v) Hf Hi). }
  unfold read_superblock. rewrite (proj2 (Z.ltb_ge _ _)), Hread by lia. cbn [bindR].
  unfold le_u16, le_u32, le_u64. rewrite (Hfield _ 0%nat 4%nat MAGIC) by done. cbn [bindR]. rewrite Z.eqb_refl. cbn [negb].
  rewrite (Hfield _ 5%nat 2%nat (codec_id codec)) by done. cbn [bindR].
  assert (codec_of (codec_id codec) = Ok codec) as -> by (by destruct codec). cbn [bindR].
  rewrite (Hfield _ 3%nat 4%nat bs) by done. cbn [bindR].
  rewrite (proj2 (Z.eqb_neq bs 0)), Z.gtb_ltb, (proj2 (Z.ltb_ge _ _)) by (change (Z.shiftl 1 20) with (2 ^ 20); lia). cbn [orb].
  rewrite (Hfield _ 11%nat 8%nat root), (Hfield _ 15%nat 8%nat its), (Hfield _ 16%nat 8%nat dts), (Hfield _ 17%nat 8%nat fts) by done.
  done.
Qed.

(** C7.  A SquashFS volume is the tree written on it.  On a medium with a superblock
    and, below its root inode, inodes in chained metadata blocks, directory listings,
    data blocks stored or compressed with any of the codecs, sparse blocks and
    fragments, whatever session of reads, listings and queries by path, the mounted
    volume gives the answers of the abstract file system, errors included. *)
Theorem squash_refines_tree (src : S) codec bs its dts fts ref top cx ops :
  src_valid src -> superblock_at src codec bs its dts fts ref ->
  squash_tree src codec bs its dts fts ref top -> tree_kind top = Directory ->
  exists fs, squash_open src = Ok fs /\ session (F := SquashFs S) (S := S) ops (fs, cx) = tree_op top <$> ops.
Proof.
  intros Hv Hsb Ht Hd. pose proof (superblock_geo _ _ _ _ _ _ _ Hv Hsb) as Hgeo.
  pose proof (superblock_read _ _ _ _ _ _ _ Hv Hsb) as Hr. set (b := base src codec bs its dts fts) in *.
  assert (Hover : over geo_ok inode_ok b b).
  { split; [|apply extends_refl]. constructor; [done|constructor|apply table_ok_empty]. }
  destruct (tree_parses src codec bs its dts fts Hv Hgeo ref top Ht) as (i&Hp&Hgood&Hkind).
  destruct (intern_stands geo_ok inode_ok squash_geo_with b (squash_tree src codec bs its dts fts)
    (tree_parses src codec bs its dts fts Hv Hgeo) b cx ref top i Hover Ht Hp) as (id&fs&Hin&_&_&_&Hs).
  exists fs. unfold squash_open. rewrite Hr. cbn [bindR]. fold b. change (parse_inode b ref = Ok i) in Hp. rewrite Hp. cbn [bindR]. rewrite Hin. split; [done|].
  pose proof (SquashTree src codec bs its dts fts Hv Hgeo).
  apply (session_refines (stands := squash_stands src codec bs its dts fts) top Hd).
  apply intern_first in Hin as ->; [exact Hs|done|done].
Qed.
End Properties.

(** ** Witness: metadata over two blocks, one compressed, a sparse file with a
       fragment, a link and a special file in a directory *)

Definition sw_common : Common := mkCommon 420 0 0 7 1.
Definition sw_content : list byte := bytes_of "0123456789abcdef" ++ zeros 16 ++ bytes_of "hello".
Definition sw_groups : list DirGroup :=
  [mkGroup 0 1 [(bytes_of "a", 32, 0, 2)]; mkGroup 62 1 [(bytes_of "d", 38, 0, 1); (bytes_of "l", 12, 0, 3)]].
Definition sw_sub_groups : list DirGroup := [mkGroup 62 1 [(bytes_of "s", 78, 0, 4)]].
Definition sw_root : WInode := WDir sw_common 0 3 (zlen (listing_bytes sw_groups) + 3) 0 0.
Definition sw_file : WInode := WFile sw_common 96 0 2 37 [16; 0].
Definition sw_link : WInode := WLink true sw_common 1 (bytes_of "d").
Definition sw_dir : WInode :=
  WLDir sw_common 2 (zlen (listing_bytes sw_sub_groups) + 3) 0 1 0 (zlen (listing_bytes sw_groups)) 0.
Definition sw_special : WInode := WSpecial 6 sw_common.
Definition sw_inodes : list byte :=
  winode_bytes sw_root ++ winode_bytes sw_file ++ winode_bytes sw_link ++ zeros 1 ++ winode_bytes sw_dir ++ winode_bytes sw_special.
Definition sw_block1 : list byte := sub sw_inodes 0 60.
Definition sw_block2 : list byte := drop 60 sw_inodes.
Definition sw_listings : list byte := listing_bytes sw_groups ++ listing_bytes sw_sub_groups.
Definition sw_meta (stored : bool) (l : list byte) : list byte := le_bytes 2 (zlen l + if stored then 0x8000 else 0) ++ l.
Definition sw_fragment : list byte := layout [(8%nat, 112); (4%nat, 8 + SIZE_UNCOMPRESSED); (4%nat, 0)].
Definition sw_super : list (nat * Z) :=
  [(4%nat, MAGIC); (4%nat, 5); (4%nat, 0); (4%nat, 16); (4%nat, 1); (2%nat, 1); (2%nat, 4); (2%nat, 0); (2%nat, 1); (2%nat, 4); (2%nat, 0);
   (8%nat, 0); (8%nat, 600); (8%nat, 0); (8%nat, 0); (8%nat, 200); (8%nat, 400); (8%nat, 160); (8%nat, 0)].
Definition sw_src : Image := mkImage 600 [
  (0, layout sw_super); (96, bytes_of "0123456789abcdef" ++ bytes_of "xxhello.");
  (128, sw_meta true sw_fragment); (160, le_bytes 8 128);
  (200, sw_meta true sw_block1 ++ sw_meta false sw_block2); (400, sw_meta true sw_listings)].
Definition sw_tree : Tree :=
  TDir [(bytes_of "a", TFile sw_content); (bytes_of "d", TDir [(bytes_of "s", TOther [])]); (bytes_of "l", TLink (bytes_of "d"))].
Definition sw_ops : list PathOp := [OpRead (bytes_of "a"); OpList (bytes_of "/l"); OpStat (bytes_of "d/s"); OpRead (bytes_of "d"); OpList (bytes_of "a")].

Abbreviation sw_at := (squash_tree sw_src Zlib 16 200 400 160) (only parsing).

Lemma sw_valid : src_valid sw_src.
Proof. vm_compute. split; [discriminate|reflexivity]. Qed.

Lemma sw_has off bytes : bool_decide (has sw_src off bytes) = true -> has sw_src off bytes.
Proof. apply bool_decide_eq_true. Qed.

Lemma sw_blocks2 : meta_blocks sw_src Zlib 262 [sw_block2].
Proof.
  apply (Meta_block _ _ 262 sw_block2 false); [apply sw_has; vm_compute; reflexivity|vm_compute; reflexivity|vm_compute; reflexivity
    |vm_compute; discriminate|constructor].
Qed.
Lemma sw_blocks1 : meta_blocks sw_src Zlib 200 [sw_block1; sw_block2].
Proof.
  apply (Meta_block _ _ 200 sw_block1 true); [apply sw_has; vm_compute; reflexivity|vm_compute; reflexivity|reflexivity
    |vm_compute; discriminate|exact sw_blocks2].
Qed.
Lemma sw_blocks_dir : meta_blocks sw_src Zlib 400 [sw_listings].
Proof.
  apply (Meta_block _ _ 400 sw_listings true); [apply sw_has; vm_compute; reflexivity|vm_compute; reflexivity|reflexivity
    |vm_compute; discriminate|constructor].
Qed.

Lemma sw_meta_at at_ off bytes block l : meta_blocks sw_src Zlib at_ (block :: l) -> off <= zlen block -> 0 <= off ->
  bool_decide (block ++ concat l = sub (block ++ concat l) 0 off ++ bytes ++ drop (Z.to_nat (off + zlen bytes)) (block ++ concat l)) = true ->
  meta_at sw_src Zlib at_ off bytes.
Proof.
  intros Hm Hfit Ho Hb%bool_decide_eq_true. eexists block, l, _, _. split; [exact Hm|]. split; [exact Hb|].
  split; [|done]. symmetry. pose proof (zlen_nonneg (concat l)). apply zlen_sub; [done|done|]. rewrite zlen_app. lia.
Qed.

Lemma sw_fields w : bool_decide (Forall (fun f => 0 <= f.2 < 256 ^ Z.of_nat f.1) (winode_fields w)) = true ->
  Forall field_ok (winode_fields w).
Proof. apply bool_decide_eq_true. Qed.

Ltac sw_inode blocks :=
  split; [vm_compute; split; [discriminate|reflexivity]|]; split; [split; [apply sw_fields; vm_compute; reflexivity|split; [vm_compute; discriminate|]]
    |eapply sw_meta_at; [first [exact blocks|change (meta_blocks sw_src Zlib 262 [sw_block2]); exact blocks]|vm_compute; discriminate|vm_compute; discriminate|vm_compute; reflexivity]].

Lemma sw_file_holds : sw_at 32 (TFile sw_content).
Proof.
  apply (Sq_file _ _ _ _ _ _ 32 sw_file sw_content [16; 0] [96; 112] 0 2); [|reflexivity|].
  - sw_inode sw_blocks1. split; [reflexivity|]. split; [|vm_compute; reflexivity]. by apply (bool_decide_eq_true_1 _).
  - intros i Hi Hlt. assert (Hz : zlen sw_content = 37) by (vm_compute; reflexivity). rewrite Hz in Hlt.
    assert (i = 0 \/ i = 1 \/ i = 2) as [->|[->| ->]] by lia.
    + exists 96, (bytes_of "0123456789abcdef"). split; [reflexivity|]. split.
      * exists (bytes_of "0123456789abcdef"). split; [apply sw_has; vm_compute; reflexivity|]. split; [reflexivity|].
        split; [discriminate|vm_compute; reflexivity].
      * vm_compute. split; [discriminate|]. split; [discriminate|reflexivity].
    + vm_compute. reflexivity.
    + split; [vm_compute; discriminate|]. split; [reflexivity|]. exists (bytes_of "xxhello."). split.
      * exists 128, 112, (8 + SIZE_UNCOMPRESSED), 0. split; [lia|]. split; [lia|]. split; [vm_compute; split; [discriminate|reflexivity]|].
        split; [apply sw_has; vm_compute; reflexivity|]. split.
        -- eapply (sw_meta_at 128 0 sw_fragment sw_fragment []);
             [|vm_compute; discriminate|vm_compute; discriminate|vm_compute; reflexivity].
           apply (Meta_block _ _ 128 sw_fragment true); [apply sw_has; vm_compute; reflexivity|vm_compute; reflexivity|reflexivity
             |vm_compute; discriminate|constructor].
        -- exists (bytes_of "xxhello."). split; [apply sw_has; vm_compute; reflexivity|]. split; [reflexivity|].
           split; [discriminate|vm_compute; reflexivity].
      * vm_compute. split; [discriminate|]. split; [discriminate|reflexivity].
Qed.

Lemma sw_group_ok gs : bool_decide (Forall (fun g => (0 < zlen (dg_entries g) <= 2 ^ 32 /\ 0 <= dg_start g < 2 ^ 32) /\
  Forall (fun e => 0 < zlen e.1.1.1 <= 2 ^ 16 /\ 0 <= e.1.1.2 < 2 ^ 16) (dg_entries g)) gs) = true -> Forall group_ok gs.
Proof.
  intros HF%bool_decide_eq_true. eapply Forall_impl; [exact HF|]. intros g [[? ?] He]. split; [done|]. split; [done|].
  eapply Forall_impl; [exact He|]. intros [[[? ?] ?] ?]. done.
Qed.

Lemma sw_holds : sw_at 0 sw_tree.
Proof.
  apply (Sq_dir _ _ _ _ _ _ 0 sw_root 400 0 sw_groups); [sw_inode sw_blocks1; vm_compute; reflexivity|reflexivity
    |eapply sw_meta_at; [exact sw_blocks_dir|vm_compute; discriminate|vm_compute; discriminate|vm_compute; reflexivity]
    |vm_compute; discriminate|apply sw_group_ok; vm_compute; reflexivity|].
  apply Forall2_cons; split; [split; [reflexivity|exact sw_file_holds]|].
  apply Forall2_cons; split; [split; [reflexivity|]|apply Forall2_cons; split; [split; [reflexivity|]|apply Forall2_nil_2]].
  - apply (Sq_dir _ _ _ _ _ _ _ sw_dir 400 (zlen (listing_bytes sw_groups)) sw_sub_groups);
      [sw_inode sw_blocks2; vm_compute; reflexivity|reflexivity
      |eapply sw_meta_at; [exact sw_blocks_dir|vm_compute; discriminate|vm_compute; discriminate|vm_compute; reflexivity]
      |vm_compute; discriminate|apply sw_group_ok; vm_compute; reflexivity|].
    apply Forall2_cons; split; [split; [reflexivity|]|apply Forall2_nil_2].
    apply (Sq_special _ _ _ _ _ _ _ 6 sw_common). sw_inode sw_blocks2. by apply (bool_decide_eq_true_1 _).
  - apply (Sq_link _ _ _ _ _ _ _ true sw_common 1). sw_inode sw_blocks2. done.
Qed.

Lemma sw_superblock : superblock_at sw_src Zlib 16 200 400 160 0.
Proof.
  exists 5, 0, 1, 4, 0, 1, 4, 0, 600, 0, 0, 0. split; [|split; [discriminate|split; [lia|apply sw_has; vm_compute; reflexivity]]].
  by apply (bool_decide_eq_true_1 (Forall (fun f => 0 <= f.2 < 256 ^ Z.of_nat f.1) sw_super)).
Qed.

Lemma squash_refines_tree_witness :
  exists fs, squash_open sw_src = Ok fs /\ session (F := SquashFs Image) (S := Image) sw_ops (fs, mock_ctx)
    = [Ok (ABytes sw_content); Ok (AList [(bytes_of "s", Other)]); Ok (AStat Other 0); Err IsDirectory; Err NotDirectory].
Proof.
  destruct (squash_refines_tree sw_src Zlib 16 200 400 160 0 sw_tree mock_ctx sw_ops) as (fs&Ho&Hs);
    [exact sw_valid|exact sw_superblock|exact sw_holds|reflexivity|].
  exists fs. split; [exact Ho|]. rewrite Hs. vm_compute. reflexivity.
Defined.
