(* ===== verification/Udf.v ===== *)
(** * UDF frontend ([crates/lamfold-udf/src/udf.rs])

    Anchor and volume descriptors, File Entries, extents, File Identifier
    Descriptors and [d-string] names.  Positions on the medium are sums and
    products of on-disk [u32]s: the code checks none, [addw 32] is where they can
    leave their type. *)
From S2P Require Import Prelude Text Cache Substrate Nodes.
Open Scope Z_scope.

Definition SECTOR : Z := 2048.
Definition AVDP_SECTOR : Z := 256.
Definition TAG_AVDP : Z := 2.
Definition TAG_PARTITION : Z := 5.
Definition TAG_LOGICAL_VOLUME : Z := 6.
Definition TAG_TERMINATING : Z := 8.
Definition TAG_FILE_SET : Z := 256.
Definition TAG_FID : Z := 257.
Definition TAG_FILE_ENTRY : Z := 261.
Definition TAG_EXTENDED_FILE_ENTRY : Z := 266.
Definition FT_DIRECTORY : Z := 4.
Definition FT_REGULAR : Z := 5.
Definition FT_SYMLINK : Z := 12.
Definition MAX_VDS_SECTORS : Z := 64.

Record Extent : Type := mkExtent { ex_lba : option Z; ex_len : Z }.
Inductive FileData : Type := Inline (b : list byte) | Extents (ex : list Extent).
Record UdfInode : Type := mkInode { ui_kind : FileKind; ui_size : Z; ui_data : FileData }.

Definition le_u16 : list byte -> Z -> Res Z := le_field 2 "udf: truncated u16".
Definition le_u32 : list byte -> Z -> Res Z := le_field 4 "udf: truncated u32".
Definition le_u64 : list byte -> Z -> Res Z := le_field 8 "udf: truncated u64".

(** One allocation descriptor: the body of [for c in ads.chunks_exact(stride)]. *)
Definition ad_step (partition_start : Z) (ads : list byte) (stride k : Z) (ex : list Extent)
    : Res (list Extent) :=
  let c := sub ads (k * stride) stride in
  let raw := le_num (sub c 0 4) in
  let len := Z.land raw 0x3FFFFFFF in
  let etype := Z.shiftr raw 30 in
  if len =? 0 then Ok ex
  else if etype =? 3 then Err (Unsupported "udf: allocation-extent continuation not supported")
  else
    let block := le_num (sub c 4 4) in
    (* the argument of [then_some] is evaluated for every type *)
    let! lba := addw 32 partition_start block in
    Ok (ex ++ [mkExtent (if etype =? 0 then Some lba else None) len]).

Definition parse_extents (partition_start : Z) (buf : list byte) (ad_off l_ad stride : Z) : Res FileData :=
  let! ads := ok_or (get_range buf ad_off (ad_off + l_ad))
                (Corrupt "udf: allocation descriptors out of bounds") in
  let! ex := for_loop (Z.to_nat (zlen ads / stride)) 0 (ad_step partition_start ads stride) [] in
  Ok (Extents ex).

Definition decode_udf_name (fi : list byte) : Res name :=
  match fi with
  | [] => Ok []
  | id :: rest =>
      if u8 id =? 8 then Ok (string_of_latin1 rest)
      else if u8 id =? 16 then
        ok_or (string_of_utf16 (be_units rest)) (InvalidPath "udf: bad UTF-16 in name")
      else Err (InvalidPath "udf: unknown name compression id")
  end.

(** One turn of the [while p + 38 <= data.len()] loop of [parse_fids]. *)
Definition fid_round (data : list byte) (partition_start : Z) (s : list (name * Z) * Z)
    : Res ((list (name * Z) * Z) + list (name * Z)) :=
  let '(out, p) := s in
  if negb (p + 38 <=? zlen data) then Ok (inr out)
  else
    let! tag := le_u16 data p in
    if negb (tag =? TAG_FID) then Ok (inr out)
    else
      let! fc := at_ data (p + 18) in
      let! l_fi := at_ data (p + 19) in
      let! icb_lb := le_u32 data (p + 24) in
      let! l_iu := le_u16 data (p + 36) in
      let fi_off := p + 38 + l_iu in
      let! fi := ok_or (get_range data fi_off (fi_off + u8 l_fi)) (Corrupt "udf: FID name out of bounds") in
      let! out :=
        if (Z.land (u8 fc) 0x08 =? 0) && (Z.land (u8 fc) 0x04 =? 0) then
          let! nm := decode_udf_name fi in
          let! lba := addw 32 partition_start icb_lb in
          Ok (out ++ [(nm, lba)])
        else Ok out in
      let total := Z.land (38 + l_iu + u8 l_fi + 3) (Z.lnot 3) in
      if total =? 0 then Ok (inr out) else Ok (inl (out, p + total)).

Definition parse_fids (data : list byte) (partition_start : Z) : Res (list (name * Z)) :=
  loop (fid_round data partition_start) ([], 0).

Section Udf.
Context {S : Type} `{BlockSource S}.

Record Udf : Type := mkUdf {
  ud_src : S;
  ud_block_size : Z;
  ud_partition_start : Z;
  ud_nodes : list UdfInode;
  ud_by_lba : gmap Z NodeId;
}.
Implicit Types me : Udf.

Definition read_block me (lba : Z) : Res (list byte) :=
  let! off := mulw 64 lba (ud_block_size me) in
  let! end_ := addw 64 off (ud_block_size me) in
  if end_ >? src_len (ud_src me) then Err (Corrupt "udf: block past end of source")
  else src_read_at (ud_src me) off (ud_block_size me).

Definition with_nodes me (tables : list UdfInode * gmap Z NodeId) : Udf :=
  mkUdf (ud_src me) (ud_block_size me) (ud_partition_start me) tables.1 tables.2.

(** Where the lengths and the extended attributes of a File Entry are. *)
Definition fe_layout (tag : Z) : Res (Z * Z * Z) :=
  if tag =? TAG_FILE_ENTRY then Ok (168, 172, 176)
  else if tag =? TAG_EXTENDED_FILE_ENTRY then Ok (208, 212, 216)
  else Err (Corrupt "udf: expected a File Entry").

Definition kind_of (file_type : Z) : FileKind :=
  if file_type =? FT_DIRECTORY then Directory
  else if file_type =? FT_REGULAR then Regular
  else if file_type =? FT_SYMLINK then Symlink
  else Other.

Definition read_fe me (fe_lba : Z) : Res UdfInode :=
  let! buf := read_block me fe_lba in
  let! tag := le_u16 buf 0 in
  let! (l_ea_at, l_ad_at, ea_start) := fe_layout tag in
  let! file_type := ok_or (get buf 27) (Corrupt "udf: short ICBTag") in
  let! flags := le_u16 buf 34 in
  let ad_type := Z.land flags 7 in
  let! info_len := le_u64 buf 56 in
  let! l_ea := le_u32 buf l_ea_at in
  let! l_ad := le_u32 buf l_ad_at in
  let! ad_off := ok_or (checked_add 64 ea_start l_ea) (Corrupt "udf: L_EA overflow") in
  let! data :=
    if ad_type =? 3 then
      let! n := checked_full_read_len info_len in
      let! end_ := ok_or (checked_add 64 ad_off n) (Corrupt "udf: inline overflow") in
      let! bytes := ok_or (get_range buf ad_off end_) (Corrupt "udf: inline data out of bounds") in
      Ok (Inline bytes)
    else if ad_type =? 0 then parse_extents (ud_partition_start me) buf ad_off l_ad 8
    else if ad_type =? 1 then parse_extents (ud_partition_start me) buf ad_off l_ad 16
    else Err (Unsupported "udf: extended_ad allocation descriptors not supported") in
  Ok (mkInode (kind_of (u8 file_type)) info_len data).

#[export] Instance Udf_Nodes : NodeFs Udf Z UdfInode := {
  fs_nodes := ud_nodes;
  fs_keys := ud_by_lba;
  fs_with := with_nodes;
  fs_parse := read_fe;
  fs_kind := ui_kind;
}.

(** The [for e in ex] loop of [read_all]. *)
Fixpoint read_extents me (total : Z) (ex : list Extent) (out : list byte) : Res (list byte) :=
  match ex with
  | [] => Ok out
  | e :: rest =>
      if zlen out >=? total then Ok out
      else
        let take := Z.min (ex_len e) (total - zlen out) in
        let! chunk :=
          match ex_lba e with
          | Some lba =>
              let! off := mulw 64 lba (ud_block_size me) in
              src_read_at (ud_src me) off take
          | None => Ok (zeros take)
          end in
        read_extents me total rest (out ++ chunk)
  end.

Definition read_all me (inode : UdfInode) : Res (list byte) :=
  match ui_data inode with
  | Inline b => Ok b
  | Extents ex =>
      let! total := checked_full_read_len (ui_size inode) in
      let! out := read_extents me total ex [] in
      Ok (take (Z.to_nat total) out)
  end.

Definition udf_probe (src : S) : Res bool :=
  let off := AVDP_SECTOR * SECTOR in
  if src_len src <? off + 4 then Ok false
  else let! t := src_read_at src off 4 in Ok (le_num (sub t 0 2) =? TAG_AVDP).

(** One sector of the Main Volume Descriptor Sequence: the body of
    [for i in 0..n_sectors]; the state is [i] and the two descriptors. *)
Definition vds_round me (mvds_loc n_sectors : Z) (s : Z * option Z * option (Z * Z))
    : Res ((Z * option Z * option (Z * Z)) + (option Z * option (Z * Z))) :=
  let '(i, partition_start, lvd) := s in
  if negb (i <? n_sectors) then Ok (inr (partition_start, lvd))
  else
    let! lba := addw 32 mvds_loc i in
    let! b := read_block me lba in
    let! tag := le_u16 b 0 in
    if tag =? TAG_PARTITION then
      let! ps := le_u32 b 188 in Ok (inl (i + 1, Some ps, lvd))
    else if tag =? TAG_LOGICAL_VOLUME then
      let! lbs := le_u32 b 212 in
      let! fsd_lb := le_u32 b 252 in
      Ok (inl (i + 1, partition_start, Some (lbs, fsd_lb)))
    else if tag =? TAG_TERMINATING then Ok (inr (partition_start, lvd))
    else Ok (inl (i + 1, partition_start, lvd)).

(** The volume before its root is parsed, and the root's logical block. *)
Definition read_volume (src : S) : Res (Udf * Z) :=
  let me := mkUdf src SECTOR 0 [] ∅ in
  let! avdp := read_block me AVDP_SECTOR in
  let! tag := le_u16 avdp 0 in
  if negb (tag =? TAG_AVDP) then Err (Corrupt "udf: no Anchor VD Pointer at sector 256")
  else
    let! mvds_len := le_u32 avdp 16 in
    let! mvds_loc := le_u32 avdp 20 in
    let n_sectors := Z.min (mvds_len / SECTOR) MAX_VDS_SECTORS in
    let! (partition_start, lvd) := loop (vds_round me mvds_loc n_sectors) (0, None, None) in
    let! partition_start := ok_or partition_start (Corrupt "udf: no Partition Descriptor") in
    let! (lbs, fsd_lb) := ok_or lvd (Corrupt "udf: no Logical Volume Descriptor") in
    let me := mkUdf src (if negb (lbs =? 0) then lbs else SECTOR) partition_start [] ∅ in
    let! fsd_lba := addw 32 partition_start fsd_lb in
    let! fsd := read_block me fsd_lba in
    let! tag := le_u16 fsd 0 in
    if negb (tag =? TAG_FILE_SET) then Err (Corrupt "udf: no File Set Descriptor")
    else
      let! root_icb_lb := le_u32 fsd 404 in
      let! root_fe_lba := addw 32 partition_start root_icb_lb in
      Ok (me, root_fe_lba).

Definition udf_open (src : S) : Res Udf :=
  let! (me, root_fe_lba) := read_volume src in
  let! root := read_fe me root_fe_lba in
  let (r, me) := intern root_fe_lba root me in
  let! _ := r in
  Ok me.

Definition udf_read_dir (dir : NodeId) : ST Udf (list DirEntry) :=
  let* me := getST in
  let* ino := liftR (inode me dir) in
  if negb (bool_decide (ui_kind ino = Directory)) then errST NotDirectory
  else
    let* data := liftR (read_all me ino) in
    let* fids := liftR (parse_fids data (ud_partition_start me)) in
    intern_entries fids [].

Definition udf_lookup (dir : NodeId) (nm : name) : ST Udf (option NodeId) :=
  let* es := udf_read_dir dir in retST (find_entry nm es).

Definition udf_metadata me (node : NodeId) : Res Metadata :=
  let! ino := inode me node in
  Ok (mkMetadata (ui_kind ino) (ui_size ino) 0).

(** The [for e in ex] loop of [read_at]. *)
Fixpoint read_window me (off want : Z) (ex : list Extent) (file_pos produced : Z) (buf : list byte)
    : Res (Z * list byte) :=
  match ex with
  | [] => Ok (produced, buf)
  | e :: rest =>
      if produced >=? want then Ok (produced, buf)
      else
        let ext_start := file_pos in
        let! ext_end := addw 64 file_pos (ex_len e) in
        let! cur := addw 64 off produced in
        if cur >=? ext_end then read_window me off want rest ext_end produced buf
        else
          let! intra := subw cur ext_start in
          let avail := saturating_sub (ex_len e) intra in
          let take := Z.min avail (want - produced) in
          let! buf :=
            match ex_lba e with
            | Some lba =>
                let! base := mulw 64 lba (ud_block_size me) in
                let! at_ := addw 64 base intra in
                read_into (ud_src me) at_ buf produced (produced + take)
            | None =>
                let! _ := slice buf produced (produced + take) in
                write_at buf produced (zeros take)
            end in
          read_window me off want rest ext_end (produced + take) buf
  end.

Definition udf_read_at me (node : NodeId) (off : Z) (buf : list byte) : Res (Z * list byte) :=
  let! ino := inode me node in
  if bool_decide (ui_kind ino = Directory) then Err IsDirectory
  else if off >=? ui_size ino then Ok (0, buf)
  else
    let want := Z.min (zlen buf) (ui_size ino - off) in
    match ui_data ino with
    | Inline b =>
        let start := off in
        let n := Z.min want (saturating_sub (zlen b) start) in
        let! chunk := slice b start (start + n) in
        let! buf := write_at buf 0 chunk in
        Ok (n, buf)
    | Extents ex => read_window me off want ex 0 0 buf
    end.
End Udf.
Arguments Udf S : clear implicits.

#[export] Instance Udf_Frontend {S} `{BlockSource S} : FoldFrontend (Udf S) S := {
  TAG := "udf";
  probe := udf_probe;
  open_ src cx := (udf_open src, cx);
  root _ := 0;
  lookup_ d nm := on_frontend (udf_lookup d nm);
  read_dir d := on_frontend (udf_read_dir d);
  metadata n := on_self (fun me => udf_metadata me n);
  read_at n off buf := on_self (fun me => udf_read_at me n off buf);
  read_link n := default_read_link n;
}.

(** ** Lemmas: every call comes back or overflows *)

Definition extent_ok (e : Extent) : Prop :=
  0 < ex_len e < 2 ^ 30 /\ match ex_lba e with Some lba => 0 <= lba < 2 ^ 32 | None => True end.
Definition data_ok (size : Z) (d : FileData) : Prop :=
  match d with
  | Inline b => zlen b = size
  | Extents ex => Forall extent_ok ex /\ zlen ex < 2 ^ 32
  end.
Definition inode_ok (i : UdfInode) : Prop := 0 <= ui_size i < 2 ^ 64 /\ data_ok (ui_size i) (ui_data i).

Lemma le_num_lt l n : zlen l <= n -> 0 <= le_num l < 256 ^ n.
Proof.
  intros Hl. pose proof (le_num_range l). pose proof (zlen_nonneg l).
  pose proof (Z.pow_le_mono_r 256 (zlen l) n ltac:(lia) Hl). lia.
Qed.

Lemma ad_step_wp ps ads stride k ex : 0 <= ps -> Forall extent_ok ex ->
  wpx True (ad_step ps ads stride k ex) (fun ex' => Forall extent_ok ex' /\ zlen ex' <= zlen ex + 1).
Proof.
  intros Hps Hex. unfold ad_step. set (c := sub ads (k * stride) stride).
  pose proof (le_num_lt (sub c 4 4) 4 (zlen_sub_le c 4 4 ltac:(lia))) as Hb.
  pose proof (land_range (le_num (sub c 0 4)) 0x3FFFFFFF ltac:(done)).
  set (len := Z.land _ 0x3FFFFFFF) in *. destruct (Z.eqb_spec len 0); [split; [done|lia]|].
  destruct (_ =? 3); [done|]. apply wp_bind, wp_addw_x; [done|]. intros Hsum. cbn [wpx].
  rewrite zlen_app. change (zlen [_]) with 1. split; [|lia]. apply Forall_app. split; [done|].
  apply Forall_singleton. split; cbn [ex_len ex_lba]; [lia|]. destruct (_ =? 0); [lia|done].
Qed.

Lemma parse_extents_wp ps buf ad_off l_ad stride size : 0 <= ps -> 8 <= stride -> zlen buf < 2 ^ 32 ->
  wpx True (parse_extents ps buf ad_off l_ad stride) (data_ok size).
Proof.
  intros Hps Hst Hbuf. unfold parse_extents. apply wp_bind, wp_ok_or. intros ads Hads.
  assert (Hlen : zlen ads < 2 ^ 32).
  { apply get_range_Some in Hads as (?&?&->). pose proof (zlen_sub_le buf ad_off (ad_off + l_ad - ad_off)). lia. }
  pose proof (zlen_nonneg ads). pose proof (Z.div_pos (zlen ads) stride ltac:(lia) ltac:(lia)).
  assert (zlen ads / stride <= zlen ads) by (apply Z.div_le_upper_bound; nia).
  apply wp_bind, (wp_for_loop (fun k ex => Forall extent_ok ex /\ zlen ex <= k)).
  - rewrite zlen_nil. by split.
  - intros k ex Hk [Hex Hz]. eapply wp_mono; [by apply ad_step_wp|]. cbn beta. intros ex' [? ?].
    split; [done|lia].
  - intros ex [Hex Hz]. cbn [wpx data_ok]. split; [done|lia].
Qed.

Definition fids_ok (l : list (name * Z)) : Prop := Forall (fun e => 0 <= e.2 < 2 ^ 32) l.

Lemma decode_udf_name_returns fi : returns (decode_udf_name fi).
Proof.
  unfold decode_udf_name. destruct fi; [done|]. destruct (_ =? 8); [done|].
  destruct (_ =? 16); [apply returns_ok_or|done].
Qed.

(** Padding to a multiple of four. *)
Lemma pad4_eq n : Z.land (n + 3) (Z.lnot 3) = n + 3 - (n + 3) mod 4.
Proof. change 3 with (Z.ones 2) at 2. by rewrite land_lnot_ones. Qed.

Lemma fid_round_wp data ps out p : 0 <= ps -> 0 <= p -> fids_ok out ->
  wpx True (fid_round data ps (out, p)) (fun r => match r with
    | inl (out', p') => fids_ok out' /\ p < p' /\ p < zlen data
    | inr out' => fids_ok out' end).
Proof.
  intros Hps Hp Hout. unfold fid_round. destruct (Z.leb_spec (p + 38) (zlen data)); cbn [negb]; [|done].
  apply wp_bind, wp_le_field. intros tag _ _. destruct (negb _); [done|].
  apply wp_bind, wp_at; [lia|]. intros fc _. apply wp_bind, wp_at; [lia|]. intros l_fi _.
  apply wp_bind, wp_le_field. intros icb Hicb _. apply wp_bind, wp_le_field. intros l_iu Hiu _.
  change (256 ^ 4) with (2 ^ 32) in *. pose proof (u8_range l_fi).
  apply wp_bind, wp_ok_or. intros fi _. apply wp_bind, (wp_mono _ fids_ok).
  - destruct (_ && _); [|done]. apply wp_bind, (wp_mono _ (fun _ => True)).
    { apply wpx_weaken, returns_wp, decode_udf_name_returns. }
    intros nm _. apply wp_bind, wp_addw_x; [done|]. intros Hsum. cbn [wpx].
    apply Forall_app. split; [done|]. apply Forall_singleton. cbn [snd]. lia.
  - intros out' Hout'. rewrite pad4_eq.
    pose proof (Z.mod_pos_bound (38 + l_iu + u8 l_fi + 3) 4 ltac:(lia)).
    destruct (_ =? 0); [done|]. cbn [wpx]. split; [done|lia].
Qed.

Lemma parse_fids_wp data ps : 0 <= ps -> zlen data < 2 ^ 64 -> wpx True (parse_fids data ps) fids_ok.
Proof.
  intros Hps Hlen. pose proof (zlen_nonneg data).
  apply (wp_loop _ (fun s => fids_ok s.1 /\ 0 <= s.2) (fun s => Z.max 0 (zlen data - s.2))).
  - cbn [fst snd]. split; [constructor|lia].
  - cbn [fst snd]. lia.
  - intros [out p]. cbn [fst snd]. intros [Hout Hp]. split; [lia|].
    eapply wp_mono; [by apply fid_round_wp|]. intros [[out' p']|out']; cbn [fst snd]; [|done].
    intros (?&?&?). split; [split; [done|lia]|lia].
Qed.

Section Laws.
Context {S : Type} `{SourceLaws S}.
Implicit Types me : Udf S.

#[export] Instance Udf_NodeLaws : NodeFsLaws (Udf S) Z UdfInode.
Proof. constructor; intros; reflexivity || by destruct f. Qed.

(** What the descriptors of a mounted volume satisfy. *)
Record geo_ok me : Prop := mkGeoOk {
  ok_src : src_valid (ud_src me);
  ok_bs : 0 < ud_block_size me < 2 ^ 32;
  ok_ps : 0 <= ud_partition_start me < 2 ^ 32;
}.
(** The invariant of a mounted volume. *)
Abbreviation volume_ok := (fs_ok geo_ok inode_ok).

Lemma udf_geo_with me t : geo_ok me -> geo_ok (fs_with me t).
Proof. by intros []. Qed.

Lemma mul_u32 a b : 0 <= a < 2 ^ 32 -> 0 <= b < 2 ^ 32 -> 0 <= a * b < 2 ^ 64 - 2 ^ 32.
Proof. change (2 ^ 64) with (2 ^ 32 * 2 ^ 32). nia. Qed.

Lemma read_block_wp {X : Prop} me lba : src_valid (ud_src me) -> 0 < ud_block_size me < 2 ^ 32 ->
  0 <= lba < 2 ^ 32 ->
  wpx X (read_block me lba) (fun b =>
    b = region (src_byte (ud_src me)) (lba * ud_block_size me) (ud_block_size me) /\
    zlen b = ud_block_size me).
Proof.
  intros Hv Hbs Hl. pose proof (mul_u32 lba (ud_block_size me) Hl ltac:(lia)). unfold read_block.
  apply wp_bind, wp_mulw; [lia|]. apply wp_bind, wp_addw; [lia|]. destruct (_ >? _); [done|].
  apply wp_read; [done|lia|lia|]. by intros.
Qed.

Lemma read_fe_wp me lba : src_valid (ud_src me) -> 0 < ud_block_size me < 2 ^ 32 ->
  0 <= ud_partition_start me -> 0 <= lba < 2 ^ 32 -> wpx True (read_fe me lba) inode_ok.
Proof.
  intros Hv Hbs Hps Hl. unfold read_fe. apply wp_bind.
  eapply wp_mono; [by apply read_block_wp|]. intros buf [_ Hbuf].
  apply wp_bind, wp_le_field. intros tag _ _. apply wp_bind, (wp_mono _ (fun r => r.1.1 <> 0)).
  { unfold fe_layout. destruct (_ =? _); [done|]. by destruct (_ =? _). }
  intros [[ea ad] start] _. apply wp_bind, wp_ok_or. intros ft _.
  apply wp_bind, wp_le_field. intros flags _ _. apply wp_bind, wp_le_field. intros info Hinfo _.
  apply wp_bind, wp_le_field. intros l_ea _ _. apply wp_bind, wp_le_field. intros l_ad _ _.
  change (256 ^ 8) with (2 ^ 64) in *.
  apply wp_bind, wp_ok_or. intros ad_off _. apply wp_bind, (wp_mono _ (data_ok info)).
  - destruct (_ =? 3).
    { apply wp_bind, wp_checked_full. intros _. apply wp_bind, wp_ok_or.
      intros end_ [_ ->]%checked_add_Some. apply wp_bind, wp_ok_or.
      intros b Hb%get_range_zlen. cbn [wpx data_ok]. lia. }
    destruct (_ =? 0); [apply parse_extents_wp; lia|].
    destruct (_ =? 1); [apply parse_extents_wp; lia|done].
  - intros data Hd. cbn [wpx]. by split.
Qed.

Lemma read_extents_wp {X : Prop} me total ex : forall out,
  src_valid (ud_src me) -> 0 < ud_block_size me < 2 ^ 32 -> Forall extent_ok ex -> zlen out <= total ->
  wpx X (read_extents me total ex out) (fun out' => zlen out' <= total).
Proof.
  induction ex as [|e ex IH]; intros out Hv Hbs Hex Hout; cbn [read_extents]; [done|].
  apply Forall_cons in Hex as [[Hlen Hlba] Hex]. rewrite Z.geb_leb.
  destruct (Z.leb_spec total (zlen out)); [done|]. set (tk := Z.min _ _).
  apply wp_bind, (wp_mono _ (fun c => zlen c = tk)).
  - destruct (ex_lba e) as [lba|]; [|apply zlen_zeros; lia].
    pose proof (mul_u32 lba (ud_block_size me) Hlba ltac:(lia)).
    apply wp_bind, wp_mulw; [lia|]. apply wp_read; [done|lia|lia|]. by intros.
  - cbn beta. intros c Hc. apply IH; try done. rewrite zlen_app. lia.
Qed.

Lemma read_all_wp {X : Prop} me i : src_valid (ud_src me) -> 0 < ud_block_size me < 2 ^ 32 -> inode_ok i ->
  wpx X (read_all me i) (fun b => zlen b <= ui_size i).
Proof.
  intros Hv Hbs [Hs Hd]. unfold read_all. destruct (ui_data i) as [b|ex]; cbn [data_ok] in Hd.
  { cbn [wpx]. lia. }
  apply wp_bind, wp_checked_full. intros _. apply wp_bind.
  eapply wp_mono; [apply read_extents_wp; [done|done|apply Hd|rewrite zlen_nil; lia]|].
  intros out Hout. cbn [wpx]. unfold zlen in *. rewrite length_take. lia.
Qed.

Lemma udf_extends_src me me' : extends me me' -> ud_src me' = ud_src me.
Proof. by intros [[t ->] _ _]. Qed.

Lemma udf_read_dir_ok me dir : volume_ok me ->
  exists r me', udf_read_dir dir me = (r, me') /\ volume_ok me' /\ extends me me' /\
    wpx True r (fun es => exists i data fids, inode me dir = Ok i /\ ui_kind i = Directory /\
      read_all me i = Ok data /\ parse_fids data (ud_partition_start me) = Ok fids /\
      Forall2 (entry_for me') fids es).
Proof.
  intros Hok. pose proof (ok_geo _ _ _ Hok) as Hgeo. pose proof (ok_ps _ Hgeo).
  unfold udf_read_dir. unfold bindST at 1, getST at 1. unfold bindST at 1, liftR at 1.
  pose proof (inode_wp geo_ok inode_ok (X := False) me dir Hok) as Hi.
  destruct (inode me dir) as [i|e| | |] eqn:Ei; try done; try by apply fails_here.
  destruct (decide (ui_kind i = Directory)) as [Hk|Hk];
    [rewrite bool_decide_eq_true_2 by done|rewrite bool_decide_eq_false_2 by done];
    cbn [negb]; [|by apply fails_here].
  pose proof (read_all_wp (X := False) me i (ok_src _ Hgeo) (ok_bs _ Hgeo) Hi) as Hd.
  unfold bindST at 1, liftR at 1.
  destruct (read_all me i) as [data|e| | |] eqn:Ed; try done; try by apply fails_here.
  cbn [wpx] in Hd. destruct Hi as [Hs _].
  pose proof (parse_fids_wp data (ud_partition_start me) ltac:(lia) ltac:(lia)) as Hf.
  unfold bindST, liftR.
  destruct (parse_fids _ _) as [fids|e| | |] eqn:Ef; try done; try by apply fails_here.
  destruct (intern_entries_ok geo_ok inode_ok udf_geo_with (fun e => 0 <= e.2 < 2 ^ 32) fids me [])
    as (r&me'&->&Hok'&Hx&Hw); [|done|exact Hf|].
  { intros f x Hg Hx. destruct (ok_geo _ _ _ Hg). apply read_fe_wp; done || lia. }
  exists r, me'. split; [done|]. split; [done|]. split; [done|].
  eapply wp_mono; [exact Hw|]. intros es (es'&->&HF). by exists i, data, fids.
Qed.

(** ** Mounting and reading *)

Definition vds_ok (ps : option Z) (lvd : option (Z * Z)) : Prop :=
  match ps with Some p => 0 <= p < 2 ^ 32 | None => True end /\
  match lvd with Some (lbs, fsd) => 0 <= lbs < 2 ^ 32 /\ 0 <= fsd < 2 ^ 32 | None => True end.

Lemma vds_round_wp me loc n i ps lvd :
  src_valid (ud_src me) -> 0 < ud_block_size me < 2 ^ 32 -> 0 <= loc -> 0 <= i -> vds_ok ps lvd ->
  wpx True (vds_round me loc n (i, ps, lvd)) (fun r => match r with
    | inl (i', ps', lvd') => i' = i + 1 /\ i < n /\ vds_ok ps' lvd'
    | inr (ps', lvd') => vds_ok ps' lvd' end).
Proof.
  intros Hv Hbs Hloc Hi Hok. unfold vds_round. destruct (Z.ltb_spec i n); cbn [negb]; [|done].
  apply wp_bind, wp_addw_x; [done|]. intros Hsum. apply wp_bind.
  eapply wp_mono; [apply read_block_wp; [done|done|lia]|]. intros b _.
  apply wp_bind, wp_le_field. intros tag _ _. destruct Hok as [Hps Hlvd]. destruct (_ =? TAG_PARTITION).
  { apply wp_bind, wp_le_field. intros p Hp _. cbn [wpx]. change (256 ^ 4) with (2 ^ 32) in Hp. by split_and!. }
  destruct (_ =? TAG_LOGICAL_VOLUME).
  { apply wp_bind, wp_le_field. intros lbs Hl _. apply wp_bind, wp_le_field. intros fsd Hf _.
    change (256 ^ 4) with (2 ^ 32) in *. cbn [wpx]. by split_and!. }
  destruct (_ =? TAG_TERMINATING); cbn [wpx]; by split_and!.
Qed.

Lemma vds_loop_wp me loc n : src_valid (ud_src me) -> 0 < ud_block_size me < 2 ^ 32 -> 0 <= loc -> n < 2 ^ 64 ->
  wpx True (loop (vds_round me loc n) (0, None, None)) (fun '(ps, lvd) => vds_ok ps lvd).
Proof.
  intros Hv Hbs Hloc Hn.
  apply (wp_loop _ (fun '(i, ps, lvd) => 0 <= i /\ vds_ok ps lvd) (fun s => Z.max 0 (n - s.1.1))); [done|cbn [fst]; lia|].
  intros [[i ps] lvd] (Hi&Hok). split; [cbn [fst]; lia|].
  eapply wp_mono; [apply vds_round_wp; [done|done|lia|done|exact Hok]|].
  intros [[[i' ps'] lvd']|[ps' lvd']]; [|done]. cbn [fst]. intros (->&?&?).
  split; [split; [lia|done]|lia].
Qed.

Lemma read_volume_wp src : src_valid src ->
  wpx True (read_volume src) (fun '(me, root) => volume_ok me /\ ud_src me = src /\ 0 <= root < 2 ^ 32).
Proof.
  intros Hv. unfold read_volume. set (me := mkUdf src SECTOR 0 [] ∅).
  assert (Hbs : 0 < ud_block_size me < 2 ^ 32) by done.
  apply wp_bind. eapply wp_mono; [by apply read_block_wp|]. intros avdp _.
  apply wp_bind, wp_le_field. intros tag _ _. destruct (negb _); [done|].
  apply wp_bind, wp_le_field. intros len Hlen _. apply wp_bind, wp_le_field. intros loc Hloc _.
  change (256 ^ 4) with (2 ^ 32) in *. set (n := Z.min _ _).
  apply wp_bind. eapply wp_mono; [apply vds_loop_wp; [done|done|lia|unfold n, MAX_VDS_SECTORS; lia]|].
  intros [ps lvd] [Hps Hlvd]. apply wp_bind, wp_ok_or. intros p ->. apply wp_bind, wp_ok_or.
  intros [lbs fsd_lb] ->. cbn in Hps. destruct Hlvd as [Hlbs Hfsd]. set (me2 := mkUdf src _ p [] ∅).
  assert (Hok : geo_ok me2).
  { constructor; cbn; try done. destruct (Z.eqb_spec lbs 0); cbn [negb]; unfold SECTOR; lia. }
  apply wp_bind, wp_addw_x; [done|]. intros Hsum. apply wp_bind.
  eapply wp_mono; [apply read_block_wp; [apply Hok|apply Hok|lia]|]. intros fsd _.
  apply wp_bind, wp_le_field. intros tag2 _ _. destruct (negb (tag2 =? _)); [done|].
  apply wp_bind, wp_le_field. intros icb Hicb _. change (256 ^ 4) with (2 ^ 32) in *.
  apply wp_bind, wp_addw_x; [done|]. intros Hsum2. cbn [wpx].
  split; [|split; [done|lia]]. constructor; [done|by constructor|apply table_ok_empty].
Qed.

Lemma udf_open_wp src : src_valid src ->
  wpx True (udf_open src) (fun me => volume_ok me /\ ud_src me = src).
Proof.
  intros Hv. unfold udf_open. apply wp_bind. eapply wp_mono; [by apply read_volume_wp|].
  intros [me lba] (Hok&Hsrc&Hl). destruct (ok_geo _ _ _ Hok) as [? ? ?].
  apply (wp_bind_eq _ _ inode_ok); [apply read_fe_wp; done || lia|]. intros root Hp Hroot.
  destruct (intern_ok geo_ok inode_ok udf_geo_with me lba root Hok Hroot Hp) as (id&me'&->&Hok'&Hx&_). cbn [bindR wpx].
  split; [done|]. by rewrite (udf_extends_src _ _ Hx).
Qed.

(** What an extent and a list of extents hold. *)
Definition extent_bytes me (e : Extent) : list byte :=
  match ex_lba e with
  | Some lba => region (src_byte (ud_src me)) (lba * ud_block_size me) (ex_len e)
  | None => zeros (ex_len e)
  end.
Definition extents_bytes me (ex : list Extent) : list byte := concat (extent_bytes me <$> ex).
Definition data_bytes me (d : FileData) : list byte :=
  match d with Inline b => b | Extents ex => extents_bytes me ex end.

Lemma zlen_extent_bytes me e : extent_ok e -> zlen (extent_bytes me e) = ex_len e.
Proof.
  intros [Hl _]. unfold extent_bytes. destruct (ex_lba e); [apply zlen_region|apply zlen_zeros]; lia.
Qed.

(** The part of an extent from [intra] on, copied behind [produced] bytes. *)
Definition copy_extent me (e : Extent) (intra produced take : Z) (buf : list byte) : Res (list byte) :=
  match ex_lba e with
  | Some lba =>
      let! base := mulw 64 lba (ud_block_size me) in
      let! at_ := addw 64 base intra in
      read_into (ud_src me) at_ buf produced (produced + take)
  | None =>
      let! _ := slice buf produced (produced + take) in
      write_at buf produced (zeros take)
  end.

Lemma copy_extent_wp {X : Prop} me e intra produced take buf :
  src_valid (ud_src me) -> 0 < ud_block_size me < 2 ^ 32 -> extent_ok e ->
  0 <= intra -> 0 <= take -> intra + take <= ex_len e ->
  0 <= produced -> produced + take <= zlen buf -> zlen buf < 2 ^ 63 ->
  wpx X (copy_extent me e intra produced take buf) (fun b => zlen b = zlen buf /\
    sub b 0 (produced + take) = sub buf 0 produced ++ sub (extent_bytes me e) intra take /\
    drop (Z.to_nat (produced + take)) b = drop (Z.to_nat (produced + take)) buf).
Proof.
  intros Hv Hbs [Hlen Hlba] Hi Ht Hit Hp Hfit Hbuf. unfold copy_extent, extent_bytes.
  destruct (ex_lba e) as [lba|].
  - pose proof (mul_u32 lba (ud_block_size me) Hlba ltac:(lia)).
    apply wp_bind, wp_mulw; [lia|]. apply wp_bind, wp_addw; [lia|].
    apply wp_read_into; [done|lia|lia|lia|done|]. intros r _ Hr _ ->.
    assert (Hsub : produced + take - produced = take) by lia. rewrite Hsub in *. split; [done|].
    rewrite sub_region by lia.
    assert (Hz : zlen (sub buf 0 produced ++ region (src_byte (ud_src me)) (lba * ud_block_size me + intra) take)
      = produced + take) by (rewrite zlen_app, zlen_sub, zlen_region by lia; lia).
    rewrite app_assoc. set (tail := drop _ buf). rewrite <- Hz. by rewrite sub_0_app, drop_zlen_app.
  - apply wp_bind, wp_slice; [lia|lia|]. pose proof (zlen_zeros take Ht).
    apply wp_write_at; [lia|lia|]. intros r Hr Hz. split; [done|].
    apply write_at_front in Hr as [Hs Hd]. rewrite zlen_zeros in * by done. split; [|done].
    by rewrite Hs, sub_zeros by lia.
Qed.

Lemma read_window_wp {X : Prop} me off want ex : forall file_pos produced buf,
  src_valid (ud_src me) -> 0 < ud_block_size me < 2 ^ 32 -> Forall extent_ok ex ->
  0 <= off -> 0 <= produced <= want -> want <= zlen buf -> zlen buf < 2 ^ 63 -> off + want < 2 ^ 64 ->
  0 <= file_pos -> file_pos + zlen ex * 2 ^ 30 < 2 ^ 64 ->
  (produced < want -> file_pos <= off + produced) ->
  wpx X (read_window me off want ex file_pos produced buf) (fun '(n, b) =>
    zlen b = zlen buf /\
    n = produced + Z.min (want - produced)
          (Z.max 0 (zlen (extents_bytes me ex) - (off + produced - file_pos))) /\
    sub b 0 n = sub buf 0 produced ++ sub (extents_bytes me ex) (off + produced - file_pos) (n - produced) /\
    drop (Z.to_nat n) b = drop (Z.to_nat n) buf).
Proof.
  induction ex as [|e ex IH]; intros fp produced buf Hv Hbs Hex Ho Hp Hw Hbuf Hlim Hfp Hsum Hcur;
    cbn [read_window].
  { cbn [wpx]. unfold extents_bytes. cbn [fmap list_fmap concat]. rewrite zlen_nil.
    destruct (Z.le_gt_cases want produced) as [Hge|Hlt];
      [|specialize (Hcur Hlt)]; (replace (produced + _) with produced by lia);
      by rewrite Z.sub_diag, sub_nil, app_nil_r. }
  apply Forall_cons in Hex as [He Hex]. pose proof (zlen_nonneg ex). rewrite zlen_cons in Hsum.
  pose proof (zlen_extent_bytes me e He) as Hez. destruct (He) as [Hlen _].
  assert (Hcons : extents_bytes me (e :: ex) = extent_bytes me e ++ extents_bytes me ex) by done.
  rewrite Hcons, zlen_app, Hez. pose proof (zlen_nonneg (extents_bytes me ex)).
  rewrite Z.geb_leb. destruct (Z.leb_spec want produced) as [Hge|Hlt].
  { cbn [wpx]. replace (produced + _) with produced by lia. by rewrite Z.sub_diag, sub_nil, app_nil_r. }
  specialize (Hcur Hlt). apply wp_bind, wp_addw; [lia|]. apply wp_bind, wp_addw; [lia|].
  rewrite Z.geb_leb. destruct (Z.leb_spec (fp + ex_len e) (off + produced)) as [Hskip|Hin].
  { eapply wp_mono; [apply IH; done || lia|]. intros [n b] (?&->&Hs&Hd).
    split; [done|]. split; [lia|]. split; [|done].
    rewrite Hs. f_equal. rewrite sub_app_r, Hez by lia. f_equal. lia. }
  apply wp_bind, wp_subw; [lia|]. unfold saturating_sub. set (tk := Z.min _ _).
  set (intra := off + produced - fp) in *. fold (copy_extent me e intra produced tk buf).
  apply wp_bind. eapply wp_mono; [apply copy_extent_wp; done || lia|]. intros b1 (Hz1&Hs1&Hd1).
  eapply wp_mono; [apply (IH (fp + ex_len e) (produced + tk) b1); done || lia|].
  intros [n b] (Hz&Hn&Hs&Hd). set (m := Z.min _ _) in Hn. split; [congruence|]. split; [lia|].
  assert (Hnm : n - produced = tk + m) by lia. split.
  - rewrite Hs, Hs1, Hnm, <- app_assoc. f_equal.
    rewrite <- (sub_app_split (extent_bytes me e ++ extents_bytes me ex) intra tk m) by lia.
    rewrite sub_app_l by lia. f_equal. replace (n - (produced + tk)) with m by lia.
    destruct (decide (m = 0)) as [->|]; [by rewrite !sub_nil|].
    rewrite sub_app_r, Hez by lia. f_equal. lia.
  - rewrite Hd. replace n with (produced + tk + m) by lia.
    rewrite Z2Nat.inj_add, <- !drop_drop, Hd1 by lia. done.
Qed.

(** On a reliable medium that has the extents, the read succeeds. *)
Lemma read_window_Ok `{!ReliableSource S} me off want ex : forall file_pos produced buf,
  src_valid (ud_src me) -> 0 < ud_block_size me < 2 ^ 32 -> Forall extent_ok ex ->
  Forall (fun e => match ex_lba e with
    | Some lba => lba * ud_block_size me + ex_len e <= src_len (ud_src me) | None => True end) ex ->
  0 <= off -> 0 <= produced <= want -> want <= zlen buf -> off + want < 2 ^ 64 ->
  0 <= file_pos -> file_pos + zlen ex * 2 ^ 30 < 2 ^ 64 ->
  (produced < want -> file_pos <= off + produced) ->
  exists r, read_window me off want ex file_pos produced buf = Ok r.
Proof.
  induction ex as [|e ex IH]; intros fp produced buf Hv Hbs Hex Hin Ho Hp Hw Hlim Hfp Hsum Hcur;
    cbn [read_window]; [by eexists|].
  apply Forall_cons in Hex as [[Hlen Hlba] Hex]. apply Forall_cons in Hin as [Hie Hin].
  pose proof (zlen_nonneg ex). rewrite zlen_cons in Hsum.
  rewrite Z.geb_leb. destruct (Z.leb_spec want produced) as [|Hlt]; [by eexists|].
  specialize (Hcur Hlt). rewrite !addw_eq by lia. cbn [bindR].
  rewrite Z.geb_leb. destruct (Z.leb_spec (fp + ex_len e) (off + produced)); [apply IH; done || lia|].
  rewrite subw_eq by lia. cbn [bindR]. unfold saturating_sub. set (tk := Z.min _ _).
  set (intra := off + produced - fp). fold (copy_extent me e intra produced tk buf).
  assert (Hc : exists b, copy_extent me e intra produced tk buf = Ok b /\ zlen b = zlen buf).
  { unfold copy_extent. destruct (ex_lba e) as [lba|].
    - pose proof (mul_u32 lba (ud_block_size me) Hlba ltac:(lia)).
      rewrite mulw_eq by lia. cbn [bindR]. rewrite addw_eq by lia. cbn [bindR]. unfold read_into.
      rewrite slice_eq by lia. cbn [bindR]. replace (produced + tk - produced) with tk by lia.
      rewrite src_read_in_range by (done || lia). cbn [bindR].
      rewrite write_at_eq by (rewrite ?zlen_region; lia). eexists. split; [done|].
      eapply write_at_zlen, write_at_eq; [lia|]. rewrite zlen_region; lia.
    - rewrite slice_eq by lia. cbn [bindR]. rewrite write_at_eq by (rewrite ?zlen_zeros; lia).
      eexists. split; [done|]. eapply write_at_zlen, write_at_eq; [lia|]. rewrite zlen_zeros; lia. }
  destruct Hc as (b&->&Hz). cbn [bindR]. apply IH; done || lia.
Qed.

Lemma udf_read_at_wp {X : Prop} me node off buf i :
  volume_ok me -> inode me node = Ok i -> ui_kind i <> Directory -> 0 <= off < ui_size i ->
  zlen buf < 2 ^ 63 ->
  let c := data_bytes me (ui_data i) in
  wpx X (udf_read_at me node off buf) (fun '(n, b) => zlen b = zlen buf /\
    n = Z.min (Z.min (zlen buf) (ui_size i - off)) (Z.max 0 (zlen c - off)) /\
    sub b 0 n = sub c off n /\ drop (Z.to_nat n) b = drop (Z.to_nat n) buf).
Proof.
  intros Hok Hi Hk Ho Hbuf c. pose proof (inode_wp geo_ok inode_ok (X := False) me node Hok) as Hw. rewrite Hi in Hw.
  destruct Hw as [Hs Hd]. pose proof (zlen_nonneg buf). unfold udf_read_at. rewrite Hi. cbn [bindR].
  rewrite bool_decide_eq_false_2 by done. rewrite Z.geb_leb, (proj2 (Z.leb_gt _ _)) by lia.
  set (want := Z.min (zlen buf) _). unfold c, data_bytes. clear c.
  destruct (ui_data i) as [b|ex]; cbn [data_ok] in Hd.
  - unfold saturating_sub. set (n := Z.min want _). apply wp_bind, wp_slice; [lia|lia|].
    replace (off + n - off) with n by lia.
    assert (Hz : zlen (sub b off n) = n) by (apply zlen_sub; lia).
    apply wp_bind, wp_write_at; [lia|lia|]. intros r Hr Hzr. cbn [wpx]. split; [done|]. split; [lia|].
    apply write_at_front in Hr as [Hs1 Hd1]. rewrite Hz, Z.add_0_l in *. by rewrite Hs1, sub_nil.
  - destruct Hd as [Hex Hlen].
    destruct (ok_geo _ _ _ Hok) as [? ? ?].
    eapply wp_mono; [apply read_window_wp; [done|done|done|lia|lia|lia|lia|lia|lia| |lia]|].
    { change (2 ^ 64) with (2 ^ 34 * 2 ^ 30). lia. }
    intros [n r] (Hz&Hn&Hs1&Hd1). rewrite sub_nil in Hs1. rewrite Z.sub_0_r, Z.add_0_r in *.
    split; [done|]. split; [lia|]. split; [|done]. rewrite Hs1. cbn [app]. f_equal. lia.
Qed.
(** At any handle and offset a read comes back and moves at most a buffer. *)
Lemma udf_read_moves {X : Prop} me node off buf : volume_ok me -> 0 <= off -> zlen buf < 2 ^ 63 ->
  wpx X (udf_read_at me node off buf) (fun '(n, b) => zlen b = zlen buf /\ 0 <= n <= zlen buf).
Proof.
  intros Hok Hoff Hbuf. pose proof (inode_wp geo_ok inode_ok (X := False) me node Hok) as Hi.
  pose proof (zlen_nonneg buf). destruct (inode me node) as [i|e| | |] eqn:Ei; try done; [|unfold udf_read_at; by rewrite Ei].
  destruct (decide (ui_kind i = Directory)) as [Hk|Hk].
  { unfold udf_read_at. rewrite Ei. cbn [bindR]. by rewrite bool_decide_eq_true_2. }
  destruct (Z.le_gt_cases (ui_size i) off) as [Hge|Hlt].
  { unfold udf_read_at. rewrite Ei. cbn [bindR].
    rewrite bool_decide_eq_false_2, Z.geb_leb, (proj2 (Z.leb_le _ _)) by done. cbn [wpx]. lia. }
  eapply wp_mono; [by apply (udf_read_at_wp me node off buf i)|]. intros [n b] (?&->&_). lia.
Qed.

(** The extents of a file lie on the medium. *)
Definition data_in_range me (d : FileData) : Prop :=
  match d with
  | Inline _ => True
  | Extents ex => Forall (fun e => match ex_lba e with
      | Some lba => lba * ud_block_size me + ex_len e <= src_len (ud_src me) | None => True end) ex
  end.

Lemma udf_read_at_succeeds `{!ReliableSource S} me node off buf i :
  volume_ok me -> inode me node = Ok i -> ui_kind i <> Directory -> 0 <= off < ui_size i -> zlen buf < 2 ^ 63 ->
  data_in_range me (ui_data i) -> exists r, udf_read_at me node off buf = Ok r.
Proof.
  intros Hok Hi Hk Ho Hbuf Hin. pose proof (inode_wp geo_ok inode_ok (X := False) me node Hok) as Hio. rewrite Hi in Hio.
  destruct Hio as [Hs Hd]. pose proof (zlen_nonneg buf). unfold udf_read_at. rewrite Hi. cbn [bindR].
  rewrite bool_decide_eq_false_2 by done. rewrite Z.geb_leb, (proj2 (Z.leb_gt _ _)) by lia.
  destruct (ui_data i) as [b|ex]; cbn [data_ok] in Hd.
  - unfold saturating_sub. set (n := Z.min _ _). rewrite slice_eq by lia. cbn [bindR].
    rewrite write_at_eq by (rewrite ?zlen_sub; lia). by eexists.
  - destruct Hd as [Hex Hlen]. destruct (ok_geo _ _ _ Hok) as [? ? ?]. apply read_window_Ok; done || lia.
Qed.
End Laws.

(** ** Written File Entries *)

(** A File Entry ([ext]: an Extended one) around the fields the reader uses. *)
Record FileEntry : Type := mkFe {
  fe_ext : bool; fe_type : Z; fe_flags : Z; fe_info : Z;
  fe_ea : list byte; fe_ads : list byte;
}.
Definition fe_head (fe : FileEntry) (j1 j2 j3 j4 : list byte) : list byte :=
  le_bytes 2 (if fe_ext fe then TAG_EXTENDED_FILE_ENTRY else TAG_FILE_ENTRY) ++ j1 ++
  [to_u8 (fe_type fe)] ++ j2 ++ le_bytes 2 (fe_flags fe) ++ j3 ++ le_bytes 8 (fe_info fe) ++ j4 ++
  le_bytes 4 (zlen (fe_ea fe)) ++ le_bytes 4 (zlen (fe_ads fe)).
Definition fe_bytes (fe : FileEntry) (j1 j2 j3 j4 : list byte) : list byte :=
  fe_head fe j1 j2 j3 j4 ++ fe_ea fe ++ fe_ads fe.
Definition fe_start (fe : FileEntry) : Z := if fe_ext fe then 216 else 176.

(** The bytes between the fields may be anything. *)
Definition gaps_ok (fe : FileEntry) (j1 j2 j3 j4 : list byte) : Prop :=
  zlen j1 = 25 /\ zlen j2 = 6 /\ zlen j3 = 20 /\ zlen j4 = if fe_ext fe then 144 else 104.
Definition fe_ok (fe : FileEntry) : Prop :=
  0 <= fe_type fe < 256 /\ 0 <= fe_flags fe < 2 ^ 16 /\ 0 <= fe_info fe < 2 ^ 64 /\
  zlen (fe_ea fe) < 2 ^ 32 /\ zlen (fe_ads fe) < 2 ^ 32.

(** A short_ad, or with [long] a long_ad: type, length, block, and what follows. *)
Record Ad : Type := mkAd { ad_type : Z; ad_len : Z; ad_block : Z; ad_rest : list byte }.
Definition ad_bytes (a : Ad) : list byte :=
  le_bytes 4 (ad_type a * 2 ^ 30 + ad_len a) ++ le_bytes 4 (ad_block a) ++ ad_rest a.
Definition ad_ok (stride ps : Z) (a : Ad) : Prop :=
  0 <= ad_type a < 3 /\ 0 <= ad_len a < 2 ^ 30 /\ 0 <= ad_block a /\ ps + ad_block a < 2 ^ 32 /\
  zlen (ad_rest a) = stride - 8.
(** The extents descriptors stand for: empty ones are skipped. *)
Definition ad_extent (ps : Z) (a : Ad) : list Extent :=
  if ad_len a =? 0 then []
  else [mkExtent (if ad_type a =? 0 then Some (ps + ad_block a) else None) (ad_len a)].

Lemma bind_concat {A B} (f : A -> list B) (l : list A) : l ≫= f = concat (f <$> l).
Proof. induction l as [|x l IH]; [done|]. cbn. by rewrite <- IH. Qed.

Lemma ad_step_written ps ads stride k ex a : 0 <= ps ->
  sub ads (k * stride) stride = ad_bytes a -> ad_ok stride ps a ->
  ad_step ps ads stride k ex = Ok (ex ++ ad_extent ps a).
Proof.
  intros Hps Hsub (Ht&Hl&Hb&Hsum&_). unfold ad_step. rewrite Hsub. unfold ad_bytes.
  assert (H0 : le_num (sub (le_bytes 4 (ad_type a * 2 ^ 30 + ad_len a) ++ le_bytes 4 (ad_block a) ++ ad_rest a) 0 4)
    = ad_type a * 2 ^ 30 + ad_len a).
  { pose proof (sub_0_app (le_bytes 4 (ad_type a * 2 ^ 30 + ad_len a)) (le_bytes 4 (ad_block a) ++ ad_rest a)) as Hs.
    rewrite zlen_le_bytes in Hs. change (Z.of_nat 4) with 4 in Hs. rewrite Hs, le_num_le_bytes. apply Z.mod_small.
    change (256 ^ Z.of_nat 4) with (4 * 2 ^ 30). lia. }
  assert (H4 : le_num (sub (le_bytes 4 (ad_type a * 2 ^ 30 + ad_len a) ++ le_bytes 4 (ad_block a) ++ ad_rest a) 4 4)
    = ad_block a).
  { rewrite sub_app_r by (by rewrite zlen_le_bytes). rewrite zlen_le_bytes, Z.sub_diag.
    pose proof (sub_0_app (le_bytes 4 (ad_block a)) (ad_rest a)) as Hs.
    rewrite zlen_le_bytes in Hs. change (Z.of_nat 4) with 4 in Hs. rewrite Hs, le_num_le_bytes. apply Z.mod_small.
    change (256 ^ Z.of_nat 4) with (2 ^ 32). lia. }
  rewrite H0, H4. change 0x3FFFFFFF with (Z.ones 30). rewrite Z.land_ones by lia.
  rewrite Z.add_comm, Z.mod_add, Z.mod_small by lia.
  rewrite Z.shiftr_div_pow2, Z.div_add, Z.div_small, Z.add_0_l by lia. unfold ad_extent.
  destruct (Z.eqb_spec (ad_len a) 0); [by rewrite app_nil_r|].
  rewrite (proj2 (Z.eqb_neq (ad_type a) 3)), addw_eq by lia. cbn [bindR].
  by destruct (_ =? 0).
Qed.

Lemma parse_extents_written ps p r stride ads : 0 <= ps -> 0 < stride -> Forall (ad_ok stride ps) ads ->
  let l := concat (ad_bytes <$> ads) in
  parse_extents ps (p ++ l ++ r) (zlen p) (zlen l) stride = Ok (Extents (ads ≫= ad_extent ps)).
Proof.
  intros Hps Hst Hads l. unfold parse_extents. rewrite (get_range_app p l r) by done. cbn [ok_or bindR].
  set (d := mkAd 0 0 0 (zeros (stride - 8))).
  assert (Hw : forall j, 0 <= j < zlen ads -> ad_ok stride ps (default d (ads !! Z.to_nat j))).
  { intros j Hj. destruct (lookup_lt_is_Some_2 ads (Z.to_nat j)) as [a Ha]; [unfold zlen in Hj; lia|].
    rewrite Ha. exact (Forall_lookup_1 _ _ _ _ Hads Ha). }
  assert (Hwidth : forall j, 0 <= j < zlen ads -> zlen (ad_bytes (default d (ads !! Z.to_nat j))) = stride).
  { intros j Hj. destruct (Hw j Hj) as (_&_&_&_&Hr). unfold ad_bytes.
    rewrite !zlen_app, !zlen_le_bytes, Hr. lia. }
  pose proof (zlen_nonneg ads) as Hn.
  assert (Hl : l = concat ((fun j => ad_bytes (default d (ads !! Z.to_nat j))) <$> seqZ 0 (zlen ads)))
    by (unfold l; by rewrite (fmap_seqZ ad_bytes ads d)).
  assert (Hz : zlen l = zlen ads * stride) by (rewrite Hl; by apply zlen_concat_width).
  rewrite Hz, Z.div_mul by lia.
  erewrite (for_loop_concat (fun j => ad_extent ps (default d (ads !! Z.to_nat j)))).
  - cbn [bindR app]. rewrite Z2Nat.id by lia. do 2 f_equal.
    rewrite <- (fmap_seqZ (ad_extent ps) ads d). by rewrite bind_concat.
  - intros j ex Hj. rewrite Z2Nat.id in Hj by lia.
    apply ad_step_written; [done| |apply Hw; lia].
    pose proof (slice_concat_width (fun j => ad_bytes (default d (ads !! Z.to_nat j))) stride (zlen ads) j
      ltac:(lia) Hwidth) as Hs.
    rewrite <- Hl in Hs. apply slice_Ok in Hs as (_&_&->). f_equal. lia.
Qed.

Lemma zlen_fe_head fe j1 j2 j3 j4 : gaps_ok fe j1 j2 j3 j4 -> zlen (fe_head fe j1 j2 j3 j4) = fe_start fe.
Proof.
  intros (?&?&?&?). unfold fe_head, fe_start. rewrite !zlen_app, !zlen_le_bytes, zlen_cons, zlen_nil.
  destruct (fe_ext fe); lia.
Qed.

(** The fields of a written File Entry, read back. *)
Lemma fe_fields fe j1 j2 j3 j4 r : gaps_ok fe j1 j2 j3 j4 -> fe_ok fe ->
  let buf := fe_bytes fe j1 j2 j3 j4 ++ r in
  le_u16 buf 0 = Ok (if fe_ext fe then TAG_EXTENDED_FILE_ENTRY else TAG_FILE_ENTRY) /\
  get buf 27 = Some (to_u8 (fe_type fe)) /\ le_u16 buf 34 = Ok (fe_flags fe) /\
  le_u64 buf 56 = Ok (fe_info fe) /\ le_u32 buf (fe_start fe - 8) = Ok (zlen (fe_ea fe)) /\
  le_u32 buf (fe_start fe - 4) = Ok (zlen (fe_ads fe)).
Proof.
  intros (Z1&Z2&Z3&Z4) (?&?&?&?&?) buf. pose proof (zlen_nonneg (fe_ea fe)). pose proof (zlen_nonneg (fe_ads fe)).
  set (tag := le_bytes 2 (if fe_ext fe then TAG_EXTENDED_FILE_ENTRY else TAG_FILE_ENTRY)).
  set (lens := le_bytes 4 (zlen (fe_ea fe))). set (rest := fe_ea fe ++ fe_ads fe ++ r).
  assert (Hbuf : buf = tag ++ j1 ++ [to_u8 (fe_type fe)] ++ j2 ++ le_bytes 2 (fe_flags fe) ++ j3 ++
    le_bytes 8 (fe_info fe) ++ j4 ++ lens ++ le_bytes 4 (zlen (fe_ads fe)) ++ rest).
  { unfold buf, fe_bytes, fe_head, rest, lens, tag. by rewrite <- !app_assoc. }
  assert (Hstart : zlen (tag ++ j1 ++ [to_u8 (fe_type fe)] ++ j2 ++ le_bytes 2 (fe_flags fe) ++ j3 ++
    le_bytes 8 (fe_info fe) ++ j4) = fe_start fe - 8).
  { unfold tag, fe_start. rewrite !zlen_app, !zlen_le_bytes, zlen_cons, zlen_nil. destruct (fe_ext fe); lia. }
  rewrite Hbuf. clear buf Hbuf. split_and!.
  - apply (le_field_app _ [] 2); [done|done|]. by destruct (fe_ext fe).
  - apply get_Some. split; [lia|]. rewrite app_assoc. apply list_lookup_middle.
    rewrite length_app. unfold zlen, tag in *. rewrite length_le_bytes. lia.
  - replace (tag ++ _) with ((tag ++ j1 ++ [to_u8 (fe_type fe)] ++ j2) ++ le_bytes 2 (fe_flags fe) ++ j3 ++
      le_bytes 8 (fe_info fe) ++ j4 ++ lens ++ le_bytes 4 (zlen (fe_ads fe)) ++ rest) by by rewrite <- !app_assoc.
    apply (le_field_app _ _ 2); [|done|done]. unfold tag. rewrite !zlen_app, !zlen_le_bytes, zlen_cons, zlen_nil. lia.
  - replace (tag ++ _) with ((tag ++ j1 ++ [to_u8 (fe_type fe)] ++ j2 ++ le_bytes 2 (fe_flags fe) ++ j3) ++
      le_bytes 8 (fe_info fe) ++ j4 ++ lens ++ le_bytes 4 (zlen (fe_ads fe)) ++ rest) by by rewrite <- !app_assoc.
    apply (le_field_app _ _ 8); [|done|done]. unfold tag. rewrite !zlen_app, !zlen_le_bytes, zlen_cons, zlen_nil. lia.
  - replace (tag ++ _) with ((tag ++ j1 ++ [to_u8 (fe_type fe)] ++ j2 ++ le_bytes 2 (fe_flags fe) ++ j3 ++
      le_bytes 8 (fe_info fe) ++ j4) ++ lens ++ le_bytes 4 (zlen (fe_ads fe)) ++ rest) by by rewrite <- !app_assoc.
    apply (le_field_app _ _ 4); [by rewrite Hstart|done|]. change (256 ^ Z.of_nat 4) with (2 ^ 32). lia.
  - replace (tag ++ _) with (((tag ++ j1 ++ [to_u8 (fe_type fe)] ++ j2 ++ le_bytes 2 (fe_flags fe) ++ j3 ++
      le_bytes 8 (fe_info fe) ++ j4) ++ lens) ++ le_bytes 4 (zlen (fe_ads fe)) ++ rest) by by rewrite <- !app_assoc.
    apply (le_field_app _ _ 4); [|done|change (256 ^ Z.of_nat 4) with (2 ^ 32); lia].
    rewrite zlen_app, Hstart. unfold lens. rewrite zlen_le_bytes. lia.
Qed.

(** What the allocation area of a File Entry stands for. *)
Inductive AdArea (ps : Z) (fe : FileEntry) : FileData -> Prop :=
| AdArea_inline :
    Z.land (fe_flags fe) 7 = 3 -> fe_info fe = zlen (fe_ads fe) -> zlen (fe_ads fe) <= MAX_BOOT_FILE_BYTES ->
    AdArea ps fe (Inline (fe_ads fe))
| AdArea_ads stride ads :
    Z.land (fe_flags fe) 7 = (if stride =? 8 then 0 else 1) -> stride = 8 \/ stride = 16 ->
    Forall (ad_ok stride ps) ads -> fe_ads fe = concat (ad_bytes <$> ads) ->
    AdArea ps fe (Extents (ads ≫= ad_extent ps)).

Lemma read_fe_written {S} `{SourceLaws S} (me : Udf S) lba fe j1 j2 j3 j4 r data :
  0 <= ud_partition_start me ->
  read_block me lba = Ok (fe_bytes fe j1 j2 j3 j4 ++ r) ->
  gaps_ok fe j1 j2 j3 j4 -> fe_ok fe -> AdArea (ud_partition_start me) fe data ->
  read_fe me lba = Ok (mkInode (kind_of (fe_type fe)) (fe_info fe) data).
Proof.
  intros Hps Hb Hg Hok Ha. pose proof (zlen_fe_head fe j1 j2 j3 j4 Hg) as Hh.
  destruct (fe_fields fe j1 j2 j3 j4 r Hg Hok) as (F0&F27&F34&F56&Fea&Fad).
  destruct Hok as (Ht&_&_&Hea&Had). unfold read_fe. rewrite Hb. cbn [bindR].
  assert (Hp : fe_bytes fe j1 j2 j3 j4 ++ r = (fe_head fe j1 j2 j3 j4 ++ fe_ea fe) ++ fe_ads fe ++ r)
    by (unfold fe_bytes; by rewrite <- !app_assoc).
  set (buf := fe_bytes fe j1 j2 j3 j4 ++ r) in *. rewrite F0. cbn [bindR].
  assert (Hlay : fe_layout (if fe_ext fe then TAG_EXTENDED_FILE_ENTRY else TAG_FILE_ENTRY)
    = Ok (fe_start fe - 8, fe_start fe - 4, fe_start fe)) by (unfold fe_start; by destruct (fe_ext fe)).
  rewrite Hlay. cbn [bindR]. rewrite F27. cbn [bindR ok_or]. rewrite F34. cbn [bindR].
  rewrite F56. cbn [bindR]. rewrite Fea. cbn [bindR]. rewrite Fad. cbn [bindR].
  assert (Hs : 0 <= fe_start fe <= 216) by (unfold fe_start; by destruct (fe_ext fe)).
  pose proof (zlen_nonneg (fe_ea fe)).
  assert (Hadd : checked_add 64 (fe_start fe) (zlen (fe_ea fe)) = Some (zlen (fe_head fe j1 j2 j3 j4 ++ fe_ea fe)))
    by (apply checked_add_Some; rewrite zlen_app; lia).
  rewrite Hadd. cbn [bindR ok_or]. rewrite u8_to_u8, Z.mod_small by lia.
  destruct Ha as [Hf Hi Hcap|stride ads Hf Hst Hads Hconc].
  - rewrite Hf. cbn [Z.eqb Pos.eqb]. rewrite (proj2 (checked_full_Ok _ (fe_info fe))) by (split; [lia|done]).
    cbn [bindR]. unfold MAX_BOOT_FILE_BYTES in Hcap.
    assert (Hend : checked_add 64 (zlen (fe_head fe j1 j2 j3 j4 ++ fe_ea fe)) (fe_info fe)
      = Some (zlen (fe_head fe j1 j2 j3 j4 ++ fe_ea fe) + zlen (fe_ads fe)))
      by (apply checked_add_Some; rewrite zlen_app; lia).
    rewrite Hend. cbn [bindR ok_or]. rewrite Hp, get_range_app by done. done.
  - pose proof (parse_extents_written (ud_partition_start me) (fe_head fe j1 j2 j3 j4 ++ fe_ea fe) r stride ads
      Hps ltac:(lia) Hads) as Hx. cbn zeta in Hx. rewrite <- Hconc, <- Hp in Hx. rewrite Hf.
    destruct Hst as [-> | ->]; cbn [Z.eqb Pos.eqb]; by rewrite Hx.
Qed.

(** ** Written directories *)

(** A File Identifier Descriptor: characteristics, block of the child's entry,
    implementation use, and the name as a [d-string]. *)
Record Fid : Type := mkFid { fid_fc : Z; fid_block : Z; fid_iu : list byte; fid_fi : list byte;
  fid_j1 : list byte; fid_j2 : list byte; fid_j3 : list byte }.
Definition fid_body (f : Fid) : list byte :=
  le_bytes 2 TAG_FID ++ fid_j1 f ++ [to_u8 (fid_fc f)] ++ [to_u8 (zlen (fid_fi f))] ++ fid_j2 f ++
  le_bytes 4 (fid_block f) ++ fid_j3 f ++ le_bytes 2 (zlen (fid_iu f)) ++ fid_iu f ++ fid_fi f.
(** Padded to a multiple of four. *)
Definition fid_size (f : Fid) : Z := Z.land (38 + zlen (fid_iu f) + zlen (fid_fi f) + 3) (Z.lnot 3).
Definition fid_bytes (f : Fid) : list byte :=
  fid_body f ++ zeros (fid_size f - (38 + zlen (fid_iu f) + zlen (fid_fi f))).

Definition fid_hidden (f : Fid) : bool :=
  negb ((Z.land (fid_fc f) 0x08 =? 0) && (Z.land (fid_fc f) 0x04 =? 0)).
Definition fid_ok (ps : Z) (f : Fid) : Prop :=
  zlen (fid_j1 f) = 16 /\ zlen (fid_j2 f) = 4 /\ zlen (fid_j3 f) = 8 /\ 0 <= fid_fc f < 256 /\
  0 <= fid_block f /\ ps + fid_block f < 2 ^ 32 /\ zlen (fid_iu f) < 2 ^ 16 /\ zlen (fid_fi f) < 256.

(** What a directory lists: its entries that are neither deleted nor the parent. *)
Inductive Listed (ps : Z) : list Fid -> list (name * Z) -> Prop :=
| Listed_nil : Listed ps [] []
| Listed_hidden f fs out : fid_ok ps f -> fid_hidden f = true -> Listed ps fs out -> Listed ps (f :: fs) out
| Listed_entry f fs nm out : fid_ok ps f -> fid_hidden f = false -> decode_udf_name (fid_fi f) = Ok nm ->
    Listed ps fs out -> Listed ps (f :: fs) ((nm, ps + fid_block f) :: out).

Lemma fid_size_spec f : let n := 38 + zlen (fid_iu f) + zlen (fid_fi f) in n <= fid_size f /\ 0 < fid_size f.
Proof.
  intros n. unfold fid_size. fold n. rewrite pad4_eq. pose proof (Z.mod_pos_bound (n + 3) 4 ltac:(lia)).
  pose proof (zlen_nonneg (fid_iu f)). pose proof (zlen_nonneg (fid_fi f)). lia.
Qed.

Lemma zlen_fid_bytes ps f : fid_ok ps f -> zlen (fid_bytes f) = fid_size f.
Proof.
  intros (?&?&?&_). pose proof (fid_size_spec f) as [Hs _]. cbn zeta in Hs. unfold fid_bytes, fid_body.
  rewrite zlen_app, zlen_zeros by lia. rewrite !zlen_app, !zlen_le_bytes, !zlen_cons, zlen_nil. lia.
Qed.

(** The fields of a written descriptor at [p] bytes into the directory. *)
Lemma fid_fields ps p f r : fid_ok ps f -> 0 <= ps ->
  let data := p ++ fid_bytes f ++ r in
  le_u16 data (zlen p) = Ok TAG_FID /\ at_ data (zlen p + 18) = Ok (to_u8 (fid_fc f)) /\
  at_ data (zlen p + 19) = Ok (to_u8 (zlen (fid_fi f))) /\ le_u32 data (zlen p + 24) = Ok (fid_block f) /\
  le_u16 data (zlen p + 36) = Ok (zlen (fid_iu f)) /\
  get_range data (zlen p + 38 + zlen (fid_iu f)) (zlen p + 38 + zlen (fid_iu f) + zlen (fid_fi f))
  = Some (fid_fi f).
Proof.
  intros (Z1&Z2&Z3&Hfc&Hb&Hsum&Hiu&Hfi) Hps data. pose proof (zlen_nonneg (fid_iu f)).
  set (pad := zeros (fid_size f - (38 + zlen (fid_iu f) + zlen (fid_fi f)))) in *.
  set (t := le_bytes 2 TAG_FID). set (fc := to_u8 (fid_fc f)). set (n := to_u8 (zlen (fid_fi f))).
  set (b := le_bytes 4 (fid_block f)). set (iu := le_bytes 2 (zlen (fid_iu f))).
  assert (Hd : data = p ++ t ++ fid_j1 f ++ [fc] ++ [n] ++ fid_j2 f ++ b ++ fid_j3 f ++ iu ++ fid_iu f ++
    fid_fi f ++ pad ++ r).
  { unfold data, fid_bytes, fid_body. fold pad. by rewrite <- !app_assoc. }
  rewrite Hd. clear data Hd.
  assert (Ht : zlen t = 2) by apply zlen_le_bytes. assert (Hbz : zlen b = 4) by apply zlen_le_bytes.
  assert (Hiz : zlen iu = 2) by apply zlen_le_bytes.
  assert (Hat : forall (l1 l2 : list byte) x o, o = zlen l1 -> at_ (l1 ++ x :: l2) o = Ok x).
  { intros l1 l2 x o ->. apply at_Ok, get_Some. split; [apply zlen_nonneg|].
    apply list_lookup_middle. unfold zlen. lia. }
  split_and!.
  - by apply (le_field_app _ p 2).
  - replace (p ++ _) with ((p ++ t ++ fid_j1 f) ++ fc :: [n] ++ fid_j2 f ++ b ++ fid_j3 f ++ iu ++ fid_iu f ++
      fid_fi f ++ pad ++ r) by by rewrite <- !app_assoc.
    apply Hat. rewrite !zlen_app. lia.
  - replace (p ++ _) with ((p ++ t ++ fid_j1 f ++ [fc]) ++ n :: fid_j2 f ++ b ++ fid_j3 f ++ iu ++ fid_iu f ++
      fid_fi f ++ pad ++ r) by by rewrite <- !app_assoc.
    apply Hat. rewrite !zlen_app, zlen_cons, zlen_nil. lia.
  - replace (p ++ _) with ((p ++ t ++ fid_j1 f ++ [fc] ++ [n] ++ fid_j2 f) ++ b ++ fid_j3 f ++ iu ++ fid_iu f ++
      fid_fi f ++ pad ++ r) by by rewrite <- !app_assoc.
    apply (le_field_app _ _ 4); [|done|change (256 ^ Z.of_nat 4) with (2 ^ 32); lia].
    rewrite !zlen_app, !zlen_cons, !zlen_nil. lia.
  - replace (p ++ _) with ((p ++ t ++ fid_j1 f ++ [fc] ++ [n] ++ fid_j2 f ++ b ++ fid_j3 f) ++ iu ++ fid_iu f ++
      fid_fi f ++ pad ++ r) by by rewrite <- !app_assoc.
    apply (le_field_app _ _ 2); [|done|change (256 ^ Z.of_nat 2) with (2 ^ 16); lia].
    rewrite !zlen_app, !zlen_cons, !zlen_nil. lia.
  - replace (p ++ _) with ((p ++ t ++ fid_j1 f ++ [fc] ++ [n] ++ fid_j2 f ++ b ++ fid_j3 f ++ iu ++ fid_iu f) ++
      fid_fi f ++ (pad ++ r)) by by rewrite <- !app_assoc.
    apply get_range_app; rewrite !zlen_app, !zlen_cons, !zlen_nil; lia.
Qed.

Lemma fid_round_written ps p f r out : fid_ok ps f -> 0 <= ps ->
  fid_round (p ++ fid_bytes f ++ r) ps (out, zlen p)
  = bindR (if fid_hidden f then Ok out
           else let! nm := decode_udf_name (fid_fi f) in Ok (out ++ [(nm, ps + fid_block f)]))
      (fun out' => Ok (inl (out', zlen (p ++ fid_bytes f)))).
Proof.
  intros Hok Hps. destruct (fid_fields ps p f r Hok Hps) as (F0&F18&F19&F24&F36&Ffi).
  pose proof (zlen_fid_bytes ps f Hok) as Hz. destruct (fid_size_spec f) as [Hn Hpos]. cbn zeta in Hn.
  pose proof (zlen_nonneg (fid_iu f)). pose proof (zlen_nonneg (fid_fi f)). pose proof (zlen_nonneg r).
  destruct Hok as (_&_&_&Hfc&Hb&Hsum&Hiu&Hfi). unfold fid_round.
  assert (Hin : zlen p + 38 <= zlen (p ++ fid_bytes f ++ r)) by (rewrite !zlen_app; lia).
  set (data := p ++ fid_bytes f ++ r) in *. rewrite (proj2 (Z.leb_le _ _) Hin). cbn [negb].
  rewrite F0. cbn [bindR]. rewrite Z.eqb_refl. cbn [negb]. rewrite F18. cbn [bindR]. rewrite F19. cbn [bindR].
  rewrite F24. cbn [bindR]. rewrite F36. cbn [bindR]. rewrite !u8_to_u8, !Z.mod_small by lia.
  rewrite Ffi. cbn [bindR ok_or]. fold (fid_size f). rewrite (proj2 (Z.eqb_neq (fid_size f) 0)) by lia.
  rewrite zlen_app, Hz, addw_eq by lia. unfold fid_hidden. by destruct (_ && _).
Qed.

Lemma fids_LoopsTo ps fs out' : Listed ps fs out' -> forall p out, 0 <= ps ->
  LoopsTo (fid_round (p ++ concat (fid_bytes <$> fs)) ps) (out, zlen p) (Ok (out ++ out')).
Proof.
  induction 1 as [|f fs out' Hok Hh _ IH|f fs nm out' Hok Hh Hnm _ IH]; intros p out Hps;
    cbn [fmap list_fmap concat].
  - apply LoopsTo_break. unfold fid_round. rewrite !app_nil_r.
    by rewrite (proj2 (Z.leb_gt _ _)) by lia.
  - eapply LoopsTo_round; [rewrite fid_round_written, Hh by done; reflexivity|].
    rewrite app_assoc. by apply IH.
  - eapply LoopsTo_round; [rewrite fid_round_written, Hh, Hnm by done; reflexivity|].
    rewrite app_assoc. replace (out ++ (nm, ps + fid_block f) :: out')
      with ((out ++ [(nm, ps + fid_block f)]) ++ out') by by rewrite <- app_assoc.
    by apply IH.
Qed.

(** ** Properties *)

(** The states a volume over [src] goes through: mounted, then listed and
    searched any number of times. *)
Inductive Mounted {S} `{BlockSource S} (src : S) : Udf S -> Prop :=
| Mounted_open me : udf_open src = Ok me -> Mounted src me
| Mounted_read_dir me dir : Mounted src me -> Mounted src (udf_read_dir dir me).2
| Mounted_lookup me dir nm : Mounted src me -> Mounted src (udf_lookup dir nm me).2.

Section Properties.
Context {S : Type} `{SourceLaws S}.
Implicit Types (src : S) (me : Udf S).

#[local] Abbreviation volume_ok := (fs_ok geo_ok inode_ok).

Lemma udf_lookup_ok me dir nm : volume_ok me ->
  returns_or_overflow (udf_lookup dir nm me).1 /\
  (udf_lookup dir nm me).2 = (udf_read_dir dir me).2.
Proof.
  intros Hok. unfold udf_lookup, bindST.
  destruct (udf_read_dir_ok me dir Hok) as (r&me'&->&_&_&Hw). by destruct r.
Qed.

Lemma udf_mounted_ok src me : src_valid src -> Mounted src me -> volume_ok me /\ ud_src me = src.
Proof.
  intros Hv. induction 1 as [me Ho|me dir _ [Hok Hsrc]|me dir nm _ [Hok Hsrc]].
  - by apply (wp_Ok _ _ _ (udf_open_wp src Hv)).
  - destruct (udf_read_dir_ok me dir Hok) as (r&me'&->&Hok'&Hx&_). cbn [snd].
    split; [done|]. by rewrite (udf_extends_src _ _ Hx).
  - destruct (udf_lookup_ok me dir nm Hok) as [_ ->].
    destruct (udf_read_dir_ok me dir Hok) as (r&me'&->&Hok'&Hx&_). cbn [snd].
    split; [done|]. by rewrite (udf_extends_src _ _ Hx).
Qed.

(** C38.  On any medium, mounting a UDF volume and listing, searching and asking
    for metadata, in any order and at any handle, comes back or stops at an
    overflow of a sum of on-disk block numbers; reading a file always comes back. *)
Theorem udf_total src : src_valid src ->
  returns_or_overflow (udf_open src) /\
  forall me, Mounted src me -> forall node off buf nm, 0 <= off -> zlen buf < 2 ^ 63 ->
    returns_or_overflow (udf_read_dir node me).1 /\ returns_or_overflow (udf_lookup node nm me).1 /\
    returns (udf_metadata me node) /\ returns (udf_read_at me node off buf).
Proof.
  intros Hv. split; [by eapply wp_returns_x, udf_open_wp|].
  intros me Hm node off buf nm Hoff Hbuf. apply (udf_mounted_ok src me Hv) in Hm as [Hok _]. split_and!.
  - destruct (udf_read_dir_ok me node Hok) as (r&me'&->&_&_&Hw). by eapply wp_returns_x.
  - by apply udf_lookup_ok.
  - apply returns_bindR; [apply returns_ok_or|done].
  - by eapply wp_returns, udf_read_moves.
Qed.

(** C22.  Reading a file at an offset inside its recorded size gives the bytes
    of its data from there on, whether that is inline or a list of recorded and
    unrecorded extents the window starts, ends and crosses anywhere in: as many as
    fit the buffer, the recorded size and the data; the rest of the buffer is
    untouched.  On a medium that has the extents and no device errors it succeeds. *)
Theorem udf_read_at_content src me node off buf i :
  src_valid src -> Mounted src me -> inode me node = Ok i -> ui_kind i <> Directory ->
  0 <= off < ui_size i -> zlen buf < 2 ^ 63 ->
  let c := data_bytes me (ui_data i) in
  returns (udf_read_at me node off buf) /\
  (forall n b, udf_read_at me node off buf = Ok (n, b) ->
     n = Z.min (Z.min (zlen buf) (ui_size i - off)) (Z.max 0 (zlen c - off)) /\
     sub b 0 n = sub c off n /\ drop (Z.to_nat n) b = drop (Z.to_nat n) buf) /\
  (ReliableSource S ->
   (forall ex lba len, ui_data i = Extents ex -> In (mkExtent (Some lba) len) ex ->
      lba * ud_block_size me + len <= src_len src) ->
   exists r, udf_read_at me node off buf = Ok r).
Proof.
  intros Hv Hm Hi Hk Ho Hbuf c. apply (udf_mounted_ok src me Hv) in Hm as [Hok Hsrc].
  pose proof (udf_read_at_wp (X := False) me node off buf i Hok Hi Hk Ho Hbuf) as Hw.
  split; [by eapply wp_returns|]. split; [intros n b Hb; apply (wp_Ok _ _ _ Hw Hb)|].
  intros HR Hin. apply (udf_read_at_succeeds me node off buf i); try done. unfold data_in_range. rewrite Hsrc.
  destruct (ui_data i) as [b|ex] eqn:Ed; [done|]. apply Forall_forall. intros [[lba|] len] Hx; cbn; [|done].
  apply (Hin ex); [done|]. by apply list_elem_of_In.
Qed.

(** A written File Entry, plain or Extended, with inline data, short or
    long allocation descriptors, and anything in the fields between, is read back
    as its type, its size, and its data or the extents it records. *)
Theorem udf_fe_roundtrip me lba fe j1 j2 j3 j4 rest data :
  0 <= ud_partition_start me ->
  read_block me lba = Ok (fe_bytes fe j1 j2 j3 j4 ++ rest) ->
  gaps_ok fe j1 j2 j3 j4 -> fe_ok fe -> AdArea (ud_partition_start me) fe data ->
  read_fe me lba = Ok (mkInode (kind_of (fe_type fe)) (fe_info fe) data).
Proof. apply read_fe_written. Qed.

(** Listing a directory whose data is a sequence of File Identifier
    Descriptors gives its entries in order, leaving out the deleted ones and the
    parent; the handle of an entry stands for the inode of its File Entry, entries
    of one File Entry share a handle, and earlier handles keep their inodes. *)
Theorem udf_read_dir_lists src me dir i fs out es me' :
  src_valid src -> Mounted src me -> inode me dir = Ok i ->
  read_all me i = Ok (concat (fid_bytes <$> fs)) -> Listed (ud_partition_start me) fs out ->
  udf_read_dir dir me = (Ok es, me') ->
  Forall2 (fun x e => de_name e = x.1 /\
    exists j, read_fe me x.2 = Ok j /\ inode me' (de_node e) = Ok j /\ de_kind e = ui_kind j) out es /\
  (forall j k x y e f, out !! j = Some x -> es !! j = Some e -> out !! k = Some y -> es !! k = Some f ->
     (x.2 = y.2 <-> de_node e = de_node f)) /\
  (forall node j, inode me node = Ok j -> inode me' node = Ok j).
Proof.
  intros Hv Hm Hi Hdata Hl Hd. apply (udf_mounted_ok src me Hv) in Hm as [Hok _].
  destruct (udf_read_dir_ok me dir Hok) as (r&me1&Hr&Hok'&Hx&Hw). rewrite Hr in Hd.
  injection Hd as -> ->. cbn [wpx] in Hw. destruct Hw as (i'&data&fids&Hi'&_&Hdata'&Hp&HF).
  assert (i' = i) as -> by congruence. assert (data = concat (fid_bytes <$> fs)) as -> by congruence.
  pose proof (ok_ps _ (ok_geo _ _ _ Hok)) as Hps.
  assert (fids = out) as ->.
  { pose proof (loop_LoopsTo _ _ _ Hp I) as Hlt.
    pose proof (fids_LoopsTo _ _ _ Hl [] [] ltac:(lia)) as Hlo. cbn [app] in Hlo.
    pose proof (LoopsTo_det _ _ _ _ Hlt Hlo). congruence. }
  destruct (entries_for_spec geo_ok inode_ok me me' out es Hok' Hx HF).
  split; [done|]. split; [done|]. intros node j. by apply extends_inode.
Qed.
End Properties.

(** ** Witnesses: a volume of 512-byte blocks *)

Definition w_fid (fc block : Z) (fi : list byte) : Fid :=
  mkFid fc block [] fi (zeros 16) (zeros 4) (zeros 8).
(** The parent, a deleted entry, and a file. *)
Definition w_fids : list Fid :=
  [w_fid 0x0A 1 []; w_fid 0x04 9 (bytes_of "x"); w_fid 0 2 (x08 :: bytes_of "f")].
Definition w_root : FileEntry :=
  mkFe false FT_DIRECTORY 3 (zlen (concat (fid_bytes <$> w_fids))) [] (concat (fid_bytes <$> w_fids)).
(** Five recorded bytes, then four that are not. *)
Definition w_ads : list Ad := [mkAd 0 5 3 []; mkAd 1 4 0 []].
Definition w_file : FileEntry :=
  mkFe true FT_REGULAR 0 9 (bytes_of "ea") (concat (ad_bytes <$> w_ads)).
Definition w_image (fsd_lb : Z) : Image := mkImage 530000 [
  (524288, le_bytes 2 TAG_AVDP ++ zeros 14 ++ le_bytes 4 6144 ++ le_bytes 4 1);
  (2048, le_bytes 2 TAG_PARTITION ++ zeros 186 ++ le_bytes 4 20);
  (4096, le_bytes 2 TAG_LOGICAL_VOLUME ++ zeros 210 ++ le_bytes 4 512 ++ zeros 36 ++ le_bytes 4 fsd_lb);
  (6144, le_bytes 2 TAG_TERMINATING);
  (10240, le_bytes 2 TAG_FILE_SET ++ zeros 402 ++ le_bytes 4 1);
  (10752, fe_bytes w_root (zeros 25) (zeros 6) (zeros 20) (zeros 104));
  (11264, fe_bytes w_file (zeros 25) (zeros 6) (zeros 20) (zeros 144)); (11776, bytes_of "hello")].
Definition w_src : Image := w_image 0.
Definition w_me0 : Udf Image :=
  match udf_open w_src with Ok me => me | _ => mkUdf w_src 512 0 [] ∅ end.
(** After listing the root. *)
Definition w_me : Udf Image := (udf_read_dir 0 w_me0).2.
Definition w_inode : UdfInode := mkInode Regular 9 (Extents [mkExtent (Some 23) 5; mkExtent None 4]).

Lemma w_valid n : 0 <= n < 2 ^ 32 -> src_valid (w_image n).
Proof. intros _. vm_compute. split; [discriminate|reflexivity]. Qed.
Lemma w_udf_mounted0 : Mounted w_src w_me0.
Proof. apply Mounted_open. vm_compute. reflexivity. Qed.
Lemma w_udf_mounted : Mounted w_src w_me.
Proof. apply Mounted_read_dir, w_udf_mounted0. Qed.
Lemma w_node : inode w_me 1 = Ok w_inode.
Proof. vm_compute. reflexivity. Qed.
Lemma w_ps : ud_partition_start w_me0 = 20.
Proof. vm_compute. reflexivity. Qed.
Lemma w_listing : udf_read_dir 0 w_me0 = (Ok [mkDirEntry (bytes_of "f") 1 Regular], w_me).
Proof. vm_compute. reflexivity. Qed.
Definition w_dir : UdfInode :=
  mkInode Directory (zlen (concat (fid_bytes <$> w_fids))) (Inline (concat (fid_bytes <$> w_fids))).
Lemma w_root_node : inode w_me0 0 = Ok w_dir.
Proof. vm_compute. reflexivity. Qed.

(** A File Set Descriptor past the last block number there is. *)
Lemma udf_open_overflow : udf_open (w_image (2 ^ 32 - 1)) = Overflow.
Proof. vm_compute. reflexivity. Qed.

Lemma udf_total_witness :
  returns_or_overflow (udf_open (w_image (2 ^ 32 - 1))) /\ returns (udf_read_at w_me 1 3 (zeros 9)).
Proof.
  destruct (udf_total (w_image (2 ^ 32 - 1))) as [Ho _]; [apply w_valid; lia|]. split; [exact Ho|].
  destruct (udf_total w_src) as [_ Hops]; [apply w_valid; lia|].
  destruct (Hops w_me w_udf_mounted 1 3 (zeros 9) []) as (_&_&_&Hr); [lia|vm_compute; reflexivity|]. exact Hr.
Defined.

Lemma udf_read_at_content_witness :
  exists r, udf_read_at w_me 1 3 (zeros 9) = Ok r /\ r.1 = 6 /\
    sub r.2 0 6 = bytes_of "lo" ++ zeros 4.
Proof.
  assert (Hc : data_bytes w_me (ui_data w_inode) = bytes_of "hello" ++ zeros 4) by (vm_compute; reflexivity).
  destruct (udf_read_at_content w_src w_me 1 3 (zeros 9) w_inode) as (_&Hb&Hok);
    [apply w_valid; lia|exact w_udf_mounted|exact w_node|discriminate|cbn; lia|vm_compute; reflexivity|].
  destruct Hok as [[n b] Hr]; [exact Image_Reliable|..].
  - intros ex lba len [= <-] [[= <- <-]|[?|[]]]; [vm_compute; discriminate|discriminate].
  - exists (n, b). split; [exact Hr|]. destruct (Hb n b Hr) as (Hn&Hs&_). cbn [fst snd].
    rewrite Hc in *. assert (n = 6) as -> by (rewrite Hn; vm_compute; reflexivity).
    split; [reflexivity|]. rewrite Hs. vm_compute. reflexivity.
Defined.

Lemma udf_fe_roundtrip_witness : read_fe w_me0 22 = Ok w_inode.
Proof.
  assert (Hb : exists rest, read_block w_me0 22
    = Ok (fe_bytes w_file (zeros 25) (zeros 6) (zeros 20) (zeros 144) ++ rest)).
  { exists (zeros 278). vm_compute. reflexivity. }
  destruct Hb as [rest Hb].
  apply (udf_fe_roundtrip w_me0 22 w_file (zeros 25) (zeros 6) (zeros 20) (zeros 144) rest (ui_data w_inode));
    [rewrite w_ps; lia|exact Hb|vm_compute; tauto|vm_compute; intuition discriminate|].
  rewrite w_ps. apply (AdArea_ads 20 w_file 8 w_ads); [reflexivity|left; reflexivity| |reflexivity].
  repeat apply Forall_cons_2; [vm_compute; intuition discriminate|vm_compute; intuition discriminate|constructor].
Defined.

Lemma udf_read_dir_lists_witness :
  exists j, read_fe w_me0 22 = Ok j /\ inode w_me 1 = Ok j.
Proof.
  destruct (udf_read_dir_lists w_src w_me0 0 w_dir w_fids [(bytes_of "f", 22)]
    [mkDirEntry (bytes_of "f") 1 Regular] w_me) as (HF&_);
    [apply w_valid; lia|exact w_udf_mounted0|exact w_root_node|reflexivity| |exact w_listing|].
  - rewrite w_ps. apply Listed_hidden; [vm_compute; intuition discriminate|reflexivity|].
    apply Listed_hidden; [vm_compute; intuition discriminate|reflexivity|].
    apply (Listed_entry 20 (w_fid 0 2 (x08 :: bytes_of "f")) [] (bytes_of "f") []);
      [vm_compute; intuition discriminate|reflexivity|vm_compute; reflexivity|apply Listed_nil].
  - apply Forall2_cons in HF as [(_&j&Hj&Hi&_) _]. exists j. split; [exact Hj|exact Hi].
Defined.
