(* ===== verification/UdfTree.v ===== *)
(** * A written UDF volume is the tree that was written

    The format from the writer's side: anchor, volume descriptors and file set,
    File Entries with inline data or extents, File Identifier Descriptors as bytes of
    the medium, and the trees they make up; mounted and used by path such a volume
    is its tree. *)
From S2P Require Import Prelude Text Cache Substrate Path Nodes Tree NodesTree Udf.
Open Scope Z_scope.

(** A volume descriptor; the bytes between the fields are a number of any value. *)
Inductive Desc : Type :=
| DPartition (gap start : Z)
| DLogical (gap1 block_size gap2 file_set : Z)
| DOther (tag : Z).
Definition desc_fields (d : Desc) : list (nat * Z) :=
  match d with
  | DPartition gap start => [(2%nat, TAG_PARTITION); (186%nat, gap); (4%nat, start)]
  | DLogical gap1 block_size gap2 file_set =>
      [(2%nat, TAG_LOGICAL_VOLUME); (210%nat, gap1); (4%nat, block_size); (36%nat, gap2); (4%nat, file_set)]
  | DOther tag => [(2%nat, tag)]
  end.
Definition desc_ok (d : Desc) : Prop :=
  Forall field_ok (desc_fields d) /\
  match d with DOther tag => tag ∉ [TAG_PARTITION; TAG_LOGICAL_VOLUME; TAG_TERMINATING] | _ => True end.

(** The last of either kind counts. *)
Definition take_desc (s : option Z * option (Z * Z)) (d : Desc) : option Z * option (Z * Z) :=
  match d with
  | DPartition _ start => (Some start, s.2)
  | DLogical _ block_size _ file_set => (s.1, Some (block_size, file_set))
  | DOther _ => s
  end.

Section Written.
Context {S : Type} `{ReliableSource S}.
Context (src : S) (bs ps : Z).
Definition base : Udf S := mkUdf src bs ps [] ∅.

(** Block [lba], of size [n], begins with [bytes]. *)
Definition block_has (n lba : Z) (bytes : list byte) : Prop :=
  0 <= lba < 2 ^ 32 /\ zlen bytes <= n /\ lba * n + n <= src_len src /\ has src (lba * n) bytes.

(** The data of a File Entry: inline, or the first [size] bytes of its extents. *)
Definition holds_data (d : FileData) (size : Z) (c : list byte) : Prop :=
  zlen c = size /\
  match d with
  | Inline b => c = b
  | Extents ex => data_in_range base d /\ size <= zlen (extents_bytes base ex) /\ c = sub (extents_bytes base ex) 0 size
  end.

(** A File Entry at a block, what it records, and its content. *)
Definition entry_at (lba : Z) (kind : FileKind) (c : list byte) : Prop :=
  exists fe j1 j2 j3 j4 d, block_has bs lba (fe_bytes fe j1 j2 j3 j4) /\ gaps_ok fe j1 j2 j3 j4 /\ fe_ok fe /\
    AdArea ps fe d /\ kind_of (fe_type fe) = kind /\ holds_data d (fe_info fe) c.

(** The tree at a block.  The reader does not follow UDF's own symbolic links. *)
Inductive udf_tree : Z -> Tree -> Prop :=
| Ud_file lba c : entry_at lba Regular c -> udf_tree lba (TFile c)
| Ud_other lba c : entry_at lba Other c -> udf_tree lba (TOther c)
| Ud_dir lba fids out es : entry_at lba Directory (concat (fid_bytes <$> fids)) ->
    zlen (concat (fid_bytes <$> fids)) <= MAX_BOOT_FILE_BYTES -> Listed ps fids out ->
    Forall2 (fun x e => x.1 = e.1 /\ udf_tree x.2 e.2) out es -> udf_tree lba (TDir es).

(** The anchor, the descriptors up to the terminating one or to the end of the
    sequence, and the file set with the block of the root. *)
Definition volume_at (root : Z) : Prop :=
  exists gap len loc ds lbs file_set gap' root_block,
    let anchor := [(2%nat, TAG_AVDP); (14%nat, gap); (4%nat, len); (4%nat, loc)] in
    let set := [(2%nat, TAG_FILE_SET); (402%nat, gap'); (4%nat, root_block)] in
    let n := Z.min (len / SECTOR) MAX_VDS_SECTORS in
    Forall field_ok anchor /\ block_has SECTOR AVDP_SECTOR (layout anchor) /\
    Forall desc_ok ds /\ (forall i d, ds !! i = Some d -> block_has SECTOR (loc + Z.of_nat i) (layout (desc_fields d))) /\
    (zlen ds = n \/ zlen ds < n /\ block_has SECTOR (loc + zlen ds) (layout [(2%nat, TAG_TERMINATING)])) /\
    foldl take_desc (None, None) ds = (Some ps, Some (lbs, file_set)) /\ bs = (if lbs =? 0 then SECTOR else lbs) /\
    Forall field_ok set /\ block_has bs (ps + file_set) (layout set) /\ root = ps + root_block /\ root < 2 ^ 32.

(** ** Lemmas: reading it *)

Context (Hv : src_valid src).

Lemma block_has_read nodes keys n part lba bytes : 0 < n < 2 ^ 32 -> block_has n lba bytes ->
  exists rest, read_block (mkUdf src n part nodes keys) lba = Ok (bytes ++ rest).
Proof.
  intros Hn (Hl&Hz&Hin&_&_&Hreg). pose proof (mul_u32 lba n Hl ltac:(lia)). pose proof (zlen_nonneg bytes).
  unfold read_block. cbn [ud_src ud_block_size]. rewrite mulw_eq by lia. cbn [bindR]. rewrite addw_eq by lia. cbn [bindR].
  rewrite Z.gtb_ltb, (proj2 (Z.ltb_ge _ _)) by lia. rewrite src_read_in_range by (done || lia).
  exists (region (src_byte src) (lba * n + zlen bytes) (n - zlen bytes)). f_equal. rewrite <- Hreg at 1.
  rewrite <- region_split by lia. f_equal. lia.
Qed.

Context (Hgeo : geo_ok base).

Lemma entry_at_read lba kind c : entry_at lba kind c ->
  exists size d, read_fe base lba = Ok (mkInode kind size d) /\ inode_ok (mkInode kind size d) /\ holds_data d size c.
Proof.
  intros (fe&j1&j2&j3&j4&d&Hb&Hg&Hok&Ha&<-&Hd). pose proof Hgeo as [_ Hbs Hps]. cbn in Hbs, Hps.
  destruct (block_has_read [] ∅ bs ps lba _ Hbs Hb) as [rest Hr]. destruct Hb as (Hl&_).
  assert (Hfe : read_fe base lba = Ok (mkInode (kind_of (fe_type fe)) (fe_info fe) d)).
  { apply (read_fe_written base lba fe j1 j2 j3 j4 rest); done || apply Hps. }
  exists (fe_info fe), d. split; [done|]. split; [|done].
  exact (wp_Ok _ _ _ (read_fe_wp base lba Hv Hbs (proj1 Hps) Hl) Hfe).
Qed.

Lemma read_extents_all ex total : Forall extent_ok ex -> data_in_range base (Extents ex) -> forall out,
  zlen out <= total -> total - zlen out <= zlen (extents_bytes base ex) ->
  read_extents base total ex out = Ok (out ++ sub (extents_bytes base ex) 0 (total - zlen out)).
Proof.
  pose proof Hgeo as [_ Hbs _]. cbn in Hbs. cbn [data_in_range].
  induction 1 as [|e ex He Hex IH]; intros Hin out Hle Hall; cbn [read_extents].
  { unfold extents_bytes in *. cbn in Hall. rewrite zlen_nil in Hall. replace (total - zlen out) with 0 by lia. by rewrite sub_nil, app_nil_r. }
  apply Forall_cons_1 in Hin as [Hie Hin]. pose proof (zlen_extent_bytes base e He) as Hz.
  assert (Hcons : extents_bytes base (e :: ex) = extent_bytes base e ++ extents_bytes base ex) by done.
  rewrite Hcons, zlen_app in Hall. rewrite Hcons, Z.geb_leb. destruct (Z.leb_spec total (zlen out)).
  { replace (total - zlen out) with 0 by lia. by rewrite sub_nil, app_nil_r. }
  set (tk := Z.min (ex_len e) (total - zlen out)). pose proof He as [Hlen Hlba].
  assert (Hc : (match ex_lba e with
     | Some lba => let! off := mulw 64 lba (ud_block_size base) in src_read_at (ud_src base) off tk
     | None => Ok (zeros tk) end) = Ok (sub (extent_bytes base e) 0 tk)).
  { unfold extent_bytes. cbn [ud_block_size ud_src base] in *. destruct (ex_lba e) as [lba|].
    - pose proof (mul_u32 lba bs Hlba ltac:(lia)). rewrite mulw_eq by lia. cbn [bindR].
      rewrite src_read_in_range by (done || lia). by rewrite sub_region, Z.add_0_r by lia.
    - by rewrite sub_zeros by lia. }
  pose proof (zlen_nonneg (extents_bytes base ex)). rewrite Hc. cbn [bindR]. assert (Hzs : zlen (sub (extent_bytes base e) 0 tk) = tk) by (apply zlen_sub; lia).
  rewrite IH; [|done|rewrite zlen_app, Hzs; lia|rewrite zlen_app, Hzs; lia]. rewrite <- app_assoc, zlen_app, Hzs. do 2 f_equal.
  assert (Hsplit : total - zlen out = tk + (total - (zlen out + tk))) by lia. rewrite Hsplit at 1.
  rewrite <- (sub_app_split (extent_bytes base e ++ extents_bytes base ex)), sub_app_l by lia. f_equal.
  destruct (decide (total - (zlen out + tk) = 0)) as [->|]; [by rewrite !sub_nil|].
  rewrite sub_app_r by lia. f_equal. lia.
Qed.

Lemma read_all_holds kind size d c : inode_ok (mkInode kind size d) -> holds_data d size c -> size <= MAX_BOOT_FILE_BYTES ->
  read_all base (mkInode kind size d) = Ok c.
Proof.
  intros [Hs Hd] [Hz Hc] Hcap. cbn [ui_size ui_data] in *. unfold read_all. cbn [ui_data ui_size].
  destruct d as [b|ex]; [by subst|]. destruct Hc as (Hin&Hle&->). destruct Hd as [Hex _].
  rewrite (proj2 (checked_full_Ok size size)) by (split; [lia|done]). cbn [bindR].
  rewrite (read_extents_all ex size Hex Hin []) by (rewrite ?zlen_nil; lia). cbn [bindR app]. rewrite zlen_nil, Z.sub_0_r.
  f_equal. apply take_ge. unfold zlen in Hz. lia.
Qed.

Lemma read_all_with (me : Udf S) t i : read_all (fs_with me t) i = read_all me i.
Proof.
  assert (Hx : forall total ex out, read_extents (fs_with me t) total ex out = read_extents me total ex out).
  { intros total ex. induction ex as [|e ex IH]; intros out; [done|]. cbn [read_extents].
    destruct (zlen out >=? total); [done|]. cbn [ud_src ud_block_size fs_with Udf_Nodes with_nodes].
    destruct (match ex_lba e with Some _ => _ | None => _ end); cbn [bindR]; auto. }
  unfold read_all. destruct (ui_data i) as [b|ex]; [done|]. destruct (checked_full_read_len _); cbn [bindR]; [|done..].
  by rewrite Hx.
Qed.

(** ** The frontend holds the tree *)

Lemma udf_root_with (f : Udf S) t : root (S := S) (fs_with f t) = root (S := S) f.
Proof. reflexivity. Qed.

(** What is at a block the tree has a node at. *)
Lemma tree_inode lba t : udf_tree lba t -> exists size d c, read_fe base lba = Ok (mkInode (tree_kind t) size d) /\
  inode_ok (mkInode (tree_kind t) size d) /\ holds_data d size c /\ (forall c', content_of t = Some c' -> c' = c).
Proof.
  intros Ht. destruct Ht as [lba c Hw|lba c Hw|lba fids out es Hw]; destruct (entry_at_read _ _ _ Hw) as (size&d&?&?&?);
    eexists size, d, _; (split; [done|]); (split; [done|]); (split; [done|]); intros c'; cbn; congruence.
Qed.

Lemma udf_tree_parses lba t : udf_tree lba t ->
  exists i, fs_parse base lba = Ok i /\ inode_ok i /\ fs_kind i = tree_kind t.
Proof. intros Ht. destruct (tree_inode _ _ Ht) as (size&d&c&?&?&_). by eexists. Qed.

Definition udf_stands : Udf S * SubstrateCtx -> NodeId -> Tree -> Prop := node_stands geo_ok inode_ok base udf_tree.

Lemma udf_implements_read_dir s n t : udf_stands s n t ->
  implements udf_stands (fun s' => Forall2 (lists udf_stands s')) (read_dir (S := S) n)
    (match t with TDir es => Ok es | _ => Err NotDirectory end) s.
Proof.
  destruct s as [me cx]. intros (Ho&lba&i&Ht&Hp&Hi). cbn [fst] in *. unfold implements.
  cbn [read_dir Udf_Frontend on_frontend]. unfold udf_read_dir, bindST, getST, liftR. rewrite Hi.
  change (read_fe base lba = Ok i) in Hp.
  destruct Ht as [lba c Hw|lba c Hw|lba fids out es Hw Hcap Hl HF]; destruct (entry_at_read _ _ _ Hw) as (size&d&Hp'&Hgood&Hd);
    rewrite Hp' in Hp; injection Hp as <-; cbn [ui_kind].
  1-2: rewrite bool_decide_eq_false_2 by done; eexists _, _; split; [reflexivity|]; split; [apply keeps_refl|done].
  rewrite bool_decide_eq_true_2 by done. cbn [negb].
  assert (read_all me (mkInode Directory size d) = Ok (concat (fid_bytes <$> fids)) /\ ud_partition_start me = ps) as [-> ->].
  { destruct Ho as [_ [[tb ->] _ _]]. split; [|done]. destruct (Hd) as [Hz _]. rewrite read_all_with.
    exact (read_all_holds Directory size d _ Hgood Hd ltac:(lia)). }
  assert (parse_fids (concat (fid_bytes <$> fids)) ps = Ok out) as ->.
  { pose proof Hgeo as [_ _ Hps]. cbn in Hps. apply loop_Ok; [|apply (fids_LoopsTo ps fids out Hl [] []); lia].
    intros E. pose proof (parse_fids_wp (concat (fid_bytes <$> fids)) ps ltac:(lia)) as Hwp.
    unfold parse_fids in Hwp. rewrite E in Hwp. apply Hwp. unfold MAX_BOOT_FILE_BYTES in Hcap. lia. }
  destruct (intern_entries_stands geo_ok inode_ok udf_geo_with base udf_tree udf_root_with udf_tree_parses
    out es HF me [] cx Ho) as (outl&me'&->&Ho'&Hx&HL).
  cbn [app]. eexists _, _. split; [reflexivity|]. split.
  - apply extends_keeps; [exact udf_root_with|done|done|apply Ho'].
  - by exists outl.
Qed.

#[export] Instance UdfTree : TreeFs (Udf S) S udf_stands.
Proof.
  split.
  - intros [me cx] n t nm Hs. apply lookup_searches; [|by apply udf_implements_read_dir]. apply on_frontend_find.
  - apply udf_implements_read_dir.
  - intros [me cx] n t (Ho&lba&i&Ht&Hp&Hi). cbn [fst] in *. apply (implements_here _ _ _ (udf_metadata me n)); [reflexivity|].
    change (read_fe base lba = Ok i) in Hp. destruct (tree_inode _ _ Ht) as (size&d&c&Hp'&_&[Hz _]&Hc).
    rewrite Hp' in Hp. injection Hp as <-. unfold udf_metadata. rewrite Hi. cbn [bindR]. eexists. split; [reflexivity|].
    cbn [md_kind md_size ui_kind ui_size]. split; [done|]. by intros c' ->%Hc.
  - intros [me cx] n target (_&lba&i&Ht&_). inversion Ht.
  - intros [me cx] n t c off buf (Ho&lba&i&Ht&Hp&Hi) Hc Hz Hoff Hb. cbn [fst] in *.
    apply (implements_here _ _ _ (udf_read_at me n off buf)); [reflexivity|].
    change (read_fe base lba = Ok i) in Hp. destruct (tree_inode _ _ Ht) as (size&d&c'&Hp'&_&[Hzc Hd]&Hcc).
    rewrite Hp' in Hp. injection Hp as <-. assert (c' = c) as -> by (symmetry; by apply Hcc).
    assert (Hk : tree_kind t <> Directory) by (by destruct t). destruct (decide (off < zlen c)) as [Hlt|Hge].
    + pose proof (udf_read_at_wp (X := False) me n off buf _ (proj1 Ho) Hi Hk ltac:(cbn; lia) Hb) as Hw.
      destruct (udf_read_at_succeeds me n off buf _ (proj1 Ho) Hi Hk ltac:(cbn; lia) Hb) as [[r b] Hr].
      { destruct Ho as [_ [[tb ->] _ _]]. cbn. destruct d as [|ex]; [done|]. by destruct Hd. }
      rewrite Hr in *. destruct Hw as (Hzb&Hn&Hsub&_). cbn [ui_data ui_size] in *. exists (r, b). split; [done|].
      assert (Hdata : zlen c <= zlen (data_bytes me d) /\ c = sub (data_bytes me d) 0 (zlen c)).
      { destruct Ho as [_ [[tb ->] _ _]]. destruct d as [b'|ex]; [subst b'; split; [done|by rewrite sub_all]|].
        destruct Hd as (_&Hle&Hsubc). rewrite Hzc at 1 2. done. }
      destruct Hdata as [Hle Hcs]. pose proof (zlen_nonneg buf).
      assert (r = Z.min (zlen buf) (zlen c - off)) as -> by lia. apply full_part; [lia|done|].
      rewrite Hsub. transitivity (sub (sub (data_bytes me d) 0 (zlen c)) off (Z.min (zlen buf) (zlen c - off))); [|by rewrite <- Hcs].
      by rewrite sub_sub by lia.
    + unfold udf_read_at. rewrite Hi. cbn [bindR ui_kind ui_size]. rewrite bool_decide_eq_false_2 by done.
      rewrite Z.geb_leb, (proj2 (Z.leb_le _ _)) by lia. eexists. split; [reflexivity|]. apply empty_part; lia.
Qed.
End Written.

(** ** Mounting *)

Section Mount.
Context {S : Type} `{ReliableSource S}.

(** One sector of the descriptor sequence. *)
Lemma vds_round_written (src : S) loc n i ps lvd d : src_valid src -> desc_ok d -> 0 <= loc -> 0 <= i < n ->
  block_has src SECTOR (loc + i) (layout (desc_fields d)) ->
  vds_round (mkUdf src SECTOR 0 [] ∅) loc n (i, ps, lvd)
  = Ok (inl (i + 1, (take_desc (ps, lvd) d).1, (take_desc (ps, lvd) d).2)).
Proof.
  intros Hv [Hf Hd] Hloc Hi Hb. destruct (block_has_read src Hv [] ∅ SECTOR 0 _ _ ltac:(done) Hb) as [rest Hr].
  destruct Hb as (?&_). unfold vds_round. rewrite (proj2 (Z.ltb_lt _ _)) by lia. cbn [negb].
  rewrite addw_eq by lia. cbn [bindR]. rewrite Hr. cbn [bindR]. unfold le_u16, le_u32.
  assert (Hrange : forall j k v, desc_fields d !! j = Some (k, v) -> 0 <= v < 256 ^ Z.of_nat k)
    by (intros j k v Hj; exact (Forall_lookup_1 _ _ _ _ Hf Hj)).
  destruct d as [gap start|gap1 lbs gap2 fsd|tag].
  - rewrite (layout_field_all _ _ 0 2 TAG_PARTITION) by done. cbn [bindR]. rewrite Z.eqb_refl.
    by rewrite (layout_field_all _ _ 2 4 start) by (done || by apply (Hrange 2%nat)).
  - rewrite (layout_field_all _ _ 0 2 TAG_LOGICAL_VOLUME) by done. cbn [bindR].
    change (TAG_LOGICAL_VOLUME =? TAG_PARTITION) with false. rewrite Z.eqb_refl. cbn iota.
    rewrite (layout_field_all _ _ 2 4 lbs) by (done || by apply (Hrange 2%nat)). cbn [bindR].
    by rewrite (layout_field_all _ _ 4 4 fsd) by (done || by apply (Hrange 4%nat)).
  - rewrite (layout_field_all _ _ 0 2 tag) by (done || by apply (Hrange 0%nat)). cbn [bindR].
    assert (Hne : forall t, t ∈ [TAG_PARTITION; TAG_LOGICAL_VOLUME; TAG_TERMINATING] -> tag =? t = false).
    { intros t Ht. apply Z.eqb_neq. by intros ->. }
    by rewrite !Hne by set_solver.
Qed.

Lemma vds_LoopsTo (src : S) loc n ds : src_valid src -> Forall desc_ok ds -> 0 <= loc -> forall i s, 0 <= i ->
  (forall j d, ds !! j = Some d -> block_has src SECTOR (loc + i + Z.of_nat j) (layout (desc_fields d))) ->
  (i + zlen ds = n \/ i + zlen ds < n /\ block_has src SECTOR (loc + i + zlen ds) (layout [(2%nat, TAG_TERMINATING)])) ->
  LoopsTo (vds_round (mkUdf src SECTOR 0 [] ∅) loc n) (i, s.1, s.2) (Ok ((foldl take_desc s ds).1, (foldl take_desc s ds).2)).
Proof.
  intros Hv Hds Hloc. induction Hds as [|d ds Hd Hds IH]; intros i s Hi Hat Hend; cbn [foldl].
  - rewrite zlen_nil, !Z.add_0_r in Hend. apply LoopsTo_break. destruct Hend as [->|[Hlt Hb]].
    + unfold vds_round. by rewrite Z.ltb_irrefl.
    + destruct (block_has_read src Hv [] ∅ SECTOR 0 _ _ ltac:(done) Hb) as [rest Hr]. destruct Hb as (?&_).
      unfold vds_round. rewrite (proj2 (Z.ltb_lt _ _)) by lia. cbn [negb]. rewrite addw_eq by lia. cbn [bindR]. rewrite Hr. cbn [bindR].
      unfold le_u16. by rewrite (layout_field_all _ _ 0 2 TAG_TERMINATING) by done.
  - rewrite zlen_cons in Hend. pose proof (zlen_nonneg ds). pose proof (Hat 0%nat d eq_refl) as H0'. rewrite Z.add_0_r in H0'.
    eapply LoopsTo_round; [apply (vds_round_written src loc n i s.1 s.2 d); done || lia|].
    replace (take_desc (s.1, s.2) d) with (take_desc s d) by by destruct s.
    apply IH; [lia| |].
    + intros j x Hj. specialize (Hat (Datatypes.S j) x Hj). by replace (loc + (i + 1) + Z.of_nat j) with (loc + i + Z.of_nat (Datatypes.S j)) by lia.
    + replace (i + 1 + zlen ds) with (i + (1 + zlen ds)) by lia. by replace (loc + (i + 1) + zlen ds) with (loc + i + (1 + zlen ds)) by lia.
Qed.

Lemma take_desc_range ds : Forall desc_ok ds -> forall s, vds_ok s.1 s.2 -> vds_ok (foldl take_desc s ds).1 (foldl take_desc s ds).2.
Proof.
  induction 1 as [|d ds [Hf _] _ IH]; intros s Hs; [done|]. apply IH. destruct Hs as [Hps Hlvd].
  destruct d as [gap start|gap1 lbs gap2 fsd|tag]; split; try done.
  - exact (Forall_lookup_1 field_ok _ 2 (4%nat, start) Hf eq_refl).
  - split; [exact (Forall_lookup_1 field_ok _ 2 (4%nat, lbs) Hf eq_refl)|exact (Forall_lookup_1 field_ok _ 4 (4%nat, fsd) Hf eq_refl)].
Qed.

Lemma volume_geo (src : S) bs ps r : src_valid src -> volume_at src bs ps r -> geo_ok (base src bs ps).
Proof.
  intros Hv (gap&len&loc&ds&lbs&fsd&gap'&rb&_&_&Hds&_&_&Hfold&Hbs&_).
  pose proof (take_desc_range ds Hds (None, None) ltac:(by split)) as [Hps Hl]. rewrite Hfold in Hps, Hl. cbn in Hps, Hl.
  constructor; cbn; [done| |done]. rewrite Hbs. destruct (Z.eqb_spec lbs 0); [done|lia].
Qed.

Lemma volume_read (src : S) bs ps r : src_valid src -> volume_at src bs ps r -> read_volume src = Ok (base src bs ps, r).
Proof.
  intros Hv Hvol. pose proof (volume_geo _ _ _ _ Hv Hvol) as [_ Hbsr _]. cbn in Hbsr.
  destruct Hvol as (gap&len&loc&ds&lbs&fsd&gap'&rb&Hfa&Hanchor&Hds&Hat&Hend&Hfold&Hbs&Hfs&Hset&->&Hr).
  unfold read_volume. destruct (block_has_read src Hv [] ∅ SECTOR 0 _ _ ltac:(done) Hanchor) as [rest ->]. cbn [bindR].
  unfold le_u16, le_u32. rewrite (layout_field_all _ _ 0 2 TAG_AVDP) by done. cbn [bindR]. rewrite Z.eqb_refl. cbn [negb].
  pose proof (Forall_lookup_1 field_ok _ 2 (4%nat, len) Hfa eq_refl) as Hlen.
  pose proof (Forall_lookup_1 field_ok _ 3 (4%nat, loc) Hfa eq_refl) as Hloc. unfold field_ok in Hlen, Hloc. cbn [fst snd] in Hlen, Hloc.
  rewrite (layout_field_all _ _ 2 4 len), (layout_field_all _ _ 3 4 loc) by done. cbn [bindR].
  set (n := Z.min (len / SECTOR) MAX_VDS_SECTORS) in *.
  assert (loop (vds_round (mkUdf src SECTOR 0 [] ∅) loc n) (0, None, None) = Ok (Some ps, Some (lbs, fsd))) as ->.
  { apply loop_Ok.
    - intros E. pose proof (vds_loop_wp (mkUdf src SECTOR 0 [] ∅) loc n Hv ltac:(done) ltac:(lia) ltac:(unfold n, MAX_VDS_SECTORS; lia)) as Hw.
      by rewrite E in Hw.
    - pose proof (vds_LoopsTo src loc n ds Hv Hds ltac:(lia) 0 (None, None) ltac:(lia)) as Hl. cbn [fst snd] in Hl. rewrite Hfold in Hl.
      apply Hl; rewrite ?Z.add_0_r; [exact Hat|exact Hend]. }
  cbn [bindR ok_or]. assert ((if negb (lbs =? 0) then lbs else SECTOR) = bs) as -> by (rewrite Hbs; by destruct (lbs =? 0)).
  pose proof Hset as (Hfl&_). rewrite addw_eq by lia. cbn [bindR].
  destruct (block_has_read src Hv [] ∅ bs ps _ _ Hbsr Hset) as [rest' ->]. cbn [bindR].
  rewrite (layout_field_all _ _ 0 2 TAG_FILE_SET) by done. cbn [bindR]. rewrite Z.eqb_refl. cbn [negb].
  rewrite (layout_field_all _ _ 2 4 rb) by (done || exact (Forall_lookup_1 field_ok _ 2 (4%nat, rb) Hfs eq_refl)). cbn [bindR].
  by rewrite addw_eq by lia.
Qed.

(** C9.  A UDF volume is the tree written on it.  On a medium with an anchor, volume
    descriptors, a file set and, below its root, File Entries with inline data or
    recorded and unrecorded extents and directories of File Identifier Descriptors,
    whatever session of reads, listings and queries by path, the mounted volume gives
    the answers of the abstract file system, errors included; deleted entries and
    parents are no part of it. *)
Theorem udf_refines_tree (src : S) bs ps lba top cx ops :
  src_valid src -> volume_at src bs ps lba -> udf_tree src bs ps lba top -> tree_kind top = Directory ->
  exists me, udf_open src = Ok me /\ session (F := Udf S) (S := S) ops (me, cx) = tree_op top <$> ops.
Proof.
  intros Hv Hvol Ht Hd. pose proof (volume_geo _ _ _ _ Hv Hvol) as Hgeo. pose proof (volume_read _ _ _ _ Hv Hvol) as Hr.
  set (b := base src bs ps) in *.
  assert (Hover : over geo_ok inode_ok b b).
  { split; [|apply extends_refl]. constructor; [done|constructor|apply table_ok_empty]. }
  destruct (udf_tree_parses src bs ps Hv Hgeo lba top Ht) as (i&Hp&Hgood&Hkind).
  destruct (intern_stands geo_ok inode_ok udf_geo_with b (udf_tree src bs ps)
    (udf_tree_parses src bs ps Hv Hgeo) b cx lba top i Hover Ht Hp) as (id&me&Hin&_&_&_&Hs).
  exists me. unfold udf_open. rewrite Hr. cbn [bindR]. fold b. change (read_fe b lba = Ok i) in Hp. rewrite Hp. cbn [bindR].
  rewrite Hin. split; [done|]. pose proof (UdfTree src bs ps Hv Hgeo).
  apply (session_refines (stands := udf_stands src bs ps) top Hd).
  apply intern_first in Hin as ->; [exact Hs|done|done].
Qed.
End Mount.

(** ** Witness: blocks of 512 bytes, a directory in two extents, a file with a hole *)

Definition ut_fid (fc block : Z) (fi : list byte) : Fid := mkFid fc block [] fi (zeros 16) (zeros 4) (zeros 8).
Definition ut_root_fids : list Fid :=
  [ut_fid 0x0A 1 []; ut_fid 0x04 9 (bytes_of "x"); ut_fid 0 2 (x08 :: bytes_of "f"); ut_fid 0x02 3 (x10 :: [x00; x64])].
Definition ut_sub_fids : list Fid := [ut_fid 0x0A 1 []; ut_fid 0 5 (x08 :: bytes_of "empty")].
Definition ut_sub_bytes : list byte := concat (fid_bytes <$> ut_sub_fids).
Definition ut_root : FileEntry :=
  mkFe false FT_DIRECTORY 3 (zlen (concat (fid_bytes <$> ut_root_fids))) [] (concat (fid_bytes <$> ut_root_fids)).
(** Five recorded bytes, then four that are not. *)
Definition ut_ads : list Ad := [mkAd 0 5 4 []; mkAd 1 4 0 []].
Definition ut_file : FileEntry := mkFe true FT_REGULAR 0 9 (bytes_of "ea") (concat (ad_bytes <$> ut_ads)).
(** Forty bytes of the directory in one block, the rest in another. *)
Definition ut_sub_ads : list Ad := [mkAd 0 40 6 (zeros 8); mkAd 0 (zlen ut_sub_bytes - 40) 7 (zeros 8)].
Definition ut_sub : FileEntry := mkFe false FT_DIRECTORY 1 (zlen ut_sub_bytes) [] (concat (ad_bytes <$> ut_sub_ads)).
Definition ut_empty : FileEntry := mkFe false FT_REGULAR 3 0 [] [].
Definition ut_src : Image := mkImage 530000 [
  (524288, layout [(2%nat, TAG_AVDP); (14%nat, 0); (4%nat, 6144); (4%nat, 1)]);
  (2048, layout (desc_fields (DPartition 7 20))); (4096, layout (desc_fields (DLogical 0 512 0 0)));
  (6144, layout [(2%nat, TAG_TERMINATING)]);
  (10240, layout [(2%nat, TAG_FILE_SET); (402%nat, 0); (4%nat, 1)]);
  (10752, fe_bytes ut_root (zeros 25) (zeros 6) (zeros 20) (zeros 104));
  (11264, fe_bytes ut_file (zeros 25) (zeros 6) (zeros 20) (zeros 144));
  (11776, fe_bytes ut_sub (zeros 25) (zeros 6) (zeros 20) (zeros 104)); (12288, bytes_of "hello");
  (12800, fe_bytes ut_empty (zeros 25) (zeros 6) (zeros 20) (zeros 104));
  (13312, sub ut_sub_bytes 0 40); (13824, drop 40 ut_sub_bytes)].
Definition ut_tree : Tree :=
  TDir [(bytes_of "f", TFile (bytes_of "hello" ++ zeros 4)); (bytes_of "d", TDir [(bytes_of "empty", TFile [])])].
Definition ut_ops : list PathOp :=
  [OpRead (bytes_of "f"); OpList (bytes_of "/"); OpRead (bytes_of "d/empty"); OpStat (bytes_of "f"); OpRead (bytes_of "x"); OpList (bytes_of "f")].

Lemma ut_valid : src_valid ut_src.
Proof. vm_compute. split; [discriminate|reflexivity]. Qed.

Lemma ut_block n lba bytes : bool_decide ((0 <= lba < 2 ^ 32 /\ zlen bytes <= n) /\ lba * n + n <= src_len ut_src /\ has ut_src (lba * n) bytes) = true ->
  block_has ut_src n lba bytes.
Proof. by intros [[? ?] ?]%bool_decide_eq_true. Qed.

Lemma ut_ads_ok stride l : bool_decide (Forall (fun a => (0 <= ad_type a < 3 /\ 0 <= ad_len a < 2 ^ 30) /\ 0 <= ad_block a /\ 20 + ad_block a < 2 ^ 32 /\
  zlen (ad_rest a) = stride - 8) l) = true -> Forall (ad_ok stride 20) l.
Proof. intros HF%bool_decide_eq_true. eapply Forall_impl; [exact HF|]. by intros a [[? ?] ?]. Qed.

Lemma ut_fid_ok f : bool_decide (zlen (fid_j1 f) = 16 /\ zlen (fid_j2 f) = 4 /\ zlen (fid_j3 f) = 8 /\ 0 <= fid_fc f < 256 /\
  0 <= fid_block f /\ 20 + fid_block f < 2 ^ 32 /\ zlen (fid_iu f) < 2 ^ 16 /\ zlen (fid_fi f) < 256) = true -> fid_ok 20 f.
Proof. apply bool_decide_eq_true. Qed.

Lemma ut_fields fs : bool_decide (Forall (fun f => 0 <= f.2 < 256 ^ Z.of_nat f.1) fs) = true -> Forall field_ok fs.
Proof. apply bool_decide_eq_true. Qed.

Ltac ut_entry fe j4 :=
  exists fe, (zeros 25), (zeros 6), (zeros 20), (zeros j4); eexists;
  split; [apply ut_block; vm_compute; reflexivity|]; split; [vm_compute; tauto|]; split; [vm_compute; intuition discriminate|].
Ltac ut_hidden := apply Listed_hidden; [apply ut_fid_ok; vm_compute; reflexivity|reflexivity|].
Ltac ut_listed nm := refine (Listed_entry 20 _ _ nm _ _ _ _ _); [apply ut_fid_ok; vm_compute; reflexivity|reflexivity|vm_compute; reflexivity|].

Lemma ut_file_holds : udf_tree ut_src 512 20 22 (TFile (bytes_of "hello" ++ zeros 4)).
Proof.
  apply Ud_file. ut_entry ut_file 144. split.
  - apply (AdArea_ads 20 ut_file 8 ut_ads); [reflexivity|left; reflexivity|apply ut_ads_ok; vm_compute; reflexivity|reflexivity].
  - split; [reflexivity|]. split; [reflexivity|]. split; [|vm_compute; split; [discriminate|reflexivity]].
    apply Forall_cons; split; [vm_compute; discriminate|]. apply Forall_cons. split; [exact I|constructor].
Qed.

Lemma ut_empty_holds : udf_tree ut_src 512 20 25 (TFile []).
Proof.
  apply Ud_file. ut_entry ut_empty 104. split.
  - apply AdArea_inline; [reflexivity|reflexivity|vm_compute; discriminate].
  - split; [reflexivity|]. split; reflexivity.
Qed.

Lemma ut_sub_holds : udf_tree ut_src 512 20 23 (TDir [(bytes_of "empty", TFile [])]).
Proof.
  apply (Ud_dir _ _ _ _ ut_sub_fids [(bytes_of "empty", 25)]); [|vm_compute; discriminate| |].
  - ut_entry ut_sub 104. split.
    + apply (AdArea_ads 20 ut_sub 16 ut_sub_ads); [reflexivity|right; reflexivity|apply ut_ads_ok; vm_compute; reflexivity|reflexivity].
    + split; [reflexivity|]. split; [reflexivity|]. split; [|vm_compute; split; [discriminate|reflexivity]].
      apply Forall_cons; split; [vm_compute; discriminate|]. apply Forall_cons. split; [vm_compute; discriminate|constructor].
  - ut_hidden. ut_listed (bytes_of "empty"). apply Listed_nil.
  - apply Forall2_cons. split; [split; [reflexivity|exact ut_empty_holds]|apply Forall2_nil_2].
Qed.

Lemma ut_holds : udf_tree ut_src 512 20 21 ut_tree.
Proof.
  apply (Ud_dir _ _ _ _ ut_root_fids [(bytes_of "f", 22); (bytes_of "d", 23)]); [|vm_compute; discriminate| |].
  - ut_entry ut_root 104. split.
    + apply AdArea_inline; [reflexivity|reflexivity|vm_compute; discriminate].
    + split; [reflexivity|]. split; reflexivity.
  - ut_hidden. ut_hidden. ut_listed (bytes_of "f"). ut_listed (bytes_of "d"). apply Listed_nil.
  - apply Forall2_cons; split; [split; [reflexivity|exact ut_file_holds]|].
    apply Forall2_cons; split; [split; [reflexivity|exact ut_sub_holds]|apply Forall2_nil_2].
Qed.

Lemma ut_volume : volume_at ut_src 512 20 21.
Proof.
  exists 0, 6144, 1, [DPartition 7 20; DLogical 0 512 0 0], 512, 0, 0, 1.
  split; [apply ut_fields; vm_compute; reflexivity|]. split; [apply ut_block; vm_compute; reflexivity|].
  split. { apply Forall_cons; split; [|apply Forall_cons; split; [|constructor]]; (split; [apply ut_fields; vm_compute; reflexivity|exact I]). }
  split. { intros [|[|i]] d; [intros [= <-]; apply ut_block; vm_compute; reflexivity..|discriminate]. }
  split; [right; split; [vm_compute; reflexivity|apply ut_block; vm_compute; reflexivity]|].
  split; [reflexivity|]. split; [reflexivity|]. split; [apply ut_fields; vm_compute; reflexivity|].
  split; [apply ut_block; vm_compute; reflexivity|]. split; [reflexivity|lia].
Qed.

Lemma udf_refines_tree_witness :
  exists me, udf_open ut_src = Ok me /\ session (F := Udf Image) (S := Image) ut_ops (me, mock_ctx)
    = [Ok (ABytes (bytes_of "hello" ++ zeros 4)); Ok (AList [(bytes_of "f", Regular); (bytes_of "d", Directory)]); Ok (ABytes []);
       Ok (AStat Regular 9); Err NotFound; Err NotDirectory].
Proof.
  destruct (udf_refines_tree ut_src 512 20 21 ut_tree mock_ctx ut_ops) as (me&Ho&Hs);
    [exact ut_valid|exact ut_volume|exact ut_holds|reflexivity|].
  exists me. split; [exact Ho|]. rewrite Hs. vm_compute. reflexivity.
Defined.
