(* ===== verification/ErofsIndex.v ===== *)
(** * EROFS: cluster index and pcluster decoding ([crates/lamfold-erofs/src/erofs.rs])

    The parts of the EROFS frontend that work on bytes in memory: the bit-packed
    compact index and its resolution to pclusters, the decoders of one pcluster,
    the directory blocks, and the feature check of the superblock. *)
From S2P Require Import Prelude Text Cache Substrate Codec.
Open Scope Z_scope.

Definition SB_EXTRA_DEVICES : Z := 86.
Definition SB_PACKED_NID : Z := 96.
Definition INCOMPAT_48BIT : Z := 0x0080.
Definition INCOMPAT_METABOX : Z := 0x0100.
Definition INCOMPAT_KNOWN : Z := 0x01ff.
Definition ADVISE_BIG_PCLUSTER : Z := Z.lor 0x0002 0x0004.
Definition COMPACT_LOBITS : Z := 12.
Definition COMPACT_ENCBITS : Z := 14.
Definition COMPACT_CBLKCNT_FLAG : Z := 0x0800.
Definition ALGO_LZ4 : Z := 0.
Definition ALGO_LZMA : Z := 1.
Definition ALGO_DEFLATE : Z := 2.
Definition ALGO_ZSTD : Z := 3.
Definition LZMA_PROPS_MAX : Z := 224.
Definition LC_TYPE_PLAIN : Z := 0.
Definition LC_TYPE_HEAD1 : Z := 1.
Definition LC_TYPE_NONHEAD : Z := 2.
Definition LC_TYPE_HEAD2 : Z := 3.
Definition LZ4_WINDOW : Z := 65536.

Definition le_u16 : list byte -> Z -> Res Z := le_field 2 "erofs: truncated u16".
Definition le_u32 : list byte -> Z -> Res Z := le_field 4 "erofs: truncated u32".
Definition le_u64 : list byte -> Z -> Res Z := le_field 8 "erofs: truncated u64".

Definition refuse_unsupported_features (sb : list byte) (incompat : Z) : Res unit :=
  if negb (Z.land incompat (Z.lnot INCOMPAT_KNOWN) =? 0)
  then Err (Unsupported "erofs: unknown incompatible feature")
  else if negb (Z.land incompat INCOMPAT_METABOX =? 0)
  then Err (Unsupported "erofs: metabox not supported")
  else if negb (Z.land incompat INCOMPAT_48BIT =? 0)
  then Err (Unsupported "erofs: 48-bit layout not supported")
  else
    let! devices := le_u16 sb SB_EXTRA_DEVICES in
    if negb (devices =? 0) then Err (Unsupported "erofs: extra devices not supported")
    else
      let! packed := le_u64 sb SB_PACKED_NID in
      if negb (packed =? 0) then Err (Unsupported "erofs: fragments (packed inode) not supported")
      else Ok tt.

Definition ft_kind (file_type : Z) : FileKind :=
  if file_type =? 1 then Regular
  else if file_type =? 2 then Directory
  else if file_type =? 7 then Symlink
  else Other.

(** ** The compact index *)

Record RawEntry : Type := mkRaw { re_ty : Z; re_value : Z; re_region : Z; re_base : Z }.

(** One pcluster: where its output starts, its type, its first block, its blocks. *)
Record Head : Type := mkHead { hd_start : Z; hd_ty : Z; hd_blkaddr : Z; hd_cblkcnt : Z }.

Definition read_bits_lsb (buf : list byte) (bit_pos : Z) : Res Z :=
  for_loop (Z.to_nat COMPACT_ENCBITS) 0 (fun k v =>
    let bp := bit_pos + k in
    let! byte := ok_or (get buf (Z.shiftr bp 3)) (Corrupt "erofs: compact bit offset out of range") in
    Ok (Z.lor v (Z.shiftl (Z.land (Z.shiftr (u8 byte) (Z.land bp 7)) 1) k))) 0.

(** The state of an unpacking run: entries produced of this run, position, region
    and the entries so far. *)
Definition Unpack : Type := (Z * Z * Z * list RawEntry)%type.

(** One 8-byte group: the body of [while produced < count] in [read_4b_groups]. *)
Definition group_round (buf : list byte) (count : Z) (s : Unpack) : Res (Unpack + Unpack) :=
  let '(produced, pos, rid, raw) := s in
  if negb (produced <? count) then Ok (inr s)
  else
    let! g := ok_or (get_range buf pos (pos + 8)) (Corrupt "erofs: compact 4b group out of range") in
    let base := le_num (sub g 4 4) in
    let '(produced, raw) :=
      fold_left (fun '(produced, raw) half =>
        if produced >=? count then (produced, raw)
        else (produced + 1,
              raw ++ [mkRaw (Z.land (Z.shiftr half COMPACT_LOBITS) 3) (Z.land half 0x0fff) rid base]))
        [le_num (sub g 0 2); le_num (sub g 2 2)] (produced, raw) in
    Ok (inl (produced, pos + 8, rid + 1, raw)).

(** The position, region and entries go from run to run. *)
Definition read_4b_groups (buf : list byte) (count : Z) (s : Z * Z * list RawEntry)
    : Res (Z * Z * list RawEntry) :=
  let '(pos, rid, raw) := s in
  let! (_, pos, rid, raw) := loop (group_round buf count) (0, pos, rid, raw) in
  Ok (pos, rid, raw).

(** One 32-byte pack: the body of [while produced < count] in [read_2b_packs]. *)
Definition pack_round (buf : list byte) (count : Z) (s : Unpack) : Res (Unpack + Unpack) :=
  let '(produced, pos, rid, raw) := s in
  if negb (produced <? count) then Ok (inr s)
  else
    let! pack := ok_or (get_range buf pos (pos + 32)) (Corrupt "erofs: compact 2b pack out of range") in
    let base := le_num (sub pack 28 4) in
    let! (produced, raw) := for_loop 16 0 (fun i '(produced, raw) =>
      if produced >=? count then Ok (produced, raw)
      else
        let! v := read_bits_lsb pack (i * COMPACT_ENCBITS) in
        Ok (produced + 1,
            raw ++ [mkRaw (Z.land (Z.shiftr v COMPACT_LOBITS) 3) (Z.land v 0x0fff) rid base]))
      (produced, raw) in
    Ok (inl (produced, pos + 32, rid + 1, raw)).

Definition read_2b_packs (buf : list byte) (count : Z) (s : Z * Z * list RawEntry)
    : Res (Z * Z * list RawEntry) :=
  let '(pos, rid, raw) := s in
  let! (_, pos, rid, raw) := loop (pack_round buf count) (0, pos, rid, raw) in
  Ok (pos, rid, raw).

(** One lcluster: the body of [for (i, e) in raw.iter().enumerate()].  The state is
    the heads, the heads met per region, and the index of the current head. *)
Definition Resolve : Type := (list Head * gmap Z Z * option Z)%type.

Definition resolve_step (lcsize : Z) (big : bool) (i : Z) (e : RawEntry) (s : Resolve) : Res Resolve :=
  let '(heads, region_heads, cur_head) := s in
  if re_ty e =? LC_TYPE_NONHEAD then
    if big && negb (Z.land (re_value e) COMPACT_CBLKCNT_FLAG =? 0) then
      match cur_head with
      | Some h =>
          let! hd := at_ heads h in
          let cblkcnt := Z.land (re_value e) 0x07ff in
          let heads := <[Z.to_nat h := mkHead (hd_start hd) (hd_ty hd) (hd_blkaddr hd) cblkcnt]> heads in
          if cblkcnt =? 0 then Err (Unsupported "erofs: hole pcluster not supported")
          else Ok (heads, region_heads, cur_head)
      | None => Ok s
      end
    else Ok s
  else
    let clusterofs := re_value e in
    let! start :=
      match heads with
      | [] => Ok 0
      | _ => let! at_ := mulw 64 i lcsize in addw 64 at_ clusterofs
      end in
    let! (blkaddr, region_heads) :=
      if big then Ok (0, region_heads)
      else
        let c := default 0 (region_heads !! re_region e) in
        let! b := ok_or (x ← checked_add 32 (re_base e) 1; checked_add 32 x c)
                    (Corrupt "erofs: compact blkaddr overflow") in
        let! c := addw 32 c 1 in
        Ok (b, <[re_region e := c]> region_heads) in
    Ok (heads ++ [mkHead start (re_ty e) blkaddr 1], region_heads, Some (zlen heads)).

Fixpoint resolve_entries (lcsize : Z) (big : bool) (i : Z) (raw : list RawEntry) (s : Resolve) : Res Resolve :=
  match raw with
  | [] => Ok s
  | e :: rest =>
      let! s := resolve_step lcsize big i e s in
      resolve_entries lcsize big (i + 1) rest s
  end.

(** The running sum of a big-pcluster index: [prev] is the block and count of the
    pcluster before. *)
Fixpoint assign_blocks (prev : option (Z * Z)) (first_base : Z) (heads : list Head) : Res (list Head) :=
  match heads with
  | [] => Ok []
  | h :: rest =>
      let! blk :=
        match prev with
        | None => Ok first_base
        | Some (blk, cnt) => ok_or (checked_add 32 blk cnt) (Corrupt "erofs: compact blkaddr overflow")
        end in
      let! rest := assign_blocks (Some (blk, hd_cblkcnt h)) first_base rest in
      Ok (mkHead (hd_start h) (hd_ty h) blk (hd_cblkcnt h) :: rest)
  end.

Definition resolve_compact_heads (raw : list RawEntry) (lcsize advise : Z) : Res (list Head) :=
  let big := negb (Z.land advise ADVISE_BIG_PCLUSTER =? 0) in
  let first_base := match raw with [] => 0 | e :: _ => re_base e end in
  let! (heads, _, _) := resolve_entries lcsize big 0 raw ([], ∅, None) in
  if big then assign_blocks None first_base heads else Ok heads.

(** ** Decoding a pcluster *)

Section Decode.
Context {D : Decoders}.

Definition is_nonzero (b : byte) : bool := negb (u8 b =? 0).

Definition lz4_pcluster (span : list byte) (outlen : Z) (win : list byte) (zero_padding : bool)
    : Res (list byte) :=
  let! start :=
    if zero_padding then ok_or (position is_nonzero span) (Corrupt "erofs lz4: all-zero pcluster")
    else Ok 0 in
  let! tail := slice span start (zlen span) in
  let! v := lz4_block_with_dict tail outlen win in
  if zlen v =? outlen then Ok v
  else Err (Corrupt "erofs lz4: stream decoded to the wrong length").

(** The [for start in [0, fnz]] loop; [last] is the error to report. *)
Fixpoint deflate_starts (span : list byte) (outlen : Z) (starts : list Z) (last : FoldError)
    : Res (list byte) :=
  match starts with
  | [] => Err last
  | start :: rest =>
      let tail := default [] (get_from span start) in
      match decode Deflate tail outlen with
      | Ok v => if zlen v =? outlen then Ok v else deflate_starts span outlen rest last
      | Err (Unsupported w) => Err (Unsupported w)
      | Err (FileTooLarge size max) => Err (FileTooLarge size max)
      | Err e => deflate_starts span outlen rest e
      | Panic => Panic
      | Overflow => Overflow
      | Diverge => Diverge
      end
  end.

Definition deflate_pcluster (span : list byte) (outlen : Z) : Res (list byte) :=
  let fnz := default 0 (position is_nonzero span) in
  deflate_starts span outlen [0; fnz] (Corrupt "erofs deflate: no valid stream start").

Definition ZSTD_MAGIC : list byte := [x28; xb5; x2f; xfd].

(** [span.windows(4)]. *)
Definition windows4 (span : list byte) : list (list byte) := (fun i => sub span i 4) <$> seqZ 0 (zlen span - 3).

Definition zstd_pcluster (span : list byte) (outlen : Z) : Res (list byte) :=
  let! start := ok_or (position (fun w => bool_decide (w = ZSTD_MAGIC)) (windows4 span))
                  (Corrupt "erofs zstd: frame magic not found") in
  let! tail := slice span start (zlen span) in
  decode Zstd tail outlen.

Definition lzma_pcluster (span : list byte) (outlen dict_size : Z) : Res (list byte) :=
  let! start := ok_or (position is_nonzero span) (Corrupt "erofs lzma: all-zero span") in
  let! b := at_ span start in
  let props := 255 - u8 b in
  if props >? LZMA_PROPS_MAX then Err (Corrupt "erofs lzma: invalid properties byte")
  else
    let! tail := slice span start (zlen span) in
    microlzma_block_decode tail props dict_size outlen.

Definition decode_head (algo : Z) (span : list byte) (outlen : Z) (prior_out : list byte)
    (lzma_dict : option Z) (lz4_zero_padding : bool) : Res (list byte) :=
  if algo =? ALGO_LZ4 then
    let! win := slice prior_out (saturating_sub (zlen prior_out) LZ4_WINDOW) (zlen prior_out) in
    lz4_pcluster span outlen win lz4_zero_padding
  else if algo =? ALGO_DEFLATE then deflate_pcluster span outlen
  else if algo =? ALGO_ZSTD then zstd_pcluster span outlen
  else if algo =? ALGO_LZMA then
    let! dict := ok_or lzma_dict (Unsupported "erofs: lzma config unavailable") in
    lzma_pcluster span outlen dict
  else Err (Unsupported "erofs: unknown compressed head algorithm").

Definition decode_pcluster (ty algo : Z) (span : list byte) (outlen : Z) (prior_out : list byte)
    (lzma_dict : option Z) (lz4_zero_padding : bool) : Res (list byte) :=
  if ty =? LC_TYPE_PLAIN then
    let! _ := checked_block_len outlen in
    ok_or (get_range span 0 outlen) (Corrupt "erofs: plain pcluster shorter than output")
  else if (ty =? LC_TYPE_HEAD1) || (ty =? LC_TYPE_HEAD2) then
    decode_head algo span outlen prior_out lzma_dict lz4_zero_padding
  else Err (Corrupt "erofs: non-head pcluster in decode").
End Decode.

(** ** Directory blocks *)

Definition dot : list byte := bytes_of ".".
Definition dotdot : list byte := bytes_of "..".

(** One dirent: the body of [for i in 0..count]. *)
Definition dirent_step (block : list byte) (count i : Z) (out : list (name * Z * Z))
    : Res (list (name * Z * Z)) :=
  let base := i * 12 in
  let! nid := le_u64 block base in
  let! nameoff := le_u16 block (base + 8) in
  let! file_type := ok_or (get block (base + 10)) (Corrupt "erofs: dirent") in
  let! name_end := if i + 1 <? count then le_u16 block ((i + 1) * 12 + 8) else Ok (zlen block) in
  let! raw := ok_or (get_range block nameoff name_end) (Corrupt "erofs: dirent name OOB") in
  let nm := until x00 raw in
  if bool_decide (nm = []) || bool_decide (nm = dot) || bool_decide (nm = dotdot) then Ok out
  else Ok (out ++ [(from_utf8_lossy nm, nid, u8 file_type)]).

Definition parse_dir_block (block : list byte) (out : list (name * Z * Z)) : Res (list (name * Z * Z)) :=
  if zlen block <? 12 then Ok out
  else
    let! first_nameoff := le_u16 block 8 in
    let count := first_nameoff / 12 in
    for_loop (Z.to_nat count) 0 (dirent_step block count) out.

(** ** Lemmas: the bit reader *)

(** Byte [i] of a little-endian number. *)
Lemma le_num_byte l i b : get l i = Some b -> u8 b = (le_num l / 2 ^ (8 * i)) mod 2 ^ 8.
Proof.
  intros [Hi Hb]%get_Some.
  assert (Hl : zlen (take (Z.to_nat i) l) = i).
  { apply lookup_lt_Some in Hb. unfold zlen. rewrite length_take. lia. }
  rewrite <- (take_drop_middle _ _ _ Hb), le_num_app, Hl. cbn [le_num].
  pose proof (le_num_range (take (Z.to_nat i) l)) as Hr. rewrite Hl in Hr.
  replace (256 ^ i) with (2 ^ (8 * i)) in * by (by rewrite Z.pow_mul_r by lia).
  pose proof (u8_range b). rewrite (Z.mul_comm (2 ^ _)), Z.div_add by lia.
  rewrite Z.div_small, Z.add_0_l by lia. rewrite (Z.mul_comm 256).
  change (2 ^ 8) with 256. rewrite Z.mod_add by lia. by rewrite Z.mod_small by lia.
Qed.

(** One more bit of a number. *)
Lemma lor_next_bit n k : 0 <= k ->
  Z.lor (n mod 2 ^ k) (Z.shiftl (Z.land (Z.shiftr n k) 1) k) = n mod 2 ^ (k + 1).
Proof.
  intros Hk. pose proof (Z.mod_pos_bound n (2 ^ k) ltac:(lia)).
  rewrite Z.lor_comm, lor_shiftl_add, Z.shiftr_div_pow2 by lia.
  change (Z.land (n / 2 ^ k) 1) with (Z.land (n / 2 ^ k) (Z.ones 1)). rewrite Z.land_ones by lia.
  rewrite Z.pow_add_r, Z.rem_mul_r by lia. ring.
Qed.

Lemma read_bits_lsb_spec buf pos : 0 <= pos -> pos + COMPACT_ENCBITS <= 8 * zlen buf ->
  read_bits_lsb buf pos = Ok ((le_num buf / 2 ^ pos) mod 2 ^ 14).
Proof.
  intros Hp Hfit. unfold read_bits_lsb, COMPACT_ENCBITS in *. set (n := le_num buf / 2 ^ pos).
  replace 0 with (n mod 2 ^ 0) at 2 by (by rewrite Z.pow_0_r, Z.mod_1_r).
  apply (for_loop_states (fun k => n mod 2 ^ k)). intros k Hk. cbn beta.
  change (0 + Z.of_nat (Z.to_nat 14)) with 14 in Hk.
  assert (Hb : is_Some (get buf (Z.shiftr (pos + k) 3))).
  { apply get_is_Some. rewrite Z.shiftr_div_pow2 by lia. change (2 ^ 3) with 8.
    split; [apply Z.div_pos; lia|apply Z.div_lt_upper_bound; lia]. }
  destruct Hb as [b Hb]. rewrite Hb. cbn [ok_or bindR]. rewrite <- (lor_next_bit n k) by lia.
  apply le_num_byte in Hb. do 3 f_equal. 
  rewrite Hb. unfold n.
  rewrite (Z.shiftr_div_pow2 (pos + k) 3) by lia. change 7 with (Z.ones 3). rewrite Z.land_ones by lia.
  pose proof (Z.div_mod (pos + k) (2 ^ 3) ltac:(lia)). pose proof (Z.mod_pos_bound (pos + k) (2 ^ 3) ltac:(lia)).
  pose proof (Z.div_pos (pos + k) (2 ^ 3) ltac:(lia) ltac:(lia)).
  apply Z.bits_inj'. intros j Hj. rewrite !Z.land_spec.
  destruct (decide (j = 0)) as [->|];
    [|change 1 with (Z.ones 1); rewrite Z.ones_spec_high by lia; by rewrite !andb_false_r].
  f_equal. rewrite !Z.shiftr_spec, Z.mod_pow2_bits_low by lia.
  rewrite !Z.div_pow2_bits by lia. f_equal. change (2 ^ 3) with 8 in *. lia.
Qed.

Lemma read_bits_lsb_wp {X : Prop} buf pos : 0 <= pos ->
  wpx X (read_bits_lsb buf pos) (fun v => 0 <= v < 2 ^ 14).
Proof.
  intros Hp. unfold read_bits_lsb, COMPACT_ENCBITS.
  apply (wp_for_loop (fun k v => 0 <= v < 2 ^ k)); [lia| |done].
  intros k v Hk Hv. apply wp_bind, wp_ok_or. intros b _. cbn [wpx].
  rewrite Z.lor_comm. set (bit := Z.land _ 1). assert (Hbit : 0 <= bit <= 1) by by apply land_range.
  rewrite lor_shiftl_add by lia. rewrite Z.pow_add_r by lia. nia.
Qed.

(** ** Lemmas: unpacking comes back *)

Definition raw_ok (e : RawEntry) : Prop :=
  0 <= re_ty e < 4 /\ 0 <= re_value e < 2 ^ 12 /\ 0 <= re_base e < 2 ^ 32.

(** An lcluster from the 14 bits (or 16, of a 4-byte group) it is stored in. *)
Definition raw_of (rid base v : Z) : RawEntry :=
  mkRaw (Z.land (Z.shiftr v COMPACT_LOBITS) 3) (Z.land v 0x0fff) rid base.

Lemma raw_of_ok rid base v : 0 <= base < 2 ^ 32 -> raw_ok (raw_of rid base v).
Proof.
  intros Hb. pose proof (land_range (Z.shiftr v COMPACT_LOBITS) 3 ltac:(done)).
  pose proof (land_range v 0x0fff ltac:(done)). split; cbn [re_ty re_value re_base raw_of]; lia.
Qed.

(** What a round does to the state of the run. *)
Definition round_ok (s : Unpack) (r : Unpack + Unpack) : Prop :=
  let '(produced, pos, _, _) := s in
  match r with
  | inl (produced', pos', _, raw') => produced < produced' /\ pos <= pos' /\ Forall raw_ok raw'
  | inr s' => s' = s
  end.

Lemma le4_range g i : zlen g = 8 \/ zlen g = 32 -> i = zlen g - 4 -> 0 <= le_num (sub g i 4) < 2 ^ 32.
Proof.
  intros Hg ->. pose proof (le_num_range (sub g (zlen g - 4) 4)) as Hr.
  rewrite zlen_sub in Hr by lia. exact Hr.
Qed.

Lemma group_round_wp {X : Prop} buf count produced pos rid raw : Forall raw_ok raw ->
  wpx X (group_round buf count (produced, pos, rid, raw)) (round_ok (produced, pos, rid, raw)).
Proof.
  intros Hraw. unfold group_round. destruct (Z.ltb_spec produced count); cbn [negb]; [|done].
  apply wp_bind, wp_ok_or. intros g Hg%get_range_zlen.
  pose proof (le4_range g 4 ltac:(lia) ltac:(lia)) as Hbase. cbn [fold_left].
  fold (raw_of rid (le_num (sub g 4 4)) (le_num (sub g 0 2))).
  fold (raw_of rid (le_num (sub g 4 4)) (le_num (sub g 2 2))).
  rewrite Z.geb_leb, (proj2 (Z.leb_gt _ _)) by lia. rewrite Z.geb_leb.
  destruct (Z.leb_spec count (produced + 1)); cbn [wpx round_ok]; (split; [lia|]; split; [lia|]);
    repeat (apply Forall_app; split); try done; apply Forall_singleton; by apply raw_of_ok.
Qed.

Lemma pack_round_wp {X : Prop} buf count produced pos rid raw : Forall raw_ok raw ->
  wpx X (pack_round buf count (produced, pos, rid, raw)) (round_ok (produced, pos, rid, raw)).
Proof.
  intros Hraw. unfold pack_round. destruct (Z.ltb_spec produced count); cbn [negb]; [|done].
  apply wp_bind, wp_ok_or. intros g Hg%get_range_zlen.
  pose proof (le4_range g 28 ltac:(lia) ltac:(lia)) as Hbase. apply wp_bind.
  apply (wp_for_loop (fun i s => (i = 0 -> s = (produced, raw)) /\ produced <= s.1 /\
    (0 < i -> produced < s.1) /\ Forall raw_ok s.2)).
  - split; [done|]. cbn [fst snd]. split; [lia|]. split; [lia|done].
  - intros i [p l] Hi (H0&Hle&Hlt&HF). cbn [fst snd] in *. rewrite Z.geb_leb.
    destruct (Z.leb_spec count p).
    + cbn [wpx fst snd]. split; [lia|]. split; [lia|]. split; [|done]. intros _.
      destruct (decide (i = 0)) as [Hi0|]; [|apply Hlt; lia]. injection (H0 Hi0) as ??. lia.
    + apply wp_bind. eapply wp_mono; [apply read_bits_lsb_wp; unfold COMPACT_ENCBITS; lia|].
      intros v _. cbn [wpx fst snd]. split; [lia|]. split; [lia|]. split; [lia|].
      apply Forall_app. split; [done|]. apply Forall_singleton. by apply raw_of_ok.
  - intros [p l] (_&_&Hlt&HF). cbn [fst snd wpx round_ok] in *. split; [apply Hlt; lia|]. split; [lia|done].
Qed.

(** A run of either packing. *)
Lemma run_wp {X : Prop} (round : list byte -> Z -> Unpack -> Res (Unpack + Unpack)) buf count pos rid raw :
  (forall produced pos rid raw, Forall raw_ok raw ->
     wpx X (round buf count (produced, pos, rid, raw)) (round_ok (produced, pos, rid, raw))) ->
  (forall s s', round buf count s = Ok (inl s') -> s.1.1.1 < count) ->
  count < 2 ^ 64 -> Forall raw_ok raw ->
  wpx X (let! (_, pos, rid, raw) := loop (round buf count) (0, pos, rid, raw) in Ok (pos, rid, raw))
    (fun s => pos <= s.1.1 /\ Forall raw_ok s.2).
Proof.
  intros Hround Hlt Hc Hraw. apply wp_bind.
  apply (wp_loop _ (fun s : Unpack => pos <= s.1.1.2 /\ 0 <= s.1.1.1 /\ Forall raw_ok s.2)
    (fun s => Z.max 0 (count - s.1.1.1))); cbn [fst snd]; [split_and!; done || lia|lia|].
  intros [[[p q] r] l]. cbn [fst snd]. intros (Hq&Hp&HF). split; [lia|].
  eapply wp_mono; [apply wp_eq, (Hround p q r l HF)|].
  intros [[[[p' q'] r'] l']|[[[p' q'] r'] l']]; cbn [fst snd round_ok].
  - intros [(?&?&?) He]. apply Hlt in He. cbn [fst snd] in He. split; [split_and!; done || lia|lia].
  - intros [[= -> -> -> ->] _]. by split.
Qed.

Lemma read_4b_groups_wp {X : Prop} buf count pos rid raw : count < 2 ^ 64 -> Forall raw_ok raw ->
  wpx X (read_4b_groups buf count (pos, rid, raw)) (fun s => pos <= s.1.1 /\ Forall raw_ok s.2).
Proof.
  intros. apply (run_wp group_round); [intros; by apply group_round_wp| |done|done].
  intros [[[p ?] ?] ?] s'. unfold group_round. destruct (Z.ltb_spec p count); done.
Qed.

Lemma read_2b_packs_wp {X : Prop} buf count pos rid raw : count < 2 ^ 64 -> Forall raw_ok raw ->
  wpx X (read_2b_packs buf count (pos, rid, raw)) (fun s => pos <= s.1.1 /\ Forall raw_ok s.2).
Proof.
  intros. apply (run_wp pack_round); [intros; by apply pack_round_wp| |done|done].
  intros [[[p ?] ?] ?] s'. unfold pack_round. destruct (Z.ltb_spec p count); done.
Qed.

(** ** Lemmas: resolving comes back *)

(** The heads a resolution gives. *)
Definition head_ok (h : Head) : Prop :=
  0 <= hd_start h /\ 0 <= hd_blkaddr h < 2 ^ 32 /\ 1 <= hd_cblkcnt h < 2 ^ 11.

Definition resolve_ok (s : Resolve) : Prop :=
  let '(heads, region_heads, cur_head) := s in
  Forall head_ok heads /\ map_Forall (fun _ c => 0 <= c) region_heads /\
  match cur_head with Some h => 0 <= h < zlen heads | None => True end.

Lemma resolve_step_wp lcsize big i e s : 0 <= lcsize -> 0 <= i -> raw_ok e -> resolve_ok s ->
  wpx True (resolve_step lcsize big i e s) resolve_ok.
Proof.
  intros Hl Hi (_&Hval&Hbase) Hs. destruct s as [[heads rh] cur]. destruct Hs as (Hh&Hr&Hc).
  unfold resolve_step. destruct (re_ty e =? LC_TYPE_NONHEAD).
  - destruct (big && _); [|by split]. destruct cur as [h|]; [|by split].
    apply wp_bind, wp_at; [done|]. intros hd [_ Hhd]%get_Some.
    pose proof (land_range (re_value e) 0x07ff ltac:(done)).
    destruct (Z.eqb_spec (Z.land (re_value e) 0x07ff) 0); [done|]. cbn [wpx resolve_ok].
    split; [|split; [done|unfold zlen; by rewrite length_insert]].
    apply Forall_insert; [done|]. destruct (Forall_lookup_1 _ _ _ _ Hh Hhd) as (?&?&?).
    split; cbn [hd_start hd_blkaddr hd_cblkcnt]; lia.
  - apply wp_bind, (wp_mono _ (fun start => 0 <= start)).
    { destruct heads; [done|]. apply wp_bind, wp_mulw_x; [done|]. intros _.
      apply wp_addw_x; [done|]. lia. }
    intros start Hst. apply wp_bind, (wp_mono _ (fun x => 0 <= x.1 < 2 ^ 32 /\ map_Forall (fun _ c => 0 <= c) x.2)).
    { destruct big; [by split|].
      assert (Hn : 0 <= default 0 (rh !! re_region e)).
      { destruct (rh !! re_region e) eqn:E; [exact (Hr _ _ E)|done]. }
      apply wp_bind, wp_ok_or. intros b (b0&[? ->]%checked_add_Some&Hb)%bind_Some.
      apply checked_add_Some in Hb as [? ->]. apply wp_bind, wp_addw_x; [done|]. intros _.
      cbn [wpx fst snd]. split; [lia|]. apply map_Forall_insert_2; [lia|done]. }
    intros [b rh'] [Hb Hr']. cbn [wpx resolve_ok fst snd] in *. pose proof (zlen_nonneg heads).
    split; [|split; [done|rewrite zlen_app, zlen_cons, zlen_nil; lia]].
    apply Forall_app. split; [done|]. apply Forall_singleton.
    split; cbn [hd_start hd_blkaddr hd_cblkcnt]; lia.
Qed.

Lemma resolve_entries_wp lcsize big raw : forall i s, 0 <= lcsize -> 0 <= i ->
  Forall raw_ok raw -> resolve_ok s -> wpx True (resolve_entries lcsize big i raw s) resolve_ok.
Proof.
  induction raw as [|e raw IH]; intros i s Hl Hi Hraw Hs; [done|]. cbn [resolve_entries].
  apply Forall_cons in Hraw as [He Hraw]. apply wp_bind.
  eapply wp_mono; [by apply resolve_step_wp|]. intros s' Hs'. apply IH; done || lia.
Qed.

Lemma assign_blocks_wp {X : Prop} first_base heads : forall prev, Forall head_ok heads ->
  0 <= first_base < 2 ^ 32 -> match prev with Some (b, c) => 0 <= b + c | None => True end ->
  wpx X (assign_blocks prev first_base heads) (Forall head_ok).
Proof.
  induction heads as [|h heads IH]; intros prev Hh Hf Hp; [constructor|]. cbn [assign_blocks].
  apply Forall_cons in Hh as [(Hst&_&Hc) Hh].
  apply wp_bind, (wp_mono _ (fun b => 0 <= b < 2 ^ 32)).
  { destruct prev as [[b c]|]; [|done]. apply wp_ok_or. intros x [? ->]%checked_add_Some. lia. }
  intros b Hb. apply wp_bind. eapply wp_mono; [apply (IH (Some (b, hd_cblkcnt h))); done || lia|].
  intros rest Hrest. cbn [wpx]. by constructor.
Qed.

Lemma resolve_compact_heads_wp raw lcsize advise : 0 <= lcsize -> Forall raw_ok raw ->
  wpx True (resolve_compact_heads raw lcsize advise) (Forall head_ok).
Proof.
  intros Hl Hraw. unfold resolve_compact_heads. apply wp_bind.
  eapply wp_mono; [apply resolve_entries_wp; [done|done|done|]|].
  { split; [constructor|]. split; [apply map_Forall_empty|done]. }
  intros [[heads rh] cur] (Hh&_). destruct (negb _); [|done]. apply assign_blocks_wp; [done| |done].
  destruct Hraw as [|e raw' (_&_&?)]; [lia|done].
Qed.

(** ** Lemmas: decoding and directory blocks come back *)

(** Entries carry node numbers off the medium. *)
Definition nids_ok (out : list (name * Z * Z)) : Prop := Forall (fun e => 0 <= e.1.2) out.

Lemma dirent_step_wp {X : Prop} block count i out : nids_ok out -> wpx X (dirent_step block count i out) nids_ok.
Proof.
  intros Hout. unfold dirent_step. apply wp_bind, wp_le_field. intros nid Hn _.
  apply wp_bind, wp_le_field. intros nameoff _ _. apply wp_bind, wp_ok_or. intros ft _.
  apply wp_bind. apply (wp_mono _ (fun _ => True)).
  { destruct (_ <? count); [|done]. apply wp_le_field. done. }
  intros name_end _. apply wp_bind, wp_ok_or. intros raw _. destruct (_ || _); [done|].
  cbn [wpx]. apply Forall_app. split; [done|]. apply Forall_singleton. cbn. lia.
Qed.

Lemma parse_dir_block_wp {X : Prop} block out : nids_ok out -> wpx X (parse_dir_block block out) nids_ok.
Proof.
  intros Hout. unfold parse_dir_block. destruct (_ <? 12); [done|]. apply wp_bind, wp_le_field. intros first _ _.
  apply (wp_for_loop (fun _ => nids_ok)); [done| |done]. intros i l _. apply dirent_step_wp.
Qed.

Section DecodeLaws.
Context {D : Decoders} {DL : DecoderLaws D}.

Lemma wp_tail {X : Prop} (span : list byte) start (P : list byte -> Prop) : 0 <= start <= zlen span ->
  P (sub span start (zlen span - start)) -> wpx X (slice span start (zlen span)) P.
Proof. intros. apply wp_slice; [lia|lia|done]. Qed.

Lemma lz4_pcluster_wp {X : Prop} span outlen win zp :
  wpx X (lz4_pcluster span outlen win zp) (fun v =>
    zlen v = outlen /\ outlen <= MAX_DECOMPRESSED_BLOCK_BYTES).
Proof.
  unfold lz4_pcluster. pose proof (zlen_nonneg span).
  apply wp_bind, (wp_mono _ (fun start => 0 <= start <= zlen span)).
  { destruct zp; [|cbn [wpx]; lia]. apply wp_ok_or. intros i (?&_)%position_Some. lia. }
  intros start Hs. apply wp_bind, wp_tail; [done|]. apply wp_bind.
  eapply wp_mono; [apply wp_eq, wpx_weaken, returns_wp, lz4_dict_returns|].
  intros v [_ [? ?]%lz4_dict_len]. destruct (Z.eqb_spec (zlen v) outlen); done.
Qed.

Lemma deflate_starts_wp {X : Prop} span outlen starts : 0 <= outlen -> forall last,
  wpx X (deflate_starts span outlen starts last) (fun v =>
    zlen v = outlen /\ outlen <= MAX_DECOMPRESSED_BLOCK_BYTES).
Proof.
  intros Ho. induction starts as [|start starts IH]; intros last; [done|]. cbn [deflate_starts].
  pose proof (decode_returns Deflate (default [] (get_from span start)) outlen Ho) as Hr.
  destruct (decode _ _ _) as [v|e| | |] eqn:Ed; try done.
  - apply decode_len in Ed; [|done]. destruct (Z.eqb_spec (zlen v) outlen); [split; [done|lia]|apply IH].
  - destruct e; try apply IH; done.
Qed.

(** A decoded pcluster is never longer than its place, and of exactly its length
    unless the codec is ZSTD. *)
Lemma decode_pcluster_wp {X : Prop} ty algo span outlen prior dict zp : 0 <= outlen ->
  wpx X (decode_pcluster ty algo span outlen prior dict zp) (fun v =>
    zlen v <= outlen <= MAX_DECOMPRESSED_BLOCK_BYTES /\ (ty = LC_TYPE_PLAIN \/ algo <> ALGO_ZSTD -> zlen v = outlen)).
Proof.
  intros Ho. unfold decode_pcluster. pose proof (zlen_nonneg span). pose proof (zlen_nonneg prior).
  destruct (Z.eqb_spec ty LC_TYPE_PLAIN) as [->|Hty].
  { apply wp_bind, wp_checked_block. intros Hm. apply wp_ok_or. intros v Hv%get_range_zlen. lia. }
  destruct (_ || _); [|done]. unfold decode_head.
  destruct (Z.eqb_spec algo ALGO_LZ4) as [->|].
  { apply wp_bind, wp_slice; [unfold saturating_sub, LZ4_WINDOW; lia|lia|].
    eapply wp_mono; [apply lz4_pcluster_wp|]. intros v [Hv Hl]. split; [lia|done]. }
  destruct (Z.eqb_spec algo ALGO_DEFLATE) as [->|].
  { eapply wp_mono; [by apply deflate_starts_wp|]. intros v [Hv Hl]. split; [lia|done]. }
  destruct (Z.eqb_spec algo ALGO_ZSTD) as [->|].
  { unfold zstd_pcluster. apply wp_bind, wp_ok_or. intros i (Hi&_)%position_Some.
    assert (zlen (windows4 span) <= zlen span) as Hw.
    { unfold windows4. rewrite zlen_fmap. unfold zlen at 1. rewrite length_seqZ. lia. }
    apply wp_bind, wp_tail; [lia|]. eapply wp_mono; [apply wp_eq, wpx_weaken, returns_wp, decode_returns; done|].
    intros v [_ Hv]. apply decode_len in Hv; [|done]. split; [lia|]. intros [?|?]; done. }
  destruct (algo =? ALGO_LZMA); [|done].
  apply wp_bind, wp_ok_or. intros d _. unfold lzma_pcluster.
  apply wp_bind, wp_ok_or. intros i (Hi&_)%position_Some. apply wp_bind, wp_at; [done|]. intros b _.
  destruct (_ >? _); [done|]. apply wp_bind, wp_tail; [lia|].
  eapply wp_mono; [apply wp_eq, wpx_weaken, returns_wp, microlzma_returns; done|].
  intros v [_ Hv]. apply microlzma_len in Hv as (?&?&_). split; [lia|done].
Qed.
End DecodeLaws.

(** ** A written compact index

    A unit is the entries (14 bits each) that share a base block, with that
    block: a 4-byte group holds two of them, a 2-byte pack sixteen.  The last unit
    of a run may hold fewer, its other slots being zero. *)

Definition CUnit : Type := (list Z * Z)%type.

Definition group_bytes (u : CUnit) : list byte :=
  le_bytes 2 (default 0 (u.1 !! 0%nat)) ++ le_bytes 2 (default 0 (u.1 !! 1%nat)) ++ le_bytes 4 u.2.

Fixpoint pack_num (es : list Z) : Z :=
  match es with
  | [] => 0
  | v :: es' => v + 2 ^ 14 * pack_num es'
  end.
Definition pack_bytes (u : CUnit) : list byte := le_bytes 28 (pack_num u.1) ++ le_bytes 4 u.2.

Definition unit_ok (cap : Z) (u : CUnit) : Prop :=
  0 < zlen u.1 <= cap /\ Forall (fun v => 0 <= v < 2 ^ 14) u.1 /\ 0 <= u.2 < 2 ^ 32.

(** The units of a run: all full but the last. *)
Fixpoint run_ok (cap : Z) (us : list CUnit) : Prop :=
  match us with
  | [] => True
  | u :: us' => unit_ok cap u /\ (us' <> [] -> zlen u.1 = cap) /\ run_ok cap us'
  end.

Definition run_entries (us : list CUnit) : list Z := concat us.*1.

(** The entries of units, unpacked; regions are numbered from [rid]. *)
Fixpoint unit_raws (rid : Z) (us : list CUnit) : list RawEntry :=
  match us with
  | [] => []
  | u :: us' => (raw_of rid u.2 <$> u.1) ++ unit_raws (rid + 1) us'
  end.

Lemma unit_raws_app us us' : forall rid,
  unit_raws rid (us ++ us') = unit_raws rid us ++ unit_raws (rid + zlen us) us'.
Proof.
  induction us as [|u us IH]; intros rid; cbn [unit_raws app].
  - by rewrite (zlen_nil CUnit), Z.add_0_r.
  - rewrite IH, zlen_cons, app_assoc. do 2 f_equal. lia.
Qed.

Lemma zlen_group_bytes u : zlen (group_bytes u) = 8.
Proof. unfold group_bytes. by rewrite !zlen_app, !zlen_le_bytes. Qed.
Lemma zlen_pack_bytes u : zlen (pack_bytes u) = 32.
Proof. unfold pack_bytes. by rewrite !zlen_app, !zlen_le_bytes. Qed.

Lemma sub_le_bytes n k z : n = Z.of_nat k -> sub (le_bytes k z) 0 n = le_bytes k z.
Proof. intros ->. rewrite <- (zlen_le_bytes k z). apply sub_all. Qed.

(** One round reads one unit. *)
Lemma group_round_written p u r count produced rid raw : unit_ok 2 u -> produced < count ->
  zlen u.1 = Z.min 2 (count - produced) ->
  group_round (p ++ group_bytes u ++ r) count (produced, zlen p, rid, raw)
  = Ok (inl (produced + zlen u.1, zlen p + 8, rid + 1, raw ++ (raw_of rid u.2 <$> u.1))).
Proof.
  intros (Hn&Hv&Hb) Hlt Hmin. unfold group_round. rewrite (proj2 (Z.ltb_lt _ _)) by lia. cbn [negb].
  rewrite get_range_app by (rewrite ?zlen_group_bytes; lia). cbn [ok_or bindR].
  destruct u as [es base]. cbn [fst snd] in *.
  assert (Hbase : le_num (sub (group_bytes (es, base)) 4 4) = base).
  { unfold group_bytes. rewrite app_assoc, sub_app_r; rewrite !zlen_app, !zlen_le_bytes; [|lia].
    change (_ - _) with 0. rewrite sub_le_bytes, le_num_le_bytes by done. by apply Z.mod_small. }
  assert (Hhalf : forall i v, es !! i = Some v -> (i < 2)%nat ->
    le_num (sub (group_bytes (es, base)) (2 * Z.of_nat i) 2) = v).
  { intros i v Hi Hi2. apply (Forall_lookup_1 _ _ _ _ Hv) in Hi as Hr.
    assert (le_num (le_bytes 2 v) = v) as Hvv.
    { rewrite le_num_le_bytes. apply Z.mod_small. change (256 ^ Z.of_nat 2) with (2 ^ 16). lia. }
    unfold group_bytes. destruct i as [|[|]]; [| |lia]; cbn [fst]; rewrite Hi; cbn [default id from_option].
    - rewrite sub_app_l by (rewrite ?zlen_le_bytes; lia).
      by rewrite sub_le_bytes.
    - rewrite sub_app_r by (rewrite zlen_le_bytes; lia). rewrite zlen_le_bytes.
      change (_ - _) with 0. rewrite sub_app_l by (rewrite ?zlen_le_bytes; lia).
      by rewrite sub_le_bytes. }
  pose proof (Hhalf 0%nat) as H0. pose proof (Hhalf 1%nat) as H1.
  change (2 * Z.of_nat 0) with 0 in H0. change (2 * Z.of_nat 1) with 2 in H1. clear Hhalf.
  cbn [fold_left]. rewrite Hbase, Z.geb_leb, (proj2 (Z.leb_gt count produced)) by lia.
  destruct es as [|v0 [|v1 [|]]]; rewrite ?zlen_cons, ?zlen_nil in *; try lia.
  - rewrite (H0 v0 eq_refl) by lia. rewrite Z.geb_leb, (proj2 (Z.leb_le _ _)) by lia. cbn [fmap list_fmap].
    by rewrite Z.add_0_r.
  - rewrite (H0 v0 eq_refl), (H1 v1 eq_refl) by lia. rewrite Z.geb_leb, (proj2 (Z.leb_gt _ _)) by lia.
    cbn [fmap list_fmap]. rewrite <- app_assoc. by replace (produced + 1 + 1) with (produced + (1 + (1 + 0))) by lia.
  - pose proof (zlen_nonneg l). lia.
Qed.

Lemma pack_num_range es : Forall (fun v => 0 <= v < 2 ^ 14) es -> 0 <= pack_num es < 2 ^ (14 * zlen es).
Proof.
  induction 1 as [|v es Hv _ IH]; [done|]. cbn [pack_num]. rewrite zlen_cons. pose proof (zlen_nonneg es).
  replace (14 * (1 + zlen es)) with (14 + 14 * zlen es) by lia. rewrite Z.pow_add_r by lia. nia.
Qed.

Lemma pack_num_entry es i v : Forall (fun v => 0 <= v < 2 ^ 14) es -> es !! i = Some v ->
  (pack_num es / 2 ^ (14 * Z.of_nat i)) mod 2 ^ 14 = v.
Proof.
  intros HF. revert i. induction HF as [|x es Hx HF IH]; intros i; [done|]. destruct i as [|i].
  - intros [= ->]. cbn [pack_num]. rewrite Z.mul_0_r, Z.pow_0_r, Z.div_1_r, Z.mul_comm.
    rewrite Z.mod_add by lia. by apply Z.mod_small.
  - intros Hi. cbn [pack_num].
    replace (14 * Z.of_nat (S i)) with (14 + 14 * Z.of_nat i) by lia.
    rewrite Z.pow_add_r, <- Z.div_div by lia. rewrite (Z.mul_comm (2 ^ 14)), Z.div_add by lia.
    rewrite (Z.div_small x) by done. by apply IH.
Qed.

Lemma pack_entry u i v : unit_ok 16 u -> u.1 !! i = Some v ->
  read_bits_lsb (pack_bytes u) (Z.of_nat i * COMPACT_ENCBITS) = Ok v.
Proof.
  intros (Hn&Hv&Hb) Hi. assert (Hi16 : Z.of_nat i < 16).
  { apply lookup_lt_Some in Hi. unfold zlen in Hn. lia. }
  rewrite read_bits_lsb_spec by (rewrite ?zlen_pack_bytes; unfold COMPACT_ENCBITS; lia).
  pose proof (pack_num_range _ Hv) as Hp.
  assert (Hp28 : pack_num u.1 < 2 ^ 224).
  { apply (Z.lt_le_trans _ (2 ^ (14 * zlen u.1))); [lia|]. apply Z.pow_le_mono_r; lia. }
  unfold pack_bytes. rewrite le_num_app, zlen_le_bytes, !le_num_le_bytes.
  rewrite (Z.mod_small (pack_num _)) by (change (256 ^ Z.of_nat 28) with (2 ^ 224); lia).
  rewrite (Z.mod_small u.2) by done. unfold COMPACT_ENCBITS. set (p := Z.of_nat i * 14).
  change (256 ^ Z.of_nat 28) with (2 ^ 224).
  replace (2 ^ 224) with (2 ^ (224 - 14 - p) * 2 ^ 14 * 2 ^ p)
    by (rewrite <- !Z.pow_add_r by lia; f_equal; lia).
  replace (_ * _ * 2 ^ p * u.2) with (2 ^ (224 - 14 - p) * u.2 * 2 ^ 14 * 2 ^ p) by ring.
  rewrite Z.div_add, Z.mod_add by lia. unfold p. rewrite Z.mul_comm. f_equal.
  by apply pack_num_entry.
Qed.

Lemma pack_round_written p u r count produced rid raw : unit_ok 16 u -> produced < count ->
  zlen u.1 = Z.min 16 (count - produced) ->
  pack_round (p ++ pack_bytes u ++ r) count (produced, zlen p, rid, raw)
  = Ok (inl (produced + zlen u.1, zlen p + 32, rid + 1, raw ++ (raw_of rid u.2 <$> u.1))).
Proof.
  intros Hu Hlt Hmin. unfold pack_round. rewrite (proj2 (Z.ltb_lt _ _)) by lia. cbn [negb].
  rewrite get_range_app by (rewrite ?zlen_pack_bytes; lia). cbn [ok_or bindR].
  assert (Hbase : le_num (sub (pack_bytes u) 28 4) = u.2).
  { unfold pack_bytes. rewrite sub_app_r by (rewrite zlen_le_bytes; lia). rewrite zlen_le_bytes.
    change (_ - _) with 0. rewrite sub_le_bytes, le_num_le_bytes by done. apply Z.mod_small, Hu. }
  rewrite Hbase.
  pose (st i := (produced + Z.min i (zlen u.1), raw ++ (raw_of rid u.2 <$> take (Z.to_nat i) u.1))).
  replace (produced, raw) with (st 0)
    by (unfold st; rewrite Z.min_l by lia; change (Z.to_nat 0) with 0%nat; rewrite take_0, app_nil_r; f_equal; lia).
  rewrite (for_loop_states st).
  - cbn [bindR]. unfold st. rewrite Z.min_r by lia. rewrite take_ge by (unfold zlen in *; lia). done.
  - intros i Hi. unfold st at 1. cbn beta iota. rewrite Z.geb_leb.
    destruct (Z.leb_spec count (produced + Z.min i (zlen u.1))).
    + unfold st. rewrite !Z.min_r, !take_ge by (unfold zlen in *; lia). done.
    + assert (exists v, u.1 !! Z.to_nat i = Some v) as [v Hv].
      { apply lookup_lt_is_Some. unfold zlen in *. lia. }
      replace i with (Z.of_nat (Z.to_nat i)) at 1 by lia. rewrite (pack_entry u _ v) by done. cbn [bindR].
      unfold st. replace (Z.to_nat (i + 1)) with (S (Z.to_nat i)) by lia.
      rewrite (take_S_r _ _ _ Hv), fmap_app, app_assoc. cbn [fmap list_fmap]. do 2 f_equal. lia.
Qed.

Lemma zlen_run_entries u us : zlen (run_entries (u :: us)) = zlen u.1 + zlen (run_entries us).
Proof. unfold run_entries. cbn [fmap list_fmap concat]. apply zlen_app. Qed.

Section Run.
Context (round : list byte -> Z -> Unpack -> Res (Unpack + Unpack)).
Context (enc : CUnit -> list byte) (cap width : Z).
Context (Hwidth : forall u, zlen (enc u) = width).
Context (Hdone : forall buf count pos rid raw,
  round buf count (count, pos, rid, raw) = Ok (inr (count, pos, rid, raw))).
Context (Hwritten : forall p u r count produced rid raw, unit_ok cap u -> produced < count ->
  zlen u.1 = Z.min cap (count - produced) ->
  round (p ++ enc u ++ r) count (produced, zlen p, rid, raw)
  = Ok (inl (produced + zlen u.1, zlen p + width, rid + 1, raw ++ (raw_of rid u.2 <$> u.1)))).

Lemma zlen_run_bytes us : zlen (concat (enc <$> us)) = zlen us * width.
Proof.
  induction us as [|u us IH]; [done|]. cbn [fmap list_fmap concat]. rewrite zlen_app, zlen_cons, IH, Hwidth. lia.
Qed.

(** A written run is unpacked to its entries. *)
Lemma run_LoopsTo us r count : forall p produced rid raw, run_ok cap us ->
  produced + zlen (run_entries us) = count ->
  LoopsTo (round (p ++ concat (enc <$> us) ++ r) count) (produced, zlen p, rid, raw)
    (Ok (count, zlen p + zlen us * width, rid + zlen us, raw ++ unit_raws rid us)).
Proof.
  induction us as [|u us IH]; intros p produced rid raw Hus Hc.
  - change (zlen (run_entries [])) with 0 in Hc. assert (produced = count) as -> by lia.
    rewrite (zlen_nil CUnit), Z.mul_0_l, !Z.add_0_r. cbn [unit_raws]. rewrite app_nil_r.
    by apply LoopsTo_break.
  - destruct Hus as (Hu&Hfull&Hus). rewrite zlen_run_entries in Hc. pose proof (proj1 Hu) as Hn.
    assert (Hmin : zlen u.1 = Z.min cap (count - produced)).
    { destruct us as [|u' us]; [assert (zlen (run_entries []) = 0) by done; subst count; lia|].
      specialize (Hfull ltac:(done)). rewrite zlen_run_entries in Hc.
      pose proof (proj1 (proj1 Hus)). pose proof (zlen_nonneg (run_entries us)). lia. }
    pose proof (zlen_nonneg (run_entries us)). cbn [fmap list_fmap concat]. rewrite <- app_assoc.
    eapply LoopsTo_round; [apply Hwritten; [done|lia|done]|].
    rewrite <- (Hwidth u), <- zlen_app, app_assoc.
    rewrite zlen_cons. cbn [unit_raws]. rewrite (app_assoc raw).
    replace (zlen p + (1 + zlen us) * zlen (enc u)) with (zlen (p ++ enc u) + zlen us * width)
      by (rewrite zlen_app, Hwidth; lia).
    replace (rid + (1 + zlen us)) with (rid + 1 + zlen us) by lia.
    apply IH; [done|lia].
Qed.
End Run.

Lemma read_4b_groups_written p us r rid raw : run_ok 2 us -> zlen (run_entries us) < 2 ^ 64 ->
  Forall raw_ok raw ->
  read_4b_groups (p ++ concat (group_bytes <$> us) ++ r) (zlen (run_entries us)) (zlen p, rid, raw)
  = Ok (zlen p + zlen us * 8, rid + zlen us, raw ++ unit_raws rid us).
Proof.
  intros Hus Hc Hraw.
  pose proof (read_4b_groups_wp (X := False) (p ++ concat (group_bytes <$> us) ++ r) _ (zlen p) rid raw Hc Hraw) as Hw.
  unfold read_4b_groups in *. erewrite loop_eq; [| |].
  2: { apply wp_returns in Hw. by destruct (loop _ _). }
  2: { apply (run_LoopsTo group_round group_bytes 2 8); [apply zlen_group_bytes| | |done|lia].
    - intros. unfold group_round. by rewrite Z.ltb_irrefl.
    - intros. by apply group_round_written. }
  done.
Qed.

Lemma read_2b_packs_written p us r rid raw : run_ok 16 us -> zlen (run_entries us) < 2 ^ 64 ->
  Forall raw_ok raw ->
  read_2b_packs (p ++ concat (pack_bytes <$> us) ++ r) (zlen (run_entries us)) (zlen p, rid, raw)
  = Ok (zlen p + zlen us * 32, rid + zlen us, raw ++ unit_raws rid us).
Proof.
  intros Hus Hc Hraw.
  pose proof (read_2b_packs_wp (X := False) (p ++ concat (pack_bytes <$> us) ++ r) _ (zlen p) rid raw Hc Hraw) as Hw.
  unfold read_2b_packs in *. erewrite loop_eq; [| |].
  2: { apply wp_returns in Hw. by destruct (loop _ _). }
  2: { apply (run_LoopsTo pack_round pack_bytes 16 32); [apply zlen_pack_bytes| | |done|lia].
    - intros. unfold pack_round. by rewrite Z.ltb_irrefl.
    - intros. by apply pack_round_written. }
  done.
Qed.

Lemma unit_raws_ok cap us : forall rid, run_ok cap us -> Forall raw_ok (unit_raws rid us).
Proof.
  induction us as [|u us IH]; intros rid; [constructor|]. intros (Hu&_&Hus). cbn [unit_raws].
  apply Forall_app. split; [|by apply IH]. apply Forall_fmap, Forall_true. intros v. apply raw_of_ok, Hu.
Qed.

(** ** The pclusters of an index *)

(** A pcluster as mkfs indexes it: the type and the start within its lcluster of
    the head entry, the values of the non-head entries after it, its first block
    and its number of blocks. *)
Record Pcluster : Type := mkPc { pc_ty : Z; pc_ofs : Z; pc_tail : list Z; pc_blk : Z; pc_blocks : Z }.

Definition entry_num (ty value : Z) : Z := ty * 2 ^ 12 + value.
Definition pc_entries (pc : Pcluster) : list Z :=
  entry_num (pc_ty pc) (pc_ofs pc) :: (entry_num LC_TYPE_NONHEAD <$> pc_tail pc).
Definition index_entries (pcs : list Pcluster) : list Z := concat (pc_entries <$> pcs).

(** What the file's head list says of its pclusters; [i] is the lcluster a
    pcluster's head is in. *)
Fixpoint heads_of (lcsize : Z) (first : bool) (i : Z) (pcs : list Pcluster) : list Head :=
  match pcs with
  | [] => []
  | pc :: pcs' =>
      mkHead (if first then 0 else i * lcsize + pc_ofs pc) (pc_ty pc) (pc_blk pc) (pc_blocks pc)
      :: heads_of lcsize false (i + 1 + zlen (pc_tail pc)) pcs'
  end.

(** The pclusters lie one after the other. *)
Fixpoint packed (blk : Z) (pcs : list Pcluster) : Prop :=
  match pcs with
  | [] => True
  | pc :: pcs' => pc_blk pc = blk /\ packed (blk + pc_blocks pc) pcs'
  end.

Definition flagged (v : Z) : bool := negb (Z.land v COMPACT_CBLKCNT_FLAG =? 0).

Definition pc_ok (pc : Pcluster) : Prop :=
  (pc_ty pc = LC_TYPE_PLAIN \/ pc_ty pc = LC_TYPE_HEAD1 \/ pc_ty pc = LC_TYPE_HEAD2) /\
  0 <= pc_ofs pc < 2 ^ 12 /\ Forall (fun v => 0 <= v < 2 ^ 12) (pc_tail pc) /\
  0 <= pc_blk pc < 2 ^ 32.

(** In a big-pcluster index the first non-head entry has the number of blocks; a
    pcluster without it has one block. *)
Definition big_ok (pc : Pcluster) : Prop :=
  (pc_blocks pc = 1 /\ Forall (fun v => flagged v = false) (pc_tail pc)) \/
  (0 < pc_blocks pc < 2 ^ 11 /\ exists rest, Forall (fun v => flagged v = false) rest /\
     pc_tail pc = COMPACT_CBLKCNT_FLAG + pc_blocks pc :: rest).

Definition is_head (v : Z) : Prop := Z.land (Z.shiftr v 12) 3 <> LC_TYPE_NONHEAD.
#[export] Instance is_head_dec v : Decision (is_head v).
Proof. unfold is_head. apply _. Defined.

(** In an index without big pclusters the base of a unit with heads is the block
    before that of its first head. *)
Definition heads_in (es : list Z) : Z := zlen (filter is_head es).
Fixpoint bases_ok (blk : Z) (us : list CUnit) : Prop :=
  match us with
  | [] => True
  | u :: us' => (0 < heads_in u.1 -> u.2 = blk - 1) /\ bases_ok (blk + heads_in u.1) us'
  end.

(** ** Lemmas: resolving a written index *)

Lemma entry_fields ty v : 0 <= ty < 4 -> 0 <= v < 2 ^ 12 ->
  Z.land (Z.shiftr (entry_num ty v) 12) 3 = ty /\ Z.land (entry_num ty v) 0x0fff = v.
Proof.
  intros Ht Hv. unfold entry_num. rewrite Z.shiftr_div_pow2, Z.div_add_l, Z.div_small by lia.
  change 3 with (Z.ones 2). change 0x0fff with (Z.ones 12). rewrite !Z.land_ones by lia.
  rewrite Z.add_0_r, (Z.mod_small ty) by lia. split; [done|].
  rewrite Z.add_comm, Z.mod_add by lia. by apply Z.mod_small.
Qed.

Lemma raw_of_entry rid base ty v : 0 <= ty < 4 -> 0 <= v < 2 ^ 12 ->
  raw_of rid base (entry_num ty v) = mkRaw ty v rid base.
Proof. intros Ht Hv. destruct (entry_fields ty v Ht Hv) as [H1 H2]. unfold raw_of, COMPACT_LOBITS. by rewrite H1, H2. Qed.

Lemma pc_ty_range pc : pc_ok pc -> 0 <= pc_ty pc < 4 /\ pc_ty pc <> LC_TYPE_NONHEAD.
Proof. unfold pc_ok, LC_TYPE_PLAIN, LC_TYPE_HEAD1, LC_TYPE_HEAD2, LC_TYPE_NONHEAD. intros [[->|[->| ->]] _]; lia. Qed.

Lemma resolve_entries_app lcsize big raw raw' : forall i s,
  resolve_entries lcsize big i (raw ++ raw') s
  = bindR (resolve_entries lcsize big i raw s) (resolve_entries lcsize big (i + zlen raw) raw').
Proof.
  induction raw as [|e raw IH]; intros i s; cbn [resolve_entries app].
  - by rewrite (zlen_nil RawEntry), Z.add_0_r.
  - rewrite bindR_assoc. destruct (resolve_step _ _ _ _ _); try done. cbn [bindR]. rewrite IH, zlen_cons.
    by replace (i + (1 + zlen raw)) with (i + 1 + zlen raw) by lia.
Qed.

(** The head entry of a pcluster starts where [heads_of] says. *)
Lemma start_eq lcsize i ofs (heads : list Head) : i * lcsize + ofs < 2 ^ 64 -> 0 <= ofs ->
  match heads with [] => Ok 0 | _ => let! at_ := mulw 64 i lcsize in addw 64 at_ ofs end
  = Ok (if bool_decide (heads = []) then 0 else i * lcsize + ofs).
Proof. intros. destruct heads; [done|]. rewrite mulw_eq by lia. cbn [bindR]. by rewrite addw_eq. Qed.

(** What an entry says, whatever unit it is in. *)
Definition raw_says (e : RawEntry) (v : Z) : Prop :=
  re_ty e = Z.land (Z.shiftr v 12) 3 /\ re_value e = Z.land v 0x0fff.

Lemma unit_raws_say us : forall rid, Forall2 raw_says (unit_raws rid us) (run_entries us).
Proof.
  induction us as [|u us IH]; intros rid; [constructor|]. unfold run_entries.
  cbn [unit_raws fmap list_fmap concat]. apply Forall2_app; [|apply IH].
  apply Forall2_fmap_l, Forall_Forall2_diag, Forall_true. done.
Qed.

(** Non-head entries that do not carry a count change nothing. *)
Lemma resolve_unflagged lcsize big vs : forall i raw s,
  Forall (fun v => 0 <= v < 2 ^ 12) vs -> Forall2 raw_says raw (entry_num LC_TYPE_NONHEAD <$> vs) ->
  big = false \/ Forall (fun v => flagged v = false) vs ->
  resolve_entries lcsize big i raw s = Ok s.
Proof.
  induction vs as [|v vs IH]; intros i raw s Hv Hsay Hf; cbn [fmap list_fmap] in Hsay.
  { by inversion Hsay. }
  apply Forall2_cons_inv_r in Hsay as (e&raw'&[Hty Hval]&Hsay&->). apply Forall_cons in Hv as [Hv Hvs].
  destruct (entry_fields LC_TYPE_NONHEAD v ltac:(done) Hv) as [E1 E2]. rewrite E1 in Hty. rewrite E2 in Hval.
  destruct s as [[heads rh] cur]. cbn [resolve_entries]. unfold resolve_step. rewrite Hty, Z.eqb_refl, Hval.
  fold (flagged v).
  assert (big && flagged v = false) as ->.
  { destruct Hf as [->|Hf]; [done|]. apply Forall_cons in Hf as [-> _]. apply andb_false_r. }
  cbn [bindR]. apply IH; [done|done|]. destruct Hf as [->|Hf]; [by left|right]. by apply Forall_cons in Hf as [_ ?].
Qed.

(** *** Big pclusters *)

Definition unplaced (h : Head) : Head := mkHead (hd_start h) (hd_ty h) 0 (hd_cblkcnt h).

Lemma resolve_big_one lcsize i raw pc heads rh cur : pc_ok pc -> big_ok pc ->
  Forall2 raw_says raw (pc_entries pc) -> i * lcsize + pc_ofs pc < 2 ^ 64 ->
  resolve_entries lcsize true i raw (heads, rh, cur)
  = Ok (heads ++ [mkHead (if bool_decide (heads = []) then 0 else i * lcsize + pc_ofs pc) (pc_ty pc) 0 (pc_blocks pc)],
        rh, Some (zlen heads)).
Proof.
  intros Hpc Hbig Hsay Hi. destruct (pc_ty_range pc Hpc) as [Hty Hnh]. destruct Hpc as (_&Hofs&Htail&_).
  unfold pc_entries in Hsay. apply Forall2_cons_inv_r in Hsay as (e&raw'&[Et Ev]&Hsay&->).
  destruct (entry_fields _ _ Hty Hofs) as [E1 E2]. rewrite E1 in Et. rewrite E2 in Ev.
  cbn [resolve_entries]. unfold resolve_step at 1. rewrite Et, (proj2 (Z.eqb_neq _ _)) by done.
  rewrite Ev, start_eq by lia. cbn [bindR]. set (start := if bool_decide _ then _ else _).
  destruct Hbig as [[Hb Hun]|(Hb&rest&Hun&Ht)].
  { rewrite Hb. by apply (resolve_unflagged _ _ (pc_tail pc)); [| |right]. }
  rewrite Ht in *. cbn [fmap list_fmap] in Hsay. apply Forall_cons in Htail as [Hv Htail].
  apply Forall2_cons_inv_r in Hsay as (e'&raw''&[Et' Ev']&Hsay&->).
  destruct (entry_fields LC_TYPE_NONHEAD _ ltac:(done) Hv) as [E1' E2']. rewrite E1' in Et'. rewrite E2' in Ev'.
  cbn [resolve_entries]. unfold resolve_step. rewrite Et', Z.eqb_refl, Ev'.
  assert (Hfl : Z.land (COMPACT_CBLKCNT_FLAG + pc_blocks pc) COMPACT_CBLKCNT_FLAG = COMPACT_CBLKCNT_FLAG /\
    Z.land (COMPACT_CBLKCNT_FLAG + pc_blocks pc) 0x07ff = pc_blocks pc).
  { pose proof (lor_shiftl_add 1 (pc_blocks pc) 11 ltac:(lia) ltac:(lia)) as Hlor.
    change (1 * 2 ^ 11) with COMPACT_CBLKCNT_FLAG in Hlor. split.
    - rewrite <- Hlor. change COMPACT_CBLKCNT_FLAG with (Z.shiftl 1 11). apply Z.bits_inj'. intros j Hj.
      rewrite Z.land_spec, Z.lor_spec. by destruct (Z.testbit (Z.shiftl 1 11) j), (Z.testbit (pc_blocks pc) j).
    - change 0x07ff with (Z.ones 11). rewrite Z.land_ones by lia. change COMPACT_CBLKCNT_FLAG with (1 * 2 ^ 11).
      rewrite Z.add_comm, Z.mod_add by lia. apply Z.mod_small. lia. }
  destruct Hfl as [-> ->]. cbn [andb negb]. change (negb (COMPACT_CBLKCNT_FLAG =? 0)) with true. cbn iota.
  pose proof (zlen_nonneg heads).
  assert (Hat : at_ (heads ++ [mkHead start (pc_ty pc) 0 1]) (zlen heads) = Ok (mkHead start (pc_ty pc) 0 1)).
  { apply at_Ok, get_Some. split; [done|]. apply list_lookup_middle. unfold zlen. lia. }
  rewrite Hat. cbn [bindR hd_start hd_ty hd_blkaddr]. rewrite (proj2 (Z.eqb_neq _ _)) by lia. cbn [bindR].
  rewrite (insert_app_r_alt heads) by (unfold zlen; lia).
  replace (Z.to_nat (zlen heads) - length heads)%nat with 0%nat by (unfold zlen; lia). cbn [insert list_insert].
  by apply (resolve_unflagged _ _ rest); [| |right].
Qed.

Lemma resolve_big lcsize pcs : forall i raw heads rh cur,
  Forall pc_ok pcs -> Forall big_ok pcs -> Forall2 raw_says raw (index_entries pcs) ->
  0 <= i -> 0 <= lcsize -> (i + zlen (index_entries pcs)) * lcsize + 2 ^ 12 <= 2 ^ 64 ->
  exists cur', resolve_entries lcsize true i raw (heads, rh, cur)
    = Ok (heads ++ (unplaced <$> heads_of lcsize (bool_decide (heads = [])) i pcs), rh, cur').
Proof.
  induction pcs as [|pc pcs IH]; intros i raw heads rh cur Hpc Hbig Hsay Hi Hl Hn.
  { inversion Hsay. exists cur. by rewrite app_nil_r. }
  apply Forall_cons in Hpc as [Hpc Hpcs]. apply Forall_cons in Hbig as [Hb Hbig].
  unfold index_entries in *. cbn [fmap list_fmap concat] in *. rewrite zlen_app in Hn.
  apply Forall2_app_inv_r in Hsay as (raw1&raw2&Hs1&Hs2&->).
  assert (Hz : zlen raw1 = 1 + zlen (pc_tail pc)).
  { unfold zlen at 1. rewrite (Forall2_length _ _ _ Hs1). unfold pc_entries. fold (zlen (pc_entries pc)).
    cbn [length]. rewrite length_fmap. unfold zlen. lia. }
  assert (Hz' : zlen (pc_entries pc) = zlen raw1) by (unfold zlen; by rewrite (Forall2_length _ _ _ Hs1)).
  pose proof (zlen_nonneg (concat (pc_entries <$> pcs))). pose proof (zlen_nonneg (pc_tail pc)).
  pose proof (proj1 (proj2 Hpc)) as Hofs.
  rewrite resolve_entries_app, (resolve_big_one lcsize i raw1 pc) by (done || nia). cbn [bindR].
  destruct (IH (i + zlen raw1) raw2 (heads ++ [mkHead (if bool_decide (heads = []) then 0 else i * lcsize + pc_ofs pc)
    (pc_ty pc) 0 (pc_blocks pc)]) rh (Some (zlen heads))) as [cur' Hr]; try done; [lia|lia|].
  exists cur'. rewrite Hr, <- app_assoc. cbn [heads_of fmap list_fmap app].
  rewrite (bool_decide_eq_false_2 (_ ++ _ = [])) by by destruct heads.
  replace (i + 1 + zlen (pc_tail pc)) with (i + zlen raw1) by lia. done.
Qed.


(** The running sum finds the blocks of pclusters that lie one after the other. *)
Lemma assign_blocks_written lcsize blk0 pcs : forall first i prev blk, packed blk pcs ->
  Forall pc_ok pcs -> match prev with None => blk = blk0 | Some (b, c) => blk = b + c end ->
  assign_blocks prev blk0 (unplaced <$> heads_of lcsize first i pcs) = Ok (heads_of lcsize first i pcs).
Proof.
  induction pcs as [|pc pcs IH]; intros first i prev blk Hp Hok Hprev; [done|].
  destruct Hp as [Hb Hp]. apply Forall_cons in Hok as [Hpc Hok].
  cbn [heads_of fmap list_fmap assign_blocks]. destruct Hpc as (_&_&_&Hr).
  assert (match prev with None => Ok blk0 | Some (b, c) =>
    ok_or (checked_add 32 b c) (Corrupt "erofs: compact blkaddr overflow") end = Ok blk) as ->.
  { destruct prev as [[b c]|]; [|by rewrite Hprev]. apply ok_or_Ok, checked_add_Some. lia. }
  cbn [bindR unplaced hd_start hd_ty hd_blkaddr hd_cblkcnt].
  rewrite (IH _ _ (Some (blk, pc_blocks pc)) (blk + pc_blocks pc)) by done. cbn [bindR]. by rewrite Hb.
Qed.

(** *** Pclusters of one block *)

Lemma heads_in_nonneg vs : 0 <= heads_in vs.
Proof. apply zlen_nonneg. Qed.
Lemma heads_in_cons v vs : heads_in (v :: vs) = (if decide (is_head v) then 1 else 0) + heads_in vs.
Proof.
  unfold heads_in. rewrite filter_cons. destruct (decide (is_head v)); [by rewrite zlen_cons|done].
Qed.
Lemma heads_in_app vs ws : heads_in (vs ++ ws) = heads_in vs + heads_in ws.
Proof. unfold heads_in. by rewrite filter_app, zlen_app. Qed.

(** The heads among entries whose pclusters lie block after block. *)
Fixpoint small_heads (lcsize : Z) (heads : list Head) (i blk : Z) (vs : list Z) : list Head :=
  match vs with
  | [] => heads
  | v :: vs' =>
      if decide (is_head v)
      then small_heads lcsize
             (heads ++ [mkHead (if bool_decide (heads = []) then 0 else i * lcsize + Z.land v 0x0fff)
                          (Z.land (Z.shiftr v 12) 3) blk 1]) (i + 1) (blk + 1) vs'
      else small_heads lcsize heads (i + 1) blk vs'
  end.

Lemma small_heads_app lcsize vs ws : forall heads i blk,
  small_heads lcsize heads i blk (vs ++ ws)
  = small_heads lcsize (small_heads lcsize heads i blk vs) (i + zlen vs) (blk + heads_in vs) ws.
Proof.
  induction vs as [|v vs IH]; intros heads i blk; cbn [small_heads app].
  - rewrite (zlen_nil Z). change (heads_in []) with 0. by rewrite !Z.add_0_r.
  - rewrite heads_in_cons, zlen_cons. destruct (decide (is_head v)); rewrite IH; f_equal; lia.
Qed.

Lemma resolve_small lcsize rid base vs : forall i heads rh cur blk,
  0 <= i -> 0 <= lcsize -> 0 <= base -> 0 <= default 0 (rh !! rid) ->
  (0 < heads_in vs -> base + 1 + default 0 (rh !! rid) = blk) -> blk + heads_in vs <= 2 ^ 32 ->
  (i + zlen vs) * lcsize + 2 ^ 12 <= 2 ^ 64 ->
  exists rh' cur', resolve_entries lcsize false i (raw_of rid base <$> vs) (heads, rh, cur)
    = Ok (small_heads lcsize heads i blk vs, rh', cur') /\ (forall r, r <> rid -> rh' !! r = rh !! r).
Proof.
  induction vs as [|v vs IH]; intros i heads rh cur blk Hi Hl Hb Hc Hbase Hmax Hn.
  { by exists rh, cur. }
  rewrite zlen_cons in Hn. pose proof (zlen_nonneg vs). pose proof (heads_in_nonneg vs).
  rewrite heads_in_cons in *. cbn [fmap list_fmap resolve_entries small_heads].
  unfold resolve_step. cbn [re_ty re_value re_region re_base raw_of]. unfold COMPACT_LOBITS.
  destruct (decide (is_head v)) as [Hv|Hv].
  - rewrite (proj2 (Z.eqb_neq _ _)) by exact Hv.
    pose proof (land_range v 0x0fff ltac:(done)). rewrite start_eq by nia. cbn [bindR].
    specialize (Hbase ltac:(lia)).
    rewrite (proj2 (checked_add_Some 32 base 1 (base + 1))) by lia. cbn [mbind option_bind].
    rewrite (proj2 (checked_add_Some 32 (base + 1) (default 0 (rh !! rid)) blk)) by lia. cbn [ok_or bindR].
    rewrite addw_eq by lia. cbn [bindR].
    destruct (IH (i + 1) (heads ++ [mkHead (if bool_decide (heads = []) then 0 else i * lcsize + Z.land v 0x0fff)
      (Z.land (Z.shiftr v 12) 3) blk 1]) (<[rid:=default 0 (rh !! rid) + 1]> rh) (Some (zlen heads)) (blk + 1))
      as (rh'&cur'&Hr&Hk); rewrite ?lookup_insert_eq; cbn [default from_option id]; try lia.
    exists rh', cur'. split; [exact Hr|]. intros r Hne. rewrite Hk by done. by rewrite lookup_insert_ne.
  - assert (E : Z.land (Z.shiftr v 12) 3 =? LC_TYPE_NONHEAD = true).
    { apply Z.eqb_eq. by destruct (decide (Z.land (Z.shiftr v 12) 3 = LC_TYPE_NONHEAD)). }
    rewrite E. cbn [andb bindR]. apply IH; try done; lia.
Qed.

Lemma resolve_units lcsize us : forall rid i heads rh cur blk,
  0 <= i -> 0 <= lcsize -> Forall (fun u => 0 <= u.2) us -> bases_ok blk us ->
  (forall r, rid <= r -> rh !! r = None) -> blk + heads_in (run_entries us) <= 2 ^ 32 ->
  (i + zlen (run_entries us)) * lcsize + 2 ^ 12 <= 2 ^ 64 ->
  exists rh' cur', resolve_entries lcsize false i (unit_raws rid us) (heads, rh, cur)
    = Ok (small_heads lcsize heads i blk (run_entries us), rh', cur').
Proof.
  induction us as [|u us IH]; intros rid i heads rh cur blk Hi Hl Hu Hbases Hrh Hmax Hn.
  { by exists rh, cur. }
  apply Forall_cons in Hu as [Hu Hus]. destruct Hbases as [Hb Hbases]. rewrite zlen_run_entries in Hn.
  unfold run_entries in *. cbn [fmap list_fmap concat] in *. rewrite heads_in_app in Hmax.
  pose proof (zlen_nonneg u.1). pose proof (zlen_nonneg (concat us.*1)).
  pose proof (heads_in_nonneg u.1). pose proof (heads_in_nonneg (concat us.*1)).
  cbn [unit_raws]. rewrite resolve_entries_app, small_heads_app.
  destruct (resolve_small lcsize rid u.2 u.1 i heads rh cur blk) as (rh1&cur1&Hr1&Hk1);
    rewrite ?(Hrh rid) by lia; cbn [default from_option id]; try done; try lia; try nia.
  rewrite Hr1. cbn [bindR]. rewrite zlen_fmap. apply IH; try done; try lia.
  intros r Hr. rewrite Hk1 by lia. apply Hrh. lia.
Qed.

Lemma small_heads_tail lcsize heads i blk vs : Forall (fun v => 0 <= v < 2 ^ 12) vs ->
  small_heads lcsize heads i blk (entry_num LC_TYPE_NONHEAD <$> vs) = heads /\
  heads_in (entry_num LC_TYPE_NONHEAD <$> vs) = 0.
Proof.
  intros Hvs. revert i. induction Hvs as [|v vs Hv _ IH]; intros i; [done|]. cbn [fmap list_fmap small_heads].
  rewrite heads_in_cons. destruct (entry_fields LC_TYPE_NONHEAD v ltac:(done) Hv) as [E _].
  rewrite !decide_False by (unfold is_head; rewrite E; auto). apply IH.
Qed.

Lemma small_heads_written lcsize pcs : forall heads i blk, Forall pc_ok pcs ->
  Forall (fun pc => pc_blocks pc = 1) pcs -> packed blk pcs ->
  small_heads lcsize heads i blk (index_entries pcs)
  = heads ++ heads_of lcsize (bool_decide (heads = [])) i pcs /\
  heads_in (index_entries pcs) = zlen pcs.
Proof.
  induction pcs as [|pc pcs IH]; intros heads i blk Hok H1 Hp.
  { by rewrite app_nil_r. }
  apply Forall_cons in Hok as [Hpc Hok]. apply Forall_cons in H1 as [Hone H1]. destruct Hp as [Hb Hp].
  destruct (pc_ty_range pc Hpc) as [Hty Hnh]. destruct Hpc as (_&Hofs&Htail&_).
  destruct (entry_fields _ _ Hty Hofs) as [E1 E2].
  unfold index_entries in *. cbn [fmap list_fmap concat pc_entries app small_heads heads_of].
  rewrite heads_in_cons, heads_in_app, zlen_cons.
  rewrite !decide_True by (unfold is_head; by rewrite E1).
  rewrite small_heads_app, E1, E2, Hb, Hone, zlen_fmap. rewrite Hone in Hp.
  set (heads' := heads ++ _).
  destruct (small_heads_tail lcsize heads' (i + 1) (blk + 1) (pc_tail pc) Htail) as [-> ->].
  rewrite Z.add_0_r. destruct (IH heads' (i + 1 + zlen (pc_tail pc)) (blk + 1) Hok H1 Hp) as [-> ->].
  unfold heads'. rewrite (bool_decide_eq_false_2 (_ ++ _ = [])) by by destruct heads.
  by rewrite <- app_assoc.
Qed.

Lemma small_max pcs : forall blk, pcs <> [] -> Forall pc_ok pcs ->
  Forall (fun pc => pc_blocks pc = 1) pcs -> packed blk pcs -> blk + zlen pcs <= 2 ^ 32.
Proof.
  induction pcs as [|pc pcs IH]; intros blk Hne Hok H1 Hp; [done|].
  apply Forall_cons in Hok as [(_&_&_&Hr) Hok]. apply Forall_cons in H1 as [Hone H1].
  destruct Hp as [Hb Hp]. rewrite zlen_cons. rewrite Hone in Hp.
  destruct pcs as [|pc' pcs]; [rewrite zlen_nil; lia|]. specialize (IH (blk + 1) ltac:(done) Hok H1 Hp). lia.
Qed.

(** *** Both *)

(** How the units of an index give the blocks of its pclusters. *)
Definition blocks_ok (big : bool) (us : list CUnit) (pcs : list Pcluster) : Prop :=
  if big then Forall big_ok pcs /\ (forall u us' pc pcs', us = u :: us' -> pcs = pc :: pcs' -> u.2 = pc_blk pc)
  else Forall (fun pc => pc_blocks pc = 1) pcs /\
    match pcs with [] => True | pc :: _ => bases_ok (pc_blk pc) us end.

Lemma resolve_compact_written lcsize advise us pcs :
  let big := negb (Z.land advise ADVISE_BIG_PCLUSTER =? 0) in
  0 <= lcsize -> Forall (fun u => u.1 <> [] /\ 0 <= u.2) us -> run_entries us = index_entries pcs ->
  Forall pc_ok pcs -> match pcs with [] => True | pc :: _ => packed (pc_blk pc) pcs end ->
  blocks_ok big us pcs -> zlen (index_entries pcs) * lcsize + 2 ^ 12 <= 2 ^ 64 ->
  resolve_compact_heads (unit_raws 0 us) lcsize advise = Ok (heads_of lcsize true 0 pcs).
Proof.
  intros big Hl Hus He Hok Hp Hbl Hn. unfold resolve_compact_heads. fold big.
  destruct pcs as [|pc pcs].
  { destruct us as [|[es base] us]; [by destruct big|].
    apply Forall_cons in Hus as [[Hu _] _]. unfold run_entries, index_entries in He. cbn in He. by destruct es. }
  set (pcs' := pc :: pcs) in *. destruct big.
  - destruct Hbl as [Hbig Hfirst].
    pose proof (unit_raws_say us 0) as Hs. rewrite He in Hs.
    destruct (resolve_big lcsize pcs' 0 _ [] ∅ None Hok Hbig Hs) as [cur' Hr]; [done|done|lia|].
    rewrite Hr. cbn [bindR app]. apply assign_blocks_written with (blk := pc_blk pc); [done|done|].
    destruct us as [|[es base] us]; [done|]. cbn [unit_raws]. apply Forall_cons in Hus as [[Hu _] _].
    pose proof (Hfirst _ _ _ _ eq_refl eq_refl) as Hf. cbn [fst snd] in *. destruct es as [|v es]; [done|].
    by cbn.
  - destruct Hbl as [Hone Hbases].
    destruct (small_heads_written lcsize pcs' [] 0 (pc_blk pc) Hok Hone Hp) as [Hh Hz].
    destruct (resolve_units lcsize us 0 0 [] ∅ None (pc_blk pc)) as (rh&cur&Hr); try done.
    + eapply Forall_impl; [exact Hus|]. by intros u [_ ?].
    + rewrite He, Hz. by apply small_max.
    + rewrite He. lia.
    + rewrite Hr. cbn [bindR]. by rewrite He, Hh.
Qed.

(** ** Properties *)

Lemma position_padded (p : byte -> bool) k b rest : 0 <= k -> p x00 = false -> p b = true ->
  position p (zeros k ++ b :: rest) = Some k.
Proof.
  intros Hk H0 Hb. rewrite position_first; [by rewrite zlen_zeros| |done].
  apply Forall_replicate. done.
Qed.

Lemma is_nonzero_true b : b <> x00 -> is_nonzero b = true.
Proof.
  intros Hb. unfold is_nonzero. apply negb_true_iff, Z.eqb_neq. intros E. apply Hb, u8_inj. exact E.
Qed.

Lemma slice_padded k l : 0 <= k -> slice (zeros k ++ l) k (zlen (zeros k ++ l)) = Ok l.
Proof.
  intros Hk. unfold slice. pose proof (get_from_app (zeros k) l k) as Hg. unfold get_from in Hg.
  by rewrite Hg by (by rewrite zlen_zeros).
Qed.

(** The frame magic is found behind the padding. *)
Lemma magic_position k rest : 0 <= k ->
  position (fun w => bool_decide (w = ZSTD_MAGIC)) (windows4 (zeros k ++ ZSTD_MAGIC ++ rest)) = Some k.
Proof.
  intros Hk. pose proof (zlen_nonneg rest). unfold windows4. set (l := zeros k ++ ZSTD_MAGIC ++ rest).
  assert (Hl : zlen l = k + 4 + zlen rest).
  { unfold l. rewrite !zlen_app, zlen_zeros by done. change (zlen ZSTD_MAGIC) with 4. lia. }
  replace (zlen l - 3) with (k + (1 + zlen rest)) by lia. rewrite seqZ_app, fmap_app by lia.
  rewrite (seqZ_cons (0 + k)) by lia. cbn [fmap list_fmap].
  rewrite position_first; [|apply Forall_fmap, Forall_forall; intros i [Hi0 Hi]%elem_of_seqZ|].
  - by rewrite zlen_fmap; unfold zlen; rewrite length_seqZ; f_equal; lia.
  - cbn. apply bool_decide_eq_false_2. intros E. apply (f_equal (fun w => get w 0)) in E.
    rewrite get_sub, Z.add_0_r in E by lia. unfold l in E.
    rewrite get_app_l in E by (rewrite zlen_zeros; lia). unfold zeros in E.
    apply get_Some in E as [_ E]. by apply lookup_replicate in E as [E _].
  - apply bool_decide_eq_true_2. unfold l. rewrite sub_app_r by (rewrite zlen_zeros; lia).
    rewrite zlen_zeros by done. replace (0 + k - k) with 0 by lia. apply (sub_0_app ZSTD_MAGIC rest).
Qed.

Section Properties.
Context {D : Decoders} {DL : DecoderLaws D}.

(** Right-aligned streams: behind any amount of zero padding, an LZ4 stream
    (on a volume with the padding feature), a ZSTD frame and a MicroLZMA stream
    are decoded from their own first byte, the last with the properties its first
    byte holds inverted. *)
Theorem erofs_padded_pcluster k outlen win dict_size : 0 <= k ->
  (forall b rest, b <> x00 ->
     lz4_pcluster (zeros k ++ b :: rest) outlen win true = lz4_block_with_dict (b :: rest) outlen win) /\
  (forall rest, zstd_pcluster (zeros k ++ ZSTD_MAGIC ++ rest) outlen
     = decode Zstd (ZSTD_MAGIC ++ rest) outlen) /\
  (forall b rest, 31 <= u8 b ->
     lzma_pcluster (zeros k ++ b :: rest) outlen dict_size
     = microlzma_block_decode (b :: rest) (255 - u8 b) dict_size outlen).
Proof.
  intros Hk. split; [|split].
  - intros b rest Hb. unfold lz4_pcluster. rewrite position_padded by (done || by apply is_nonzero_true).
    cbn [ok_or bindR]. rewrite slice_padded by done. cbn [bindR].
    destruct (lz4_block_with_dict (b :: rest) outlen win) as [v|e| | |] eqn:E; try done. cbn [bindR].
    apply lz4_dict_len in E as [-> _]. by rewrite Z.eqb_refl.
  - intros rest. unfold zstd_pcluster. rewrite magic_position by done. cbn [ok_or bindR].
    by rewrite slice_padded.
  - intros b rest Hb. unfold lzma_pcluster.
    assert (b <> x00) by (intros ->; change (u8 x00) with 0 in Hb; lia).
    rewrite position_padded by (done || by apply is_nonzero_true). cbn [ok_or bindR].
    assert (at_ (zeros k ++ b :: rest) k = Ok b) as ->.
    { apply at_Ok. pose proof (get_app_r (zeros k) (b :: rest) 0 ltac:(lia)) as Hg.
      rewrite zlen_zeros, Z.add_0_r in Hg by done. by rewrite Hg. }
    cbn [bindR]. rewrite Z.gtb_ltb. unfold LZMA_PROPS_MAX. rewrite (proj2 (Z.ltb_ge _ _)) by lia.
    by rewrite slice_padded.
Qed.

(** The length of a decoded pcluster: never more than its place in the file
    and, for every codec but ZSTD, exactly its place; a ZSTD frame that holds less
    is taken as it is, so the data of every later pcluster moves up. *)
Theorem erofs_pcluster_length ty algo span outlen prior dict zp v k rest : 0 <= outlen -> 0 <= k ->
  (decode_pcluster ty algo span outlen prior dict zp = Ok v ->
     zlen v <= outlen /\ (ty = LC_TYPE_PLAIN \/ algo <> ALGO_ZSTD -> zlen v = outlen)) /\
  (decode Zstd (ZSTD_MAGIC ++ rest) outlen = Ok v ->
     decode_pcluster LC_TYPE_HEAD1 ALGO_ZSTD (zeros k ++ ZSTD_MAGIC ++ rest) outlen prior dict zp = Ok v).
Proof.
  intros Ho Hk. split.
  - intros Hd. destruct (wp_Ok _ _ _ (decode_pcluster_wp (X := False) ty algo span outlen prior dict zp Ho) Hd)
      as [[? _] ?]. by split.
  - intros Hd. unfold decode_pcluster, decode_head.
    change (LC_TYPE_HEAD1 =? LC_TYPE_PLAIN) with false. change (_ || _) with true. cbn iota.
    change (ALGO_ZSTD =? ALGO_LZ4) with false. change (ALGO_ZSTD =? ALGO_DEFLATE) with false.
    change (ALGO_ZSTD =? ALGO_ZSTD) with true. cbn iota.
    unfold zstd_pcluster. rewrite magic_position by done. cbn [ok_or bindR]. by rewrite slice_padded.
Qed.
End Properties.

(** ** Witnesses *)

Lemma erofs_padded_pcluster_witness :
  lz4_pcluster (zeros 3 ++ bytes_of "abc") 3 [] true = Ok (bytes_of "abc").
Proof.
  destruct (erofs_padded_pcluster 3 3 [] 0) as (Hl&_&_); [lia|].
  assert (H0 : lz4_block_with_dict (x61 :: bytes_of "bc") 3 [] = Ok (bytes_of "abc")) by (vm_compute; reflexivity).
  rewrite <- H0. apply (Hl x61 (bytes_of "bc")). discriminate.
Defined.

(** A frame of three bytes where five belong. *)
Lemma erofs_pcluster_length_witness :
  decode_pcluster LC_TYPE_HEAD1 ALGO_ZSTD (zeros 2 ++ ZSTD_MAGIC ++ [x03] ++ bytes_of "abc") 5 [] None true
    = Ok (bytes_of "abc") /\ zlen (bytes_of "abc") <= 5.
Proof.
  destruct (erofs_pcluster_length LC_TYPE_HEAD1 ALGO_ZSTD (zeros 2 ++ ZSTD_MAGIC ++ [x03] ++ bytes_of "abc") 5 []
    None true (bytes_of "abc") 2 ([x03] ++ bytes_of "abc")) as [Hlen Hshort]; [lia|lia|].
  assert (Hd : decode Zstd (ZSTD_MAGIC ++ [x03] ++ bytes_of "abc") 5 = Ok (bytes_of "abc")) by (vm_compute; reflexivity).
  pose proof (Hshort Hd) as Hok. split; [exact Hok|]. apply Hlen. exact Hok.
Defined.
