(* ===== verification/Erofs.v ===== *)
(** * EROFS frontend ([crates/lamfold-erofs/src/erofs.rs])

    Superblock, inodes, the flat, chunked and compressed data layouts and the
    verified [read_at].  The mounted volume has two memo tables, [inodes] and
    [decoded], so its operations run in [ST (Erofs S)].  Sums of on-disk offsets
    the code does not check are [addw]. *)
From S2P Require Import Prelude Text Cache Substrate Verity Codec ErofsIndex.
Open Scope Z_scope.

Definition SUPER_OFFSET : Z := 1024.
Definition MAGIC : Z := 0xE0F5E1E2.
Definition SB_FEATURE_INCOMPAT : Z := 80.
Definition INCOMPAT_LZ4_0PADDING : Z := 0x0001.
Definition FLAT_PLAIN : Z := 0.
Definition FLAT_INLINE : Z := 2.
Definition CHUNK_BASED : Z := 4.
Definition CHUNK_BLKBITS_MASK : Z := 0x001f.
Definition CHUNK_INDEXES : Z := 0x0020.
Definition CHUNK_48BIT : Z := 0x0040.
Definition CHUNK_FORMAT_ALL : Z := 0x007f.
Definition NULL_BLKADDR : Z := 2 ^ 32 - 1.
Definition COMPRESSED_FULL : Z := 1.
Definition COMPRESSED_COMPACT : Z := 3.
Definition ADVISE_COMPACTED_2B : Z := 0x0001.
Definition ADVISE_INLINE_PCLUSTER : Z := 0x0008.
Definition ADVISE_INTERLACED_PCLUSTER : Z := 0x0010.
Definition ADVISE_FRAGMENT : Z := 0x0020.
Definition CLUSTERBITS_WHOLE_FILE_FRAGMENT : Z := 0x80.
Definition COMPR_ALGS_OFF : Z := 1024 + 84.
Definition SB_EXTSLOTS : Z := 13.
Definition SB_BASE_SIZE : Z := 128.
Definition SB_EXTSLOT_SIZE : Z := 16.
Definition COMPR_ALG_LZMA_BIT : Z := 0x0002.
Definition Z_EROFS_LEGACY_HEADER_SIZE : Z := 16.
Definition LI_HOLE : Z := Z.shiftl 1 14.

Record ErofsInode : Type := mkInode {
  ei_kind : FileKind;
  ei_size : Z;
  ei_mode : Z;
  ei_layout : Z;
  ei_raw_blkaddr : Z;
  ei_inline_off : Z;
}.

(** [self.src.read_at(..).is_err()]: an error is an answer. *)
Definition attempt {A} (r : Res A) : Res (option A) :=
  match r with
  | Ok a => Ok (Some a)
  | Err _ => Ok None
  | Panic => Panic
  | Overflow => Overflow
  | Diverge => Diverge
  end.

Section Erofs.
Context {D : Decoders} {S : Type} `{BlockSource S}.

Record Erofs : Type := mkErofs {
  er_src : S;
  er_block_size : Z;
  er_blkszbits : Z;
  er_lz4_zero_padding : bool;
  er_meta_off : Z;
  er_root_nid : Z;
  er_inodes : gmap Z ErofsInode;
  er_decoded : gmap Z (list byte);
  er_lzma_dict_size : option Z;
  er_compr_cfgs_off : Z;
}.
Implicit Types fs : Erofs.

(** The assignments to the memo tables. *)
Definition set_inodes fs (inodes : gmap Z ErofsInode) : Erofs :=
  mkErofs (er_src fs) (er_block_size fs) (er_blkszbits fs) (er_lz4_zero_padding fs) (er_meta_off fs)
    (er_root_nid fs) inodes (er_decoded fs) (er_lzma_dict_size fs) (er_compr_cfgs_off fs).
Definition set_decoded fs (decoded : gmap Z (list byte)) : Erofs :=
  mkErofs (er_src fs) (er_block_size fs) (er_blkszbits fs) (er_lz4_zero_padding fs) (er_meta_off fs)
    (er_root_nid fs) (er_inodes fs) decoded (er_lzma_dict_size fs) (er_compr_cfgs_off fs).

Definition kind_of (mode : Z) : FileKind :=
  let t := Z.land mode 0xF000 in
  if t =? 0x8000 then Regular else if t =? 0x4000 then Directory
  else if t =? 0xA000 then Symlink else Other.

Definition xattr_size (xattr_icount : Z) : Z :=
  if xattr_icount =? 0 then 0 else 12 + (xattr_icount - 1) * 4.

(** The inode of [nid] as [parse_inode] reads it from the medium. *)
Definition read_inode fs (nid : Z) : Res ErofsInode :=
  let! off := ok_or (x ← checked_mul 64 nid 32; checked_add 64 (er_meta_off fs) x)
                (Corrupt "erofs: inode offset overflow") in
  let! hdr := read_into (er_src fs) off (zeros 64) 0 32 in
  let! format := le_u16 hdr 0 in
  let extended := negb (Z.land format 1 =? 0) in
  let inode_size := if extended then 64 else 32 in
  let! hdr := if extended then
                let! off2 := addw 64 off 32 in read_into (er_src fs) off2 hdr 32 64
              else Ok hdr in
  let! xattr_icount := le_u16 hdr 2 in
  let! mode := le_u16 hdr 4 in
  let! size := if extended then le_u64 hdr 8 else le_u32 hdr 8 in
  let! raw_blkaddr := le_u32 hdr 16 in
  let layout := Z.land (Z.shiftr format 1) 7 in
  let! o := addw 64 off inode_size in
  let! inline_off := addw 64 o (xattr_size xattr_icount) in
  Ok (mkInode (kind_of mode) size mode layout raw_blkaddr inline_off).

Definition parse_inode (nid : NodeId) : ST Erofs unit := fun fs =>
  match er_inodes fs !! nid with
  | Some _ => (Ok tt, fs)
  | None =>
      match read_inode fs nid with
      | Ok i => (Ok tt, set_inodes fs (<[nid := i]> (er_inodes fs)))
      | Err e => (Err e, fs)
      | Panic => (Panic, fs)
      | Overflow => (Overflow, fs)
      | Diverge => (Diverge, fs)
      end
  end.

Definition inode fs (nid : NodeId) : Res ErofsInode := ok_or (er_inodes fs !! nid) NotFound.

(** ** Compressed data *)

Definition read_span fs (blkaddr cblkcnt : Z) : Res (list byte) :=
  let bs := er_block_size fs in
  let phys := blkaddr * bs in
  let want := cblkcnt * bs in
  let avail := Z.min want (saturating_sub (src_len (er_src fs)) phys) in
  if avail =? 0 then Err (Corrupt "erofs: pcluster span out of range")
  else src_read_at (er_src fs) phys avail.

(** One lcluster of a FULL index. *)
Definition full_step fs (idx0 lcsize i : Z) (heads : list Head) : Res (list Head) :=
  let! at_ := addw 64 idx0 (i * 8) in
  let! e := src_read_at (er_src fs) at_ 8 in
  let advise := le_num (sub e 0 2) in
  let ty := Z.land advise 3 in
  if ty =? LC_TYPE_NONHEAD then Ok heads
  else if negb (Z.land advise LI_HOLE =? 0) then Err (Unsupported "erofs: hole pcluster not supported")
  else
    let clusterofs := le_num (sub e 2 2) in
    let blkaddr := le_num (sub e 4 4) in
    let! start :=
      match heads with
      | [] => Ok 0
      | _ => let! at_ := mulw 64 i lcsize in addw 64 at_ clusterofs
      end in
    Ok (heads ++ [mkHead start ty blkaddr 1]).

Definition build_heads_full fs (mh lcsize n_lc : Z) : Res (list Head) :=
  let! idx0 := addw 64 mh Z_EROFS_LEGACY_HEADER_SIZE in
  for_loop (Z.to_nat n_lc) 0 (full_step fs idx0 lcsize) [].

Definition build_heads_compact fs (ebase lcsize n_lc advise : Z) : Res (list Head) :=
  let ebrem := Z.land ebase 31 in
  let c4i := Z.min (Z.land ((32 - ebrem) / 4) 7) n_lc in
  let c2b := (n_lc - c4i) / 16 * 16 in
  let c4f := n_lc - c4i - c2b in
  let idx_len := div_ceil c4i 2 * 8 + c2b / 16 * 32 + div_ceil c4f 2 * 8 in
  let! cap := checked_full_read_len idx_len in
  let! buf := src_read_at (er_src fs) ebase cap in
  let! s := read_4b_groups buf c4i (0, 0, []) in
  let! s := read_2b_packs buf c2b s in
  let! (_, _, raw) := read_4b_groups buf c4f s in
  resolve_compact_heads raw lcsize advise.

(** The loop over the heads; [out] is the output so far. *)
Fixpoint decode_heads fs (i_size head1_algo head2_algo : Z) (heads : list Head) (out : list byte)
    : Res (list byte) :=
  match heads with
  | [] => Ok out
  | h :: rest =>
      let next := match rest with [] => i_size | n :: _ => hd_start n end in
      if next <? hd_start h then Err (Corrupt "erofs: non-monotonic pcluster starts")
      else
        let outlen := next - hd_start h in
        if outlen =? 0 then decode_heads fs i_size head1_algo head2_algo rest out
        else
          let algo := if hd_ty h =? LC_TYPE_HEAD2 then head2_algo else head1_algo in
          let! span := read_span fs (hd_blkaddr h) (hd_cblkcnt h) in
          let! seg := decode_pcluster (hd_ty h) algo span outlen out
                        (er_lzma_dict_size fs) (er_lz4_zero_padding fs) in
          decode_heads fs i_size head1_algo head2_algo rest (out ++ seg)
  end.

(** The map header of a compressed inode: advise bits, the two head algorithms
    and the bits of the logical cluster size. *)
Definition read_map_header fs (mh : Z) : Res (Z * Z * Z * Z) :=
  let! hdr := src_read_at (er_src fs) mh 8 in
  let advise := le_num (sub hdr 4 2) in
  let b6 := le_num (sub hdr 6 1) in
  let b7 := le_num (sub hdr 7 1) in
  let head1_algo := Z.land b6 0x0f in
  let head2_algo := Z.land (Z.shiftr b6 4) 0x0f in
  if negb (Z.land b7 CLUSTERBITS_WHOLE_FILE_FRAGMENT =? 0)
     || negb (Z.land advise (Z.lor (Z.lor ADVISE_INLINE_PCLUSTER ADVISE_INTERLACED_PCLUSTER) ADVISE_FRAGMENT) =? 0)
  then Err (Unsupported "erofs: ztailpacking / fragment / interlaced pclusters not supported")
  else
    let lcbits := er_blkszbits fs + Z.land b7 0x0f in
    if lcbits >? 30 then Err (Corrupt "erofs: implausible lclusterbits")
    else Ok (advise, head1_algo, head2_algo, lcbits).

Definition build_heads fs (layout mh advise lcbits n_lc : Z) : Res (list Head) :=
  let lcsize := Z.shiftl 1 lcbits in
  if layout =? COMPRESSED_FULL then build_heads_full fs mh lcsize n_lc
  else if layout =? COMPRESSED_COMPACT then
    if lcbits >? COMPACT_LOBITS
    then Err (Unsupported "erofs: compact index with lclusterbits above 12")
    else if Z.land advise ADVISE_COMPACTED_2B =? 0
    then Err (Unsupported "erofs: all-4B compact index (COMPACTED_2B clear) not supported")
    else
      let! ebase := addw 64 mh 8 in
      build_heads_compact fs ebase lcsize n_lc advise
  else Err (Corrupt "erofs: inode is not compressed").

(** The whole data of a compressed inode, as [materialize_compressed] decodes it. *)
Definition decode_compressed fs (i : ErofsInode) : Res (list byte) :=
  let! mh := addw 64 (ei_inline_off i) 7 in
  let mh := Z.land mh (Z.lnot 7) in
  let! _ := checked_full_read_len (ei_size i) in
  let! (advise, head1_algo, head2_algo, lcbits) := read_map_header fs mh in
  let n_lc := div_ceil (ei_size i) (Z.shiftl 1 lcbits) in
  let! heads := build_heads fs (ei_layout i) mh advise lcbits n_lc in
  decode_heads fs (ei_size i) head1_algo head2_algo heads [].

Definition materialize_compressed (nid : NodeId) : ST Erofs unit := fun fs =>
  match er_decoded fs !! nid with
  | Some _ => (Ok tt, fs)
  | None =>
      match (let! i := inode fs nid in decode_compressed fs i) with
      | Ok out => (Ok tt, set_decoded fs (<[nid := out]> (er_decoded fs)))
      | Err e => (Err e, fs)
      | Panic => (Panic, fs)
      | Overflow => (Overflow, fs)
      | Diverge => (Diverge, fs)
      end
  end.

(** ** Inode data *)

(** One turn of the [while p < end] loop of the inline layout. *)
Definition inline_round fs (base inline_off full_bytes off end_ : Z) (s : Z * list byte)
    : Res ((Z * list byte) + list byte) :=
  let '(p, buf) := s in
  if negb (p <? end_) then Ok (inr buf)
  else
    let! (disk, seg_end) :=
      if p <? full_bytes then
        let! d := addw 64 base p in Ok (d, Z.min end_ full_bytes)
      else
        let! d := addw 64 inline_off (p - full_bytes) in Ok (d, end_) in
    let n := seg_end - p in
    let bo := p - off in
    let! buf := read_into (er_src fs) disk buf bo (bo + n) in
    Ok (inl (seg_end, buf)).

(** One turn of the [while p < end] loop of [read_chunked]. *)
Definition chunk_round fs (chunk table off end_ : Z) (s : Z * list byte)
    : Res ((Z * list byte) + list byte) :=
  let '(p, buf) := s in
  if negb (p <? end_) then Ok (inr buf)
  else
    let idx := p / chunk in
    let within := p mod chunk in
    let! lim := mulw 64 (idx + 1) chunk in
    let seg_end := Z.min end_ lim in
    let n := seg_end - p in
    let bo := p - off in
    let! at_ := addw 64 table (idx * 4) in
    let! e := src_read_at (er_src fs) at_ 4 in
    let blkaddr := le_num e in
    let! buf :=
      if blkaddr =? NULL_BLKADDR then write_at buf bo (zeros n)
      else
        let disk := blkaddr * er_block_size fs + within in
        read_into (er_src fs) disk buf bo (bo + n) in
    Ok (inl (seg_end, buf)).

Definition read_chunked fs (raw_blkaddr inline_off off end_ : Z) (buf : list byte)
    : Res (Z * list byte) :=
  let format := Z.land raw_blkaddr 0xffff in
  if negb (Z.land format (Z.lnot CHUNK_FORMAT_ALL) =? 0)
  then Err (Corrupt "erofs: unknown chunk format bits")
  else if negb (Z.land format CHUNK_48BIT =? 0)
  then Err (Unsupported "erofs: 48-bit chunk indexes not supported")
  else
    let chunkbits := er_blkszbits fs + Z.land format CHUNK_BLKBITS_MASK in
    if chunkbits >? 40 then Err (Corrupt "erofs: implausible chunk size")
    else if negb (Z.land format CHUNK_INDEXES =? 0)
    then Err (Unsupported "erofs: chunk indexes not supported")
    else
      let chunk := Z.shiftl 1 chunkbits in
      let! t := addw 64 inline_off 3 in
      let table := Z.land t (Z.lnot 3) in
      let! buf := loop (chunk_round fs chunk table off end_) (off, buf) in
      Ok (end_ - off, buf).

(** The layouts that are read from the medium on the spot. *)
Definition read_flat fs (i : ErofsInode) (off end_ : Z) (buf : list byte) : Res (Z * list byte) :=
  let total := end_ - off in
  let bs := er_block_size fs in
  if ei_layout i =? FLAT_PLAIN then
    let base := ei_raw_blkaddr i * bs in
    let! d := addw 64 base off in
    let! buf := read_into (er_src fs) d buf 0 total in
    Ok (total, buf)
  else if ei_layout i =? FLAT_INLINE then
    let full_bytes := ei_size i / bs * bs in
    let base := ei_raw_blkaddr i * bs in
    let! buf := loop (inline_round fs base (ei_inline_off i) full_bytes off end_) (off, buf) in
    Ok (total, buf)
  else if ei_layout i =? CHUNK_BASED then
    read_chunked fs (ei_raw_blkaddr i) (ei_inline_off i) off end_ buf
  else Err (Unsupported "erofs: unknown datalayout").

Definition is_compressed (layout : Z) : bool := (layout =? COMPRESSED_FULL) || (layout =? COMPRESSED_COMPACT).

(** The window of decoded data that goes to the front of [buf]. *)
Definition copy_decoded (data : list byte) (off total : Z) (buf : list byte) : Res (Z * list byte) :=
  let! seg := ok_or (get_range data off (off + total)) (Corrupt "erofs: decoded read past end") in
  let! buf := write_at buf 0 seg in
  Ok (total, buf).

Definition read_inode_data (nid : NodeId) (off : Z) (buf : list byte) : ST Erofs (Z * list byte) :=
  let* fs := getST in
  let* i := liftR (inode fs nid) in
  if off >=? ei_size i then retST (0, buf)
  else
    let* lim := liftR (addw 64 off (zlen buf)) in
    let end_ := Z.min lim (ei_size i) in
    if is_compressed (ei_layout i) then
      let* _ := materialize_compressed nid in
      let* fs := getST in
      let* data := liftR (ok_or (er_decoded fs !! nid) (Corrupt "erofs: decode cache miss")) in
      liftR (copy_decoded data off (end_ - off) buf)
    else liftR (read_flat fs i off end_ buf).

(** ** Mounting *)

(** The walk over the config blobs, in algorithm-bit order. *)
Fixpoint lzma_cfg_walk fs (algs cur : Z) (alg_list : list Z) : Res (option Z) :=
  match alg_list with
  | [] => Ok None
  | alg :: rest =>
      if Z.land algs (Z.shiftl 1 alg) =? 0 then lzma_cfg_walk fs algs cur rest
      else
        let! sz := attempt (src_read_at (er_src fs) cur 2) in
        match sz with
        | None => Ok None
        | Some sz =>
            let size := le_num sz in
            if alg =? ALGO_LZMA then
              let! pay := attempt (src_read_at (er_src fs) (cur + 2) 6) in
              match pay with
              | None => Ok None
              | Some pay =>
                  let dict := le_num (sub pay 0 4) in
                  let format := le_num (sub pay 4 2) in
                  Ok (if format =? 0 then Some dict else None)
              end
            else lzma_cfg_walk fs algs (cur + (2 + size)) rest
        end
  end.

(** The value [parse_lzma_cfg] leaves in [lzma_dict_size]. *)
Definition parse_lzma_cfg fs : Res (option Z) :=
  let! algs := attempt (src_read_at (er_src fs) COMPR_ALGS_OFF 2) in
  match algs with
  | None => Ok None
  | Some algs =>
      let algs := le_num algs in
      if Z.land algs COMPR_ALG_LZMA_BIT =? 0 then Ok None
      else lzma_cfg_walk fs algs (er_compr_cfgs_off fs) (seqZ 0 16)
  end.

Definition erofs_probe (src : S) : Res bool :=
  if src_len src <? SUPER_OFFSET + 4 then Ok false
  else let! m := src_read_at src SUPER_OFFSET 4 in Ok (le_num m =? MAGIC).

(** The volume as the superblock gives it. *)
Definition read_superblock (src : S) : Res Erofs :=
  if src_len src <? SUPER_OFFSET + 128 then Err (Corrupt "erofs: source shorter than superblock")
  else
    let! sb := src_read_at src SUPER_OFFSET 128 in
    let! magic := le_u32 sb 0 in
    if negb (magic =? MAGIC) then Err (Corrupt "erofs: bad magic")
    else
      let! b12 := at_ sb 12 in
      let blkszbits := u8 b12 in
      if negb ((9 <=? blkszbits) && (blkszbits <=? 16)) then Err (Corrupt "erofs: implausible blkszbits")
      else
        let block_size := Z.shiftl 1 blkszbits in
        let! incompat := le_u32 sb SB_FEATURE_INCOMPAT in
        let! _ := refuse_unsupported_features sb incompat in
        let! root_nid := le_u16 sb 14 in
        let! meta_blkaddr := le_u32 sb 40 in
        let meta_off := meta_blkaddr * block_size in
        let! slots := at_ sb SB_EXTSLOTS in
        Ok (mkErofs src block_size blkszbits (negb (Z.land incompat INCOMPAT_LZ4_0PADDING =? 0)) meta_off
              root_nid ∅ ∅ None (SUPER_OFFSET + SB_BASE_SIZE + u8 slots * SB_EXTSLOT_SIZE)).

Definition set_lzma fs (dict : option Z) : Erofs :=
  mkErofs (er_src fs) (er_block_size fs) (er_blkszbits fs) (er_lz4_zero_padding fs) (er_meta_off fs)
    (er_root_nid fs) (er_inodes fs) (er_decoded fs) dict (er_compr_cfgs_off fs).

Definition erofs_open (src : S) : Res Erofs :=
  let! me := read_superblock src in
  let! dict := parse_lzma_cfg me in
  let me := set_lzma me dict in
  let (r, me) := parse_inode (er_root_nid me) me in
  let! _ := r in
  Ok me.

Definition erofs_root fs : NodeId := er_root_nid fs.

(** ** Operations *)

(** One turn of the [while start < data.len()] loop of [read_dir]. *)
Definition dir_round (bs : Z) (data : list byte) (s : Z * list (name * Z * Z))
    : Res ((Z * list (name * Z * Z)) + list (name * Z * Z)) :=
  let '(start, raw) := s in
  if negb (start <? zlen data) then Ok (inr raw)
  else
    let block_end := Z.min (start + bs) (zlen data) in
    let! block := slice data start block_end in
    let! raw := parse_dir_block block raw in
    Ok (inl (block_end, raw)).

Definition erofs_read_dir (dir : NodeId) : ST Erofs (list DirEntry) :=
  let* _ := parse_inode dir in
  let* fs := getST in
  let* i := liftR (inode fs dir) in
  if negb (bool_decide (ei_kind i = Directory)) then errST NotDirectory
  else
    let* size := liftR (checked_full_read_len (ei_size i)) in
    let* (_, data) := read_inode_data dir 0 (zeros size) in
    let* raw := liftR (loop (dir_round (er_block_size fs) data) (0, [])) in
    retST ((fun '(nm, nid, file_type) => mkDirEntry nm nid (ft_kind file_type)) <$> raw).

Definition erofs_lookup (dir : NodeId) (nm : name) : ST Erofs (option NodeId) :=
  let* es := erofs_read_dir dir in retST (find_entry nm es).

Definition erofs_metadata (node : NodeId) : ST Erofs Metadata :=
  let* _ := parse_inode node in
  let* fs := getST in
  let* i := liftR (inode fs node) in
  retST (mkMetadata (ei_kind i) (ei_size i) (Z.land (ei_mode i) 0xfff)).

(** What [read_at] copies from a verified block to the caller's buffer. *)
Definition copy_block (off end_ block_start : Z) (block buf : list byte) (produced : Z)
    : Res (Z * list byte) :=
  let copy_start := Z.max off block_start in
  let copy_end := Z.min end_ (block_start + zlen block) in
  if copy_end >? copy_start then
    let src_lo := copy_start - block_start in
    let dst_lo := copy_start - off in
    let cnt := copy_end - copy_start in
    let! seg := slice block src_lo (src_lo + cnt) in
    let! buf := write_at buf dst_lo seg in
    Ok (produced + cnt, buf)
  else Ok (produced, buf).

(** One turn of the [while block_start < end] loop: read a whole block, verify it,
    copy.  The state is the block's start, the block buffer, the count and the
    caller's buffer. *)
Definition read_round (v : Verifier) (node : NodeId) (bs size off end_ : Z)
    (s : Z * list byte * Z * list byte)
    : ST Erofs ((Z * list byte * Z * list byte) + (Z * list byte)) :=
  let '(block_start, block, produced, buf) := s in
  if negb (block_start <? end_) then retST (inr (produced, buf))
  else
    let block_len := Z.min bs (size - block_start) in
    let* window := liftR (slice block 0 block_len) in
    let* (_, window) := read_inode_data node block_start window in
    let* block := liftR (write_at block 0 window) in
    let* _ := liftR (verify_block v node block_start window) in
    let* (produced, buf) := liftR (copy_block off end_ block_start window buf produced) in
    let* next := liftR (addw 64 block_start bs) in
    retST (inl (next, block, produced, buf)).

Definition erofs_read_at (v : Verifier) (node : NodeId) (off : Z) (buf : list byte)
    : ST Erofs (Z * list byte) :=
  let* _ := parse_inode node in
  let* fs := getST in
  let* i := liftR (inode fs node) in
  if bool_decide (ei_kind i = Directory) then errST IsDirectory
  else if off >=? ei_size i then retST (0, buf)
  else
    let bs := er_block_size fs in
    let* lim := liftR (addw 64 off (zlen buf)) in
    let end_ := Z.min lim (ei_size i) in
    let block_start := off / bs * bs in
    loopST (read_round v node bs (ei_size i) off end_) (block_start, zeros bs, 0, buf).

Definition erofs_read_link (node : NodeId) : ST Erofs (option (list byte)) :=
  let* _ := parse_inode node in
  let* fs := getST in
  let* i := liftR (inode fs node) in
  if negb (bool_decide (ei_kind i = Symlink)) then retST None
  else
    let* len := liftR (checked_full_read_len (ei_size i)) in
    let* (_, target) := read_inode_data node 0 (zeros len) in
    retST (Some target).
End Erofs.
Arguments Erofs S : clear implicits.

#[export] Instance Erofs_Frontend {D : Decoders} {S} `{BlockSource S} : FoldFrontend (Erofs S) S := {
  TAG := "erofs";
  probe := erofs_probe;
  open_ src cx := (erofs_open src, cx);
  root := erofs_root;
  lookup_ d nm := on_frontend (erofs_lookup d nm);
  read_dir d := on_frontend (erofs_read_dir d);
  metadata n := on_frontend (erofs_metadata n);
  read_at n off buf := fun '(fs, cx) => on_frontend (erofs_read_at (cx_verifier cx) n off buf) (fs, cx);
  read_link n := on_frontend (erofs_read_link n);
}.

(** ** The cacheless reference

    What the operations answer as functions of the volume's fixed fields only: an
    inode is parsed and a compressed inode decoded at every use. *)
Section Reference.
Context {D : Decoders} {S : Type} `{BlockSource S}.
Implicit Types b fs : Erofs S.

Definition ref_data b (i : ErofsInode) (off : Z) (buf : list byte) : Res (Z * list byte) :=
  if off >=? ei_size i then Ok (0, buf)
  else
    let! lim := addw 64 off (zlen buf) in
    let end_ := Z.min lim (ei_size i) in
    if is_compressed (ei_layout i) then
      let! data := decode_compressed b i in copy_decoded data off (end_ - off) buf
    else read_flat b i off end_ buf.

Definition ref_dir_entries b (i : ErofsInode) : Res (list DirEntry) :=
  if negb (bool_decide (ei_kind i = Directory)) then Err NotDirectory
  else
    let! size := checked_full_read_len (ei_size i) in
    let! (_, data) := ref_data b i 0 (zeros size) in
    let! raw := loop (dir_round (er_block_size b) data) (0, []) in
    Ok ((fun '(nm, nid, file_type) => mkDirEntry nm nid (ft_kind file_type)) <$> raw).

Definition ref_metadata (i : ErofsInode) : Res Metadata :=
  Ok (mkMetadata (ei_kind i) (ei_size i) (Z.land (ei_mode i) 0xfff)).

Definition ref_round (v : Verifier) b (i : ErofsInode) (node : NodeId) (off end_ : Z)
    (s : Z * list byte * Z * list byte)
    : Res ((Z * list byte * Z * list byte) + (Z * list byte)) :=
  let '(block_start, block, produced, buf) := s in
  if negb (block_start <? end_) then Ok (inr (produced, buf))
  else
    let block_len := Z.min (er_block_size b) (ei_size i - block_start) in
    let! window := slice block 0 block_len in
    let! (_, window) := ref_data b i block_start window in
    let! block := write_at block 0 window in
    let! _ := verify_block v node block_start window in
    let! (produced, buf) := copy_block off end_ block_start window buf produced in
    let! next := addw 64 block_start (er_block_size b) in
    Ok (inl (next, block, produced, buf)).

Definition ref_read_at (v : Verifier) b (node : NodeId) (i : ErofsInode) (off : Z) (buf : list byte)
    : Res (Z * list byte) :=
  if bool_decide (ei_kind i = Directory) then Err IsDirectory
  else if off >=? ei_size i then Ok (0, buf)
  else
    let bs := er_block_size b in
    let! lim := addw 64 off (zlen buf) in
    let end_ := Z.min lim (ei_size i) in
    loop (ref_round v b i node off end_) (off / bs * bs, zeros bs, 0, buf).

Definition ref_read_link b (i : ErofsInode) : Res (option (list byte)) :=
  if negb (bool_decide (ei_kind i = Symlink)) then Ok None
  else
    let! len := checked_full_read_len (ei_size i) in
    let! (_, target) := ref_data b i 0 (zeros len) in
    Ok (Some target).

(** The volume without its memo tables, and their coherence: every entry is what
    the medium gives. *)
Definition bare fs : Erofs S := set_decoded (set_inodes fs ∅) ∅.

Record coherent b fs : Prop := mkCoherent {
  co_bare : bare fs = b;
  co_inodes : forall nid i, er_inodes fs !! nid = Some i -> read_inode b nid = Ok i;
  co_decoded : forall nid d, er_decoded fs !! nid = Some d ->
    exists i, read_inode b nid = Ok i /\ decode_compressed b i = Ok d;
}.
Definition known b nid i fs : Prop := coherent b fs /\ er_inodes fs !! nid = Some i.

Lemma read_inode_bare fs nid : read_inode (bare fs) nid = read_inode fs nid.
Proof. reflexivity. Qed.
Lemma decode_heads_bare fs i_size a1 a2 heads : forall out,
  decode_heads (bare fs) i_size a1 a2 heads out = decode_heads fs i_size a1 a2 heads out.
Proof.
  induction heads as [|h heads IH]; intros out; [done|]. cbn [decode_heads].
  destruct (_ <? hd_start h); [done|]. destruct (_ =? 0); [done|].
  change (read_span (bare fs)) with (read_span fs). destruct (read_span fs _ _); try done. cbn [bindR].
  change (er_lzma_dict_size (bare fs)) with (er_lzma_dict_size fs).
  change (er_lz4_zero_padding (bare fs)) with (er_lz4_zero_padding fs).
  destruct (decode_pcluster _ _ _ _ _ _ _); try done. apply IH.
Qed.
Lemma decode_compressed_bare fs i : decode_compressed (bare fs) i = decode_compressed fs i.
Proof.
  unfold decode_compressed. destruct (addw _ _ _); try done. cbn [bindR].
  destruct (checked_full_read_len _); try done. cbn [bindR].
  change (read_map_header (bare fs)) with (read_map_header fs).
  destruct (read_map_header fs _) as [[[[adv a1] a2] lc]|e| | |]; try done. cbn [bindR].
  change (build_heads (bare fs)) with (build_heads fs).
  destruct (build_heads fs _ _ _ _ _); try done. apply decode_heads_bare.
Qed.
Lemma read_flat_bare fs i off end_ buf : read_flat (bare fs) i off end_ buf = read_flat fs i off end_ buf.
Proof. reflexivity. Qed.

Lemma known_coherent b nid i fs : known b nid i fs -> coherent b fs.
Proof. by intros []. Qed.

(** [parse_inode] makes the inode known, if it parses. *)
Lemma parse_inode_ok b nid fs : coherent b fs ->
  exists fs', parse_inode nid fs = ((let! _ := read_inode b nid in Ok tt), fs') /\ coherent b fs' /\
    forall i, read_inode b nid = Ok i -> known b nid i fs'.
Proof.
  intros Hc. unfold parse_inode. destruct (er_inodes fs !! nid) as [i|] eqn:Ei.
  - pose proof (co_inodes _ _ Hc _ _ Ei) as Hi. rewrite Hi. exists fs. split; [done|]. split; [done|].
    by intros ? [= <-].
  - rewrite <- read_inode_bare, (co_bare _ _ Hc).
    destruct (read_inode b nid) as [i|e| | |] eqn:Hi; try by exists fs. cbn [bindR].
    set (fs' := set_inodes fs _). assert (Hk : known b nid i fs').
    { split; [|apply lookup_insert_eq]. constructor.
      - by rewrite <- (co_bare _ _ Hc).
      - cbn [fs' set_inodes er_inodes]. intros n j. destruct (decide (n = nid)) as [->|].
        + rewrite lookup_insert_eq. by intros [= <-].
        + rewrite lookup_insert_ne by done. apply Hc.
      - apply Hc. }
    exists fs'. split; [done|]. split; [apply Hk|]. by intros ? [= <-].
Qed.

(** The operations start by looking their inode up. *)
Lemma with_inode {A} b node (k : Erofs S -> ErofsInode -> ST (Erofs S) A) kr :
  (forall i, read_inode b node = Ok i ->
     forall fs, known b node i fs -> exists fs', k fs i fs = (kr i, fs') /\ known b node i fs') ->
  computes (coherent b)
    (let* _ := parse_inode node in let* fs := getST in let* i := liftR (inode fs node) in k fs i)
    (let! i := read_inode b node in kr i) (coherent b).
Proof.
  intros Hk fs Hc. destruct (parse_inode_ok b node fs Hc) as (fs1&E&Hc1&Hk1).
  unfold bindST at 1. rewrite E. destruct (read_inode b node) as [i|e| | |] eqn:Hi; try by exists fs1.
  cbn [bindR]. destruct (Hk1 i eq_refl) as [_ Ei].
  unfold bindST at 1, getST. unfold bindST, liftR, inode. rewrite Ei. cbn [ok_or].
  destruct (Hk i eq_refl fs1) as (fs2&E2&[? _]); [done|]. exists fs2. by split.
Qed.

Lemma materialize_computes b nid i : read_inode b nid = Ok i -> forall fs, known b nid i fs ->
  exists fs', materialize_compressed nid fs = ((let! _ := decode_compressed b i in Ok tt), fs') /\
    known b nid i fs' /\ (forall d, decode_compressed b i = Ok d -> er_decoded fs' !! nid = Some d).
Proof.
  intros Hi fs [Hc Ek]. unfold materialize_compressed. destruct (er_decoded fs !! nid) as [d|] eqn:Ed.
  - destruct (co_decoded _ _ Hc _ _ Ed) as (j&Hj&Hd). assert (j = i) as -> by congruence.
    rewrite Hd. exists fs. split; [done|]. split; [done|]. by intros ? [= <-].
  - unfold inode. rewrite Ek. cbn [ok_or bindR]. rewrite <- decode_compressed_bare, (co_bare _ _ Hc).
    destruct (decode_compressed b i) as [d|e| | |] eqn:Hd; try (by exists fs).
    eexists. split; [reflexivity|]. split.
    + split; [|done]. constructor; [by rewrite <- (co_bare _ _ Hc)|apply Hc|].
      cbn [set_decoded er_decoded]. intros n dd. destruct (decide (n = nid)) as [->|].
      * rewrite lookup_insert_eq. intros [= <-]. by exists i.
      * rewrite lookup_insert_ne by done. apply Hc.
    + intros ? [= <-]. apply lookup_insert_eq.
Qed.

Lemma read_inode_data_computes b nid i off buf : read_inode b nid = Ok i ->
  computes (known b nid i) (read_inode_data nid off buf) (ref_data b i off buf) (known b nid i).
Proof.
  intros Hi fs Hk. pose proof Hk as [Hc Ek]. unfold read_inode_data, ref_data.
  unfold bindST at 1, getST. unfold bindST at 1, liftR at 1, inode. rewrite Ek. cbn [ok_or].
  destruct (off >=? ei_size i); [by exists fs|].
  unfold bindST at 1, liftR at 1. destruct (addw _ _ _) as [lim|e| | |]; try by exists fs.
  cbn [bindR]. destruct (is_compressed _).
  - destruct (materialize_computes b nid i Hi fs Hk) as (fs'&E&Hk'&Hd). unfold bindST at 1. rewrite E.
    destruct (decode_compressed b i) as [d|e| | |]; try by exists fs'. cbn [bindR].
    unfold bindST at 1, getST. unfold bindST, liftR. rewrite (Hd d) by done. cbn [ok_or]. by exists fs'.
  - exists fs. split; [|done]. unfold liftR. by rewrite <- read_flat_bare, (co_bare _ _ Hc).
Qed.
End Reference.

Section Answers.
Context {D : Decoders} {S : Type} `{BlockSource S}.
Implicit Types b fs : Erofs S.

Lemma known_bs b nid i fs : known b nid i fs -> er_block_size fs = er_block_size b.
Proof. intros [Hc _]. by rewrite <- (co_bare _ _ Hc). Qed.

Lemma read_dir_computes b dir :
  computes (coherent b) (erofs_read_dir dir) (let! i := read_inode b dir in ref_dir_entries b i) (coherent b).
Proof.
  apply with_inode. intros i Hi fs Hk. unfold ref_dir_entries. rewrite (known_bs _ _ _ _ Hk).
  destruct (negb _); [by exists fs|].
  eapply computes_bind; [apply computes_liftR| |exact Hk]. intros size _.
  eapply computes_bind; [by apply read_inode_data_computes|]. intros [n data] _.
  eapply computes_bind; [apply computes_liftR|]. intros raw _ fs' Hk'. by exists fs'.
Qed.

Lemma lookup_computes b dir nm :
  computes (coherent b) (erofs_lookup dir nm)
    (let! es := (let! i := read_inode b dir in ref_dir_entries b i) in Ok (find_entry nm es)) (coherent b).
Proof.
  eapply computes_bind; [apply read_dir_computes|]. intros es _ fs Hc. by exists fs.
Qed.

Lemma metadata_computes b node :
  computes (coherent b) (erofs_metadata node) (let! i := read_inode b node in ref_metadata i) (coherent b).
Proof. apply with_inode. intros i Hi fs Hk. by exists fs. Qed.

Lemma read_round_computes v b node i off end_ s : read_inode b node = Ok i ->
  computes (known b node i) (read_round v node (er_block_size b) (ei_size i) off end_ s)
    (ref_round v b i node off end_ s) (known b node i).
Proof.
  intros Hi. destruct s as [[[start block] produced] buf]. unfold read_round, ref_round.
  destruct (negb _); [intros fs ?; by exists fs|].
  eapply computes_bind; [apply computes_liftR|]. intros w _.
  eapply computes_bind; [by apply read_inode_data_computes|]. intros [n w'] _.
  eapply computes_bind; [apply computes_liftR|]. intros block' _.
  eapply computes_bind; [apply computes_liftR|]. intros [] _.
  eapply computes_bind; [apply computes_liftR|]. intros [p buf'] _.
  eapply computes_bind; [apply computes_liftR|]. intros next _ fs Hk. by exists fs.
Qed.

Lemma read_at_computes v b node off buf :
  computes (coherent b) (erofs_read_at v node off buf)
    (let! i := read_inode b node in ref_read_at v b node i off buf) (coherent b).
Proof.
  apply with_inode. intros i Hi fs Hk. unfold ref_read_at. rewrite (known_bs _ _ _ _ Hk).
  destruct (bool_decide _); [by exists fs|]. destruct (off >=? _); [by exists fs|].
  eapply computes_bind; [apply computes_liftR| |exact Hk]. intros lim _.
  apply computes_loop. intros s. by apply read_round_computes.
Qed.

Lemma read_link_computes b node :
  computes (coherent b) (erofs_read_link node) (let! i := read_inode b node in ref_read_link b i) (coherent b).
Proof.
  apply with_inode. intros i Hi fs Hk. unfold ref_read_link.
  destruct (negb _); [by exists fs|].
  eapply computes_bind; [apply computes_liftR| |exact Hk]. intros size _.
  eapply computes_bind; [by apply read_inode_data_computes|]. intros [n data] _ fs' Hk'. by exists fs'.
Qed.

(** The states a volume over [src] goes through: mounted, then used any number of
    times, with any verifiers. *)
Inductive Mounted (src : S) : Erofs S -> Prop :=
| Mounted_open fs : erofs_open src = Ok fs -> Mounted src fs
| Mounted_read_dir fs dir : Mounted src fs -> Mounted src (erofs_read_dir dir fs).2
| Mounted_lookup fs dir nm : Mounted src fs -> Mounted src (erofs_lookup dir nm fs).2
| Mounted_metadata fs node : Mounted src fs -> Mounted src (erofs_metadata node fs).2
| Mounted_read_at fs v node off buf : Mounted src fs -> Mounted src (erofs_read_at v node off buf fs).2
| Mounted_read_link fs node : Mounted src fs -> Mounted src (erofs_read_link node fs).2.

(** The volume before any memo, as [erofs_open] makes it. *)
Definition open_bare (src : S) : Res (Erofs S) :=
  let! me := read_superblock src in
  let! dict := parse_lzma_cfg me in
  Ok (set_lzma me dict).

Lemma erofs_open_eq src b : open_bare src = Ok b -> bare b = b ->
  erofs_open src = (let! i := read_inode b (er_root_nid b) in
    Ok (set_inodes b (<[er_root_nid b := i]> ∅))).
Proof.
  unfold open_bare, erofs_open. destruct (read_superblock src) as [me|e| | |]; try done. cbn [bindR].
  destruct (parse_lzma_cfg me) as [dict|e| | |]; try done. cbn [bindR]. intros [= <-] Hb.
  assert (Hm : er_inodes (set_lzma me dict) = ∅) by by rewrite <- Hb.
  unfold parse_inode. rewrite Hm, lookup_empty. by destruct (read_inode _ _).
Qed.

Lemma erofs_open_fails src : (forall b, open_bare src <> Ok b) ->
  erofs_open src = (let! b := open_bare src in Ok b).
Proof.
  unfold open_bare, erofs_open. destruct (read_superblock src) as [me|e| | |]; try done. cbn [bindR].
  destruct (parse_lzma_cfg me) as [dict|e| | |]; try done. cbn [bindR]. intros Hn. by destruct (Hn _ eq_refl).
Qed.

(** Every mounted state over a medium is coherent with the same bare volume. *)
Lemma mounted_coherent src b fs : open_bare src = Ok b -> bare b = b -> Mounted src fs -> coherent b fs.
Proof.
  intros Ho Hb. induction 1 as [fs Hfs|fs ? _ Hc|fs ? ? _ Hc|fs ? _ Hc|fs ? ? ? ? _ Hc|fs ? _ Hc].
  - rewrite (erofs_open_eq src b Ho Hb) in Hfs. apply bindR_Ok in Hfs as (i&Hi&[= <-]).
    constructor; [by rewrite <- Hb at 2| |].
    + cbn [set_inodes er_inodes]. intros nid j [[<- <-]|[_ ?]]%lookup_insert_Some; [done|].
      by rewrite lookup_empty in *.
    + cbn [set_inodes er_decoded]. rewrite <- Hb. intros *. cbn. by rewrite lookup_empty.
  - by destruct (read_dir_computes b dir fs Hc) as (fs'&->&?).
  - by destruct (lookup_computes b dir nm fs Hc) as (fs'&->&?).
  - by destruct (metadata_computes b node fs Hc) as (fs'&->&?).
  - by destruct (read_at_computes v b node off buf fs Hc) as (fs'&->&?).
  - by destruct (read_link_computes b node fs Hc) as (fs'&->&?).
Qed.
End Answers.

(** ** Lemmas: every call comes back or overflows *)

Definition inode_ok (i : ErofsInode) : Prop :=
  0 <= ei_size i < 2 ^ 64 /\ 0 <= ei_raw_blkaddr i < 2 ^ 32 /\ 0 <= ei_inline_off i < 2 ^ 64.

Lemma wp_attempt {X : Prop} {A} (m : Res A) (P : A -> Prop) (Q : option A -> Prop) :
  wpx X m P -> (forall a, P a -> Q (Some a)) -> Q None -> wpx X (attempt m) Q.
Proof. destruct m; simpl; auto. Qed.

(** The little-endian number of a short read. *)
Lemma le_num_width l n : zlen l = n -> 0 <= le_num l < 256 ^ n.
Proof. intros <-. apply le_num_range. Qed.

Lemma sub_num_lt l lo n : 0 <= lo -> 0 <= n -> lo + n <= zlen l -> 0 <= le_num (sub l lo n) < 256 ^ n.
Proof. intros. apply le_num_width. by apply zlen_sub. Qed.

Lemma xattr_size_range n : 0 <= n < 2 ^ 16 -> 0 <= xattr_size n < 2 ^ 19.
Proof. intros Hn. unfold xattr_size. destruct (Z.eqb_spec n 0); lia. Qed.

Section Laws.
Context {D : Decoders} {DL : DecoderLaws D} {S : Type} `{SourceLaws S}.
Implicit Types b fs : Erofs S.

(** What the superblock of a mounted volume satisfies. *)
Record geo_ok b : Prop := mkGeoOk {
  ok_src : src_valid (er_src b);
  ok_bs : er_block_size b = 2 ^ er_blkszbits b;
  ok_bits : 9 <= er_blkszbits b <= 16;
  ok_meta : 0 <= er_meta_off b < 2 ^ 48;
  ok_root : 0 <= er_root_nid b < 2 ^ 16;
  ok_cfgs : 0 <= er_compr_cfgs_off b < 2 ^ 13;
}.

Lemma bs_range b : geo_ok b -> 2 ^ 9 <= er_block_size b <= 2 ^ 16.
Proof.
  intros Hg. rewrite (ok_bs _ Hg). pose proof (ok_bits _ Hg).
  split; apply Z.pow_le_mono_r; lia.
Qed.

Ltac wp_field := apply wp_bind, wp_le_field; intros ? ? _;
  change (256 ^ 2) with (2 ^ 16) in *; change (256 ^ 4) with (2 ^ 32) in *;
  change (256 ^ 8) with (2 ^ 64) in *.

Lemma erofs_read_inode_wp b nid : geo_ok b -> 0 <= nid -> wpx True (read_inode b nid) inode_ok.
Proof.
  intros Hg Hn. pose proof (ok_meta _ Hg). unfold read_inode. apply wp_bind, wp_ok_or.
  intros off (x&[? ->]%checked_mul_Some&[? ->]%checked_add_Some)%bind_Some.
  apply wp_bind, wp_read_into; [apply Hg|lia|lia|rewrite zlen_zeros; lia|rewrite zlen_zeros; lia|].
  intros hdr _ Hz _ _. rewrite zlen_zeros in Hz by lia. wp_field.
  apply wp_bind, (wp_mono _ (fun _ => True)).
  { destruct (negb _); [|done]. apply wp_bind, wp_addw_x; [done|]. intros Ho.
    apply wp_read_into; [apply Hg|lia|lia|lia|lia|done]. }
  intros hdr2 _. wp_field. wp_field. apply wp_bind, (wp_mono _ (fun size => 0 <= size < 2 ^ 64)).
  { destruct (negb _); apply wp_le_field; intros size Hs _;
      change (256 ^ 4) with (2 ^ 32) in *; change (256 ^ 8) with (2 ^ 64) in *; lia. }
  intros size Hsize. wp_field. apply wp_bind, wp_addw_x; [done|]. intros Ho.
  pose proof (xattr_size_range v0 ltac:(lia)).
  apply wp_bind, wp_addw_x; [done|]. intros Ho2. cbn [wpx].
  split; cbn [ei_size ei_raw_blkaddr ei_inline_off]; [done|]. split; [done|].
  destruct (negb _); lia.
Qed.

Lemma read_span_wp {X : Prop} b blkaddr cblkcnt : geo_ok b -> 0 <= blkaddr < 2 ^ 32 -> 1 <= cblkcnt < 2 ^ 11 ->
  wpx X (read_span b blkaddr cblkcnt) (fun _ => True).
Proof.
  intros Hg Hb Hc. pose proof (bs_range b Hg). unfold read_span, saturating_sub.
  set (phys := blkaddr * _). set (want := cblkcnt * _).
  assert (0 <= phys < 2 ^ 64) by nia. assert (0 <= want < 2 ^ 63) by nia.
  destruct (_ =? 0); [done|]. by apply wp_read; [apply Hg|lia|lia|].
Qed.

Lemma full_step_wp b idx0 lcsize i heads : geo_ok b -> 0 <= idx0 -> 0 <= lcsize -> 0 <= i ->
  Forall head_ok heads -> wpx True (full_step b idx0 lcsize i heads) (Forall head_ok).
Proof.
  intros Hg Hi0 Hl Hi Hh. unfold full_step. apply wp_bind, wp_addw_x; [done|]. intros Ho.
  apply wp_bind, wp_read; [apply Hg|lia|lia|]. intros e _ Hz _.
  destruct (_ =? LC_TYPE_NONHEAD); [done|]. destruct (negb _); [done|].
  pose proof (sub_num_lt e 2 2 ltac:(lia) ltac:(lia) ltac:(lia)).
  pose proof (sub_num_lt e 4 4 ltac:(lia) ltac:(lia) ltac:(lia)) as Hb. change (256 ^ 4) with (2 ^ 32) in Hb.
  apply wp_bind, (wp_mono _ (fun start => 0 <= start)).
  { destruct heads; [done|]. apply wp_bind, wp_mulw_x; [done|]. intros _. apply wp_addw_x; [done|]. lia. }
  intros start Hs. cbn [wpx]. apply Forall_app. split; [done|]. apply Forall_singleton.
  split; cbn [hd_start hd_blkaddr hd_cblkcnt]; lia.
Qed.

Lemma build_heads_full_wp b mh lcsize n : geo_ok b -> 0 <= mh -> 0 <= lcsize ->
  wpx True (build_heads_full b mh lcsize n) (Forall head_ok).
Proof.
  intros Hg Hm Hl. unfold build_heads_full, Z_EROFS_LEGACY_HEADER_SIZE.
  apply wp_bind, wp_addw_x; [done|]. intros Ho.
  apply (wp_for_loop (fun _ => Forall head_ok)); [constructor| |done].
  intros j heads Hj Hh. apply full_step_wp; done || lia.
Qed.

Lemma build_heads_compact_wp b ebase lcsize n advise : geo_ok b -> 0 <= ebase < 2 ^ 64 -> 0 <= lcsize ->
  0 <= n < 2 ^ 64 -> wpx True (build_heads_compact b ebase lcsize n advise) (Forall head_ok).
Proof.
  intros Hg He Hl Hn. unfold build_heads_compact.
  pose proof (land_range ((32 - Z.land ebase 31) / 4) 7 ltac:(done)).
  set (c4i := Z.min _ n). set (c2b := (n - c4i) / 16 * 16). set (c4f := n - c4i - c2b).
  assert (0 <= c4i <= n) by lia.
  assert (0 <= c2b <= n - c4i).
  { pose proof (Z.div_mod (n - c4i) 16 ltac:(lia)). pose proof (Z.mod_pos_bound (n - c4i) 16 ltac:(lia)).
    pose proof (Z.div_pos (n - c4i) 16 ltac:(lia) ltac:(lia)). lia. }
  pose proof (div_ceil_nonneg c4i 2 ltac:(lia) ltac:(lia)). pose proof (div_ceil_nonneg c4f 2 ltac:(lia) ltac:(lia)).
  pose proof (Z.div_pos c2b 16 ltac:(lia) ltac:(lia)).
  apply wp_bind, wp_checked_full. intros Hcap. unfold MAX_BOOT_FILE_BYTES in Hcap.
  apply wp_bind, wp_read; [apply Hg|lia|lia|]. intros buf _ _ _.
  apply wp_bind. eapply wp_mono; [apply read_4b_groups_wp; [lia|constructor]|]. intros [[p1 r1] raw1] [_ Hr1].
  apply wp_bind. eapply wp_mono; [apply read_2b_packs_wp; [lia|exact Hr1]|]. intros [[p2 r2] raw2] [_ Hr2].
  apply wp_bind. eapply wp_mono; [apply read_4b_groups_wp; [lia|exact Hr2]|]. intros [[p3 r3] raw3] [_ Hr3].
  by apply resolve_compact_heads_wp.
Qed.

Lemma read_map_header_wp {X : Prop} b mh : geo_ok b -> 0 <= mh < 2 ^ 64 ->
  wpx X (read_map_header b mh) (fun '(_, _, _, lcbits) => 9 <= lcbits <= 30).
Proof.
  intros Hg Hm. pose proof (ok_bits _ Hg). unfold read_map_header.
  apply wp_bind, wp_read; [apply Hg|lia|lia|]. intros hdr _ _ _. destruct (_ || _); [done|].
  pose proof (land_range (le_num (sub hdr 7 1)) 0x0f ltac:(done)).
  rewrite Z.gtb_ltb. destruct (Z.ltb_spec 30 (er_blkszbits b + Z.land (le_num (sub hdr 7 1)) 0x0f)); [done|].
  cbn [wpx]. lia.
Qed.

Lemma decode_heads_wp {X : Prop} b i_size a1 a2 heads : forall out, geo_ok b -> Forall head_ok heads ->
  wpx X (decode_heads b i_size a1 a2 heads out) (fun _ => True).
Proof.
  induction heads as [|h heads IH]; intros out Hg Hh; [done|]. cbn [decode_heads].
  apply Forall_cons in Hh as [(_&Hb&Hc) Hh].
  set (next := match heads with [] => i_size | n :: _ => hd_start n end).
  destruct (Z.ltb_spec next (hd_start h)); [done|]. destruct (_ =? 0); [by apply IH|].
  apply wp_bind. eapply wp_mono; [by apply read_span_wp|]. intros span _.
  apply wp_bind. eapply wp_mono; [apply decode_pcluster_wp; lia|]. intros seg _. by apply IH.
Qed.

Lemma decode_compressed_wp b i : geo_ok b -> inode_ok i -> wpx True (decode_compressed b i) (fun _ => True).
Proof.
  intros Hg (Hs&_&Hi). unfold decode_compressed. apply wp_bind, wp_addw_x; [done|]. intros Ho.
  pose proof (land_lnot_ones (ei_inline_off i + 7) 3 ltac:(lia)) as Hmh. change (Z.ones 3) with 7 in Hmh.
  pose proof (Z.mod_pos_bound (ei_inline_off i + 7) (2 ^ 3) ltac:(lia)).
  pose proof (Z.mod_le (ei_inline_off i + 7) (2 ^ 3) ltac:(lia) ltac:(lia)).
  set (mh := Z.land _ (Z.lnot 7)) in *. apply wp_bind, wp_checked_full. intros _.
  apply wp_bind. eapply wp_mono; [apply read_map_header_wp; [done|lia]|]. intros [[[advise a1] a2] lcbits] Hlc.
  rewrite Z.shiftl_mul_pow2, Z.mul_1_l by lia.
  assert (1 <= 2 ^ lcbits) by (pose proof (Z.pow_pos_nonneg 2 lcbits ltac:(lia) ltac:(lia)); lia).
  pose proof (div_ceil_nonneg (ei_size i) (2 ^ lcbits) ltac:(lia) ltac:(lia)).
  assert (div_ceil (ei_size i) (2 ^ lcbits) < 2 ^ 64).
  { destruct (div_ceil_spec (ei_size i) (2 ^ lcbits) ltac:(lia) ltac:(lia)); nia. }
  apply wp_bind. eapply (wp_mono _ (Forall head_ok)).
  { unfold build_heads. rewrite Z.shiftl_mul_pow2, Z.mul_1_l by lia.
    destruct (_ =? COMPRESSED_FULL); [apply build_heads_full_wp; done || lia|].
    destruct (_ =? COMPRESSED_COMPACT); [|done]. destruct (_ >? _); [done|]. destruct (_ =? 0); [done|].
    apply wp_bind, wp_addw_x; [done|]. intros. apply build_heads_compact_wp; done || lia. }
  intros heads Hh. by apply decode_heads_wp.
Qed.

(** A read of [off, end) into [buf]: it fits, and the buffer keeps its length. *)
Definition filled (total : Z) (buf : list byte) (r : Z * list byte) : Prop :=
  r.1 = total /\ zlen r.2 = zlen buf.

Lemma inline_round_wp b base inline_off full off end_ p buf :
  geo_ok b -> 0 <= base -> 0 <= inline_off -> 0 <= off <= p -> p <= end_ -> end_ - off <= zlen buf ->
  zlen buf < 2 ^ 63 ->
  wpx True (inline_round b base inline_off full off end_ (p, buf)) (fun r => match r with
    | inl (p', buf') => p < p' <= end_ /\ zlen buf' = zlen buf
    | inr buf' => buf' = buf /\ p = end_ end).
Proof.
  intros Hg Hb Hi Hp He Hbuf Hlen. unfold inline_round. destruct (Z.ltb_spec p end_); cbn [negb];
    [|cbn [wpx]; split; [done|lia]].
  apply wp_bind, (wp_mono _ (fun '(disk, seg_end) => 0 <= disk < 2 ^ 64 /\ p < seg_end <= end_)).
  { destruct (Z.ltb_spec p full); apply wp_bind, wp_addw_x; try done; intros; cbn [wpx]; lia. }
  intros [disk seg_end] [Hd Hs]. apply wp_bind, wp_read_into; [apply Hg|lia|lia|lia|lia|].
  intros r _ Hr _ _. cbn [wpx]. lia.
Qed.

Lemma inline_loop_wp b base inline_off full off end_ buf :
  geo_ok b -> 0 <= base -> 0 <= inline_off -> 0 <= off <= end_ -> end_ - off <= zlen buf -> zlen buf < 2 ^ 63 ->
  wpx True (loop (inline_round b base inline_off full off end_) (off, buf)) (fun buf' => zlen buf' = zlen buf).
Proof.
  intros Hg Hb Hi Ho Hbuf Hlen.
  apply (wp_loop _ (fun s => off <= s.1 <= end_ /\ zlen s.2 = zlen buf) (fun s => end_ - s.1)); cbn [fst snd];
    [lia|lia|].
  intros [p bf]. cbn [fst snd]. intros [Hp Hz]. split; [lia|].
  eapply wp_mono; [apply inline_round_wp; done || lia|].
  intros [[p' bf']|bf']; cbn [fst snd]; [|by intros [-> _]]. lia.
Qed.

Lemma chunk_round_wp b chunk table off end_ p buf :
  geo_ok b -> 0 < chunk <= 2 ^ 40 -> 0 <= table -> 0 <= off <= p -> p <= end_ -> end_ - off <= zlen buf ->
  zlen buf < 2 ^ 63 ->
  wpx True (chunk_round b chunk table off end_ (p, buf)) (fun r => match r with
    | inl (p', buf') => p < p' <= end_ /\ zlen buf' = zlen buf
    | inr buf' => buf' = buf /\ p = end_ end).
Proof.
  intros Hg Hc Ht Hp He Hbuf Hlen. unfold chunk_round. destruct (Z.ltb_spec p end_); cbn [negb];
    [|cbn [wpx]; split; [done|lia]].
  pose proof (Z.div_mod p chunk ltac:(lia)). pose proof (Z.mod_pos_bound p chunk ltac:(lia)).
  pose proof (Z.div_pos p chunk ltac:(lia) ltac:(lia)). pose proof (bs_range b Hg).
  apply wp_bind, wp_mulw_x; [done|]. intros Hlim. apply wp_bind, wp_addw_x; [done|]. intros Hat.
  apply wp_bind, wp_read; [apply Hg|lia|lia|]. intros e _ Hz _.
  pose proof (le_num_width e 4 Hz) as Hblk. change (256 ^ 4) with (2 ^ 32) in Hblk.
  set (seg_end := Z.min end_ _). assert (p < seg_end <= end_) by nia.
  apply wp_bind, (wp_mono _ (fun l : list byte => zlen l = zlen buf)).
  { destruct (_ =? NULL_BLKADDR).
    - apply wp_write_at; [lia|rewrite zlen_zeros; lia|]. by intros.
    - apply wp_read_into; [apply Hg|nia|lia|lia|lia|]. by intros. }
  intros buf' Hz'. cbn [wpx]. lia.
Qed.

Lemma chunk_loop_wp b chunk table off end_ buf :
  geo_ok b -> 0 < chunk <= 2 ^ 40 -> 0 <= table -> 0 <= off <= end_ -> end_ - off <= zlen buf -> zlen buf < 2 ^ 63 ->
  wpx True (loop (chunk_round b chunk table off end_) (off, buf)) (fun buf' => zlen buf' = zlen buf).
Proof.
  intros Hg Hc Ht Ho Hbuf Hlen.
  apply (wp_loop _ (fun s => off <= s.1 <= end_ /\ zlen s.2 = zlen buf) (fun s => end_ - s.1)); cbn [fst snd];
    [lia|lia|].
  intros [p bf]. cbn [fst snd]. intros [Hp Hz]. split; [lia|].
  eapply wp_mono; [apply chunk_round_wp; done || lia|].
  intros [[p' bf']|bf']; cbn [fst snd]; [|by intros [-> _]]. lia.
Qed.

(** A chunk size read from the format bits of a chunk-based inode. *)
Lemma chunkbits_range b format : geo_ok b -> 9 <= er_blkszbits b + Z.land format CHUNK_BLKBITS_MASK.
Proof. intros Hg. pose proof (ok_bits _ Hg). pose proof (land_range format CHUNK_BLKBITS_MASK ltac:(done)). lia. Qed.

Lemma read_flat_wp b i off end_ buf : geo_ok b -> inode_ok i -> 0 <= off <= end_ ->
  end_ - off <= zlen buf -> zlen buf < 2 ^ 63 -> wpx True (read_flat b i off end_ buf) (filled (end_ - off) buf).
Proof.
  intros Hg (Hs&Hr&Hi) Ho Hbuf Hlen. pose proof (bs_range b Hg). unfold read_flat.
  destruct (_ =? FLAT_PLAIN).
  { apply wp_bind, wp_addw_x; [done|]. intros Ha. apply wp_bind, wp_read_into; [apply Hg|nia|lia|lia|lia|].
    intros r _ Hz _ _. by split. }
  destruct (_ =? FLAT_INLINE).
  { apply wp_bind. eapply wp_mono; [apply inline_loop_wp; done || nia|]. intros r Hz. by split. }
  destruct (_ =? CHUNK_BASED); [|done]. unfold read_chunked.
  destruct (negb _); [done|]. destruct (negb _); [done|]. rewrite Z.gtb_ltb.
  pose proof (chunkbits_range b (Z.land (ei_raw_blkaddr i) 0xffff) Hg) as Hcb.
  set (bits := er_blkszbits b + _) in *. destruct (Z.ltb_spec 40 bits); [done|]. destruct (negb _); [done|].
  apply wp_bind, wp_addw_x; [done|]. intros Ha. rewrite Z.shiftl_mul_pow2, Z.mul_1_l by lia.
  assert (0 <= Z.land (ei_inline_off i + 3) (Z.lnot 3)) by (apply Z.land_nonneg; lia).
  pose proof (Z.pow_le_mono_r 2 bits 40 ltac:(lia) ltac:(lia)). pose proof (Z.pow_pos_nonneg 2 bits ltac:(lia) ltac:(lia)).
  apply wp_bind. eapply wp_mono; [apply chunk_loop_wp; done || lia|]. intros r Hz. by split.
Qed.

(** The count a read gives. *)
Definition span_of (i : ErofsInode) (off n : Z) : Z := if off >=? ei_size i then 0 else Z.min n (ei_size i - off).

Lemma ref_data_wp b i off buf : geo_ok b -> inode_ok i -> 0 <= off -> zlen buf < 2 ^ 63 ->
  wpx True (ref_data b i off buf) (filled (span_of i off (zlen buf)) buf).
Proof.
  intros Hg Hi Ho Hlen. pose proof (zlen_nonneg buf). unfold ref_data, span_of. rewrite Z.geb_leb.
  destruct (Z.leb_spec (ei_size i) off); [by split|].
  apply wp_bind, wp_addw_x; [done|]. intros Hlim. set (end_ := Z.min _ _).
  replace (Z.min (zlen buf) (ei_size i - off)) with (end_ - off) by lia.
  destruct (is_compressed _); [|apply read_flat_wp; done || lia].
  apply wp_bind. eapply wp_mono; [by apply decode_compressed_wp|]. intros d _. unfold copy_decoded.
  apply wp_bind, wp_ok_or. intros seg Hseg%get_range_zlen.
  apply wp_bind, wp_write_at; [lia|lia|]. intros r _ Hr. by split.
Qed.

Lemma ref_data_full_wp b i size : geo_ok b -> inode_ok i -> size = ei_size i -> size <= MAX_BOOT_FILE_BYTES ->
  wpx True (ref_data b i 0 (zeros size)) (fun r => zlen r.2 = size).
Proof.
  intros Hg Hi -> Hm. pose proof (proj1 Hi). unfold MAX_BOOT_FILE_BYTES in Hm.
  eapply wp_mono; [apply ref_data_wp; [done|done|lia|rewrite zlen_zeros; lia]|].
  intros r [_ Hz]. by rewrite zlen_zeros in Hz by lia.
Qed.

Lemma dir_loop_wp {X : Prop} bs data : 0 < bs -> zlen data < 2 ^ 63 ->
  wpx X (loop (dir_round bs data) (0, [])) nids_ok.
Proof.
  intros Hbs Hd. pose proof (zlen_nonneg data).
  apply (wp_loop _ (fun s => 0 <= s.1 <= zlen data /\ nids_ok s.2) (fun s => zlen data - s.1)); cbn [fst snd].
  - split; [lia|constructor].
  - lia.
  - intros [start raw]. cbn [fst snd]. intros [Hs Hraw]. split; [lia|]. unfold dir_round.
    destruct (Z.ltb_spec start (zlen data)); cbn [negb]; [|done].
    apply wp_bind, wp_slice; [lia|lia|]. apply wp_bind.
    eapply wp_mono; [by apply parse_dir_block_wp|]. intros raw' Hraw'. cbn [wpx fst snd]. split; [split; [lia|done]|lia].
Qed.

Definition listing_ok (es : list DirEntry) : Prop := Forall (fun e => 0 <= de_node e) es.

Lemma ref_dir_entries_wp b i : geo_ok b -> inode_ok i -> wpx True (ref_dir_entries b i) listing_ok.
Proof.
  intros Hg Hi. unfold ref_dir_entries. destruct (negb _); [done|].
  apply wp_bind, wp_checked_full. intros Hm. pose proof (bs_range b Hg).
  apply wp_bind. eapply wp_mono; [by apply ref_data_full_wp|]. intros [n data]. cbn [snd]. intros Hz.
  unfold MAX_BOOT_FILE_BYTES in Hm. apply wp_bind. eapply wp_mono; [apply dir_loop_wp; lia|].
  intros raw Hraw. cbn [wpx]. apply Forall_fmap. eapply Forall_impl; [exact Hraw|]. by intros [[nm nid] ft].
Qed.

Lemma ref_read_link_wp b i : geo_ok b -> inode_ok i -> wpx True (ref_read_link b i) (fun _ => True).
Proof.
  intros Hg Hi. unfold ref_read_link. destruct (negb _); [done|].
  apply wp_bind, wp_checked_full. intros Hm.
  apply wp_bind. eapply wp_mono; [by apply ref_data_full_wp|]. by intros [n data] _.
Qed.

(** ** Mounting *)

Lemma lzma_cfg_walk_wp {X : Prop} b algs algs_left : forall cur, geo_ok b ->
  0 <= cur -> cur + 2 ^ 17 * zlen algs_left < 2 ^ 63 -> wpx X (lzma_cfg_walk b algs cur algs_left) (fun _ => True).
Proof.
  induction algs_left as [|alg rest IH]; intros cur Hg Hc Hfit; [done|]. cbn [lzma_cfg_walk].
  rewrite zlen_cons in Hfit. pose proof (zlen_nonneg rest).
  destruct (_ =? 0); [apply IH; [done|lia|lia]|].
  apply wp_bind. eapply wp_attempt; [apply (wp_read _ _ _ (fun sz => 0 <= le_num sz < 2 ^ 16)); [apply Hg|lia|lia|]| |done].
  { intros sz _ Hz _. by apply (le_num_width sz 2). }
  intros sz Hsz. cbn beta iota zeta in *. destruct (alg =? ALGO_LZMA); [|apply IH; [done|lia|lia]].
  apply wp_bind. eapply wp_attempt; [apply (wp_read _ _ _ (fun _ => True)); [apply Hg|lia|lia|done]|done|done].
Qed.

Lemma parse_lzma_cfg_wp {X : Prop} b : geo_ok b -> wpx X (parse_lzma_cfg b) (fun _ => True).
Proof.
  intros Hg. pose proof (ok_cfgs _ Hg). unfold parse_lzma_cfg, COMPR_ALGS_OFF.
  apply wp_bind. eapply wp_attempt; [apply (wp_read _ _ _ (fun _ => True)); [apply Hg|lia|lia|done]| |done].
  intros algs _. destruct (_ =? 0); [done|]. apply lzma_cfg_walk_wp; [done|lia|].
  change (zlen (seqZ 0 16)) with 16. lia.
Qed.

Lemma erofs_superblock_wp {X : Prop} src : src_valid src ->
  wpx X (read_superblock src) (fun me => geo_ok me /\ bare me = me /\ er_src me = src).
Proof.
  intros Hv. unfold read_superblock. destruct (_ <? _); [done|].
  apply wp_bind, wp_read; [done|unfold SUPER_OFFSET; lia|lia|]. intros sb _ Hz _. wp_field. destruct (negb _); [done|].
  apply wp_bind, wp_at; [lia|]. intros b12 _. pose proof (u8_range b12).
  destruct (negb _) eqn:Eb; [done|]. apply negb_false_iff, andb_true_iff in Eb as [E1%Z.leb_le E2%Z.leb_le].
  wp_field. apply wp_bind, wpx_weaken. eapply wp_mono; [apply returns_wp|].
  { unfold refuse_unsupported_features. repeat step_returns. }
  intros _ _. wp_field. wp_field. apply wp_bind, wp_at; [unfold SB_EXTSLOTS; lia|]. intros slots _.
  pose proof (u8_range slots). cbn [wpx]. split; [|by split].
  rewrite Z.shiftl_mul_pow2, Z.mul_1_l by lia.
  pose proof (Z.pow_le_mono_r 2 (u8 b12) 16 ltac:(lia) ltac:(lia)). pose proof (Z.pow_pos_nonneg 2 (u8 b12) ltac:(lia) ltac:(lia)).
  unfold SUPER_OFFSET, SB_BASE_SIZE, SB_EXTSLOT_SIZE.
  constructor; cbn [er_src er_block_size er_blkszbits er_meta_off er_root_nid er_compr_cfgs_off]; done || nia.
Qed.

Lemma open_bare_wp {X : Prop} src : src_valid src ->
  wpx X (open_bare src) (fun b => geo_ok b /\ bare b = b /\ er_src b = src).
Proof.
  intros Hv. unfold open_bare. apply wp_bind. eapply wp_mono; [by apply erofs_superblock_wp|].
  intros me (Hg&Hb&Hs). apply wp_bind. eapply wp_mono; [by apply parse_lzma_cfg_wp|]. intros dict _. cbn [wpx].
  split; [constructor; apply Hg|]. split; [|done]. by rewrite <- Hb at 2.
Qed.

Lemma erofs_open_wp src : src_valid src -> returns_or_overflow (erofs_open src).
Proof.
  intros Hv. pose proof (open_bare_wp (X := False) src Hv) as Hw.
  destruct (open_bare src) as [b|e| | |] eqn:Eo; try done.
  - destruct Hw as (Hg&Hb&_). rewrite (erofs_open_eq src b Eo Hb). apply (wp_returns_x _ (fun _ => True)), wp_bind.
    eapply wp_mono; [apply erofs_read_inode_wp; [done|apply (ok_root _ Hg)]|]. intros i _. exact I.
  - rewrite erofs_open_fails; rewrite Eo; done.
Qed.

(** A mounted volume has its bare volume. *)
Lemma erofs_mounted src fs : src_valid src -> Mounted src fs ->
  geo_ok (bare fs) /\ er_src fs = src /\ coherent (bare fs) fs /\ open_bare src = Ok (bare fs).
Proof.
  intros Hv Hm. pose proof (open_bare_wp (X := False) src Hv) as Hw.
  assert (exists b, open_bare src = Ok b) as [b Eo].
  { assert (exists fs0, erofs_open src = Ok fs0) as [fs0 Ho] by (induction Hm; eauto).
    destruct (open_bare src) as [b|e| | |] eqn:Eo; [by exists b|..];
      rewrite erofs_open_fails in Ho; rewrite Eo in *; done. }
  rewrite Eo in Hw. destruct Hw as (Hg&Hb&Hs). pose proof (mounted_coherent src b fs Eo Hb Hm) as Hc.
  rewrite (co_bare _ _ Hc). split; [done|]. split; [|by split]. rewrite <- Hs, <- (co_bare _ _ Hc). done.
Qed.
End Laws.

(** ** Lemmas: the verified read loop *)

Section ReadLoop.
Context {D : Decoders} {DL : DecoderLaws D} {S : Type} `{SourceLaws S}.
Context (b : Erofs S) (i : ErofsInode) (v : Verifier) (node : NodeId).
Context (geo : geo_ok b) (iok : inode_ok i).
#[local] Abbreviation bs := (er_block_size b).
#[local] Abbreviation size := (ei_size i).

(** [Q p x]: byte [x] may be served at position [p] of the file. *)
Context (Q : Z -> byte -> Prop) (off end_ : Z) (buf0 : list byte).
Context (off_range : 0 <= off <= end_) (end_range : end_ <= size) (fits : end_ - off <= zlen buf0).

Definition served (produced : Z) (buf : list byte) : Prop :=
  zlen buf = zlen buf0 /\ drop (Z.to_nat produced) buf = drop (Z.to_nat produced) buf0 /\
  forall j, 0 <= j < produced -> exists x, get buf j = Some x /\ Q (off + j) x.

(** The state before the block at [start]. *)
Definition read_inv (s : Z * list byte * Z * list byte) : Prop :=
  let '(start, block, produced, buf) := s in
  (exists m, start = m * bs /\ off / bs <= m) /\ zlen block = bs /\
  produced = Z.max 0 (Z.min end_ start - off) /\ served produced buf.

(** Writing [d] behind the [produced] bytes served so far. *)
Lemma served_write produced buf d : served produced buf -> 0 <= produced -> produced + zlen d <= zlen buf ->
  (forall k x, get d k = Some x -> Q (off + produced + k) x) ->
  exists buf', write_at buf produced d = Ok buf' /\ served (produced + zlen d) buf'.
Proof.
  intros (Hz&Hd&Hs) Hp Hfit HQ. pose proof (zlen_nonneg d).
  eexists. split; [by apply write_at_eq|].
  pose proof (write_at_eq buf d produced Hp Hfit) as Hw. set (buf' := sub buf 0 produced ++ _) in *.
  destruct (write_at_front buf d buf' produced Hw) as [Hf Hdr].
  split; [by rewrite (write_at_zlen _ _ _ _ Hw)|]. split.
  - rewrite Hdr, !Z2Nat.inj_add by lia. rewrite <- !drop_drop. by rewrite Hd.
  - intros j Hj. rewrite <- (get_front buf' (produced + zlen d)) by lia. rewrite Hf.
    assert (Hzs : zlen (sub buf 0 produced) = produced) by (apply zlen_sub; lia).
    destruct (decide (j < produced)).
    + rewrite get_app_l by lia. rewrite get_front by lia. apply Hs. lia.
    + replace j with (zlen (sub buf 0 produced) + (j - produced)) by lia. rewrite get_app_r by lia.
      assert (is_Some (get d (j - produced))) as [x Hx] by (apply get_is_Some; lia).
      exists x. split; [done|]. apply HQ in Hx. rewrite Hzs.
      by replace (off + (produced + (j - produced))) with (off + produced + (j - produced)) by lia.
Qed.

(** A verified block [d] is copied so that the invariant holds after it. *)
Lemma copy_block_served start d produced buf :
  (exists m, start = m * bs /\ off / bs <= m) -> start < end_ -> zlen d = Z.min bs (size - start) ->
  produced = Z.max 0 (Z.min end_ start - off) -> served produced buf ->
  (forall k x, get d k = Some x -> Q (start + k) x) ->
  exists produced' buf', copy_block off end_ start d buf produced = Ok (produced', buf') /\
    produced' = Z.max 0 (Z.min end_ (start + bs) - off) /\ served produced' buf'.
Proof.
  intros (m&Hm&Hom) Hlt Hd Hp Hs HQ. pose proof (bs_range b geo).
  assert (Hnext : off < start + bs).
  { pose proof (Z.div_mod off bs ltac:(lia)). pose proof (Z.mod_pos_bound off bs ltac:(lia)). nia. }
  assert (0 <= start).
  { pose proof (Z.div_pos off bs ltac:(lia) ltac:(lia)). nia. }
  unfold copy_block. rewrite Hd, Z.gtb_ltb. set (cs := Z.max off start). set (ce := Z.min end_ _).
  destruct (Z.ltb_spec cs ce).
  - rewrite slice_eq by lia. cbn [bindR]. replace (cs - start + (ce - cs) - (cs - start)) with (ce - cs) by lia.
    assert (Hz : zlen (sub d (cs - start) (ce - cs)) = ce - cs) by (apply zlen_sub; lia).
    destruct (served_write produced buf (sub d (cs - start) (ce - cs))) as (buf'&Hw&Hs'); try done; [lia| | |].
    + rewrite Hz, (proj1 Hs). lia.
    + intros k x Hk. assert (0 <= k < ce - cs) by (rewrite <- Hz; apply get_is_Some; by exists x).
      rewrite get_sub in Hk by lia. apply HQ in Hk.
      by replace (off + produced + k) with (start + (cs - start + k)) by lia.
    + replace (cs - off) with produced by lia. rewrite Hw. cbn [bindR]. rewrite Hz in Hs'.
      eexists _, buf'. split; [done|]. split; [lia|done].
  - eexists _, buf. split; [done|]. split; [lia|done].
Qed.

(** One round on a block that is read as [d] and verified. *)
Lemma ref_round_verified start block produced buf window n d :
  read_inv (start, block, produced, buf) -> start < end_ ->
  window = sub block 0 (Z.min bs (size - start)) ->
  ref_data b i start window = Ok (n, d) -> zlen d = zlen window -> verify_block v node start d = Ok tt ->
  (forall k x, get d k = Some x -> Q (start + k) x) ->
  exists block' produced' buf',
    ref_round v b i node off end_ (start, block, produced, buf)
    = (let! next := addw 64 start bs in Ok (inl (next, block', produced', buf'))) /\
    read_inv (start + bs, block', produced', buf').
Proof.
  intros ((m&Hm&Hom)&Hb&Hp&Hs) Hlt -> Hr Hd Hv HQ. pose proof (bs_range b geo).
  assert (Hz : zlen (sub block 0 (Z.min bs (size - start))) = Z.min bs (size - start)) by (apply zlen_sub; lia).
  rewrite Hz in Hd. unfold ref_round. rewrite (proj2 (Z.ltb_lt _ _)) by done. cbn [negb].
  rewrite slice_eq by lia. cbn [bindR]. rewrite Z.sub_0_r, Hr. cbn [bindR].
  rewrite (write_at_eq block d 0) by lia. cbn [bindR]. rewrite Hv. cbn [bindR].
  destruct (copy_block_served start d produced buf) as (p'&buf'&Hc&Hp'&Hs'); try done; [by exists m|].
  rewrite Hc. cbn [bindR]. eexists _, p', buf'. split; [done|].
  split; [exists (m + 1); split; [lia|lia]|]. split; [|by split].
  rewrite sub_nil. cbn [app]. rewrite zlen_app, zlen_drop by lia. lia.
Qed.

Lemma read_inv_start : zlen (zeros bs) = bs -> read_inv (off / bs * bs, zeros bs, 0, buf0).
Proof.
  intros Hz. pose proof (bs_range b geo). pose proof (Z.mul_div_le off bs ltac:(lia)).
  split; [by exists (off / bs)|]. split; [done|]. split; [lia|].
  split; [done|]. split; [done|]. intros j Hj. lia.
Qed.

Lemma read_inv_nonneg start block produced buf : read_inv (start, block, produced, buf) -> 0 <= start.
Proof.
  intros ((m&->&Hm)&_). pose proof (bs_range b geo). pose proof (Z.div_pos off bs ltac:(lia) ltac:(lia)). nia.
Qed.

(** On any medium: what is served is what the verifier accepted. *)
Lemma read_loop_wp :
  (forall start d, 0 <= start -> zlen d <= bs -> returns (verify_block v node start d)) ->
  (forall start w n d, 0 <= start < size -> (exists m, start = m * bs) -> zlen d = Z.min bs (size - start) ->
     ref_data b i start w = Ok (n, d) -> verify_block v node start d = Ok tt ->
     forall k x, get d k = Some x -> Q (start + k) x) ->
  wpx True (loop (ref_round v b i node off end_) (off / bs * bs, zeros bs, 0, buf0))
    (fun r => r.1 = end_ - off /\ served (end_ - off) r.2).
Proof.
  intros Hret HQ. pose proof (bs_range b geo). pose proof (proj1 iok).
  apply (wp_loop _ read_inv (fun s => Z.max 0 (end_ - s.1.1.1))); cbn [fst snd].
  - apply read_inv_start, zlen_zeros. lia.
  - pose proof (read_inv_nonneg _ _ _ _ (read_inv_start ltac:(apply zlen_zeros; lia))). lia.
  - intros [[[start block] produced] buf] Hinv. cbn [fst snd]. split; [lia|].
    pose proof (read_inv_nonneg _ _ _ _ Hinv) as H0s.
    destruct (Z.ltb_spec start end_) as [Hlt|Hge].
    2: { unfold ref_round. rewrite (proj2 (Z.ltb_ge _ _)) by done. cbn [negb wpx fst snd].
      destruct Hinv as (_&_&Hp&Hs). replace (end_ - off) with produced by lia. by split. }
    set (window := sub block 0 (Z.min bs (size - start))).
    assert (Hz : zlen window = Z.min bs (size - start)) by (apply zlen_sub; destruct Hinv as (_&?&_); lia).
    pose proof (ref_data_wp b i start window geo iok H0s ltac:(lia)) as Hw.
    assert (Hround : forall n d, ref_data b i start window = Ok (n, d) -> verify_block v node start d = Ok tt ->
      wpx True (ref_round v b i node off end_ (start, block, produced, buf)) (fun r => match r with
        | inl s' => read_inv s' /\ Z.max 0 (end_ - s'.1.1.1) < Z.max 0 (end_ - start) | inr _ => False end)).
    { intros n d Hr Hv. rewrite Hr in Hw. destruct Hw as [_ Hd]. cbn [snd] in Hd.
      destruct (ref_round_verified start block produced buf window n d) as (bl'&p'&bf'&He&Hi'); try done.
      - intros k x. apply (HQ start window n); [lia| |lia|done|done]. destruct Hinv as ((m&->&_)&_). by exists m.
      - rewrite He. apply wp_bind, wp_addw_x; [done|]. intros _. cbn [wpx fst]. split; [done|lia]. }
    unfold ref_round in *. rewrite (proj2 (Z.ltb_lt _ _)) in * by done. cbn [negb] in *.
    rewrite slice_eq in * by (destruct Hinv as (_&?&_); lia). cbn [bindR] in *.
    rewrite Z.sub_0_r in *. fold window in Hround |- *.
    destruct (ref_data b i start window) as [[n d]|e| | |]; try done. cbn [bindR] in *.
    destruct Hw as [_ Hd]. cbn [snd] in Hd.
    assert (Hwr : exists blk, write_at block 0 d = Ok blk).
    { eexists. apply write_at_eq; [lia|]. destruct Hinv as (_&?&_). lia. }
    destruct Hwr as [blk Hwr]. specialize (Hround n d eq_refl). rewrite Hwr in *. cbn [bindR] in *.
    pose proof (Hret start d H0s ltac:(lia)) as Hvr.
    destruct (verify_block v node start d) as [[]|e| | |]; try done.
    eapply wp_mono; [by apply Hround|]. intros [s'|]; done.
Qed.

(** On a good medium: every block is read and accepted, so the read succeeds. *)
Lemma read_loop_succeeds :
  end_ + bs <= 2 ^ 64 ->
  (forall start w, 0 <= start < size -> (exists m, start = m * bs) -> zlen w = Z.min bs (size - start) ->
     exists n d, ref_data b i start w = Ok (n, d) /\ zlen d = zlen w /\
       verify_block v node start d = Ok tt /\ forall k x, get d k = Some x -> Q (start + k) x) ->
  exists r, loop (ref_round v b i node off end_) (off / bs * bs, zeros bs, 0, buf0) = Ok r /\
    r.1 = end_ - off /\ served (end_ - off) r.2.
Proof.
  intros Hov Hgood. pose proof (bs_range b geo).
  apply (loop_succeeds _ read_inv (fun s => Z.max 0 (end_ - s.1.1.1))); cbn [fst snd].
  - apply read_inv_start, zlen_zeros. lia.
  - pose proof (read_inv_nonneg _ _ _ _ (read_inv_start ltac:(apply zlen_zeros; lia))). lia.
  - intros [[[start block] produced] buf] Hinv. cbn [fst snd]. split; [lia|].
    pose proof (read_inv_nonneg _ _ _ _ Hinv) as H0s.
    destruct (Z.ltb_spec start end_) as [Hlt|Hge].
    + destruct (Hgood start (sub block 0 (Z.min bs (size - start)))) as (n&d&Hr&Hd&Hv&HQ); [lia| | |].
      { destruct Hinv as ((m&->&_)&_). by exists m. }
      { apply zlen_sub; destruct Hinv as (_&?&_); lia. }
      destruct (ref_round_verified start block produced buf _ n d Hinv Hlt eq_refl Hr Hd Hv HQ)
        as (bl'&p'&bf'&He&Hi').
      rewrite He, addw_eq by lia. cbn [bindR]. eexists. split; [done|]. cbn [fst]. split; [done|lia].
    + exists (inr (produced, buf)). split.
      * unfold ref_round. by rewrite (proj2 (Z.ltb_ge _ _)) by done.
      * destruct Hinv as (_&_&Hp&Hs). cbn [fst snd]. replace (end_ - off) with produced by lia. by split.
Qed.
End ReadLoop.

(** ** Files with a known content *)

Section Content.
Context {D : Decoders} {DL : DecoderLaws D} {S : Type} `{ReliableSource S}.
Context (b : Erofs S) (i : ErofsInode) (c : list byte).

(** The chunk table gives chunk [idx] of the content. *)
Definition chunk_holds (chunk table idx : Z) : Prop :=
  exists blk, 0 <= blk < 2 ^ 32 /\ table + idx * 4 + 4 <= src_len (er_src b) /\
    region (src_byte (er_src b)) (table + idx * 4) 4 = le_bytes 4 blk /\
    let n := Z.min chunk (zlen c - idx * chunk) in
    if blk =? NULL_BLKADDR then sub c (idx * chunk) n = zeros n
    else blk * er_block_size b + n <= src_len (er_src b) /\
         sub c (idx * chunk) n = region (src_byte (er_src b)) (blk * er_block_size b) n.

(** Each pcluster starts where the ones before it end and decodes to its piece. *)
Fixpoint pieces_hold (algo1 algo2 : Z) (heads : list Head) (pieces : list (list byte)) (out : list byte) : Prop :=
  match heads, pieces with
  | [], [] => True
  | h :: heads', p :: pieces' =>
      hd_start h = zlen out /\
      (p <> [] -> exists span, read_span b (hd_blkaddr h) (hd_cblkcnt h) = Ok span /\
         decode_pcluster (hd_ty h) (if hd_ty h =? LC_TYPE_HEAD2 then algo2 else algo1) span (zlen p) out
           (er_lzma_dict_size b) (er_lz4_zero_padding b) = Ok p) /\
      pieces_hold algo1 algo2 heads' pieces' (out ++ p)
  | _, _ => False
  end.

(** The medium holds the content [c] of inode [i], layout by layout. *)
Inductive holds : Prop :=
| Holds_plain :
    ei_layout i = FLAT_PLAIN -> ei_raw_blkaddr i * er_block_size b + zlen c <= src_len (er_src b) ->
    c = region (src_byte (er_src b)) (ei_raw_blkaddr i * er_block_size b) (zlen c) -> holds
| Holds_inline full :
    ei_layout i = FLAT_INLINE -> full = zlen c / er_block_size b * er_block_size b ->
    ei_raw_blkaddr i * er_block_size b + full <= src_len (er_src b) ->
    ei_inline_off i + (zlen c - full) <= src_len (er_src b) ->
    c = region (src_byte (er_src b)) (ei_raw_blkaddr i * er_block_size b) full ++
        region (src_byte (er_src b)) (ei_inline_off i) (zlen c - full) -> holds
| Holds_chunks bits table :
    ei_layout i = CHUNK_BASED -> Z.land (ei_raw_blkaddr i) 0xffff = bits -> 0 <= bits < 32 ->
    er_blkszbits b + bits <= 40 -> table = (ei_inline_off i + 3) / 4 * 4 ->
    (forall idx, 0 <= idx < div_ceil (zlen c) (2 ^ (er_blkszbits b + bits)) ->
       chunk_holds (2 ^ (er_blkszbits b + bits)) table idx) -> holds
| Holds_compressed advise algo1 algo2 lcbits heads pieces mh :
    is_compressed (ei_layout i) = true -> mh = (ei_inline_off i + 7) / 8 * 8 -> zlen c <= MAX_BOOT_FILE_BYTES ->
    ei_inline_off i + 7 < 2 ^ 64 -> read_map_header b mh = Ok (advise, algo1, algo2, lcbits) ->
    build_heads b (ei_layout i) mh advise lcbits (div_ceil (zlen c) (2 ^ lcbits)) = Ok heads ->
    pieces_hold algo1 algo2 heads pieces [] -> c = concat pieces -> holds.

Context (geo : geo_ok b) (iok : inode_ok i) (csize : ei_size i = zlen c) (small : zlen c < 2 ^ 63).

(** Bytes [off..p] of the content are in the buffer. *)
Definition copied (off : Z) (w : list byte) (s : Z * list byte) : Prop :=
  off <= s.1 <= off + zlen w /\ zlen s.2 = zlen w /\ sub s.2 0 (s.1 - off) = sub c off (s.1 - off).

Lemma copied_write off w p buf q : copied off w (p, buf) -> 0 <= off -> p <= q <= off + zlen w ->
  off + zlen w <= zlen c ->
  exists buf', write_at buf (p - off) (sub c p (q - p)) = Ok buf' /\ copied off w (q, buf').
Proof.
  intros (Hp&Hz&Hs) Ho Hq Hw. cbn [fst snd] in *.
  assert (Hl : zlen (sub c p (q - p)) = q - p) by (apply zlen_sub; lia).
  eexists. split; [apply write_at_eq; [lia|rewrite Hl; lia]|].
  pose proof (write_at_eq buf (sub c p (q - p)) (p - off) ltac:(lia) ltac:(rewrite Hl; lia)) as Hwr.
  split; cbn [fst snd]; [lia|]. split; [by rewrite (write_at_zlen _ _ _ _ Hwr)|].
  destruct (write_at_front _ _ _ _ Hwr) as [Hf _]. rewrite Hl in Hf.
  replace (p - off + (q - p)) with (q - off) in Hf by lia. rewrite Hl.
  replace (p - off + (q - p)) with (q - off) in * by lia. rewrite Hf, Hs.
  replace p with (off + (p - off)) at 2 by lia. rewrite sub_app_split by lia. f_equal. lia.
Qed.

Lemma copied_all off w buf : copied off w (off + zlen w, buf) -> buf = sub c off (zlen w).
Proof.
  intros (_&Hz&Hs). cbn [fst snd] in *. replace (off + zlen w - off) with (zlen w) in Hs by lia.
  rewrite <- Hz in Hs at 1. by rewrite sub_all in Hs.
Qed.

(** A loop each of whose rounds copies a stretch of the content. *)
Lemma copy_loop (round : Z * list byte -> Res ((Z * list byte) + list byte)) off w :
  0 <= off -> off + zlen w <= zlen c ->
  (forall buf, round (off + zlen w, buf) = Ok (inr buf)) ->
  (forall p buf, copied off w (p, buf) -> p < off + zlen w -> exists q,
     p < q <= off + zlen w /\
     round (p, buf) = (let! buf' := write_at buf (p - off) (sub c p (q - p)) in Ok (inl (q, buf')))) ->
  loop round (off, w) = Ok (sub c off (zlen w)).
Proof.
  intros Ho Hw Hend Hround. pose proof (zlen_nonneg w).
  destruct (loop_succeeds round (copied off w) (fun s => off + zlen w - s.1) (off, w)
    (fun buf => buf = sub c off (zlen w))) as (x&->& ->); [| | |done].
  - split; cbn [fst snd]; [lia|]. split; [done|]. by rewrite Z.sub_diag.
  - cbn [fst]. lia.
  - intros [p buf] Hc. pose proof (proj1 Hc). cbn [fst snd] in *. split; [lia|].
    destruct (decide (p = off + zlen w)) as [->|].
    + eexists. split; [apply Hend|]. by apply copied_all.
    + destruct (Hround p buf Hc ltac:(lia)) as (q&Hq&E).
      destruct (copied_write off w p buf q Hc Ho ltac:(lia) Hw) as (buf'&Hwr&Hc').
      rewrite E, Hwr. eexists. split; [done|]. cbn [bindR]. split; [done|]. cbn [fst]. lia.
Qed.

Lemma sub_c_region o n a m : c = region (src_byte (er_src b)) o n -> 0 <= a -> 0 <= m -> a + m <= n ->
  sub c a m = region (src_byte (er_src b)) (o + a) m.
Proof. intros Hc. intros. rewrite Hc. by apply sub_region. Qed.

Lemma inline_round_holds full base off w p buf :
  full = zlen c / er_block_size b * er_block_size b -> base = ei_raw_blkaddr i * er_block_size b ->
  base + full <= src_len (er_src b) -> ei_inline_off i + (zlen c - full) <= src_len (er_src b) ->
  c = region (src_byte (er_src b)) base full ++ region (src_byte (er_src b)) (ei_inline_off i) (zlen c - full) ->
  0 <= off -> off + zlen w <= zlen c -> copied off w (p, buf) -> p < off + zlen w ->
  exists q, p < q <= off + zlen w /\
    inline_round b base (ei_inline_off i) full off (off + zlen w) (p, buf)
    = (let! buf' := write_at buf (p - off) (sub c p (q - p)) in Ok (inl (q, buf'))).
Proof.
  intros Hfull Hbase Hin1 Hin2 Hc Ho Hw (Hp&Hz&_) Hlt. cbn [fst snd] in *.
  pose proof (bs_range b geo) as Hbs. destruct iok as (_&Hraw&Hio). pose proof (src_len_range _ (ok_src _ geo)).
  assert (0 <= full <= zlen c).
  { pose proof (Z.mul_div_le (zlen c) (er_block_size b) ltac:(lia)). pose proof (zlen_nonneg c).
    pose proof (Z.div_pos (zlen c) (er_block_size b) ltac:(lia) ltac:(lia)). lia. }
  assert (0 <= base) by nia. unfold inline_round. rewrite (proj2 (Z.ltb_lt p (off + zlen w))) by done. cbn [negb].
  assert (Hzr : zlen (region (src_byte (er_src b)) base full) = full) by (apply zlen_region; lia).
  destruct (Z.ltb_spec p full).
  - exists (Z.min (off + zlen w) full). split; [lia|]. rewrite addw_eq by lia. cbn [bindR].
    rewrite read_into_eq by (apply geo || lia).
    replace (sub c p _) with (region (src_byte (er_src b)) (base + p) (p - off + (Z.min (off + zlen w) full - p) - (p - off))); [done|].
    rewrite Hc, sub_app_l by lia. rewrite sub_region by lia. f_equal. lia.
  - exists (off + zlen w). split; [lia|]. rewrite addw_eq by lia. cbn [bindR].
    rewrite read_into_eq by (apply geo || lia).
    replace (sub c p _) with (region (src_byte (er_src b)) (ei_inline_off i + (p - full)) (p - off + (off + zlen w - p) - (p - off))); [done|].
    rewrite Hc, sub_app_r by lia. rewrite Hzr, sub_region by lia. f_equal. lia.
Qed.

Lemma chunk_round_holds chunk table off w p buf :
  0 < chunk <= 2 ^ 40 -> 0 <= table ->
  (forall idx, 0 <= idx < div_ceil (zlen c) chunk -> chunk_holds chunk table idx) ->
  0 <= off -> off + zlen w <= zlen c -> copied off w (p, buf) -> p < off + zlen w ->
  exists q, p < q <= off + zlen w /\
    chunk_round b chunk table off (off + zlen w) (p, buf)
    = (let! buf' := write_at buf (p - off) (sub c p (q - p)) in Ok (inl (q, buf'))).
Proof.
  intros Hch Ht Hall Ho Hw (Hp&Hz&_) Hlt. cbn [fst snd] in *.
  pose proof (bs_range b geo) as Hbs. pose proof (src_len_range _ (ok_src _ geo)).
  pose proof (Z.div_mod p chunk ltac:(lia)) as Hdm. pose proof (Z.mod_pos_bound p chunk ltac:(lia)).
  pose proof (Z.div_pos p chunk ltac:(lia) ltac:(lia)). set (idx := p / chunk) in *.
  pose proof (div_ceil_ge (zlen c) chunk ltac:(lia)).
  destruct (Hall idx) as (blk&Hblk&Hin&Htab&Hn); [nia|]. cbn zeta in Hn. set (n := Z.min chunk _) in Hn.
  exists (Z.min (off + zlen w) ((idx + 1) * chunk)). split; [nia|].
  set (q := Z.min (off + zlen w) _). assert (Hq : p < q <= off + zlen w) by nia.
  assert (Hqn : p mod chunk + (q - p) <= n) by nia.
  unfold chunk_round. rewrite (proj2 (Z.ltb_lt p (off + zlen w))) by done. cbn [negb]. fold idx.
  rewrite mulw_eq by nia. cbn [bindR]. fold q. rewrite addw_eq by lia. cbn [bindR].
  rewrite src_read_in_range by (apply geo || lia). cbn [bindR]. rewrite Htab, le_num_le_bytes.
  rewrite Z.mod_small by (change (256 ^ Z.of_nat 4) with (2 ^ 32); lia).
  assert (Hsub : sub c p (q - p) = sub (sub c (idx * chunk) n) (p mod chunk) (q - p)).
  { rewrite sub_sub by nia. f_equal. lia. }
  rewrite Hsub. destruct (blk =? NULL_BLKADDR).
  - rewrite Hn, sub_zeros by lia. done.
  - destruct Hn as [Hfit ->]. rewrite sub_region by lia.
    rewrite read_into_eq by (apply geo || nia). by replace (p - off + (q - p) - (p - off)) with (q - p) by lia.
Qed.

Lemma zlen_concat_pieces (pieces : list (list byte)) p out :
  zlen (out ++ concat (p :: pieces)) = zlen ((out ++ p) ++ concat pieces).
Proof. cbn [concat]. by rewrite app_assoc. Qed.

Lemma decode_pieces algo1 algo2 heads : forall pieces out, pieces_hold algo1 algo2 heads pieces out ->
  decode_heads b (zlen (out ++ concat pieces)) algo1 algo2 heads out = Ok (out ++ concat pieces).
Proof.
  induction heads as [|h heads IH]; intros [|p pieces] out; cbn [pieces_hold decode_heads]; try done.
  { intros _. by rewrite app_nil_r. }
  intros (Hst&Hp&Hrest).
  assert (match heads with [] => zlen (out ++ concat (p :: pieces)) | n :: _ => hd_start n end = zlen out + zlen p) as ->.
  { destruct heads as [|h' heads], pieces as [|p' pieces]; cbn [pieces_hold] in Hrest; try done.
    - cbn [concat]. by rewrite app_nil_r, zlen_app.
    - destruct Hrest as [-> _]. by rewrite zlen_app. }
  pose proof (zlen_nonneg p). rewrite Hst, (proj2 (Z.ltb_ge _ _)) by lia.
  replace (zlen out + zlen p - zlen out) with (zlen p) by lia.
  rewrite zlen_concat_pieces. cbn [concat]. rewrite (app_assoc out p). destruct (Z.eqb_spec (zlen p) 0) as [Hz|Hz].
  - apply zlen_0_nil in Hz as ->. rewrite app_nil_r in *. by apply IH.
  - destruct Hp as (span&Hs&Hd); [by intros ->|]. rewrite Hs. cbn [bindR]. rewrite Hd. cbn [bindR]. by apply IH.
Qed.

(** The format of a chunk-based inode with block addresses and no other feature. *)
Lemma chunk_format_bits bits : 0 <= bits < 32 ->
  Z.land bits (Z.lnot CHUNK_FORMAT_ALL) = 0 /\ Z.land bits CHUNK_48BIT = 0 /\
  Z.land bits CHUNK_BLKBITS_MASK = bits /\ Z.land bits CHUNK_INDEXES = 0.
Proof.
  intros Hb.
  assert (HF : Forall (fun x => Z.land x (Z.lnot CHUNK_FORMAT_ALL) = 0 /\ Z.land x CHUNK_48BIT = 0 /\
    Z.land x CHUNK_BLKBITS_MASK = x /\ Z.land x CHUNK_INDEXES = 0) (seqZ 0 32)).
  { apply (bool_decide_unpack _). vm_compute. exact I. }
  rewrite Forall_forall in HF. apply HF, elem_of_seqZ. lia.
Qed.

(** A window of the content written over the whole buffer. *)
Lemma write_window start w : 0 <= start -> start + zlen w <= zlen c ->
  write_at w 0 (sub c start (zlen w)) = Ok (sub c start (zlen w)).
Proof.
  intros Hs Hw. pose proof (zlen_nonneg w). assert (Hz : zlen (sub c start (zlen w)) = zlen w) by (apply zlen_sub; lia).
  rewrite write_at_eq by lia. rewrite sub_nil, Hz, Z.add_0_l. unfold zlen at 2.
  by rewrite Nat2Z.id, drop_all, app_nil_r.
Qed.

(** The layouts, one by one, for a window inside the file. *)
Section Window.
Variables (start : Z) (w : list byte).
Hypotheses (Hstart : 0 <= start) (Hfits : start + zlen w <= zlen c).

Lemma read_flat_plain :
  ei_layout i = FLAT_PLAIN -> ei_raw_blkaddr i * er_block_size b + zlen c <= src_len (er_src b) ->
  c = region (src_byte (er_src b)) (ei_raw_blkaddr i * er_block_size b) (zlen c) ->
  read_flat b i start (start + zlen w) w = Ok (zlen w, sub c start (zlen w)).
Proof.
  intros Hl Hin Hc. pose proof (bs_range b geo) as Hbs. destruct iok as (_&Hraw&Hio).
  pose proof (src_len_range _ (ok_src _ geo)). pose proof (zlen_nonneg w).
  unfold read_flat. rewrite Hl. change (FLAT_PLAIN =? FLAT_PLAIN) with true. cbn iota.
  rewrite addw_eq by nia. cbn [bindR]. replace (start + zlen w - start) with (zlen w) by lia.
  rewrite read_into_eq by (apply geo || nia). rewrite Z.sub_0_r.
  rewrite <- (sub_c_region _ _ start (zlen w) Hc) by lia. by rewrite write_window.
Qed.

Lemma read_flat_inline full :
  ei_layout i = FLAT_INLINE -> full = zlen c / er_block_size b * er_block_size b ->
  ei_raw_blkaddr i * er_block_size b + full <= src_len (er_src b) ->
  ei_inline_off i + (zlen c - full) <= src_len (er_src b) ->
  c = region (src_byte (er_src b)) (ei_raw_blkaddr i * er_block_size b) full ++
      region (src_byte (er_src b)) (ei_inline_off i) (zlen c - full) ->
  read_flat b i start (start + zlen w) w = Ok (zlen w, sub c start (zlen w)).
Proof.
  intros Hl Hfull Hin1 Hin2 Hc. pose proof (zlen_nonneg w). unfold read_flat. rewrite Hl, csize.
  change (FLAT_INLINE =? FLAT_PLAIN) with false. change (FLAT_INLINE =? FLAT_INLINE) with true. cbn iota.
  rewrite <- Hfull. erewrite copy_loop; [|lia|done| |].
  - cbn [bindR]. by replace (start + zlen w - start) with (zlen w) by lia.
  - intros buf. unfold inline_round. by rewrite Z.ltb_irrefl.
  - intros p buf Hcp Hlt. apply inline_round_holds; done || lia.
Qed.

Lemma read_flat_chunks bits table :
  ei_layout i = CHUNK_BASED -> Z.land (ei_raw_blkaddr i) 0xffff = bits -> 0 <= bits < 32 ->
  er_blkszbits b + bits <= 40 -> table = (ei_inline_off i + 3) / 4 * 4 -> start < zlen c ->
  (forall idx, 0 <= idx < div_ceil (zlen c) (2 ^ (er_blkszbits b + bits)) ->
     chunk_holds (2 ^ (er_blkszbits b + bits)) table idx) ->
  read_flat b i start (start + zlen w) w = Ok (zlen w, sub c start (zlen w)).
Proof.
  intros Hl Hfmt Hbits Hmax Htab Hlt Hall. destruct iok as (_&Hraw&Hio).
  pose proof (src_len_range _ (ok_src _ geo)). pose proof (zlen_nonneg w).
  unfold read_flat. rewrite Hl. change (CHUNK_BASED =? FLAT_PLAIN) with false.
  change (CHUNK_BASED =? FLAT_INLINE) with false. change (CHUNK_BASED =? CHUNK_BASED) with true.
  cbn iota. unfold read_chunked. rewrite Hfmt.
  destruct (chunk_format_bits bits Hbits) as (-> & -> & Hm & ->). cbn [Z.eqb negb]. rewrite Hm, Z.gtb_ltb.
  pose proof (Z.pow_le_mono_r 2 (er_blkszbits b + bits) 40 ltac:(lia) ltac:(lia)).
  pose proof (ok_bits _ geo). pose proof (Z.pow_pos_nonneg 2 (er_blkszbits b + bits) ltac:(lia) ltac:(lia)).
  pose proof (Z.div_mod (ei_inline_off i + 3) 4 ltac:(lia)) as Hdm.
  pose proof (Z.mod_pos_bound (ei_inline_off i + 3) 4 ltac:(lia)).
  assert (ei_inline_off i + 3 < 2 ^ 64).
  { destruct (Hall 0) as (blk&_&Hin&_); [|lia].
    pose proof (div_ceil_ge (zlen c) (2 ^ (er_blkszbits b + bits)) ltac:(lia)). nia. }
  rewrite (proj2 (Z.ltb_ge _ _)) by lia. rewrite addw_eq by lia. cbn [bindR].
  change 3 with (Z.ones 2) at 2. rewrite land_lnot_ones, Z.shiftl_mul_pow2, Z.mul_1_l by lia.
  change (2 ^ 2) with 4. replace (ei_inline_off i + 3 - (ei_inline_off i + 3) mod 4) with table by lia.
  erewrite copy_loop; [|lia|done| |].
  - cbn [bindR]. by replace (start + zlen w - start) with (zlen w) by lia.
  - intros buf. unfold chunk_round. by rewrite Z.ltb_irrefl.
  - intros p buf Hcp Hp. apply chunk_round_holds; done || lia.
Qed.
End Window.

(** A compressed file decodes to its content. *)
Lemma decode_compressed_holds advise a1 a2 lcbits heads pieces mh :
  mh = (ei_inline_off i + 7) / 8 * 8 -> zlen c <= MAX_BOOT_FILE_BYTES ->
  ei_inline_off i + 7 < 2 ^ 64 -> read_map_header b mh = Ok (advise, a1, a2, lcbits) ->
  build_heads b (ei_layout i) mh advise lcbits (div_ceil (zlen c) (2 ^ lcbits)) = Ok heads ->
  pieces_hold a1 a2 heads pieces [] -> c = concat pieces -> decode_compressed b i = Ok c.
Proof.
  intros Hmh Hcap Hov Hhdr Hheads Hpieces Hc. destruct iok as (_&Hraw&Hio).
  unfold decode_compressed. rewrite addw_eq by lia. cbn [bindR].
  pose proof (land_lnot_ones (ei_inline_off i + 7) 3 ltac:(lia)) as Hal. change (Z.ones 3) with 7 in Hal.
  pose proof (Z.div_mod (ei_inline_off i + 7) (2 ^ 3) ltac:(lia)) as Hdm. change (2 ^ 3) with 8 in *.
  pose proof (Z.mod_pos_bound (ei_inline_off i + 7) 8 ltac:(lia)).
  replace (ei_inline_off i + 7 - (ei_inline_off i + 7) mod 8) with mh in Hal by lia. rewrite Hal.
  rewrite (proj2 (checked_full_Ok _ _)) by (rewrite csize; done). cbn [bindR]. rewrite Hhdr. cbn [bindR].
  pose proof (read_map_header_wp (X := False) b mh geo) as Hlc. rewrite Hhdr in Hlc.
  specialize (Hlc ltac:(lia)). cbn [wpx] in Hlc.
  rewrite Z.shiftl_mul_pow2, Z.mul_1_l, csize, Hheads by lia. cbn [bindR].
  pose proof (decode_pieces a1 a2 heads pieces [] Hpieces) as Hdec. cbn [app] in Hdec. by rewrite <- Hc in Hdec.
Qed.

(** Reading anywhere in a file gives the content there. *)
Lemma ref_data_holds start w : holds -> 0 <= start < zlen c -> start + zlen w <= zlen c ->
  ref_data b i start w = Ok (zlen w, sub c start (zlen w)).
Proof.
  intros Hh Hs Hw. pose proof (zlen_nonneg w).
  unfold ref_data. rewrite csize, Z.geb_leb, (proj2 (Z.leb_gt _ _)) by lia.
  rewrite addw_eq by lia. cbn [bindR]. rewrite Z.min_l by lia.
  destruct Hh as [Hl Hin Hc|full Hl Hfull Hin1 Hin2 Hc|bits table Hl Hfmt Hbits Hmax Htab Hall
    |advise a1 a2 lcbits heads pieces mh Hl Hmh Hcap Hov Hhdr Hheads Hpieces Hc].
  - rewrite Hl. cbn [is_compressed orb]. apply read_flat_plain; done || lia.
  - rewrite Hl. cbn [is_compressed orb]. apply (read_flat_inline start w ltac:(lia) Hw full); done.
  - rewrite Hl. cbn [is_compressed orb]. apply (read_flat_chunks start w ltac:(lia) Hw bits table); done || lia.
  - rewrite Hl. rewrite (decode_compressed_holds advise a1 a2 lcbits heads pieces mh) by done. cbn [bindR].
    unfold copy_decoded. replace (start + zlen w - start) with (zlen w) by lia.
    rewrite (proj2 (get_range_Some c start (start + zlen w) _)) by (split; [lia|]; split; [lia|reflexivity]).
    cbn [ok_or bindR]. replace (start + zlen w - start) with (zlen w) by lia. by rewrite write_window by lia.
Qed.
End Content.

(** ** Lemmas: a written compact index *)

Lemma run_units cap us : 0 < cap -> run_ok cap us -> zlen us = div_ceil (zlen (run_entries us)) cap.
Proof.
  intros Hc. induction us as [|u us IH]; intros Hus.
  { unfold div_ceil. change (zlen (run_entries [])) with 0. rewrite Z.div_small; [done|lia]. }
  destruct Hus as (Hu&Hfull&Hus). rewrite zlen_run_entries, zlen_cons, (IH Hus). unfold div_ceil.
  destruct us as [|u' us].
  - change (zlen (run_entries [])) with 0. rewrite (Z.div_small (0 + cap - 1)) by lia.
    destruct Hu as [Hn _]. rewrite Z.add_0_r. apply (Z.div_unique _ _ _ (zlen u.1 - 1)); lia.
  - rewrite Hfull by done. replace (cap + zlen (run_entries (u' :: us)) + cap - 1)
      with (zlen (run_entries (u' :: us)) + cap - 1 + 1 * cap) by lia.
    rewrite Z.div_add by lia. lia.
Qed.

Lemma run_units_ok cap us : run_ok cap us -> Forall (fun u => u.1 <> [] /\ 0 <= u.2) us.
Proof.
  induction us as [|u us IH]; [constructor|]. intros ((Hn&_&Hb)&_&Hus). constructor; [|by apply IH].
  split; [|lia]. intros E. rewrite E in Hn. by destruct Hn.
Qed.

Lemma run_entries_app us us' : run_entries (us ++ us') = run_entries us ++ run_entries us'.
Proof. unfold run_entries. by rewrite fmap_app, concat_app. Qed.

(** The bytes of a run of groups, a run of packs and a run of groups. *)
Definition compact_bytes (ua ub uc : list CUnit) : list byte :=
  concat (group_bytes <$> ua) ++ concat (pack_bytes <$> ub) ++ concat (group_bytes <$> uc).

Lemma zlen_compact_bytes ua ub uc : run_ok 2 ua -> run_ok 16 ub -> run_ok 2 uc ->
  zlen (compact_bytes ua ub uc) = div_ceil (zlen (run_entries ua)) 2 * 8 +
    div_ceil (zlen (run_entries ub)) 16 * 32 + div_ceil (zlen (run_entries uc)) 2 * 8.
Proof.
  intros Ha Hb Hc. unfold compact_bytes.
  rewrite !zlen_app, (zlen_run_bytes group_bytes 8 zlen_group_bytes), (zlen_run_bytes pack_bytes 32 zlen_pack_bytes),
    (zlen_run_bytes group_bytes 8 zlen_group_bytes).
  rewrite (run_units 2 ua), (run_units 16 ub), (run_units 2 uc) by (done || lia). lia.
Qed.

Lemma run_entries_bound ua ub uc : run_ok 2 ua -> run_ok 16 ub -> run_ok 2 uc ->
  zlen (run_entries (ua ++ ub ++ uc)) <= zlen (compact_bytes ua ub uc).
Proof.
  intros Ha Hb Hc. rewrite zlen_compact_bytes, !run_entries_app, !zlen_app by done.
  pose proof (zlen_nonneg (run_entries ua)). pose proof (zlen_nonneg (run_entries ub)). pose proof (zlen_nonneg (run_entries uc)).
  pose proof (div_ceil_ge (zlen (run_entries ua)) 2 ltac:(lia)).
  pose proof (div_ceil_ge (zlen (run_entries ub)) 16 ltac:(lia)).
  pose proof (div_ceil_ge (zlen (run_entries uc)) 2 ltac:(lia)). lia.
Qed.

(** The three runs, read one after the other, each from where the one before ends. *)
Lemma compact_runs_read {A} ua ub uc (k : list RawEntry -> Res A) : run_ok 2 ua -> run_ok 16 ub -> run_ok 2 uc ->
  zlen (run_entries (ua ++ ub ++ uc)) < 2 ^ 64 -> let buf := compact_bytes ua ub uc in
  (let! s := read_4b_groups buf (zlen (run_entries ua)) (0, 0, []) in
   let! s := read_2b_packs buf (zlen (run_entries ub)) s in
   let! (_, _, raw) := read_4b_groups buf (zlen (run_entries uc)) s in k raw)
  = k (unit_raws 0 (ua ++ ub ++ uc)).
Proof.
  intros Ha Hb Hc Hn buf. rewrite !run_entries_app, !zlen_app in Hn.
  pose proof (zlen_nonneg (run_entries ua)). pose proof (zlen_nonneg (run_entries ub)). pose proof (zlen_nonneg (run_entries uc)).
  unfold buf, compact_bytes. set (da := concat (group_bytes <$> ua)). set (db := concat (pack_bytes <$> ub)).
  set (dc := concat (group_bytes <$> uc)).
  assert (Hza : zlen da = zlen ua * 8) by (apply (zlen_run_bytes group_bytes 8 zlen_group_bytes)).
  assert (Hzb : zlen db = zlen ub * 32) by (apply (zlen_run_bytes pack_bytes 32 zlen_pack_bytes)).
  pose proof (unit_raws_ok 2 ua 0 Ha) as Hoka. pose proof (unit_raws_ok 16 ub (zlen ua) Hb) as Hokb.
  pose proof (read_4b_groups_written [] ua (db ++ dc) 0 [] Ha ltac:(lia) ltac:(constructor)) as Hra.
  cbn [app] in Hra. change (zlen []) with 0 in Hra. fold da in Hra. rewrite Hra. cbn [bindR]. rewrite !Z.add_0_l, <- Hza.
  pose proof (read_2b_packs_written da ub dc (zlen ua) (unit_raws 0 ua) Hb ltac:(lia) Hoka) as Hrb.
  fold db in Hrb. rewrite Hrb. cbn [bindR].
  pose proof (read_4b_groups_written (da ++ db) uc [] (zlen ua + zlen ub) (unit_raws 0 ua ++ unit_raws (zlen ua) ub)
    Hc ltac:(lia) ltac:(by apply Forall_app)) as Hrc.
  rewrite app_nil_r, <- app_assoc, zlen_app, Hzb in Hrc. fold dc in Hrc. rewrite Hrc. cbn [bindR]. f_equal.
  by rewrite !unit_raws_app, Z.add_0_l, app_assoc.
Qed.

(** ** Properties *)

Section Properties.
Context {D : Decoders} {DL : DecoderLaws D} {S : Type} `{SourceLaws S}.
Implicit Types (src : S) (fs : Erofs S).

(** The verifier answers about every block of the volume. *)
Definition answers (v : Verifier) (bs : Z) : Prop :=
  forall node start d, 0 <= start -> zlen d <= bs -> returns (verify_block v node start d).

(** What an operation answers is the reference's answer. *)
Lemma computes_fst {A} b fs (m : ST (Erofs S) A) r : computes (coherent b) m r (coherent b) ->
  coherent b fs -> (m fs).1 = r.
Proof. intros Hm Hc. by destruct (Hm fs Hc) as (fs'&->&_). Qed.

(** C21.  The memo tables are transparent: whatever was done on two mounted
    volumes over one medium, with whatever verifiers, every operation gives the
    same answer on both, errors and outcomes of verification included. *)
Theorem erofs_memo_transparent src fs fs' : src_valid src -> Mounted src fs -> Mounted src fs' ->
  forall v node off buf nm,
    (erofs_read_dir node fs).1 = (erofs_read_dir node fs').1 /\
    (erofs_lookup node nm fs).1 = (erofs_lookup node nm fs').1 /\
    (erofs_metadata node fs).1 = (erofs_metadata node fs').1 /\
    (erofs_read_at v node off buf fs).1 = (erofs_read_at v node off buf fs').1 /\
    (erofs_read_link node fs).1 = (erofs_read_link node fs').1.
Proof.
  intros Hv Hm Hm' v node off buf nm. destruct (erofs_mounted src fs Hv Hm) as (_&_&Hc&Ho).
  destruct (erofs_mounted src fs' Hv Hm') as (_&_&Hc'&Ho').
  assert (bare fs' = bare fs) as Eb by congruence. rewrite Eb in Hc'.
  repeat match goal with |- _ /\ _ => split end;
    (erewrite computes_fst; [|first [apply read_dir_computes|apply lookup_computes|apply metadata_computes
       |apply read_at_computes|apply read_link_computes]|exact Hc]);
    (erewrite computes_fst; [reflexivity|first [apply read_dir_computes|apply lookup_computes
       |apply metadata_computes|apply read_at_computes|apply read_link_computes]|exact Hc']).
Qed.

(** The medium gives [d] for block [m] of the file of [i]: what [read_inode_data] reads
    there, by the cacheless reference. *)
Definition serves_block fs i m d : Prop :=
  let bs := er_block_size fs in
  0 <= m /\ m * bs < ei_size i /\ zlen d = Z.min bs (ei_size i - m * bs) /\
  exists w n, ref_data fs i (m * bs) w = Ok (n, d).

Lemma ref_data_bare fs i off buf : ref_data (bare fs) i off buf = ref_data fs i off buf.
Proof.
  unfold ref_data. destruct (_ >=? _); [done|]. destruct (addw _ _ _); try done. cbn [bindR].
  destruct (is_compressed _); [by rewrite decode_compressed_bare|apply read_flat_bare].
Qed.

Lemma serves_block_bare fs fs' i m d : bare fs = bare fs' -> serves_block fs i m d -> serves_block fs' i m d.
Proof.
  intros Eb. assert (er_block_size fs = er_block_size fs') as Ebs by exact (f_equal er_block_size Eb).
  unfold serves_block. rewrite Ebs. intros (?&?&?&w&n&Hr). split_and!; try done. exists w, n.
  by rewrite <- ref_data_bare, <- Eb, ref_data_bare.
Qed.

Lemma read_at_served src fs v node off buf n b fs' i (Q : Z -> byte -> Prop) :
  src_valid src -> Mounted src fs -> answers v (er_block_size fs) -> 0 <= node -> 0 <= off ->
  erofs_read_at v node off buf fs = (Ok (n, b), fs') -> read_inode fs node = Ok i ->
  (forall m d, serves_block fs i m d -> verify_block v node (m * er_block_size fs) d = Ok tt ->
     forall k x, get d k = Some x -> Q (m * er_block_size fs + k) x) ->
  n = span_of i off (zlen buf) /\ served Q off buf n b.
Proof.
  intros Hv Hm Ha Hn Ho Hr Hi HQ. destruct (erofs_mounted src fs Hv Hm) as (Hg&_&Hc&_).
  pose proof (bs_range (bare fs) Hg) as Hbs. change (er_block_size (bare fs)) with (er_block_size fs) in Hbs.
  pose proof (computes_fst (bare fs) fs _ _ (read_at_computes v (bare fs) node off buf) Hc) as Hf.
  rewrite Hr, read_inode_bare, Hi in Hf. cbn [fst bindR] in Hf. symmetry in Hf.
  pose proof (erofs_read_inode_wp (bare fs) node Hg Hn) as Hiok. rewrite read_inode_bare, Hi in Hiok.
  pose proof (zlen_nonneg buf). unfold ref_read_at in Hf. destruct (bool_decide _); [done|].
  unfold span_of. rewrite Z.geb_leb in *. destruct (Z.leb_spec (ei_size i) off).
  - injection Hf as <- <-. split; [done|]. split; [done|]. split; [done|]. intros j Hj. lia.
  - apply bindR_Ok in Hf as (lim&[_ ->]%addw_Ok&Hf). set (end_ := Z.min _ _) in Hf.
    assert (HQ' : forall start w n' d, 0 <= start < ei_size i -> (exists m, start = m * er_block_size (bare fs)) ->
      zlen d = Z.min (er_block_size (bare fs)) (ei_size i - start) -> ref_data (bare fs) i start w = Ok (n', d) ->
      verify_block v node start d = Ok tt -> forall k x, get d k = Some x -> Q (start + k) x).
    { change (er_block_size (bare fs)) with (er_block_size fs). intros start w n' d Hs [m ->] Hd Hrd. apply HQ.
      split; [nia|]. split; [lia|]. split; [done|]. exists w, n'. by rewrite <- ref_data_bare. }
    destruct (wp_Ok _ _ _ (read_loop_wp (bare fs) i v node Hg Hiok Q off end_ buf ltac:(lia) ltac:(lia) ltac:(lia)
      ltac:(intros start d; apply Ha) HQ') Hf) as [Hn' Hs].
    cbn [fst snd] in *. replace (Z.min (zlen buf) (ei_size i - off)) with (end_ - off) by lia. by rewrite Hn'.
Qed.

(** C18.  No byte reaches the caller before its block was verified: a read that
    succeeds gives as many bytes as the buffer takes and the file has, leaves the
    rest of the buffer alone, and each byte it gives is the byte at its place in a
    block that the verifier accepted for that place, whole and of the length the
    block has in the file. *)
Theorem erofs_read_at_verified src fs v node off buf n b fs' i :
  src_valid src -> Mounted src fs -> answers v (er_block_size fs) -> 0 <= node -> 0 <= off ->
  erofs_read_at v node off buf fs = (Ok (n, b), fs') -> read_inode fs node = Ok i ->
  let bs := er_block_size fs in
  n = (if off >=? ei_size i then 0 else Z.min (zlen buf) (ei_size i - off)) /\
  zlen b = zlen buf /\ drop (Z.to_nat n) b = drop (Z.to_nat n) buf /\
  forall j, 0 <= j < n -> exists d x,
    verify_block v node ((off + j) / bs * bs) d = Ok tt /\
    zlen d = Z.min bs (ei_size i - (off + j) / bs * bs) /\
    get d ((off + j) mod bs) = Some x /\ get b j = Some x.
Proof.
  intros Hv Hm Ha Hn Ho Hr Hi bs. pose proof (erofs_mounted src fs Hv Hm) as (Hg&_).
  pose proof (bs_range (bare fs) Hg) as Hbs. change (er_block_size (bare fs)) with bs in Hbs.
  destruct (read_at_served src fs v node off buf n b fs' i (fun p x => exists d,
    verify_block v node (p / bs * bs) d = Ok tt /\ zlen d = Z.min bs (ei_size i - p / bs * bs) /\
    get d (p mod bs) = Some x) Hv Hm Ha Hn Ho Hr Hi) as [Hn' (Hz&Hd&Hs)].
  - intros m d (_&_&Hd&_) Hvd k x Hk. fold bs in Hd, Hvd |- *.
    assert (0 <= k < zlen d) by (apply get_is_Some; by exists x).
    assert (Hdiv : (m * bs + k) / bs = m) by (symmetry; apply (Z.div_unique _ _ _ k); lia).
    assert (Hmod : (m * bs + k) mod bs = k) by (symmetry; apply (Z.mod_unique _ _ m); lia).
    exists d. by rewrite Hdiv, Hmod.
  - split; [done|]. split; [done|]. split; [done|]. intros j Hj.
    destruct (Hs j Hj) as (x&Hx&d&?&?&?). by exists d, x.
Qed.

(** What an operation answers, from what the reference does with the inode. *)
Lemma op_wp {A} src fs node (m : ST (Erofs S) A) (k : Erofs S -> ErofsInode -> Res A) P :
  src_valid src -> Mounted src fs -> 0 <= node ->
  (forall b, computes (coherent b) m (let! i := read_inode b node in k b i) (coherent b)) ->
  (forall b i, geo_ok b -> er_block_size b = er_block_size fs -> inode_ok i -> wpx True (k b i) P) ->
  wpx True (m fs).1 P.
Proof.
  intros Hv Hm Hn Hc Hk. destruct (erofs_mounted src fs Hv Hm) as (Hg&_&Hco&_).
  rewrite (computes_fst _ _ _ _ (Hc (bare fs)) Hco). apply wp_bind.
  eapply wp_mono; [by apply erofs_read_inode_wp|]. intros i Hi. by apply Hk.
Qed.

Lemma erofs_read_dir_wp src fs dir : src_valid src -> Mounted src fs -> 0 <= dir ->
  wpx True (erofs_read_dir dir fs).1 listing_ok.
Proof.
  intros Hv Hm Hd. apply (op_wp src fs dir _ ref_dir_entries); try done; [intros b; apply read_dir_computes|].
  intros b i Hg _ Hi. by apply ref_dir_entries_wp.
Qed.

Lemma erofs_lookup_wp src fs dir nm : src_valid src -> Mounted src fs -> 0 <= dir ->
  wpx True (erofs_lookup dir nm fs).1 (fun o => forall n, o = Some n -> 0 <= n).
Proof.
  intros Hv Hm Hd. pose proof (erofs_read_dir_wp src fs dir Hv Hm Hd) as Hw. unfold erofs_lookup, bindST.
  destruct (erofs_read_dir dir fs) as [[es|e| | |] fs']; try done. cbn in Hw |- *. intros n Hn.
  by eapply (find_entry_Forall (fun n => 0 <= n)).
Qed.

Lemma erofs_metadata_wp src fs node : src_valid src -> Mounted src fs -> 0 <= node ->
  wpx True (erofs_metadata node fs).1 (fun _ => True).
Proof.
  intros Hv Hm Hn. apply (op_wp src fs node _ (fun _ => ref_metadata)); try done. intros b. apply metadata_computes.
Qed.

Lemma erofs_read_link_wp src fs node : src_valid src -> Mounted src fs -> 0 <= node ->
  wpx True (erofs_read_link node fs).1 (fun _ => True).
Proof.
  intros Hv Hm Hn. apply (op_wp src fs node _ ref_read_link); try done; [intros b; apply read_link_computes|].
  intros b i Hg _ Hi. by apply ref_read_link_wp.
Qed.

Lemma erofs_read_at_wp src fs v node off buf : src_valid src -> Mounted src fs -> 0 <= node -> 0 <= off ->
  answers v (er_block_size fs) ->
  wpx True (erofs_read_at v node off buf fs).1 (fun '(k, b) => zlen b = zlen buf /\ 0 <= k <= zlen buf).
Proof.
  intros Hv Hm Hn Ho Ha. apply (op_wp src fs node _ (fun b i => ref_read_at v b node i off buf)); try done;
    [intros b; apply read_at_computes|].
  intros b i Hg Hbs Hi. unfold ref_read_at. destruct (bool_decide _); [done|]. pose proof (zlen_nonneg buf).
  rewrite Z.geb_leb. destruct (Z.leb_spec (ei_size i) off); [cbn [wpx]; lia|].
  apply wp_bind, wp_addw_x; [done|]. intros _. set (end_ := Z.min _ _).
  eapply wp_mono; [apply (read_loop_wp b i v node Hg Hi (fun _ _ => True) off end_ buf); try done; try lia|].
  - intros start d. rewrite Hbs. apply Ha.
  - intros [n r] [Hn' Hs]. cbn [fst snd] in *. split; [apply Hs|lia].
Qed.

(** C29.  On any medium, mounting an EROFS and every operation on a mounted volume,
    for any handle and any verifier that answers, comes back or stops at an
    arithmetic overflow of an on-disk size or offset: no index or slice is out of
    range and no loop runs for ever. *)
Theorem erofs_total src : src_valid src ->
  returns_or_overflow (erofs_open src) /\
  forall fs, Mounted src fs -> forall v node off buf nm, 0 <= node -> 0 <= off ->
    answers v (er_block_size fs) ->
    returns_or_overflow (erofs_read_dir node fs).1 /\
    returns_or_overflow (erofs_lookup node nm fs).1 /\
    returns_or_overflow (erofs_metadata node fs).1 /\
    returns_or_overflow (erofs_read_at v node off buf fs).1 /\
    returns_or_overflow (erofs_read_link node fs).1.
Proof.
  intros Hv. split; [by apply erofs_open_wp|]. intros fs Hm v node off buf nm Hn Ho Ha.
  split_and!.
  - by eapply wp_returns_x, erofs_read_dir_wp.
  - by eapply wp_returns_x, erofs_lookup_wp.
  - by eapply wp_returns_x, erofs_metadata_wp.
  - by eapply wp_returns_x, erofs_read_at_wp.
  - by eapply wp_returns_x, erofs_read_link_wp.
Qed.

Lemma holds_bare fs i c : holds fs i c -> holds (bare fs) i c.
Proof.
  destruct 1 as [?????|full ?????|bits table ??????|advise a1 a2 lcbits heads pieces mh ????????].
  - by apply Holds_plain.
  - by apply (Holds_inline _ _ _ full).
  - by apply (Holds_chunks _ _ _ bits table).
  - apply (Holds_compressed _ _ _ advise a1 a2 lcbits heads pieces mh); done.
Qed.

(** What is served of a known content is its window. *)
Lemma served_window (C : Prop) (c : list byte) off n buf b :
  0 <= off -> 0 <= n -> off + n <= zlen c -> n <= zlen buf ->
  served (fun p x => get c p = Some x \/ C) off buf n b -> sub b 0 n = sub c off n \/ C.
Proof.
  intros Ho Hn Hc Hb (Hz&_&Hs). apply get_ext_or; [rewrite !zlen_sub by lia; done|].
  intros j x Hj Hx. assert (0 <= j < n).
  { assert (is_Some (get (sub b 0 n) j)) as Hsome by by exists x. apply get_is_Some in Hsome.
    rewrite zlen_sub in Hsome by lia. done. }
  destruct (Hs j ltac:(lia)) as (y&Hy&[Hcy|?]); [left|by right]. rewrite get_front in Hx by lia.
  rewrite get_sub by lia. congruence.
Qed.

(** Reading a known content, every block of which the verifier accepts. *)
Lemma ref_read_at_content `{!ReliableSource S} (b : Erofs S) v node off buf i c :
  geo_ok b -> inode_ok i -> ei_kind i <> Directory -> ei_size i = zlen c -> holds b i c ->
  let bs := er_block_size b in
  (forall k, 0 <= k < div_ceil (zlen c) bs -> verify_block v node (k * bs) (nth_block bs c k) = Ok tt) ->
  0 <= off < zlen c -> off + zlen buf < 2 ^ 64 -> zlen c < 2 ^ 63 ->
  let n := Z.min (zlen c - off) (zlen buf) in
  exists r, ref_read_at v b node i off buf = Ok (n, r) /\ zlen r = zlen buf /\
    sub r 0 n = sub c off n /\ drop (Z.to_nat n) r = drop (Z.to_nat n) buf.
Proof.
  intros Hg Hiok Hk Hsz Hh bs Hver Ho Hlim Hc n. pose proof (bs_range b Hg) as Hbs. fold bs in Hbs.
  pose proof (zlen_nonneg buf). unfold ref_read_at. rewrite bool_decide_eq_false_2 by done.
  rewrite Hsz, Z.geb_leb, (proj2 (Z.leb_gt _ _)) by lia. rewrite addw_eq by lia. cbn [bindR].
  set (end_ := Z.min _ _). assert (Hend : end_ - off = n) by lia.
  destruct (read_loop_succeeds b i v node Hg (fun p x => get c p = Some x \/ False) off end_ buf)
    as ([n' r]&Hr&Hn'&Hs); try (fold bs; lia).
  - fold bs. intros start w Hst [m ->] Hw. rewrite Hsz in *.
    eexists (zlen w), _. split; [apply (ref_data_holds _ _ c Hg Hiok Hsz Hc); [exact Hh|done|lia]|].
    assert (Hz : zlen (sub c (m * bs) (zlen w)) = zlen w) by (apply zlen_sub; lia).
    split; [done|]. split.
    + assert (0 <= m) by nia. rewrite Hw. apply Hver. pose proof (div_ceil_ge (zlen c) bs ltac:(lia)). nia.
    + intros k x Hx. assert (0 <= k < zlen w) by (rewrite <- Hz; apply get_is_Some; by exists x).
      rewrite get_sub in Hx by lia. by left.
  - cbn [fst snd] in *. rewrite Hend in *. subst n'. exists r. split; [exact Hr|]. split; [apply Hs|].
    split; [|apply Hs]. by destruct (served_window False c off n buf r) as [?|[]]; try lia.
Qed.

(** C17.  A file whose data the medium holds, whether stored flat, with an inlined
    tail, in chunks and holes or as compressed pclusters, is read as its content
    from the offset on, as many bytes as fit the buffer and remain, across block,
    chunk and pcluster boundaries, when the verifier accepts its blocks; the rest
    of the buffer is untouched. *)
Theorem erofs_read_at_content `{!ReliableSource S} src fs v node off buf i c :
  src_valid src -> Mounted src fs -> 0 <= node -> read_inode fs node = Ok i ->
  ei_kind i <> Directory -> ei_size i = zlen c -> holds fs i c ->
  let bs := er_block_size fs in
  (forall k, 0 <= k < div_ceil (zlen c) bs -> verify_block v node (k * bs) (nth_block bs c k) = Ok tt) ->
  0 <= off < zlen c -> off + zlen buf < 2 ^ 64 -> zlen c < 2 ^ 63 ->
  let n := Z.min (zlen c - off) (zlen buf) in
  exists b, (erofs_read_at v node off buf fs).1 = Ok (n, b) /\
    sub b 0 n = sub c off n /\ drop (Z.to_nat n) b = drop (Z.to_nat n) buf.
Proof.
  intros Hv Hm Hn Hi Hk Hsz Hh bs Hver Ho Hlim Hc n. destruct (erofs_mounted src fs Hv Hm) as (Hg&_&Hco&_).
  pose proof (erofs_read_inode_wp (bare fs) node Hg Hn) as Hiok. rewrite read_inode_bare, Hi in Hiok.
  rewrite (computes_fst _ _ _ _ (read_at_computes v (bare fs) node off buf) Hco), read_inode_bare, Hi. cbn [bindR].
  destruct (ref_read_at_content (bare fs) v node off buf i c Hg Hiok Hk Hsz (holds_bare fs i c Hh) Hver Ho Hlim Hc)
    as (r&Hr&_&?&?). by exists r.
Qed.

(** A Merkle verifier of the volume's block size answers about its blocks. *)
Lemma merkle_answers src fs sha256 data salt mv : (forall l, zlen (sha256 l) = HASH_LEN) ->
  src_valid src -> Mounted src fs -> over sha256 data (er_blkszbits fs) salt = Ok mv ->
  answers (MerkleVerifier_verifier sha256 mv) (er_block_size fs).
Proof.
  intros Hsha Hv Hm Hov nd start d Hs Hd. destruct (erofs_mounted src fs Hv Hm) as (Hg&_).
  pose proof (ok_bits _ Hg) as Hbits. change (er_blkszbits (bare fs)) with (er_blkszbits fs) in Hbits.
  pose proof (ok_bs _ Hg) as Hbs. change (er_blkszbits (bare fs)) with (er_blkszbits fs) in Hbs.
  change (er_block_size (bare fs)) with (er_block_size fs) in Hbs. rewrite Hbs in Hd.
  by apply (verify_block_spec sha256 Hsha data (er_blkszbits fs) salt mv nd start d ltac:(lia) Hov Hs Hd).
Qed.

(** C11.  The fs-verity guarantee, end to end: a read through a [MerkleVerifier]
    that was built over the trusted data of a file at the volume's block size, and
    that succeeds, gives as many bytes as the buffer takes and the data has, and they
    are bytes of the trusted data, on whatever medium.  The only other way is a block
    that the medium serves for the file, that the verifier accepts, and that is forged:
    what is hashed for it and for the block of the trusted data it stands for is an
    SHA-256 collision. *)
Theorem erofs_merkle_read_trusted src fs sha256 data salt mv node off buf n b fs' i :
  (forall l, zlen (sha256 l) = HASH_LEN) ->
  src_valid src -> Mounted src fs -> over sha256 data (er_blkszbits fs) salt = Ok mv ->
  0 <= node -> 0 <= off -> read_inode fs node = Ok i -> ei_size i = zlen data ->
  erofs_read_at (MerkleVerifier_verifier sha256 mv) node off buf fs = (Ok (n, b), fs') ->
  n = (if off >=? zlen data then 0 else Z.min (zlen buf) (zlen data - off)) /\
  (sub b 0 n = sub data off n \/
   exists m d, serves_block fs i m d /\ merkle_verify_block sha256 mv node (m * er_block_size fs) d = Ok tt /\
     forges sha256 data (er_blkszbits fs) salt m d).
Proof.
  intros Hsha Hv Hm Hov Hnode Ho Hi Hsz Hr. destruct (erofs_mounted src fs Hv Hm) as (Hg&_).
  pose proof (ok_bits _ Hg) as Hbits. change (er_blkszbits (bare fs)) with (er_blkszbits fs) in Hbits.
  pose proof (ok_bs _ Hg) as Hbs. change (er_blkszbits (bare fs)) with (er_blkszbits fs) in Hbs.
  change (er_block_size (bare fs)) with (er_block_size fs) in Hbs. pose proof (zlen_nonneg data).
  pose proof (merkle_answers src fs sha256 data salt mv Hsha Hv Hm Hov) as Ha.
  set (C := exists m d, _). pose proof (Z.pow_le_mono_r 2 9 (er_blkszbits fs) ltac:(lia) ltac:(lia)).
  destruct (read_at_served src fs _ node off buf n b fs' i (fun p x => get data p = Some x \/ C)
    Hv Hm Ha Hnode Ho Hr Hi) as [Hn Hs].
  - intros m d Hsv Hvd k x Hk. pose proof Hsv as (Hm0&_&Hd&_). rewrite Hsz in Hd. rewrite Hbs in Hd.
    assert (Hvd' : merkle_verify_block sha256 mv node (m * 2 ^ er_blkszbits fs) d = Ok tt) by (by rewrite <- Hbs).
    assert (0 <= k < zlen d) by (apply get_is_Some; by exists x). rewrite Hbs.
    destruct (accepted_byte sha256 Hsha data (er_blkszbits fs) salt mv node m d k x) as [Hx|Hf];
      [lia|done|done|lia|done|done|left|right; by exists m, d].
    by rewrite get_app_l in Hx by lia.
  - unfold span_of in Hn. rewrite Hsz in Hn. split; [done|]. pose proof (zlen_nonneg buf).
    assert (0 <= n /\ n <= zlen buf /\ (n = 0 \/ off + n <= zlen data)) as (?&?&[Hz0|?]).
    { rewrite Hn, Z.geb_leb. destruct (Z.leb_spec (zlen data) off); lia. }
    + left. by rewrite Hz0.
    + by destruct (served_window C data off n buf b) as [?|?]; [..|left|right].
Qed.

(** A compact index as mkfs writes it for pclusters, at [ebase]: 4-byte groups up to a
    32-byte boundary, 2-byte packs, 4-byte groups. *)
Definition compact_written fs (ebase lcsize advise : Z) (pcs : list Pcluster) (ua ub uc : list CUnit) : Prop :=
  let n := zlen (index_entries pcs) in
  let c4i := Z.min (Z.land ((32 - Z.land ebase 31) / 4) 7) n in
  let bytes := compact_bytes ua ub uc in
  (run_ok 2 ua /\ zlen (run_entries ua) = c4i) /\
  (run_ok 16 ub /\ zlen (run_entries ub) = (n - c4i) / 16 * 16) /\ run_ok 2 uc /\
  run_entries ua ++ run_entries ub ++ run_entries uc = index_entries pcs /\
  Forall pc_ok pcs /\ match pcs with [] => True | pc :: _ => packed (pc_blk pc) pcs end /\
  blocks_ok (negb (Z.land advise ADVISE_BIG_PCLUSTER =? 0)) (ua ++ ub ++ uc) pcs /\
  n * lcsize + 2 ^ 12 <= 2 ^ 64 /\
  zlen bytes <= MAX_BOOT_FILE_BYTES /\ ebase + zlen bytes <= src_len (er_src fs) /\
  region (src_byte (er_src fs)) ebase (zlen bytes) = bytes.

Lemma compact_index_read `{!ReliableSource S} fs ebase lcsize advise pcs ua ub uc :
  src_valid (er_src fs) -> 0 <= ebase < 2 ^ 64 -> 0 <= lcsize ->
  compact_written fs ebase lcsize advise pcs ua ub uc ->
  build_heads_compact fs ebase lcsize (zlen (index_entries pcs)) advise = Ok (heads_of lcsize true 0 pcs).
Proof.
  intros Hv He Hl ((Ha&Hna)&(Hb&Hnb)&Hc&Hall&Hok&Hp&Hbl&Hn&Hcap&Hin&Hreg).
  set (n := zlen (index_entries pcs)) in *. set (c4i := Z.min _ n) in *.
  pose proof (zlen_nonneg (compact_bytes ua ub uc)).
  assert (Hent : run_entries (ua ++ ub ++ uc) = index_entries pcs) by (by rewrite !run_entries_app).
  pose proof (run_entries_bound ua ub uc Ha Hb Hc) as Hn64. rewrite Hent in Hn64. fold n in Hn64.
  assert (Hnc : zlen (run_entries uc) = n - c4i - (n - c4i) / 16 * 16).
  { unfold n at 1. rewrite <- Hall, !zlen_app. lia. }
  unfold build_heads_compact. fold n. fold c4i. set (c2b := (n - c4i) / 16 * 16) in *.
  assert (Hlen : div_ceil c4i 2 * 8 + c2b / 16 * 32 + div_ceil (n - c4i - c2b) 2 * 8 = zlen (compact_bytes ua ub uc)).
  { rewrite zlen_compact_bytes, Hna, Hnb, Hnc by done. assert (div_ceil c2b 16 = c2b / 16) as ->; [|lia].
    unfold c2b, div_ceil. rewrite Z.div_mul by lia.
    replace ((n - c4i) / 16 * 16 + 16 - 1) with (15 + (n - c4i) / 16 * 16) by lia. by rewrite Z.div_add by lia. }
  rewrite Hlen, (proj2 (checked_full_Ok _ _) (conj Hcap eq_refl)). cbn [bindR].
  rewrite src_read_in_range, Hreg by (done || lia). cbn [bindR]. rewrite <- Hnc, <- Hnb, <- Hna.
  unfold MAX_BOOT_FILE_BYTES in Hcap. rewrite compact_runs_read by (done || rewrite ?Hent; fold n; lia).
  apply resolve_compact_written; try done.
  rewrite !Forall_app. split; [by eapply run_units_ok|]. split; by eapply run_units_ok.
Qed.

(** C23.  The compact index: what mkfs writes for the pclusters of a file, in a run
    of 4-byte groups up to a 32-byte boundary, a run of 2-byte packs and a run of
    4-byte groups, is read back as those pclusters, each with its start, its type,
    its first block and its number of blocks, whether the blocks are found from
    the base of the unit (one-block pclusters) or by the running sum of the block
    counts (big pclusters). *)
Theorem erofs_compact_index_roundtrip `{!ReliableSource S} fs ebase lcsize advise pcs ua ub uc :
  src_valid (er_src fs) -> 0 <= ebase < 2 ^ 64 -> 0 <= lcsize ->
  let n := zlen (index_entries pcs) in
  let c4i := Z.min (Z.land ((32 - Z.land ebase 31) / 4) 7) n in
  let big := negb (Z.land advise ADVISE_BIG_PCLUSTER =? 0) in
  let bytes := concat (group_bytes <$> ua) ++ concat (pack_bytes <$> ub) ++ concat (group_bytes <$> uc) in
  run_ok 2 ua -> zlen (run_entries ua) = c4i ->
  run_ok 16 ub -> zlen (run_entries ub) = (n - c4i) / 16 * 16 -> run_ok 2 uc ->
  run_entries ua ++ run_entries ub ++ run_entries uc = index_entries pcs ->
  Forall pc_ok pcs -> match pcs with [] => True | pc :: _ => packed (pc_blk pc) pcs end ->
  blocks_ok big (ua ++ ub ++ uc) pcs -> n * lcsize + 2 ^ 12 <= 2 ^ 64 ->
  zlen bytes <= MAX_BOOT_FILE_BYTES -> ebase + zlen bytes <= src_len (er_src fs) ->
  region (src_byte (er_src fs)) ebase (zlen bytes) = bytes ->
  build_heads_compact fs ebase lcsize n advise = Ok (heads_of lcsize true 0 pcs).
Proof.
  intros Hv He Hl n c4i big bytes Ha Hna Hb Hnb Hc Hall Hok Hp Hbl Hn Hcap Hin Hreg.
  apply (compact_index_read fs ebase lcsize advise pcs ua ub uc Hv He Hl). by repeat split.
Qed.
End Properties.

(** ** Witnesses: a volume of 512-byte blocks with one directory and one file *)

Definition w_superblock : list byte :=
  le_bytes 4 MAGIC ++ zeros 8 ++ [x09; x00] ++ le_bytes 2 0 ++ zeros 24 ++ le_bytes 4 3 ++ zeros 84.
(** A compact inode: layout, mode, size, block address. *)
Definition w_inode (layout mode size blk : Z) : list byte :=
  le_bytes 2 (layout * 2) ++ le_bytes 2 0 ++ le_bytes 2 mode ++ zeros 2 ++ le_bytes 4 size ++ zeros 4 ++
  le_bytes 4 blk ++ zeros 12.
Definition w_dirents : list byte :=
  le_bytes 8 2 ++ le_bytes 2 12 ++ [x01; x00] ++ bytes_of "f".
(** A block of [a]s and an inlined tail. *)
Definition w_content : list byte := replicate 512 x61 ++ bytes_of "tail!".
(** An extended inode at nid 5 whose size is the largest one. *)
Definition w_huge_inode : list byte :=
  le_bytes 2 1 ++ le_bytes 2 0 ++ le_bytes 2 0x81a4 ++ zeros 2 ++ le_bytes 8 (2 ^ 64 - 1) ++ le_bytes 4 1 ++ zeros 44.
Definition w_image : Image := mkImage 6000 [
  (1024, w_superblock); (1536, w_inode FLAT_INLINE 0x41ed 13 0 ++ w_dirents);
  (1600, w_inode FLAT_INLINE 0x81a4 517 10 ++ bytes_of "tail!"); (1696, w_huge_inode);
  (5120, replicate 512 x61)].
Definition w_file : ErofsInode := mkInode Regular 517 0x81a4 FLAT_INLINE 10 1632.

Definition w_fs0 : Erofs Image :=
  match erofs_open w_image with
  | Ok fs => fs
  | _ => mkErofs w_image 0 0 false 0 0 ∅ ∅ None 0
  end.
Definition w_fs : Erofs Image := (erofs_read_dir 0 w_fs0).2.

Lemma w_erofs_valid : src_valid w_image.
Proof. vm_compute. split; [discriminate|reflexivity]. Qed.
Lemma w_erofs_open : erofs_open w_image = Ok w_fs0.
Proof. vm_compute. reflexivity. Qed.
Lemma w_erofs_mounted0 : Mounted w_image w_fs0.
Proof. apply Mounted_open, w_erofs_open. Qed.
Lemma w_erofs_mounted : Mounted w_image w_fs.
Proof. apply Mounted_read_dir, w_erofs_mounted0. Qed.
Lemma w_erofs_listing : (erofs_read_dir 0 w_fs0).1 = Ok [mkDirEntry (bytes_of "f") 2 Regular].
Proof. vm_compute. reflexivity. Qed.
Lemma w_erofs_file : read_inode w_fs 2 = Ok w_file.
Proof. vm_compute. reflexivity. Qed.

(** The offset of a block near the end of a file of 2^64 - 1 bytes overflows. *)
Lemma erofs_read_overflow : (erofs_read_at NoVerifier 5 (2 ^ 64 - 2) [x00] w_fs).1 = Overflow.
Proof. vm_compute. reflexivity. Qed.

Lemma erofs_memo_transparent_witness :
  (erofs_lookup 0 (bytes_of "f") w_fs0).1 = (erofs_lookup 0 (bytes_of "f") w_fs).1.
Proof.
  destruct (erofs_memo_transparent w_image w_fs0 w_fs w_erofs_valid w_erofs_mounted0 w_erofs_mounted
    NoVerifier 0 0 [] (bytes_of "f")) as (_&Hl&_). exact Hl.
Defined.

Lemma w_answers : answers NoVerifier (er_block_size w_fs).
Proof. intros node start d _ _. exact I. Qed.

Lemma erofs_total_witness :
  returns_or_overflow (erofs_read_at NoVerifier 5 (2 ^ 64 - 2) [x00] w_fs).1 /\
  returns_or_overflow (erofs_read_dir 0 w_fs0).1.
Proof.
  destruct (erofs_total w_image w_erofs_valid) as [_ Hops]. split.
  - destruct (Hops w_fs w_erofs_mounted NoVerifier 5 (2 ^ 64 - 2) [x00] []) as (_&_&_&Hr&_);
      [lia|lia|exact w_answers|]. exact Hr.
  - destruct (Hops w_fs0 w_erofs_mounted0 NoVerifier 0 0 [] []) as (Hd&_); [lia|lia| |exact Hd].
    intros node start d _ _. exact I.
Defined.

Lemma w_read : exists fs', erofs_read_at NoVerifier 2 510 (zeros 5) w_fs = (Ok (5, bytes_of "aatai"), fs').
Proof. eexists. vm_compute. reflexivity. Qed.

Lemma erofs_read_at_verified_witness :
  exists d x, verify_block NoVerifier 2 (512 / er_block_size w_fs * er_block_size w_fs) d = Ok tt /\ get d 0 = Some x /\
    get (bytes_of "aatai") 2 = Some x.
Proof.
  destruct w_read as [fs' Hr].
  destruct (erofs_read_at_verified w_image w_fs NoVerifier 2 510 (zeros 5) 5 (bytes_of "aatai") fs' w_file
    w_erofs_valid w_erofs_mounted w_answers ltac:(lia) ltac:(lia) Hr w_erofs_file) as (_&_&_&Hb).
  destruct (Hb 2 ltac:(lia)) as (d&x&Hv&_&Hd&Hx). exists d, x. split; [exact Hv|]. split; [|exact Hx].
  assert (Hbs : er_block_size w_fs = 512) by (vm_compute; reflexivity). rewrite Hbs in Hd. exact Hd.
Defined.

Lemma w_holds : holds w_fs w_file w_content.
Proof.
  apply (Holds_inline _ _ _ 512).
  - reflexivity.
  - vm_compute. reflexivity.
  - vm_compute. discriminate.
  - vm_compute. discriminate.
  - vm_compute. reflexivity.
Qed.
Lemma w_content_tail : sub w_content 510 7 = bytes_of "aatail!".
Proof. vm_compute. reflexivity. Qed.
Lemma w_content_len : zlen w_content = 517.
Proof. vm_compute. reflexivity. Qed.

Lemma erofs_read_at_content_witness :
  exists b, (erofs_read_at NoVerifier 2 510 (zeros 9) w_fs).1 = Ok (7, b) /\ sub b 0 7 = bytes_of "aatail!".
Proof.
  destruct (erofs_read_at_content w_image w_fs NoVerifier 2 510 (zeros 9) w_file w_content
    w_erofs_valid w_erofs_mounted ltac:(lia) w_erofs_file) as (b&Hb&Hs&_).
  - discriminate.
  - rewrite w_content_len. reflexivity.
  - exact w_holds.
  - intros k _. reflexivity.
  - rewrite w_content_len. lia.
  - vm_compute. reflexivity.
  - rewrite w_content_len. lia.
  - rewrite w_content_len in Hb, Hs. change (Z.min (517 - 510) (zlen (zeros 9))) with 7 in Hb, Hs.
    exists b. split; [exact Hb|]. rewrite <- w_content_tail. exact Hs.
Defined.

(** A verifier over the file's content. *)
Definition w_verifier : MerkleVerifier :=
  match over toy_sha w_content 9 [] with Ok v => v | _ => mkMerkle 0 [] [] [] end.
Lemma w_over : over toy_sha w_content (er_blkszbits w_fs) [] = Ok w_verifier.
Proof. vm_compute. reflexivity. Qed.
Lemma w_merkle_read : exists fs',
  erofs_read_at (MerkleVerifier_verifier toy_sha w_verifier) 2 510 (zeros 5) w_fs = (Ok (5, bytes_of "aatai"), fs').
Proof. eexists. vm_compute. reflexivity. Qed.

Lemma erofs_merkle_read_trusted_witness :
  sub (bytes_of "aatai") 0 5 = sub w_content 510 5 \/
  exists m d, serves_block w_fs w_file m d /\ merkle_verify_block toy_sha w_verifier 2 (m * er_block_size w_fs) d = Ok tt /\
    forges toy_sha w_content (er_blkszbits w_fs) [] m d.
Proof.
  destruct w_merkle_read as [fs' Hr].
  destruct (erofs_merkle_read_trusted w_image w_fs toy_sha w_content [] w_verifier 2 510 (zeros 5) 5
    (bytes_of "aatai") fs' w_file toy_sha_len w_erofs_valid w_erofs_mounted w_over ltac:(lia) ltac:(lia) w_erofs_file)
    as [_ Hc]; [rewrite w_content_len; reflexivity|exact Hr|exact Hc].
Defined.

(** Two pclusters in 19 logical clusters, the first of two blocks. *)
Definition w_pcs : list Pcluster := [mkPc 1 0 (0x802 :: replicate 16 5) 20 2; mkPc 0 100 [] 22 1].
Definition w_ua : list CUnit := [(take 2 (index_entries w_pcs), 20)].
Definition w_ub : list CUnit := [(take 16 (drop 2 (index_entries w_pcs)), 20)].
Definition w_uc : list CUnit := [(drop 18 (index_entries w_pcs), 22)].
Definition w_index : list byte :=
  concat (group_bytes <$> w_ua) ++ concat (pack_bytes <$> w_ub) ++ concat (group_bytes <$> w_uc).
Definition w_indexed : Erofs Image := mkErofs (mkImage 100 [(24, w_index)]) 4096 12 true 0 0 ∅ ∅ None 0.

Lemma w_pcs_ok : Forall pc_ok w_pcs.
Proof.
  constructor; [|constructor; [|constructor]].
  - split; [right; left; reflexivity|]. split; [cbn; lia|]. split; [|cbn; lia].
    constructor; [lia|]. apply Forall_replicate. lia.
  - split; [left; reflexivity|]. split; [cbn; lia|]. split; [constructor|cbn; lia].
Qed.
Lemma w_runs_ok : run_ok 2 w_ua /\ run_ok 16 w_ub /\ run_ok 2 w_uc.
Proof.
  split; [|split]; (split; [|split; [done|exact I]]); (split; [vm_compute; split; congruence|]);
    (split; [repeat constructor; vm_compute; congruence|vm_compute; split; congruence]).
Qed.
Lemma w_blocks_ok : blocks_ok true (w_ua ++ w_ub ++ w_uc) w_pcs.
Proof.
  split.
  - constructor.
    + right. split; [cbn; lia|]. exists (replicate 16 5). split; [|reflexivity]. apply Forall_replicate. reflexivity.
    + constructor; [|constructor]. left. split; [reflexivity|constructor].
  - intros u us' pc pcs' [= <- _] [= <- _]. reflexivity.
Qed.

Lemma erofs_compact_index_roundtrip_witness :
  build_heads_compact w_indexed 24 4096 19 3 = Ok [mkHead 0 1 20 2; mkHead (18 * 4096 + 100) 0 22 1].
Proof.
  destruct w_runs_ok as (Ha&Hb&Hc).
  apply (erofs_compact_index_roundtrip w_indexed 24 4096 3 w_pcs w_ua w_ub w_uc).
  - vm_compute. split; congruence.
  - lia.
  - lia.
  - exact Ha.
  - vm_compute. reflexivity.
  - exact Hb.
  - vm_compute. reflexivity.
  - exact Hc.
  - vm_compute. reflexivity.
  - exact w_pcs_ok.
  - vm_compute. split; [reflexivity|]. split; [reflexivity|exact I].
  - exact w_blocks_ok.
  - vm_compute. congruence.
  - vm_compute. congruence.
  - vm_compute. congruence.
  - vm_compute. reflexivity.
Defined.
