(* ===== verification/ErofsPacked.v ===== *)
(** * Compressed data of an EROFS inode, from the writer's side

    What mkfs puts on the medium for a compressed file: the map header, a full or a
    compact index of the logical clusters, and the pclusters, each a plain copy or the
    stream of a codec with the padding EROFS gives it.  The reader's map header, index
    and pcluster decoders find in it what was written. *)
From S2P Require Import Prelude Text Cache Substrate Codec ErofsIndex Erofs Tree.
Open Scope Z_scope.

(** A field of a fixed layout, as a number. *)
Lemma layout_num fs i k v o w : fs !! i = Some (k, v) -> 0 <= v < 256 ^ Z.of_nat k -> o = widths (take i fs) ->
  w = Z.of_nat k -> le_num (sub (layout fs) o w) = v.
Proof.
  intros Hi Hv -> ->. rewrite <- zlen_layout. rewrite <- (take_drop_middle fs i (k, v) Hi) at 1.
  rewrite layout_app, layout_cons. cbn [fst snd]. rewrite sub_app_r by lia. rewrite Z.sub_diag.
  rewrite <- (zlen_le_bytes k v), sub_0_app, le_num_le_bytes. by apply Z.mod_small.
Qed.

(** ** The map header *)

(** Four bytes, the advise bits, the algorithms of the two kinds of heads, the bits of
    the logical cluster size above those of the block size, and reserved bits. *)
Record MapHeader : Type := mkMap { mp_gap : Z; mp_advise : Z; mp_algo1 : Z; mp_algo2 : Z; mp_lcbits : Z; mp_rsv : Z }.
Definition map_fields (m : MapHeader) : list (nat * Z) :=
  [(4%nat, mp_gap m); (2%nat, mp_advise m); (1%nat, mp_algo1 m + 16 * mp_algo2 m); (1%nat, mp_lcbits m + 16 * mp_rsv m)].
(** No whole-file fragment, and none of the inlined, interlaced and fragment pclusters. *)
Definition map_ok (m : MapHeader) : Prop :=
  0 <= mp_gap m < 2 ^ 32 /\ 0 <= mp_advise m < 2 ^ 16 /\ Z.land (mp_advise m) 0x38 = 0 /\
  0 <= mp_algo1 m < 16 /\ 0 <= mp_algo2 m < 16 /\ 0 <= mp_lcbits m < 16 /\ 0 <= mp_rsv m < 8.

(** ** The full index *)

(** The entry of a logical cluster: its type, whether its pcluster is referred to
    partially, where in it its pcluster starts, and its block. *)
Record FullEntry : Type := mkFull { fe_ty : Z; fe_partial : bool; fe_ofs : Z; fe_blk : Z }.
Definition full_fields (e : FullEntry) : list (nat * Z) :=
  [(2%nat, fe_ty e + if fe_partial e then 2 ^ 15 else 0); (2%nat, fe_ofs e); (4%nat, fe_blk e)].
Definition full_ok (e : FullEntry) : Prop := 0 <= fe_ty e < 4 /\ 0 <= fe_ofs e < 2 ^ 16 /\ 0 <= fe_blk e < 2 ^ 32.
Definition full_bytes (es : list FullEntry) : list byte := concat ((fun e => layout (full_fields e)) <$> es).
(** The pclusters it speaks of, of one block each. *)
Fixpoint full_heads (lcsize : Z) (first : bool) (i : Z) (es : list FullEntry) : list Head :=
  match es with
  | [] => []
  | e :: es =>
      if decide (fe_ty e = LC_TYPE_NONHEAD) then full_heads lcsize first (i + 1) es
      else mkHead (if first then 0 else i * lcsize + fe_ofs e) (fe_ty e) (fe_blk e) 1 :: full_heads lcsize false (i + 1) es
  end.

(** ** Pclusters *)

Section Coded.
Context {D : Decoders}.

(** The reader of a stream gives these bytes, however it cuts them. *)
Inductive yields : Reader -> list byte -> Prop :=
| Yields_done rdr : yields rdr []
| Yields_more rdr a rdr' p : a <> [] -> rd_read rdr (zlen (a ++ p)) = Some (a, rdr') -> yields rdr' p -> yields rdr (a ++ p).

(** The last 64 KiB of what was decoded before, the window of an LZ4 stream. *)
Definition lz4_window (out : list byte) : list byte := drop (Z.to_nat (zlen out - 65536)) out.

(** A span with the stream of a codec for [p]: algorithm 0 is LZ4, at the end of the
    span if the volume pads and the whole of it if not; 1 is MicroLZMA, at the end of
    the span, its first byte the inverted properties; 2 is DEFLATE, at the front or at
    the end of the span; 3 is ZSTD, behind zeros. *)
Inductive coded (padding : bool) (dict : option Z) (out : list byte) : Z -> list byte -> list byte -> Prop :=
| Coded_lz4_padded k x s p : padding = true -> 0 <= k -> x <> x00 ->
    lz4_decompress_into_with_dict (x :: s) (zlen p) (lz4_window out) = Some p -> coded padding dict out 0 (zeros k ++ x :: s) p
| Coded_lz4 s p : padding = false ->
    lz4_decompress_into_with_dict s (zlen p) (lz4_window out) = Some p -> coded padding dict out 0 s p
| Coded_lzma k x body d rdr p : dict = Some d -> 0 <= k -> 31 <= u8 x ->
    LzmaReader_new_with_props (x00 :: body) (zlen p) (255 - u8 x) (Z.max d (zlen p mod 2 ^ 32)) = Some rdr ->
    yields rdr p -> coded padding dict out 1 (zeros k ++ x :: body) p
| Coded_deflate s p : miniz_raw s (zlen p) = Some p -> coded padding dict out 2 s p
| Coded_deflate_padded k x s p : 0 <= k -> x <> x00 ->
    (forall q, miniz_raw (zeros k ++ x :: s) (zlen p) = Some q -> zlen q <> zlen p) ->
    miniz_raw (x :: s) (zlen p) = Some p -> coded padding dict out 2 (zeros k ++ x :: s) p
| Coded_zstd k frame rdr p : 0 <= k -> StreamingDecoder_new ([x28; xb5; x2f; xfd] ++ frame) = Some rdr ->
    yields rdr p -> coded padding dict out 3 (zeros k ++ [x28; xb5; x2f; xfd] ++ frame) p.

(** A pcluster by the type of its head: plain, or coded by the first or the second
    algorithm of the map header. *)
Inductive packs (padding : bool) (dict : option Z) (m : MapHeader) (out : list byte) : Z -> list byte -> list byte -> Prop :=
| Packs_plain p rest : packs padding dict m out 0 (p ++ rest) p
| Packs_head1 span p : coded padding dict out (mp_algo1 m) span p -> packs padding dict m out 1 span p
| Packs_head2 span p : coded padding dict out (mp_algo2 m) span p -> packs padding dict m out 3 span p.

Context {DL : DecoderLaws D}.

Lemma fill_yields err rdr p : yields rdr p -> fill err rdr (zlen p) = Ok p.
Proof.
  intros Hy. enough (Hf : forall fuel out, zlen p < Z.of_nat fuel -> fill_loop fuel err rdr (zlen (out ++ p)) out = Ok (out ++ p)).
  { unfold fill. change p with ([] ++ p) at 2 3. apply Hf. pose proof (zlen_nonneg p). lia. }
  induction Hy as [rdr|rdr a rdr' p Ha Hr _ IH]; intros fuel out Hfu;
    (destruct fuel as [|fuel]; [exfalso; revert Hfu; apply Z.le_ngt, zlen_nonneg|]); cbn [fill_loop].
  - by rewrite app_nil_r, Z.ltb_irrefl.
  - pose proof (zlen_nonneg p). assert (zlen a <> 0) by (intros E; by apply Ha, zlen_0_nil). pose proof (zlen_nonneg a).
    rewrite (proj2 (Z.ltb_lt _ _)) by (rewrite !zlen_app; lia).
    replace (zlen (out ++ a ++ p) - zlen out) with (zlen (a ++ p)) by (rewrite (zlen_app out); lia).
    rewrite Hr. cbn [ok_or bindR]. rewrite (proj2 (Z.eqb_neq _ _)) by lia. rewrite app_assoc. apply IH.
    rewrite zlen_app in Hfu. lia.
Qed.

Lemma nonzero_padded k x s : 0 <= k -> x <> x00 -> position is_nonzero (zeros k ++ x :: s) = Some k.
Proof. intros Hk Hx. apply position_padded; [done|done|by apply is_nonzero_true]. Qed.

Lemma lz4_window_slice out : slice out (saturating_sub (zlen out) LZ4_WINDOW) (zlen out) = Ok (lz4_window out).
Proof.
  pose proof (zlen_nonneg out). unfold saturating_sub, LZ4_WINDOW, lz4_window. rewrite slice_eq by lia. f_equal.
  unfold sub. rewrite take_ge by (rewrite length_drop; unfold zlen; lia). f_equal. lia.
Qed.

Lemma deflate_starts_front s p starts e : zlen p <= MAX_DECOMPRESSED_BLOCK_BYTES -> miniz_raw s (zlen p) = Some p ->
  deflate_starts s (zlen p) (0 :: starts) e = Ok p.
Proof.
  intros Hmax Hr. cbn [deflate_starts]. change (get_from s 0) with (get_from ([] ++ s) 0). rewrite get_from_app by done.
  cbn [default from_option id]. unfold decode. rewrite (proj2 (checked_block_Ok (zlen p) (zlen p)) (conj Hmax eq_refl)). cbn [bindR].
  unfold inflate_raw. rewrite Hr. cbn [ok_or]. by rewrite Z.eqb_refl.
Qed.

Lemma deflate_starts_padded k x s p e : 0 <= k -> zlen p <= MAX_DECOMPRESSED_BLOCK_BYTES ->
  (forall q, miniz_raw (zeros k ++ x :: s) (zlen p) = Some q -> zlen q <> zlen p) ->
  miniz_raw (x :: s) (zlen p) = Some p -> deflate_starts (zeros k ++ x :: s) (zlen p) [0; k] e = Ok p.
Proof.
  intros Hk Hmax Hno Hr. pose proof (proj2 (checked_block_Ok (zlen p) (zlen p)) (conj Hmax eq_refl)) as Hck.
  set (span := zeros k ++ x :: s) in *. cbn [deflate_starts].
  change (get_from span 0) with (get_from ([] ++ span) 0). rewrite get_from_app by done.
  assert (get_from span k = Some (x :: s)) as -> by (apply get_from_app; by rewrite zlen_zeros).
  cbn [default from_option id]. unfold decode. rewrite Hck. cbn [bindR]. unfold inflate_raw. rewrite Hr. cbn [ok_or]. rewrite Z.eqb_refl.
  destruct (miniz_raw span (zlen p)) as [q|] eqn:Eq; cbn [ok_or]; [|done].
  rewrite (proj2 (Z.eqb_neq _ _)) by by apply Hno. done.
Qed.

Lemma coded_head padding dict out algo span p : coded padding dict out algo span p -> zlen p <= MAX_DECOMPRESSED_BLOCK_BYTES ->
  decode_head algo span (zlen p) out dict padding = Ok p.
Proof.
  intros Hc Hmax. pose proof (proj2 (checked_block_Ok (zlen p) (zlen p)) (conj Hmax eq_refl)) as Hck.
  unfold decode_head. destruct Hc as [k x s p -> Hk Hx Hl|s p -> Hl|k x body d rdr p -> Hk Hx Hr Hy|s p Hr|k x s p Hk Hx Hno Hr
    |k frame rdr p Hk Hr Hy].
  - change (0 =? ALGO_LZ4) with true. cbn iota. rewrite lz4_window_slice. cbn [bindR]. unfold lz4_pcluster.
    rewrite nonzero_padded by done. cbn [ok_or bindR]. rewrite slice_padded by done. cbn [bindR].
    unfold lz4_block_with_dict. rewrite Hck. cbn [bindR]. rewrite Hl. cbn [ok_or bindR]. rewrite Z.eqb_refl. cbn [negb bindR].
    by rewrite Z.eqb_refl.
  - change (0 =? ALGO_LZ4) with true. cbn iota. rewrite lz4_window_slice. cbn [bindR]. unfold lz4_pcluster. cbn [bindR].
    rewrite (slice_padded 0 s ltac:(done) : slice s 0 (zlen s) = Ok s). cbn [bindR].
    unfold lz4_block_with_dict. rewrite Hck. cbn [bindR]. rewrite Hl. cbn [ok_or bindR]. rewrite Z.eqb_refl. cbn [negb bindR].
    by rewrite Z.eqb_refl.
  - change (1 =? ALGO_LZ4) with false. change (1 =? ALGO_DEFLATE) with false. change (1 =? ALGO_ZSTD) with false.
    change (1 =? ALGO_LZMA) with true. cbn [ok_or bindR]. unfold lzma_pcluster.
    assert (x <> x00) by (intros ->; change (u8 x00) with 0 in Hx; lia). rewrite nonzero_padded by done. cbn [ok_or bindR].
    assert (at_ (zeros k ++ x :: body) k = Ok x) as ->.
    { apply at_Ok. pose proof (get_app_r (zeros k) (x :: body) 0 ltac:(lia)) as Hg.
      rewrite zlen_zeros, Z.add_0_r in Hg by done. by rewrite Hg. }
    cbn [bindR]. rewrite Z.gtb_ltb. unfold LZMA_PROPS_MAX. rewrite (proj2 (Z.ltb_ge _ _)) by lia.
    rewrite slice_padded by done. cbn [bindR]. unfold microlzma_block_decode. rewrite Hck. cbn [bindR]. rewrite Hr.
    cbn [ok_or bindR]. rewrite (fill_yields _ rdr p Hy). cbn [bindR]. by rewrite Z.eqb_refl.
  - change (2 =? ALGO_LZ4) with false. change (2 =? ALGO_DEFLATE) with true. cbn iota. by apply deflate_starts_front.
  - change (2 =? ALGO_LZ4) with false. change (2 =? ALGO_DEFLATE) with true. cbn iota. unfold deflate_pcluster.
    rewrite nonzero_padded by done. by apply deflate_starts_padded.
  - change (3 =? ALGO_LZ4) with false. change (3 =? ALGO_DEFLATE) with false. change (3 =? ALGO_ZSTD) with true. cbn iota.
    change ([x28; xb5; x2f; xfd] ++ frame) with (ZSTD_MAGIC ++ frame) in *.
    unfold zstd_pcluster. rewrite (magic_position k frame) by done. cbn [ok_or bindR]. rewrite slice_padded by done. cbn [bindR].
    unfold decode. rewrite Hck. cbn [bindR]. unfold zstd_decode.
    rewrite Hr. cbn [ok_or bindR]. by apply fill_yields.
Qed.

Lemma packs_decoded padding dict m out ty span p : packs padding dict m out ty span p -> zlen p <= MAX_DECOMPRESSED_BLOCK_BYTES ->
  decode_pcluster ty (if ty =? LC_TYPE_HEAD2 then mp_algo2 m else mp_algo1 m) span (zlen p) out dict padding = Ok p.
Proof.
  intros Hp Hmax. unfold decode_pcluster. destruct Hp as [p rest|span p Hc|span p Hc].
  - change (0 =? LC_TYPE_PLAIN) with true. cbn iota.
    rewrite (proj2 (checked_block_Ok (zlen p) (zlen p)) (conj Hmax eq_refl)). cbn [bindR].
    pose proof (get_range_app [] p rest 0 (zlen p) eq_refl eq_refl) as Hg. cbn [app] in Hg. by rewrite Hg.
  - change (1 =? LC_TYPE_PLAIN) with false. change (1 =? LC_TYPE_HEAD1) with true. change (1 =? LC_TYPE_HEAD2) with false.
    cbn [orb]. by apply coded_head.
  - change (3 =? LC_TYPE_PLAIN) with false. change (3 =? LC_TYPE_HEAD1) with false. change (3 =? LC_TYPE_HEAD2) with true.
    cbn [orb]. by apply coded_head.
Qed.
End Coded.

(** ** On the medium *)

Section Written.
Context {D : Decoders} {DL : DecoderLaws D} {S : Type} `{ReliableSource S}.
Context (b : Erofs S).
Abbreviation bs := (er_block_size b).

(** The blocks of a pcluster, as far as the medium goes. *)
Definition span_at (blk blocks : Z) (span : list byte) : Prop :=
  let n := Z.min (blocks * bs) (src_len (er_src b) - blk * bs) in
  0 < n /\ span = region (src_byte (er_src b)) (blk * bs) n.

(** Each pcluster starts where the ones before it end and packs its piece; one with
    an empty piece, as at the end of a file, needs no blocks. *)
Fixpoint pclusters_at (m : MapHeader) (heads : list Head) (pieces : list (list byte)) (out : list byte) : Prop :=
  match heads, pieces with
  | [], [] => True
  | h :: heads, p :: pieces =>
      hd_start h = zlen out /\ zlen p <= MAX_DECOMPRESSED_BLOCK_BYTES /\
      (p <> [] -> exists span, span_at (hd_blkaddr h) (hd_cblkcnt h) span /\
         packs (er_lz4_zero_padding b) (er_lzma_dict_size b) m out (hd_ty h) span p) /\
      pclusters_at m heads pieces (out ++ p)
  | _, _ => False
  end.

(** The index of [n] logical clusters behind the map header at [mh], full (data
    layout 1) or compact (data layout 3), and the pclusters it speaks of. *)
Inductive index_at (ly mh lcbits advise n : Z) : list Head -> Prop :=
| Index_full es : ly = 1 -> zlen es = n -> Forall full_ok es -> has (er_src b) (mh + 16) (full_bytes es) ->
    index_at ly mh lcbits advise n (full_heads (2 ^ lcbits) true 0 es)
| Index_compact pcs ua ub uc : ly = 3 -> lcbits <= 12 -> Z.land advise 1 <> 0 -> zlen (index_entries pcs) = n ->
    compact_written b (mh + 8) (2 ^ lcbits) advise pcs ua ub uc ->
    index_at ly mh lcbits advise n (heads_of (2 ^ lcbits) true 0 pcs).

(** The medium has [c] as the data of inode [i]: in blocks, a tail or chunks, or
    behind a map header and an index in pclusters. *)
Inductive written (i : ErofsInode) (c : list byte) : Prop :=
| Written_flat : is_compressed (ei_layout i) = false -> holds b i c -> written i c
| Written_compressed m heads pieces :
    let mh := (ei_inline_off i + 7) / 8 * 8 in
    let lcbits := er_blkszbits b + mp_lcbits m in
    map_ok m -> lcbits <= 30 -> has (er_src b) mh (layout (map_fields m)) ->
    index_at (ei_layout i) mh lcbits (mp_advise m) (div_ceil (zlen c) (2 ^ lcbits)) heads ->
    pclusters_at m heads pieces [] -> c = concat pieces -> zlen c <= MAX_BOOT_FILE_BYTES -> written i c.

Context (geo : geo_ok b).

Lemma span_read blk blocks span : 0 <= blk -> span_at blk blocks span -> read_span b blk blocks = Ok span.
Proof.
  intros Hb [Hn ->]. pose proof (bs_range b geo). unfold read_span, saturating_sub.
  replace (Z.max 0 (src_len (er_src b) - blk * bs)) with (src_len (er_src b) - blk * bs) by lia.
  rewrite (proj2 (Z.eqb_neq _ _)) by lia. apply src_read_in_range; (apply geo || nia).
Qed.

Lemma byte_low x y : 0 <= x < 16 -> Z.land (x + 16 * y) 0x0f = x.
Proof.
  intros Hx. change 0x0f with (Z.ones 4). rewrite Z.land_ones by lia. change (2 ^ 4) with 16.
  rewrite Z.mul_comm, Z.mod_add by lia. by apply Z.mod_small.
Qed.

Lemma byte_high x y : 0 <= x < 16 -> 0 <= y < 16 -> Z.land (Z.shiftr (x + 16 * y) 4) 0x0f = y.
Proof.
  intros Hx Hy. rewrite Z.shiftr_div_pow2 by lia. change (2 ^ 4) with 16. rewrite Z.mul_comm, Z.div_add, Z.div_small by lia.
  change 0x0f with (Z.ones 4). rewrite Z.land_ones, Z.add_0_l by lia. by apply Z.mod_small.
Qed.

Lemma not_fragment x : 0 <= x < 128 -> Z.land x CLUSTERBITS_WHOLE_FILE_FRAGMENT = 0.
Proof.
  intros Hx. assert (HF : Forall (fun x => Z.land x CLUSTERBITS_WHOLE_FILE_FRAGMENT = 0) (seqZ 0 128)).
  { apply (bool_decide_unpack _). vm_compute. exact I. }
  rewrite Forall_forall in HF. by apply HF, elem_of_seqZ.
Qed.

Lemma map_header_read m mh : map_ok m -> er_blkszbits b + mp_lcbits m <= 30 -> has (er_src b) mh (layout (map_fields m)) ->
  read_map_header b mh = Ok (mp_advise m, mp_algo1 m, mp_algo2 m, er_blkszbits b + mp_lcbits m).
Proof.
  intros (Hg&Ha&Hadv&Ha1&Ha2&Hlc&Hr) Hmax Hhas. unfold read_map_header.
  pose proof (has_read _ _ _ (ok_src _ geo) Hhas) as E. rewrite zlen_layout in E. change (widths (map_fields m)) with 8 in E.
  rewrite E. cbn [bindR].
  assert (Hbyte : forall x y, 0 <= x < 16 -> 0 <= y < 16 -> 0 <= x + 16 * y < 256 ^ Z.of_nat 1)
    by (intros; change (256 ^ Z.of_nat 1) with 256; lia).
  rewrite (layout_num (map_fields m) 1 2 (mp_advise m) 4 2) by (first [reflexivity|exact Ha]).
  rewrite (layout_num (map_fields m) 2 1 (mp_algo1 m + 16 * mp_algo2 m) 6 1) by (first [reflexivity|by apply Hbyte]).
  rewrite (layout_num (map_fields m) 3 1 (mp_lcbits m + 16 * mp_rsv m) 7 1) by (first [reflexivity|apply Hbyte; lia]).
  rewrite not_fragment, !byte_low, byte_high by lia. change (Z.lor _ ADVISE_FRAGMENT) with 0x38. rewrite Hadv.
  cbn [Z.eqb negb orb]. rewrite Z.gtb_ltb. by rewrite (proj2 (Z.ltb_ge _ _)) by lia.
Qed.

Lemma full_step_written e idx0 lcsize i heads : full_ok e -> has (er_src b) (idx0 + i * 8) (layout (full_fields e)) ->
  i * lcsize + 2 ^ 16 <= 2 ^ 64 ->
  full_step b idx0 lcsize i heads = Ok (if decide (fe_ty e = LC_TYPE_NONHEAD) then heads
    else heads ++ [mkHead (if bool_decide (heads = []) then 0 else i * lcsize + fe_ofs e) (fe_ty e) (fe_blk e) 1]).
Proof.
  intros (Ht&Ho&Hb) Hhas Hi. unfold full_step. pose proof (src_len_range _ (ok_src _ geo)).
  pose proof (has_read _ _ _ (ok_src _ geo) Hhas) as E. rewrite zlen_layout in E. change (widths (full_fields e)) with 8 in E.
  destruct Hhas as (Hp&Hin&_). rewrite zlen_layout in Hin. change (widths (full_fields e)) with 8 in Hin.
  rewrite addw_eq by lia. cbn [bindR]. rewrite E. cbn [bindR].
  rewrite (layout_num (full_fields e) 0 2 (fe_ty e + if fe_partial e then 2 ^ 15 else 0) 0 2)
    by (first [reflexivity|change (256 ^ Z.of_nat 2) with (2 ^ 16); destruct (fe_partial e); lia]).
  rewrite (layout_num (full_fields e) 1 2 (fe_ofs e) 2 2) by (first [reflexivity|exact Ho]).
  rewrite (layout_num (full_fields e) 2 4 (fe_blk e) 4 4) by (first [reflexivity|exact Hb]).
  assert (Hty : Z.land (fe_ty e + if fe_partial e then 2 ^ 15 else 0) 3 = fe_ty e /\
    Z.land (fe_ty e + if fe_partial e then 2 ^ 15 else 0) LI_HOLE = 0).
  { assert (fe_ty e = 0 \/ fe_ty e = 1 \/ fe_ty e = 2 \/ fe_ty e = 3) as [-> | [-> | [-> | ->]]] by lia;
      destruct (fe_partial e); done. }
  destruct Hty as [-> ->]. destruct (decide (fe_ty e = LC_TYPE_NONHEAD)) as [->|Hne]; [done|].
  rewrite (proj2 (Z.eqb_neq _ _)) by done. cbn [Z.eqb negb]. by rewrite start_eq by lia.
Qed.

Lemma full_loop_written idx0 lcsize es : forall i heads, Forall full_ok es ->
  has (er_src b) (idx0 + i * 8) (full_bytes es) -> 0 <= lcsize -> (i + zlen es) * lcsize + 2 ^ 16 <= 2 ^ 64 ->
  for_loop (length es) i (full_step b idx0 lcsize) heads = Ok (heads ++ full_heads lcsize (bool_decide (heads = [])) i es).
Proof.
  induction es as [|e es IH]; intros i heads Hok Hhas Hl Hb; cbn [length for_loop full_heads]; [by rewrite app_nil_r|].
  apply Forall_cons in Hok as [He Hok]. unfold full_bytes in Hhas. cbn [fmap list_fmap concat] in Hhas.
  apply has_app in Hhas as [Hfst Hsnd]. rewrite zlen_layout in Hsnd. change (widths (full_fields e)) with 8 in Hsnd.
  rewrite zlen_cons in Hb. pose proof (zlen_nonneg es). rewrite (full_step_written e) by (done || nia). cbn [bindR].
  replace (idx0 + i * 8 + 8) with (idx0 + (i + 1) * 8) in Hsnd by lia.
  rewrite IH by (done || lia). destruct (decide _); [done|]. rewrite <- app_assoc.
  rewrite (bool_decide_eq_false_2 (_ ++ _ = [])) by by destruct heads. done.
Qed.

Lemma index_read ly mh lcbits advise n heads : index_at ly mh lcbits advise n heads -> 0 <= mh -> 0 <= lcbits ->
  n * 2 ^ lcbits + 2 ^ 16 <= 2 ^ 64 -> build_heads b ly mh advise lcbits n = Ok heads.
Proof.
  intros Hi Hmh Hlc Hn. unfold build_heads. rewrite Z.shiftl_mul_pow2, Z.mul_1_l by lia.
  pose proof (src_len_range _ (ok_src _ geo)).
  destruct Hi as [es -> <- Hok Hhas|pcs ua ub uc -> H12 Hadv <- Hw].
  - change (1 =? COMPRESSED_FULL) with true. cbn iota. unfold build_heads_full, Z_EROFS_LEGACY_HEADER_SIZE.
    pose proof (zlen_nonneg (full_bytes es)). pose proof Hhas as (_&Hin&_). rewrite addw_eq by lia. cbn [bindR].
    unfold zlen at 1. rewrite Nat2Z.id. rewrite (full_loop_written _ _ es 0 []); [done|done| |lia|lia].
    by rewrite Z.add_0_r.
  - change (3 =? COMPRESSED_FULL) with false. change (3 =? COMPRESSED_COMPACT) with true. cbn iota.
    rewrite Z.gtb_ltb, (proj2 (Z.ltb_ge _ _)) by done. change ADVISE_COMPACTED_2B with 1. rewrite (proj2 (Z.eqb_neq _ _)) by done.
    pose proof Hw as (_&_&_&_&_&_&_&_&_&Hin&_). pose proof (zlen_nonneg (compact_bytes ua ub uc)).
    rewrite addw_eq by lia. cbn [bindR]. apply (compact_index_read b _ _ _ pcs ua ub uc); [apply geo|lia|lia|done].
Qed.

Lemma pclusters_hold m heads : forall pieces out, Forall (fun h => 0 <= hd_blkaddr h) heads ->
  pclusters_at m heads pieces out -> pieces_hold b (mp_algo1 m) (mp_algo2 m) heads pieces out.
Proof.
  induction heads as [|h heads IH]; intros [|p pieces] out Hb; cbn [pclusters_at pieces_hold]; try done.
  apply Forall_cons in Hb as [Hh Hb]. intros (Hst&Hmax&Hp&Hrest). split; [done|]. split; [|by apply IH].
  intros Hne. destruct (Hp Hne) as (span&Hs&Hpk). exists span. split; [by apply span_read|]. by apply packs_decoded.
Qed.

Lemma index_blocks ly mh lcbits advise n heads : index_at ly mh lcbits advise n heads -> Forall (fun h => 0 <= hd_blkaddr h) heads.
Proof.
  destruct 1 as [es _ _ Hok _|pcs ua ub uc _ _ _ _ (_&_&_&_&Hok&_)].
  - generalize true. generalize 0 at 2. induction Hok as [|e es He _ IH]; intros i first; cbn [full_heads]; [constructor|].
    destruct (decide _); [apply IH|]. constructor; [apply He|apply IH].
  - generalize true. generalize 0 at 2. induction Hok as [|pc pcs Hpc _ IH]; intros i first; cbn [heads_of]; [constructor|].
    constructor; [apply Hpc|apply IH].
Qed.

(** What was written is what the medium holds for the reader. *)
Lemma written_holds i c : inode_ok i -> written i c -> holds b i c.
Proof.
  intros Hi [? Hh|m heads pieces mh lcbits Hm Hlc Hhdr Hidx Hp Hc Hmax]; [done|].
  pose proof (ok_bits _ geo). pose proof (src_len_range _ (ok_src _ geo)). destruct Hm as (Hm0&Hm1&Hm2&Hm3&Hm4&Hlb&Hm6).
  pose proof Hhdr as (Hmh&Hin&_). rewrite zlen_layout in Hin. change (widths (map_fields m)) with 8 in Hin.
  assert (Hn : div_ceil (zlen c) (2 ^ lcbits) * 2 ^ lcbits + 2 ^ 16 <= 2 ^ 64).
  { pose proof (zlen_nonneg c). pose proof (Z.pow_le_mono_r 2 lcbits 30 ltac:(lia) ltac:(lia)).
    unfold MAX_BOOT_FILE_BYTES in Hmax. destruct (div_ceil_spec (zlen c) (2 ^ lcbits)) as [?|[_ ->]]; lia. }
  apply (Holds_compressed b i c (mp_advise m) (mp_algo1 m) (mp_algo2 m) lcbits heads pieces mh); try done.
  - by destruct Hidx as [? -> | ? ? ? ? ->].
  - unfold mh in Hin. pose proof (Z.div_mod (ei_inline_off i + 7) 8 ltac:(lia)).
    pose proof (Z.mod_pos_bound (ei_inline_off i + 7) 8 ltac:(lia)). lia.
  - by apply map_header_read.
  - apply index_read; done || lia.
  - apply pclusters_hold; [by eapply index_blocks|done].
Qed.
End Written.
