(* ===== verification/ErofsTree.v ===== *)
(** * A written EROFS volume is the tree that was written

    The format from the writer's side: superblock, compact and extended inodes,
    directory blocks, and the trees they make up with data in any layout, compressed
    data as [ErofsPacked] has it written; mounted and used by path such a volume is its
    tree, when the verifier of the session accepts the blocks of its files. *)
From S2P Require Import Prelude Text Cache Substrate Path Verity Codec Nodes ErofsIndex Erofs Tree ErofsPacked NodesTree.
Open Scope Z_scope.

(** ** Directory blocks *)

(** A dirent: node, type, reserved byte, name. *)
Record Dirent : Type := mkDirent { dn_nid : Z; dn_type : Z; dn_reserved : Z; dn_name : list byte }.
Definition dirent_ok (d : Dirent) : Prop :=
  0 <= dn_nid d < 2 ^ 64 /\ 0 <= dn_type d < 256 /\ 0 <= dn_reserved d < 256 /\ dn_name d <> [] /\ x00 ∉ dn_name d.
(** The names are behind the dirents; the first is at [off]. *)
Fixpoint dirents (off : Z) (ds : list Dirent) : list byte :=
  match ds with
  | [] => []
  | d :: ds => le_bytes 8 (dn_nid d) ++ le_bytes 2 off ++ [to_u8 (dn_type d); to_u8 (dn_reserved d)] ++ dirents (off + zlen (dn_name d)) ds
  end.
Definition names (ds : list Dirent) : list byte := concat (dn_name <$> ds).
(** Zeros fill the block. *)
Record DirBlock : Type := mkDirBlock { db_dirents : list Dirent; db_pad : Z }.
Definition db_bytes (b : DirBlock) : list byte :=
  dirents (12 * zlen (db_dirents b)) (db_dirents b) ++ names (db_dirents b) ++ zeros (db_pad b).
Definition db_ok (b : DirBlock) : Prop :=
  db_dirents b <> [] /\ Forall dirent_ok (db_dirents b) /\ zlen (db_bytes b) <= 2 ^ 16.

(** The entries other than the directory itself and its parent. *)
Definition shown (d : Dirent) : list (name * Z * Z) :=
  if bool_decide (dn_name d = dot) || bool_decide (dn_name d = ErofsIndex.dotdot) then []
  else [(from_utf8_lossy (dn_name d), dn_nid d, dn_type d)].

Lemma zlen_dirents ds : forall off, zlen (dirents off ds) = 12 * zlen ds.
Proof.
  induction ds as [|d ds IH]; intros off; [done|]. cbn [dirents]. rewrite !zlen_app, !zlen_le_bytes, IH, !zlen_cons, zlen_nil. lia.
Qed.
Lemma dirents_app ds ds' : forall off, dirents off (ds ++ ds') = dirents off ds ++ dirents (off + zlen (names ds)) ds'.
Proof.
  induction ds as [|d ds IH]; intros off; cbn [app dirents]; [by rewrite Z.add_0_r|].
  rewrite IH, <- !app_assoc. unfold names. cbn [fmap list_fmap concat]. rewrite zlen_app. by rewrite Z.add_assoc.
Qed.
Lemma names_app ds ds' : names (ds ++ ds') = names ds ++ names ds'.
Proof. unfold names. by rewrite fmap_app, concat_app. Qed.

(** A dirent's fields, in a block. *)
Lemma dirent_at b p d q : db_ok b -> db_dirents b = p ++ d :: q ->
  let off := 12 * zlen (db_dirents b) + zlen (names p) in
  le_u64 (db_bytes b) (12 * zlen p) = Ok (dn_nid d) /\ le_u16 (db_bytes b) (12 * zlen p + 8) = Ok off /\
  get (db_bytes b) (12 * zlen p + 10) = Some (to_u8 (dn_type d)) /\ off < zlen (db_bytes b).
Proof.
  intros (_&Hok&Hlen) Hds off. assert (Hd : dirent_ok d) by (rewrite Hds in Hok; apply Forall_app in Hok as [_ Hok]; by inversion Hok).
  destruct Hd as (Hn&Ht&_&Hne&_).
  assert (Hoff : off < zlen (db_bytes b)).
  { assert (Hnm : names (db_dirents b) = names p ++ dn_name d ++ names q) by (by rewrite Hds, names_app).
    unfold db_bytes, off. rewrite !zlen_app, zlen_dirents, Hnm, !zlen_app. pose proof (zlen_nonneg (dn_name d)).
    assert (zlen (dn_name d) <> 0) by (intros E; by apply Hne, zlen_0_nil).
    pose proof (zlen_nonneg (names q)). pose proof (zlen_nonneg (zeros (db_pad b))). lia. }
  assert (0 <= off) by (pose proof (zlen_nonneg (db_dirents b)); pose proof (zlen_nonneg (names p)); lia).
  pose proof (zlen_dirents p (12 * zlen (db_dirents b))) as Hp. set (P := dirents (12 * zlen (db_dirents b)) p) in *.
  set (R := dirents (off + zlen (dn_name d)) q ++ names (db_dirents b) ++ zeros (db_pad b)).
  assert (E : db_bytes b = P ++ le_bytes 8 (dn_nid d) ++ le_bytes 2 off ++ [to_u8 (dn_type d); to_u8 (dn_reserved d)] ++ R).
  { unfold db_bytes, R. rewrite Hds at 2. rewrite dirents_app. cbn [dirents]. by rewrite <- !app_assoc. }
  split; [|split; [|split; [|done]]].
  - rewrite E, <- Hp. by apply (le_field_app _ P 8).
  - rewrite E, app_assoc. apply (le_field_app _ (P ++ le_bytes 8 (dn_nid d)) 2); [|done|change (0 <= off < 2 ^ 16); lia].
    rewrite zlen_app, zlen_le_bytes, Hp. lia.
  - rewrite E, app_assoc, app_assoc. replace (12 * zlen p + 10) with (zlen ((P ++ le_bytes 8 (dn_nid d)) ++ le_bytes 2 off) + 0)
      by (rewrite !zlen_app, !zlen_le_bytes, Hp; lia). by rewrite get_app_r by lia.
Qed.

Lemma until_nul nm n : x00 ∉ nm -> until x00 (nm ++ zeros n) = nm.
Proof.
  intros Hn. induction nm as [|b nm IH]; cbn [app until].
  - unfold zeros. destruct (Z.to_nat n); [done|]. cbn [replicate until]. by rewrite decide_True.
  - apply not_elem_of_cons in Hn as [Hb Hn]. rewrite decide_False by congruence. by rewrite IH.
Qed.

Lemma dirent_step_written b p d q out : db_ok b -> db_dirents b = p ++ d :: q ->
  dirent_step (db_bytes b) (zlen (db_dirents b)) (zlen p) out = Ok (out ++ shown d).
Proof.
  intros Hb Hds. destruct (dirent_at b p d q Hb Hds) as (E1&E2&E3&Hoff). cbn zeta in *. set (off := 12 * zlen (db_dirents b) + zlen (names p)) in *.
  assert (Hd : dirent_ok d) by (destruct Hb as (_&Hok&_); rewrite Hds in Hok; apply Forall_app in Hok as [_ Hok]; by inversion Hok).
  destruct Hd as (_&Ht&_&Hne&Hnul).
  assert (Hsplit : exists P R, db_bytes b = P ++ dn_name d ++ R /\ zlen P = off /\ (q = [] -> R = zeros (db_pad b))).
  { assert (Hnm : names (db_dirents b) = names p ++ dn_name d ++ names q) by (by rewrite Hds, names_app).
    exists (dirents (12 * zlen (db_dirents b)) (db_dirents b) ++ names p), (names q ++ zeros (db_pad b)).
    unfold db_bytes. rewrite Hnm, <- !app_assoc. split; [done|]. split; [by rewrite zlen_app, zlen_dirents|]. by intros ->. }
  destruct Hsplit as (P&R&E&HP&HR).
  unfold dirent_step. replace (zlen p * 12) with (12 * zlen p) by lia. rewrite E1. cbn [bindR]. rewrite E2. cbn [bindR].
  rewrite E3. cbn [ok_or bindR].
  assert (Hraw : exists m, (if zlen p + 1 <? zlen (db_dirents b) then le_u16 (db_bytes b) ((zlen p + 1) * 12 + 8) else Ok (zlen (db_bytes b)))
    = Ok (off + zlen (dn_name d ++ zeros m)) /\ get_range (db_bytes b) off (off + zlen (dn_name d ++ zeros m)) = Some (dn_name d ++ zeros m)).
  { destruct q as [|d' q].
    - exists (db_pad b). rewrite E, (HR eq_refl). rewrite (proj2 (Z.ltb_ge _ _)) by (rewrite Hds, zlen_app, zlen_cons, zlen_nil; lia).
      rewrite zlen_app, HP. split; [done|]. rewrite <- (app_nil_r (dn_name d ++ _)) at 1. apply get_range_app; [done|by rewrite HP].
    - exists 0. change (zeros 0) with (@nil byte). rewrite app_nil_r. rewrite (proj2 (Z.ltb_lt _ _))
        by (rewrite Hds, zlen_app, !zlen_cons; pose proof (zlen_nonneg q); lia).
      destruct (dirent_at b (p ++ [d]) d' q Hb ltac:(by rewrite <- app_assoc)) as (_&E2'&_). cbn zeta in E2'.
      rewrite zlen_app, zlen_cons, zlen_nil in E2'. replace ((zlen p + 1) * 12 + 8) with (12 * (zlen p + (1 + 0)) + 8) by lia.
      rewrite E2', names_app, zlen_app. split; [f_equal; unfold off; change (names [d]) with (dn_name d ++ []); rewrite app_nil_r; lia|].
      rewrite E. apply get_range_app; [done|by rewrite HP]. }
  destruct Hraw as (m&->&Hg). cbn [bindR]. rewrite Hg. cbn [ok_or bindR]. rewrite until_nul by done.
  rewrite u8_to_u8, Z.mod_small by lia. unfold shown. rewrite (bool_decide_eq_false_2 (dn_name d = [])) by done. cbn [orb].
  destruct (_ || _); [by rewrite app_nil_r|done].
Qed.

Lemma parse_dir_block_written b out : db_ok b ->
  parse_dir_block (db_bytes b) out = Ok (out ++ concat (shown <$> db_dirents b)).
Proof.
  intros Hb. pose proof Hb as (Hne&_&_). destruct (db_dirents b) as [|d0 ds0] eqn:Eds; [done|]. clear Hne.
  destruct (dirent_at b [] d0 ds0 Hb Eds) as (_&E2&_). cbn zeta in E2. unfold parse_dir_block.
  rewrite (proj2 (Z.ltb_ge _ _)).
  2:{ unfold db_bytes. rewrite Eds, zlen_app, zlen_dirents, zlen_cons. pose proof (zlen_nonneg ds0).
      pose proof (zlen_nonneg (names (d0 :: ds0) ++ zeros (db_pad b))). lia. }
  change (12 * zlen [] + 8) with 8 in E2. rewrite E2. cbn [bindR]. change (zlen (names [])) with 0.
  rewrite Z.add_0_r, Z.mul_comm, Z.div_mul by lia. rewrite <- Eds. set (g := fun k => shown (default d0 (db_dirents b !! Z.to_nat k))).
  rewrite (for_loop_concat g).
  - do 2 f_equal. rewrite Z2Nat.id by apply zlen_nonneg. unfold g. by rewrite <- (fmap_seqZ shown).
  - intros j a Hj. rewrite Z2Nat.id in Hj by apply zlen_nonneg. unfold g.
    destruct (lookup_lt_is_Some_2 (db_dirents b) (Z.to_nat j)) as [d Hd]; [unfold zlen in Hj; lia|]. rewrite Hd. cbn [default].
    apply list_elem_of_split_length in Hd as (p&q&Hpq&Hl).
    replace j with (zlen p) by (unfold zlen; lia). by eapply dirent_step_written.
Qed.

(** A directory is whole blocks, the last one perhaps shorter. *)
Definition dir_data (blocks : list DirBlock) : list byte := concat (db_bytes <$> blocks).
Fixpoint blocks_fit (bs : Z) (blocks : list DirBlock) : Prop :=
  match blocks with
  | [] => True
  | [b] => zlen (db_bytes b) <= bs
  | b :: blocks => zlen (db_bytes b) = bs /\ blocks_fit bs blocks
  end.
Definition dir_listing (blocks : list DirBlock) : list (name * Z * Z) := concat (shown <$> (blocks ≫= db_dirents)).

Lemma db_bytes_pos b : db_ok b -> 0 < zlen (db_bytes b).
Proof.
  intros (Hne&_&_). unfold db_bytes. rewrite zlen_app, zlen_dirents. destruct (db_dirents b) as [|d ds]; [done|].
  rewrite zlen_cons. pose proof (zlen_nonneg ds). pose proof (zlen_nonneg (names (d :: ds) ++ zeros (db_pad b))). lia.
Qed.

Lemma erofs_dir_LoopsTo bs blocks : Forall db_ok blocks -> blocks_fit bs blocks -> forall p out,
  LoopsTo (dir_round bs (p ++ dir_data blocks)) (zlen p, out) (Ok (out ++ dir_listing blocks)).
Proof.
  induction 1 as [|b blocks Hb Hbs IH]; intros Hfit p out.
  - apply LoopsTo_break. unfold dir_round, dir_data. cbn [fmap list_fmap concat]. rewrite app_nil_r, Z.ltb_irrefl. cbn [negb].
    unfold dir_listing. cbn [mbind list_bind fmap list_fmap concat]. by rewrite app_nil_r.
  - assert (E : dir_data (b :: blocks) = db_bytes b ++ dir_data blocks) by done.
    pose proof (db_bytes_pos b Hb) as Hpos. pose proof (zlen_nonneg (dir_data blocks)) as Hn.
    assert (Hend : Z.min (zlen p + bs) (zlen (p ++ dir_data (b :: blocks))) = zlen (p ++ db_bytes b)).
    { rewrite E, !zlen_app. destruct blocks as [|b' blocks]; [change (zlen (dir_data [])) with 0 in *; cbn in Hfit; lia|destruct Hfit; lia]. }
    eapply LoopsTo_round.
    + unfold dir_round. rewrite (proj2 (Z.ltb_lt _ _)) by (rewrite E, !zlen_app; lia). cbn [negb]. rewrite Hend, E.
      rewrite slice_app by (rewrite ?zlen_app; done). cbn [bindR]. rewrite parse_dir_block_written by done. cbn [bindR]. reflexivity.
    + assert (Hl : dir_listing (b :: blocks) = concat (shown <$> db_dirents b) ++ dir_listing blocks).
      { unfold dir_listing. cbn [mbind list_bind]. by rewrite fmap_app, concat_app. }
      rewrite Hl, E, !app_assoc. apply IH. destruct blocks; [done|apply Hfit].
Qed.

Lemma dir_loop_written bs blocks : Forall db_ok blocks -> blocks_fit bs blocks -> 0 < bs -> zlen (dir_data blocks) < 2 ^ 63 ->
  loop (dir_round bs (dir_data blocks)) (0, []) = Ok (dir_listing blocks).
Proof.
  intros Hok Hfit Hbs Hlen. apply loop_Ok; [|exact (erofs_dir_LoopsTo bs blocks Hok Hfit [] [])]. intros E.
  pose proof (dir_loop_wp (X := False) bs (dir_data blocks) Hbs Hlen) as Hw. by rewrite E in Hw.
Qed.

(** ** Inodes *)

(** A compact inode of 32 bytes or an extended one of 64. *)
Record WNode : Type := mkWNode {
  wn_extended : bool; wn_layout : Z; wn_xattrs : Z; wn_mode : Z; wn_size : Z; wn_raw : Z; wn_gap1 : Z; wn_gap2 : Z; wn_gap3 : Z
}.
Definition wnode_fields (w : WNode) : list (nat * Z) :=
  if wn_extended w
  then [(2%nat, 2 * wn_layout w + 1); (2%nat, wn_xattrs w); (2%nat, wn_mode w); (2%nat, wn_gap1 w); (8%nat, wn_size w);
        (4%nat, wn_raw w); (44%nat, wn_gap3 w)]
  else [(2%nat, 2 * wn_layout w); (2%nat, wn_xattrs w); (2%nat, wn_mode w); (2%nat, wn_gap1 w); (4%nat, wn_size w);
        (4%nat, wn_gap2 w); (4%nat, wn_raw w); (12%nat, wn_gap3 w)].
Definition wnode_ok (w : WNode) : Prop := 0 <= wn_layout w < 8 /\ Forall field_ok (wnode_fields w).
Definition wnode_len (w : WNode) : Z := if wn_extended w then 64 else 32.
(** The inode of one at [off]; what it inlines is behind it and its attributes. *)
Definition wnode_inode (off : Z) (w : WNode) : ErofsInode :=
  mkInode (kind_of (wn_mode w)) (wn_size w) (wn_mode w) (wn_layout w) (wn_raw w) (off + wnode_len w + xattr_size (wn_xattrs w)).

Section Inodes.
Context {S : Type} `{ReliableSource S}.
Context (b : Erofs S) (src_ok : src_valid (er_src b)).

Definition wnode_at (nid : Z) (w : WNode) : Prop :=
  0 <= nid /\ 0 <= er_meta_off b /\ wnode_ok w /\ has (er_src b) (er_meta_off b + nid * 32) (layout (wnode_fields w)).

Lemma front_into off n buf : 0 <= off -> 0 <= n <= zlen buf -> off + n <= src_len (er_src b) ->
  read_into (er_src b) off buf 0 n = Ok (region (src_byte (er_src b)) off n ++ drop (Z.to_nat n) buf).
Proof.
  intros. rewrite read_into_eq by (done || lia). rewrite Z.sub_0_r.
  rewrite write_at_eq by (rewrite ?zlen_region; lia). rewrite zlen_region by lia. by rewrite sub_nil.
Qed.

Lemma wnode_fields_read w tail : wnode_ok w -> let hdr := layout (wnode_fields w) ++ tail in
  le_u16 hdr 2 = Ok (wn_xattrs w) /\ le_u16 hdr 4 = Ok (wn_mode w) /\
  (if wn_extended w then le_u64 hdr 8 else le_u32 hdr 8) = Ok (wn_size w) /\ le_u32 hdr 16 = Ok (wn_raw w).
Proof.
  intros [_ Hf] hdr. unfold le_u16, le_u32, le_u64, hdr.
  assert (Hget : forall i k v tok o n, wnode_fields w !! i = Some (k, v) -> o = widths (take i (wnode_fields w)) -> n = Z.of_nat k ->
    le_field n tok (layout (wnode_fields w) ++ tail) o = Ok v).
  { intros i k v tok o n Hi -> ->. apply (layout_field_all tok _ i k v); try done. exact (Forall_lookup_1 _ _ _ _ Hf Hi). }
  unfold wnode_fields in *. destruct (wn_extended w); (split; [by apply (Hget 1%nat 2%nat)|]); (split; [by apply (Hget 2%nat 2%nat)|]); split.
  - by apply (Hget 4%nat 8%nat).
  - by apply (Hget 5%nat 4%nat).
  - by apply (Hget 4%nat 4%nat).
  - by apply (Hget 6%nat 4%nat).
Qed.

Lemma zlen_wnode w : zlen (layout (wnode_fields w)) = wnode_len w.
Proof. rewrite zlen_layout. unfold wnode_fields, wnode_len. by destruct (wn_extended w). Qed.

(** The bytes of a written inode, by the code's one or two reads. *)
Lemma wnode_reads nid w : wnode_at nid w -> let off := er_meta_off b + nid * 32 in
  exists hdr tail, read_into (er_src b) off (zeros 64) 0 32 = Ok hdr /\
    le_u16 hdr 0 = Ok (2 * wn_layout w + (if wn_extended w then 1 else 0)) /\
    (if wn_extended w then let! off2 := addw 64 off 32 in read_into (er_src b) off2 hdr 32 64 else Ok hdr)
    = Ok (layout (wnode_fields w) ++ tail).
Proof.
  intros (Hn&Hm&(Hl&Hf)&(Ho&Hin&Hreg)) off. fold off in Ho, Hin, Hreg. rewrite zlen_wnode in Hin, Hreg.
  pose proof (src_len_range (er_src b) src_ok) as Hsl. unfold wnode_len in Hin, Hreg.
  assert (Hfirst : layout (wnode_fields w) = le_bytes 2 (2 * wn_layout w + (if wn_extended w then 1 else 0)) ++ layout (tail (wnode_fields w))).
  { unfold wnode_fields. destruct (wn_extended w); [done|]. by rewrite Z.add_0_r. }
  assert (Hfmt : forall rest, le_u16 (le_bytes 2 (2 * wn_layout w + (if wn_extended w then 1 else 0)) ++ rest) 0
    = Ok (2 * wn_layout w + (if wn_extended w then 1 else 0))).
  { intros rest. apply (le_field_app _ [] 2); [done|done|]. change (256 ^ Z.of_nat 2) with (2 ^ 16). destruct (wn_extended w); lia. }
  rewrite front_into by (rewrite ?zlen_zeros; destruct (wn_extended w); lia).
  set (hdr := region _ off 32 ++ drop (Z.to_nat 32) (zeros 64)). exists hdr. destruct (wn_extended w).
  - assert (Hh : region (src_byte (er_src b)) off 32 ++ region (src_byte (er_src b)) (off + 32) 32 = layout (wnode_fields w))
      by (rewrite <- Hreg; change 64 with (32 + 32); by rewrite region_split by lia).
    assert (Hz : zlen hdr = 64) by (unfold hdr; rewrite zlen_app, zlen_region; done).
    exists []. split; [done|]. split.
    + assert (E : hdr = le_bytes 2 (2 * wn_layout w + 1) ++ drop 2 hdr); [|rewrite E; apply Hfmt].
      rewrite <- (take_drop 2 hdr) at 1. f_equal. transitivity (take 2 (layout (wnode_fields w))).
      * rewrite <- Hh. unfold hdr. rewrite !take_app_le; [done|..]; pose proof (zlen_region (src_byte (er_src b)) off 32 ltac:(lia)); unfold zlen in *; lia.
      * rewrite Hfirst. by rewrite take_app_length' by (rewrite length_le_bytes; done).
    + rewrite addw_eq by lia. cbn [bindR]. rewrite read_into_eq by (done || lia). change (64 - 32) with 32.
      rewrite write_at_eq by (rewrite ?zlen_region; lia). rewrite zlen_region by lia.
      rewrite drop_ge by (unfold zlen in Hz; lia). rewrite app_nil_r. f_equal. rewrite <- Hh, app_nil_r. f_equal.
  - exists (drop (Z.to_nat 32) (zeros 64)). split; [done|]. split; [|by unfold hdr; rewrite Hreg].
    unfold hdr. rewrite Hreg, Hfirst, <- app_assoc. apply Hfmt.
Qed.

Lemma read_inode_written nid w : wnode_at nid w ->
  read_inode b nid = Ok (wnode_inode (er_meta_off b + nid * 32) w).
Proof.
  intros Hw. destruct (wnode_reads nid w Hw) as (hdr&rest&E1&Ef&E2). cbn zeta in *.
  destruct Hw as (Hn&Hm&Hok&(Ho&Hin&_)). pose proof (src_len_range (er_src b) src_ok). rewrite zlen_wnode in Hin.
  destruct (wnode_fields_read w rest Hok) as (Ex&Emd&Es&Er). destruct Hok as [Hl Hf].
  assert (Hx : 0 <= wn_xattrs w < 2 ^ 16).
  { unfold wnode_fields in Hf. destruct (wn_extended w); exact (Forall_lookup_1 field_ok _ 1 (2%nat, wn_xattrs w) Hf eq_refl). }
  assert (Hwl : 32 <= wnode_len w) by (unfold wnode_len; destruct (wn_extended w); lia).
  unfold read_inode. rewrite (proj2 (checked_mul_Some 64 nid 32 _)) by (split; [lia|reflexivity]). cbn [mbind option_bind].
  rewrite (proj2 (checked_add_Some 64 (er_meta_off b) (nid * 32) _)) by (split; [lia|reflexivity]). cbn [ok_or bindR].
  rewrite E1. cbn [bindR]. rewrite Ef. cbn [bindR].
  assert (Hext : negb (Z.land (2 * wn_layout w + (if wn_extended w then 1 else 0)) 1 =? 0) = wn_extended w).
  { change 1 with (Z.ones 1) at 2. rewrite Z.land_ones by lia. change (2 ^ 1) with 2. rewrite Z.add_comm, Z.mul_comm, Z.mod_add by lia.
    by destruct (wn_extended w). }
  assert (Hlay : Z.land (Z.shiftr (2 * wn_layout w + (if wn_extended w then 1 else 0)) 1) 7 = wn_layout w).
  { change 7 with (Z.ones 3). rewrite Z.land_ones, Z.shiftr_div_pow2 by lia. change (2 ^ 1) with 2. change (2 ^ 3) with 8.
    rewrite Z.add_comm, Z.mul_comm, Z.div_add by lia. rewrite (Z.div_small (if wn_extended w then 1 else 0) 2) by (destruct (wn_extended w); lia).
    rewrite Z.add_0_l. by apply Z.mod_small. }
  rewrite Hext, Hlay, E2. cbn [bindR]. rewrite Ex. cbn [bindR]. rewrite Emd. cbn [bindR]. rewrite Es. cbn [bindR]. rewrite Er. cbn [bindR].
  pose proof (xattr_size_range (wn_xattrs w) Hx). unfold wnode_inode, wnode_len in *.
  rewrite addw_eq by (destruct (wn_extended w); lia). cbn [bindR]. by rewrite addw_eq by (destruct (wn_extended w); lia).
Qed.
End Inodes.

(** ** Trees *)

Section Written.
Context {D : Decoders} {DL : DecoderLaws D} {S : Type} `{ReliableSource S}.
Context (b : Erofs S) (v : Verifier).
Abbreviation bs := (er_block_size b).

(** A node and all its bytes. *)
Definition node_at (nid : Z) (kind : FileKind) (c : list byte) : Prop :=
  exists w, wnode_at b nid w /\ kind_of (wn_mode w) = kind /\ wn_size w = zlen c /\ zlen c < 2 ^ 63 /\
    (c = [] \/ written b (wnode_inode (er_meta_off b + nid * 32) w) c).
(** The verifier of the session accepts the blocks of a file. *)
Definition accepts (nid : Z) (c : list byte) : Prop :=
  forall k, 0 <= k < div_ceil (zlen c) bs -> verify_block v nid (k * bs) (nth_block bs c k) = Ok tt.

Inductive erofs_tree : Z -> Tree -> Prop :=
| Ero_file nid c : node_at nid Regular c -> accepts nid c -> erofs_tree nid (TFile c)
| Ero_other nid c : node_at nid Other c -> accepts nid c -> erofs_tree nid (TOther c)
| Ero_link nid target : node_at nid Symlink target -> zlen target <= MAX_BOOT_FILE_BYTES -> erofs_tree nid (TLink target)
| Ero_dir nid blocks es : node_at nid Directory (dir_data blocks) -> zlen (dir_data blocks) <= MAX_BOOT_FILE_BYTES ->
    Forall db_ok blocks -> blocks_fit bs blocks ->
    Forall2 (fun x e => x.1.1 = e.1 /\ ft_kind x.2 = tree_kind e.2 /\ erofs_tree x.1.2 e.2) (dir_listing blocks) es ->
    erofs_tree nid (TDir es).

Context (geo : geo_ok b).

(** *** What the reference gives on it *)

Lemma node_inode nid kind c : node_at nid kind c ->
  exists i, read_inode b nid = Ok i /\ inode_ok i /\ ei_kind i = kind /\ ei_size i = zlen c /\ (c = [] \/ holds b i c).
Proof.
  intros (w&Hw&Hk&Hs&_&Hc). exists (wnode_inode (er_meta_off b + nid * 32) w).
  pose proof (read_inode_written b (ok_src _ geo) nid w Hw) as Hr. destruct Hw as (Hn&_).
  pose proof (erofs_read_inode_wp b nid geo Hn) as Hi. rewrite Hr in Hi. split_and!; try done.
  destruct Hc as [?|Hc]; [by left|right]. by apply written_holds.
Qed.

Lemma ref_data_all i c : inode_ok i -> ei_size i = zlen c -> zlen c < 2 ^ 63 -> c = [] \/ holds b i c ->
  exists n, ref_data b i 0 (zeros (zlen c)) = Ok (n, c).
Proof.
  intros Hi Hs Hlen Hc. pose proof (zlen_nonneg c). destruct (decide (zlen c = 0)) as [E|Hne].
  - apply zlen_0_nil in E as ->. exists 0. unfold ref_data. by rewrite Hs.
  - destruct Hc as [->|Hc]; [done|]. exists (zlen c).
    rewrite (ref_data_holds b i c geo Hi Hs Hlen 0 (zeros (zlen c)) Hc) by (rewrite ?zlen_zeros; lia).
    rewrite zlen_zeros by lia. by rewrite sub_all.
Qed.

Lemma ref_dir_written i blocks : inode_ok i -> ei_kind i = Directory -> ei_size i = zlen (dir_data blocks) ->
  zlen (dir_data blocks) <= MAX_BOOT_FILE_BYTES -> dir_data blocks = [] \/ holds b i (dir_data blocks) ->
  Forall db_ok blocks -> blocks_fit bs blocks ->
  ref_dir_entries b i = Ok ((fun x => mkDirEntry x.1.1 x.1.2 (ft_kind x.2)) <$> dir_listing blocks).
Proof.
  intros Hi Hk Hs Hcap Hh Hok Hfit. pose proof (bs_range b geo). unfold ref_dir_entries. rewrite bool_decide_eq_true_2 by done. cbn [negb].
  rewrite Hs, (proj2 (checked_full_Ok _ (zlen (dir_data blocks)))) by done. cbn [bindR]. unfold MAX_BOOT_FILE_BYTES in Hcap.
  destruct (ref_data_all i (dir_data blocks) Hi Hs ltac:(lia) Hh) as [n ->]. cbn [bindR].
  rewrite dir_loop_written by (done || lia). cbn [bindR]. f_equal. apply list_fmap_ext. by intros ? [[? ?] ?] _.
Qed.

Implicit Types (fs : Erofs S) (s : Erofs S * SubstrateCtx).
Definition erofs_stands s (n : NodeId) (t : Tree) : Prop := coherent b s.1 /\ cx_verifier s.2 = v /\ erofs_tree n t.

Lemma erofs_keeps fs fs' cx : coherent b fs -> coherent b fs' -> keeps erofs_stands (fs, cx) (fs', cx).
Proof.
  intros Hc Hc'. split.
  - cbn. unfold erofs_root. change (er_root_nid (bare fs') = er_root_nid (bare fs)). by rewrite (co_bare _ _ Hc), (co_bare _ _ Hc').
  - intros n t (_&?&?). by split.
Qed.

(** A method that computes a reference answer, whatever is in the tables. *)
Lemma computes_implements {A B} (R : Erofs S * SubstrateCtx -> A -> B -> Prop) (m : ST (Erofs S) A) r (spec : Res B) s :
  computes (coherent b) m r (coherent b) -> coherent b s.1 -> cx_verifier s.2 = v ->
  match spec with
  | Ok x => exists a, r = Ok a /\ forall fs, coherent b fs -> R (fs, s.2) a x
  | Err e => r = Err e
  | _ => False
  end -> implements erofs_stands R (on_frontend m) spec s.
Proof.
  destruct s as [fs cx]. cbn [fst snd]. intros Hm Hc Hcx Hr. destruct (Hm fs Hc) as (fs'&E&Hc').
  exists r, (fs', cx). unfold on_frontend. rewrite E. split; [done|]. split; [by apply erofs_keeps|].
  destruct spec as [x|e| | |]; try done. destruct Hr as (a&->&HR). exists a. split; [done|]. by apply HR.
Qed.

(** *** The operations *)

Lemma erofs_tree_node n t : erofs_tree n t -> exists i c, read_inode b n = Ok i /\ inode_ok i /\ ei_kind i = tree_kind t /\
  ei_size i = zlen c /\ zlen c < 2 ^ 63 /\ (c = [] \/ holds b i c) /\
  match t with TFile x | TOther x => x = c /\ accepts n c | TLink x => x = c /\ zlen c <= MAX_BOOT_FILE_BYTES | TDir _ => True end.
Proof.
  intros Ht. assert (exists kind c, node_at n kind c /\ kind = tree_kind t /\
    match t with TFile x | TOther x => x = c /\ accepts n c | TLink x => x = c /\ zlen c <= MAX_BOOT_FILE_BYTES | TDir _ => True end)
    as (kind&c&Hn&->&Hc).
  { destruct Ht as [n c|n c|n c|n blocks]; [exists Regular, c|exists Other, c|exists Symlink, c|exists Directory, (dir_data blocks)];
      split_and!; first [assumption|reflexivity|exact I]. }
  destruct (node_inode n _ c Hn) as (i&?&?&?&?&?). destruct Hn as (w&_&_&_&?&_). by exists i, c.
Qed.

Lemma erofs_implements_read_dir s n t : erofs_stands s n t ->
  implements erofs_stands (fun s' => Forall2 (lists erofs_stands s')) (read_dir (S := S) n)
    (match t with TDir es => Ok es | _ => Err NotDirectory end) s.
Proof.
  intros (Hc&Hcx&Ht). cbn [read_dir Erofs_Frontend]. eapply (computes_implements _ (erofs_read_dir n)); [apply read_dir_computes|exact Hc|exact Hcx|].
  destruct (erofs_tree_node n t Ht) as (i&c&Hi&Hio&Hk&Hs&Hlen&Hh&_). rewrite Hi. cbn [bindR].
  destruct Ht as [n c' Hn _|n c' Hn _|n target Hn _|n blocks es Hn Hcap Hok Hfit HF]; cbn [tree_kind] in Hk;
    try (unfold ref_dir_entries; rewrite bool_decide_eq_false_2 by congruence; reflexivity).
  destruct (node_inode n _ _ Hn) as (i'&Hi'&_&_&Hs'&Hh'). assert (i' = i) as -> by congruence.
  rewrite (ref_dir_written i blocks) by done. eexists. split; [reflexivity|]. intros fs Hfs.
  apply Forall2_fmap_l. eapply Forall2_impl; [exact HF|]. by intros [[nm nid] ty] e (?&?&?).
Qed.

#[export] Instance ErofsTree : TreeFs (Erofs S) S erofs_stands.
Proof.
  split.
  - intros s n t nm Hs. apply lookup_searches; [|by apply erofs_implements_read_dir]. exact (on_frontend_find (erofs_read_dir n) nm s).
  - apply erofs_implements_read_dir.
  - intros s n t (Hc&Hcx&Ht). cbn [metadata Erofs_Frontend]. eapply (computes_implements _ (erofs_metadata n)); [apply metadata_computes|exact Hc|exact Hcx|].
    destruct (erofs_tree_node n t Ht) as (i&c&->&_&Hk&Hs&_&_&Hcc). cbn [bindR]. eexists. split; [reflexivity|]. intros fs _.
    cbn [md_kind md_size]. split; [done|]. intros x Hx. rewrite Hs. destruct t; try done; injection Hx as <-; by destruct Hcc as [-> _].
  - intros s n target (Hc&Hcx&Ht). cbn [read_link Erofs_Frontend]. eapply (computes_implements _ (erofs_read_link n)); [apply read_link_computes|exact Hc|exact Hcx|].
    destruct (erofs_tree_node n _ Ht) as (i&c&->&Hio&Hk&Hs&Hlen&Hh&->&Hcap). cbn [bindR]. unfold ref_read_link.
    rewrite bool_decide_eq_true_2 by done. cbn [negb]. rewrite Hs, (proj2 (checked_full_Ok (zlen c) (zlen c))) by (split; [exact Hcap|reflexivity]). cbn [bindR].
    destruct (ref_data_all i c Hio Hs Hlen Hh) as [k ->]. cbn [bindR]. by eexists.
  - intros s n t c off buf (Hc&Hcx&Ht) Hct Hz Hoff Hb.
    assert (E : read_at (F := Erofs S) (S := S) n off buf s = on_frontend (erofs_read_at v n off buf) s)
      by (destruct s as [fs cx]; cbn [snd] in Hcx; by rewrite <- Hcx).
    enough (Himp : implements erofs_stands (fun _ => part_of off buf) (on_frontend (erofs_read_at v n off buf)) (Ok c) s)
      by (unfold implements in *; by rewrite E). clear E.
    eapply (computes_implements _ (erofs_read_at v n off buf)); [apply read_at_computes|exact Hc|exact Hcx|].
    destruct (erofs_tree_node n t Ht) as (i&c'&->&Hio&Hk&Hs&Hlen&Hh&Hcc). cbn [bindR].
    assert (c' = c /\ accepts n c) as [-> Hacc].
    { destruct t; try discriminate Hct; injection Hct as ->; destruct Hcc as [<- Ha]; (split; [reflexivity|exact Ha]). }
    assert (Hnd : ei_kind i <> Directory) by (rewrite Hk; destruct t; discriminate). destruct (decide (off < zlen c)) as [Hlt|Hge].
    + destruct Hh as [->|Hh]; [rewrite zlen_nil in Hz; lia|].
      destruct (ref_read_at_content b v n off buf i c geo Hio Hnd Hs Hh Hacc ltac:(lia) ltac:(lia) Hlen) as (r&Hr&Hzr&Hsub&_).
      rewrite Hr. eexists. split; [reflexivity|]. intros fs _. rewrite Z.min_comm in *. by apply full_part.
    + unfold ref_read_at. rewrite bool_decide_eq_false_2, Hs, Z.geb_leb, (proj2 (Z.leb_le _ _)) by (done || lia).
      eexists. split; [reflexivity|]. intros fs _. apply empty_part; lia.
Qed.
End Written.

(** ** Mounted *)

Section Mount.
Context {D : Decoders} {DL : DecoderLaws D} {S : Type} `{ReliableSource S}.
Context (src : S).

Definition super_fields (g1 bits slots root g2 meta g3 incompat algs g4 g5 : Z) : list (nat * Z) :=
  [(4%nat, MAGIC); (8%nat, g1); (1%nat, bits); (1%nat, slots); (2%nat, root); (24%nat, g2); (4%nat, meta); (36%nat, g3);
   (4%nat, incompat); (2%nat, algs); (2%nat, 0); (8%nat, g4); (8%nat, 0); (24%nat, g5)].

(** The dictionary size in the configuration of LZMA, which is behind that of LZ4. *)
Definition dict_at (cfgs algs : Z) (dict : option Z) : Prop :=
  if Z.land algs COMPR_ALG_LZMA_BIT =? 0 then dict = None
  else exists lz4 size d format,
    (if Z.land algs 1 =? 0 then lz4 = [] else exists cfg, lz4 = le_bytes 2 (zlen cfg) ++ cfg /\ zlen cfg < 2 ^ 16) /\
    Forall field_ok [(2%nat, size); (4%nat, d); (2%nat, format)] /\
    has src cfgs (lz4 ++ layout [(2%nat, size); (4%nat, d); (2%nat, format)]) /\
    dict = if format =? 0 then Some d else None.

(** The superblock, with no feature that is not supported. *)
Definition volume_at (b : Erofs S) : Prop :=
  exists g1 bits slots root g2 meta g3 incompat algs g4 g5 dict,
    let fields := super_fields g1 bits slots root g2 meta g3 incompat algs g4 g5 in
    let cfgs := SUPER_OFFSET + SB_BASE_SIZE + slots * SB_EXTSLOT_SIZE in
    Forall field_ok fields /\ has src SUPER_OFFSET (layout fields) /\ 9 <= bits <= 16 /\
    Z.land incompat (Z.lnot INCOMPAT_KNOWN) = 0 /\ Z.land incompat INCOMPAT_METABOX = 0 /\ Z.land incompat INCOMPAT_48BIT = 0 /\
    dict_at cfgs algs dict /\
    b = mkErofs src (2 ^ bits) bits (negb (Z.land incompat INCOMPAT_LZ4_0PADDING =? 0)) (meta * 2 ^ bits) root ∅ ∅ dict cfgs.

Context (Hv : src_valid src).

Lemma super_read g1 bits slots root g2 meta g3 incompat algs g4 g5 :
  let fields := super_fields g1 bits slots root g2 meta g3 incompat algs g4 g5 in
  Forall field_ok fields -> has src SUPER_OFFSET (layout fields) -> 9 <= bits <= 16 ->
  Z.land incompat (Z.lnot INCOMPAT_KNOWN) = 0 -> Z.land incompat INCOMPAT_METABOX = 0 -> Z.land incompat INCOMPAT_48BIT = 0 ->
  read_superblock src = Ok (mkErofs src (2 ^ bits) bits (negb (Z.land incompat INCOMPAT_LZ4_0PADDING =? 0)) (meta * 2 ^ bits) root
    ∅ ∅ None (SUPER_OFFSET + SB_BASE_SIZE + slots * SB_EXTSLOT_SIZE)).
Proof.
  intros fields Hf Hsb Hbits Hknown Hbox H48. pose proof (has_read src _ _ Hv Hsb) as Hr.
  assert (Hz : zlen (layout fields) = 128) by (by rewrite zlen_layout). rewrite Hz in Hr. destruct Hsb as (_&Hin&_). rewrite Hz in Hin.
  assert (Hget : forall i k x tok o n, fields !! i = Some (k, x) -> o = widths (take i fields) -> n = Z.of_nat k ->
    le_field n tok (layout fields) o = Ok x).
  { intros i k x tok o n Hi -> ->. rewrite <- (app_nil_r (layout fields)). apply (layout_field_all tok _ i k x); try done.
    exact (Forall_lookup_1 _ _ _ _ Hf Hi). }
  assert (Hat : forall i x, fields !! i = Some (1%nat, x) -> at_ (layout fields) (widths (take i fields)) = Ok (to_u8 x) /\ u8 (to_u8 x) = x).
  { intros i x Hi. split.
    - apply at_Ok. rewrite <- (take_drop_middle fields i _ Hi) at 1. rewrite layout_app, layout_cons, <- zlen_layout.
      rewrite <- (Z.add_0_r (zlen _)). by rewrite get_app_r by lia.
    - rewrite u8_to_u8. apply Z.mod_small. exact (Forall_lookup_1 _ _ _ _ Hf Hi). }
  unfold read_superblock. rewrite (proj2 (Z.ltb_ge _ _)), Hr by lia. cbn [bindR]. unfold le_u32 at 1.
  rewrite (Hget 0%nat 4%nat MAGIC) by done. cbn [bindR]. rewrite Z.eqb_refl. cbn [negb].
  destruct (Hat 2%nat bits eq_refl) as [E2 E2']. change (widths (take 2 fields)) with 12 in E2. rewrite E2. cbn [bindR]. rewrite E2'.
  rewrite (proj2 (Z.leb_le 9 bits)), (proj2 (Z.leb_le bits 16)) by lia. cbn [andb negb].
  unfold le_u32 at 1. rewrite (Hget 8%nat 4%nat incompat) by done. cbn [bindR].
  unfold refuse_unsupported_features. rewrite Hknown, Hbox, H48. cbn [Z.eqb negb].
  unfold le_u16 at 1, SB_EXTRA_DEVICES. rewrite (Hget 10%nat 2%nat 0) by done. cbn [bindR Z.eqb negb].
  unfold le_u64 at 1, SB_PACKED_NID. rewrite (Hget 12%nat 8%nat 0) by done. cbn [bindR Z.eqb negb].
  unfold le_u16 at 1. rewrite (Hget 4%nat 2%nat root) by done. cbn [bindR].
  unfold le_u32 at 1. rewrite (Hget 6%nat 4%nat meta) by done. cbn [bindR].
  destruct (Hat 3%nat slots eq_refl) as [E3 E3']. change (widths (take 3 fields)) with 13 in E3. unfold SB_EXTSLOTS. rewrite E3. cbn [bindR]. rewrite E3'.
  by rewrite Z.shiftl_mul_pow2, Z.mul_1_l by lia.
Qed.

(** A field of two bytes at the front, and what is behind it. *)
Lemma has_num off k x rest : 0 <= x < 256 ^ Z.of_nat k -> has src off (le_bytes k x ++ rest) ->
  exists l, src_read_at src off (Z.of_nat k) = Ok l /\ le_num l = x /\ has src (off + Z.of_nat k) rest.
Proof.
  intros Hx [Ha Hb]%has_app. rewrite zlen_le_bytes in Hb. exists (le_bytes k x). split; [|split; [|done]].
  - rewrite <- (has_read src off _ Hv Ha). by rewrite zlen_le_bytes.
  - rewrite le_num_le_bytes. by apply Z.mod_small.
Qed.

Lemma lzma_walk_lzma (me : Erofs S) algs cur rest size d format : er_src me = src -> Z.land algs COMPR_ALG_LZMA_BIT <> 0 ->
  Forall field_ok [(2%nat, size); (4%nat, d); (2%nat, format)] ->
  has src cur (layout [(2%nat, size); (4%nat, d); (2%nat, format)]) ->
  lzma_cfg_walk me algs cur (1 :: rest) = Ok (if format =? 0 then Some d else None).
Proof.
  intros Hsrc Hbit Hf Hh. cbn [lzma_cfg_walk]. change (Z.shiftl 1 1) with COMPR_ALG_LZMA_BIT.
  rewrite (proj2 (Z.eqb_neq _ _)) by done. rewrite Hsrc. rewrite layout_cons in Hh. cbn [fst snd] in Hh.
  destruct (has_num cur 2 size _ (Forall_lookup_1 field_ok _ 0 _ Hf eq_refl) Hh) as (l&Hl&_&Hh2). change (Z.of_nat 2) with 2 in *.
  rewrite Hl. cbn [attempt bindR]. change (1 =? ALGO_LZMA) with true. cbn iota.
  pose proof (has_read src _ _ Hv Hh2) as Hr. rewrite zlen_layout in Hr. change (widths _) with 6 in Hr. rewrite Hr. cbn [attempt bindR].
  pose proof (Forall_lookup_1 field_ok _ 1 (4%nat, d) Hf eq_refl) as Hd. pose proof (Forall_lookup_1 field_ok _ 2 (2%nat, format) Hf eq_refl) as Hfm.
  assert (E : layout [(4%nat, d); (2%nat, format)] = le_bytes 4 d ++ le_bytes 2 format) by (unfold layout; cbn; done).
  rewrite E. rewrite (sub_app_l _ _ 0 4) by (rewrite ?zlen_le_bytes; done).
  rewrite (sub_app_r _ _ 4 2) by (rewrite ?zlen_le_bytes; done). rewrite zlen_le_bytes. change (4 - Z.of_nat 4) with 0.
  assert (E4 : sub (le_bytes 4 d) 0 4 = le_bytes 4 d) by exact (sub_all _). assert (E2 : sub (le_bytes 2 format) 0 2 = le_bytes 2 format) by exact (sub_all _).
  rewrite E4, E2, !le_num_le_bytes, !Z.mod_small by done. done.
Qed.

Lemma dict_read (me : Erofs S) algs dict : er_src me = src -> 0 <= algs < 2 ^ 16 -> has src COMPR_ALGS_OFF (le_bytes 2 algs) ->
  dict_at (er_compr_cfgs_off me) algs dict -> parse_lzma_cfg me = Ok dict.
Proof.
  intros Hsrc Ha Hh Hd. rewrite <- (app_nil_r (le_bytes 2 algs)) in Hh. destruct (has_num _ 2 algs [] Ha Hh) as (l&Hl&Hn&_).
  unfold parse_lzma_cfg. rewrite Hsrc. change (Z.of_nat 2) with 2 in Hl. rewrite Hl. cbn [attempt bindR]. rewrite Hn. unfold dict_at in Hd.
  destruct (Z.eqb_spec (Z.land algs COMPR_ALG_LZMA_BIT) 0) as [_|Hbit]; [by subst|].
  destruct Hd as (lz4&size&d&format&Hlz4&Hf&Hhas&->). change (seqZ 0 16) with (0 :: 1 :: seqZ 2 14). set (rest := 1 :: seqZ 2 14).
  cbn [lzma_cfg_walk]. change (Z.shiftl 1 0) with 1. destruct (Z.land algs 1 =? 0).
  - subst lz4. by apply (lzma_walk_lzma me algs _ (seqZ 2 14) size d format Hsrc Hbit Hf).
  - destruct Hlz4 as (cfg&->&Hcfg). rewrite <- app_assoc in Hhas. pose proof (zlen_nonneg cfg).
    destruct (has_num _ 2 (zlen cfg) _ ltac:(change (256 ^ Z.of_nat 2) with (2 ^ 16); lia) Hhas) as (l'&Hl'&Hn'&Hrest).
    change (Z.of_nat 2) with 2 in *. rewrite Hsrc, Hl'. cbn [attempt bindR]. change (0 =? ALGO_LZMA) with false. cbn iota. rewrite Hn'.
    apply has_app in Hrest as [_ Hrest]. replace (er_compr_cfgs_off me + (2 + zlen cfg)) with (er_compr_cfgs_off me + 2 + zlen cfg) by lia.
    by apply (lzma_walk_lzma me algs _ (seqZ 2 14) size d format Hsrc Hbit Hf).
Qed.

Lemma open_bare_written b : volume_at b -> open_bare src = Ok b.
Proof.
  intros (g1&bits&slots&root&g2&meta&g3&incompat&algs&g4&g5&dict&Hf&Hsb&Hbits&Hk&Hm&H48&Hd&->). unfold open_bare.
  rewrite (super_read g1 bits slots root g2 meta g3 incompat algs g4 g5) by done. cbn [bindR].
  set (me := mkErofs _ _ _ _ _ _ _ _ _ _). rewrite (dict_read me algs dict); [done|done| |  |done].
  - exact (Forall_lookup_1 field_ok _ 9 (2%nat, algs) Hf eq_refl).
  - change (super_fields _ _ _ _ _ _ _ _ _ _ _) with
      ([(4%nat, MAGIC); (8%nat, g1); (1%nat, bits); (1%nat, slots); (2%nat, root); (24%nat, g2); (4%nat, meta); (36%nat, g3); (4%nat, incompat)]
       ++ [(2%nat, algs); (2%nat, 0); (8%nat, g4); (8%nat, 0); (24%nat, g5)]) in Hsb.
    rewrite layout_app in Hsb. apply has_app in Hsb as [_ Hsb]. rewrite zlen_layout, layout_cons in Hsb. by apply has_app in Hsb as [Hsb _].
Qed.

(** C5.  An EROFS volume is the tree written on it.  On a medium with a superblock
    without features that are not supported, and below the root compact and extended
    inodes, directory blocks and files, links and directories whose data is in blocks,
    with an inlined tail, in chunks, or compressed: behind a map header and a full index,
    of one block for each pcluster, or a compact one, in pclusters that are plain or have
    a stream of LZ4, MicroLZMA, DEFLATE or ZSTD; whatever session of reads, listings and queries by path, the mounted volume gives
    the answers of the abstract file system, errors included, when the session's
    verifier accepts the blocks of the files: what the tables of inodes and of decoded
    files hold makes no difference.  A compressed directory is a directory like any
    other: where the volume names no packed inode it opens and lists, although the
    crate's README has compressed directories refused at open. *)
Theorem erofs_refines_tree b top cx ops :
  volume_at b -> erofs_tree b (cx_verifier cx) (er_root_nid b) top -> tree_kind top = Directory ->
  exists fs, erofs_open src = Ok fs /\ session (F := Erofs S) (S := S) ops (fs, cx) = tree_op top <$> ops.
Proof.
  intros Hvol Ht Hd. pose proof (open_bare_written b Hvol) as Ho. pose proof (open_bare_wp (X := False) src Hv) as Hw.
  rewrite Ho in Hw. destruct Hw as (Hg&Hb&_). destruct (erofs_tree_node b _ Hg _ top Ht) as (i&c&Hi&_).
  pose proof (erofs_open_eq src b Ho Hb) as Hopen. rewrite Hi in Hopen. cbn [bindR] in Hopen. eexists. split; [exact Hopen|].
  pose proof (mounted_coherent src b _ Ho Hb (Mounted_open src _ Hopen)) as Hc.
  pose proof (ErofsTree b (cx_verifier cx) Hg). apply (session_refines (stands := erofs_stands b (cx_verifier cx)) top Hd).
  by split.
Qed.
End Mount.

(** ** Witness: blocks of 512 bytes, padded pclusters, a session with a Merkle verifier

    Under the root, which is an extended inode, a file with an inlined tail, a link, a
    directory of two blocks with an empty file, and a compressed directory with a
    compressed copy of the file: the directory has a compact index and one LZ4 pcluster,
    the file a full index, an LZ4 and a DEFLATE pcluster. *)

Definition et_file : WNode := mkWNode false FLAT_INLINE 0 0x81a4 517 10 1 0 0.
Definition et_link : WNode := mkWNode false FLAT_INLINE 0 0xa1ff 3 0 1 0 0.
Definition et_empty : WNode := mkWNode false FLAT_PLAIN 0 0x81a4 0 0 1 0 0.
Definition et_d_blocks : list DirBlock :=
  [mkDirBlock [mkDirent 9 2 0 (bytes_of "."); mkDirent 0 2 0 (bytes_of "..")] 485; mkDirBlock [mkDirent 10 1 0 (bytes_of "e")] 0].
Definition et_d : WNode := mkWNode false FLAT_PLAIN 0 0x41ed (zlen (dir_data et_d_blocks)) 11 2 0 0.
Definition et_c_blocks : list DirBlock :=
  [mkDirBlock [mkDirent 14 2 0 (bytes_of "."); mkDirent 0 2 0 (bytes_of ".."); mkDirent 12 1 0 (bytes_of "z")] 0].
Definition et_c : WNode := mkWNode false COMPRESSED_COMPACT 0 0x41ed (zlen (dir_data et_c_blocks)) 0 2 0 0.
Definition et_c_map : MapHeader := mkMap 0 1 0 0 0 0.
Definition et_c_index : list CUnit := [([entry_num 1 0], 14)].
Definition et_z : WNode := mkWNode false COMPRESSED_FULL 0 0x81a4 517 0 1 0 0.
Definition et_z_map : MapHeader := mkMap 0 0 0 2 0 0.
Definition et_z_index : list FullEntry := [mkFull 1 false 0 13; mkFull 3 false 0 14].
Definition et_root_blocks : list DirBlock :=
  [mkDirBlock [mkDirent 0 2 0 (bytes_of "."); mkDirent 0 2 0 (bytes_of ".."); mkDirent 14 2 0 (bytes_of "c"); mkDirent 9 2 0 (bytes_of "d");
               mkDirent 5 1 0 (bytes_of "f"); mkDirent 7 7 0 (bytes_of "l")] 0].
Definition et_root : WNode := mkWNode true FLAT_INLINE 0 0x41ed (zlen (dir_data et_root_blocks)) 0 2 0 0.
Definition et_super : list (nat * Z) := super_fields 0 9 0 0 0 3 0 1 0 0 0.
Definition et_src : Image := mkImage 8192 [
  (1024, layout et_super); (1536, layout (wnode_fields et_root) ++ dir_data et_root_blocks);
  (1696, layout (wnode_fields et_file) ++ bytes_of "tail!"); (1760, layout (wnode_fields et_link) ++ bytes_of "d/e");
  (1824, layout (wnode_fields et_d)); (1856, layout (wnode_fields et_empty)); (5120, replicate 512 x61);
  (1920, layout (wnode_fields et_z) ++ layout (map_fields et_z_map) ++ zeros 8 ++ full_bytes et_z_index);
  (1984, layout (wnode_fields et_c) ++ layout (map_fields et_c_map) ++ concat (group_bytes <$> et_c_index));
  (5632, dir_data et_d_blocks); (6656, replicate 512 x61); (7168, zeros 507 ++ bytes_of "tail!");
  (7680, zeros 472 ++ dir_data et_c_blocks)].
Definition et_b : Erofs Image := mkErofs et_src 512 9 true 1536 0 ∅ ∅ None 1152.
Definition et_cx : SubstrateCtx := mkCtx (cx_cache mock_ctx) (MerkleVerifier_verifier toy_sha w_verifier).
Definition et_tree : Tree :=
  TDir [(bytes_of "c", TDir [(bytes_of "z", TFile w_content)]); (bytes_of "d", TDir [(bytes_of "e", TFile [])]); (bytes_of "f", TFile w_content); (bytes_of "l", TLink (bytes_of "d/e"))].

Definition et_ops : list PathOp :=
  [OpList (bytes_of "/"); OpStat (bytes_of "l"); OpRead (bytes_of "f"); OpList (bytes_of "d/e"); OpRead (bytes_of "l/x"); OpRead (bytes_of "l");
   OpList (bytes_of "c"); OpRead (bytes_of "c/z")].

Lemma et_valid : src_valid et_src.
Proof. by vm_compute. Qed.

Lemma et_has off bytes : bool_decide (0 <= off /\ off + zlen bytes <= src_len et_src /\ region (src_byte et_src) off (zlen bytes) = bytes) = true ->
  has et_src off bytes.
Proof. apply bool_decide_eq_true. Qed.

Lemma et_wnode nid w : bool_decide ((0 <= nid /\ 0 <= wn_layout w < 8) /\ Forall (fun f => 0 <= f.2 < 256 ^ Z.of_nat f.1) (wnode_fields w)) = true ->
  has et_src (1536 + nid * 32) (layout (wnode_fields w)) -> wnode_at et_b nid w.
Proof. intros [[? ?] ?]%bool_decide_eq_true Hh. split; [done|]. split; [by vm_compute|]. split; [by split|exact Hh]. Qed.

Lemma et_node nid w kind c : wnode_at et_b nid w -> kind_of (wn_mode w) = kind -> wn_size w = zlen c -> zlen c < 2 ^ 63 ->
  c = [] \/ written et_b (wnode_inode (1536 + nid * 32) w) c -> node_at et_b nid kind c.
Proof. intros. by exists w. Qed.

Ltac et_wnode_at := apply et_wnode; [vm_compute; reflexivity|apply et_has; vm_compute; reflexivity].

Lemma et_volume : volume_at et_src et_b.
Proof.
  exists 0, 9, 0, 0, 0, 3, 0, 1, 0, 0, 0, None. split.
  { apply (bool_decide_unpack _). by vm_compute. }
  split; [apply et_has; vm_compute; reflexivity|]. split; [by vm_compute|]. repeat (split; [reflexivity|]). reflexivity.
Qed.

Lemma et_file_node : node_at et_b 5 Regular w_content.
Proof.
  apply (et_node 5 et_file); [et_wnode_at|reflexivity|vm_compute; reflexivity|by vm_compute|]. right.
  apply Written_flat; [reflexivity|]. apply (Holds_inline _ _ _ 512); [reflexivity|vm_compute; reflexivity|vm_compute; discriminate|vm_compute; discriminate|vm_compute; reflexivity].
Qed.

Lemma et_file_accepted : accepts et_b (cx_verifier et_cx) 5 w_content.
Proof.
  intros k Hk. assert (k = 0 \/ k = 1) as [-> | ->]; [|vm_compute; reflexivity..].
  change (div_ceil (zlen w_content) (er_block_size et_b)) with 2 in Hk. lia.
Qed.

(** The same bytes, compressed. *)
Lemma et_z_node : node_at et_b 12 Regular w_content.
Proof.
  apply (et_node 12 et_z); [et_wnode_at|reflexivity|vm_compute; reflexivity|by vm_compute|]. right.
  apply (Written_compressed _ _ _ et_z_map (full_heads 512 true 0 et_z_index) [replicate 512 x61; bytes_of "tail!"]).
  - repeat (split; [by vm_compute|]). by vm_compute.
  - by vm_compute.
  - apply et_has. vm_compute. reflexivity.
  - apply (Index_full _ _ _ 9 _ _ et_z_index); [reflexivity|vm_compute; reflexivity| |apply et_has; vm_compute; reflexivity].
    repeat constructor; by vm_compute.
  - split; [reflexivity|]. split; [by vm_compute|]. split; [|split; [vm_compute; reflexivity|]; split; [by vm_compute|]; split; [|exact I]].
    + intros _. exists (replicate 512 x61). split; [split; [by vm_compute|vm_compute; reflexivity]|].
      apply Packs_head1. apply (Coded_lz4_padded _ _ _ 0 x61 (replicate 511 x61)); [reflexivity|done|discriminate|vm_compute; reflexivity].
    + intros _. exists (zeros 507 ++ bytes_of "tail!"). split; [split; [by vm_compute|vm_compute; reflexivity]|].
      apply Packs_head2. apply (Coded_deflate_padded _ _ _ 507 x74 (bytes_of "ail!")); [done|discriminate| |vm_compute; reflexivity].
      intros q. vm_compute. discriminate.
  - reflexivity.
  - by vm_compute.
Qed.

Lemma et_z_accepted : accepts et_b (cx_verifier et_cx) 12 w_content.
Proof.
  intros k Hk. assert (k = 0 \/ k = 1) as [-> | ->]; [|vm_compute; reflexivity..].
  change (div_ceil (zlen w_content) (er_block_size et_b)) with 2 in Hk. lia.
Qed.

Lemma et_link_node : node_at et_b 7 Symlink (bytes_of "d/e").
Proof.
  apply (et_node 7 et_link); [et_wnode_at|reflexivity|reflexivity|by vm_compute|]. right.
  apply Written_flat; [reflexivity|]. apply (Holds_inline _ _ _ 0); [reflexivity|vm_compute; reflexivity|vm_compute; discriminate|vm_compute; discriminate|vm_compute; reflexivity].
Qed.

Lemma et_empty_node : node_at et_b 10 Regular [].
Proof. apply (et_node 10 et_empty); [et_wnode_at|reflexivity|reflexivity|by vm_compute|by left]. Qed.

Lemma et_blocks_ok blocks : bool_decide (Forall (fun b => (db_dirents b <> [] /\ zlen (db_bytes b) <= 2 ^ 16) /\
    Forall (fun d => (0 <= dn_nid d < 2 ^ 64 /\ 0 <= dn_type d < 256) /\ (0 <= dn_reserved d < 256 /\ dn_name d <> []) /\ x00 ∉ dn_name d)
      (db_dirents b)) blocks) = true -> Forall db_ok blocks.
Proof.
  intros HF%bool_decide_eq_true. eapply Forall_impl; [exact HF|]. intros b ((?&?)&Hd). split; [done|]. split; [|done].
  eapply Forall_impl; [exact Hd|]. intros d ((?&?)&(?&?)&?). do 4 (split; [done|]). done.
Qed.

Lemma et_d_holds : erofs_tree et_b (cx_verifier et_cx) 9 (TDir [(bytes_of "e", TFile [])]).
Proof.
  apply (Ero_dir _ _ _ et_d_blocks).
  - apply (et_node 9 et_d); [et_wnode_at|reflexivity|reflexivity|by vm_compute|]. right.
    apply Written_flat; [reflexivity|]. apply Holds_plain; [reflexivity|vm_compute; discriminate|vm_compute; reflexivity].
  - vm_compute. discriminate.
  - apply et_blocks_ok. vm_compute. reflexivity.
  - vm_compute. split; [reflexivity|discriminate].
  - apply Forall2_cons; split; [|apply Forall2_nil_2]. split; [reflexivity|]. split; [reflexivity|].
    apply Ero_file; [exact et_empty_node|]. intros k Hk. change (div_ceil (zlen []) (er_block_size et_b)) with 0 in Hk. lia.
Qed.

Lemma et_c_index_written : compact_written et_b 2024 512 1 [mkPc 1 0 [] 15 1] et_c_index [] [].
Proof.
  split; [split; [|by vm_compute]; split; [|split; [done|exact I]]; split; [by vm_compute|split; [repeat constructor; by vm_compute|by vm_compute]]|].
  split; [split; [exact I|by vm_compute]|]. split; [exact I|]. split; [reflexivity|]. split.
  { constructor; [|constructor]. split; [by right; left|]. split; [by vm_compute|]. split; [constructor|by vm_compute]. }
  split; [by split|]. split; [split; [by repeat constructor|by split]|]. repeat (split; [by vm_compute|]). vm_compute. reflexivity.
Qed.

Lemma et_c_node : node_at et_b 14 Directory (dir_data et_c_blocks).
Proof.
  apply (et_node 14 et_c); [et_wnode_at|reflexivity|vm_compute; reflexivity|by vm_compute|]. right.
  apply (Written_compressed _ _ _ et_c_map (heads_of 512 true 0 [mkPc 1 0 [] 15 1]) [dir_data et_c_blocks]).
  - repeat (split; [by vm_compute|]). by vm_compute.
  - by vm_compute.
  - apply et_has. vm_compute. reflexivity.
  - apply (Index_compact _ _ _ 9 _ _ [mkPc 1 0 [] 15 1] et_c_index [] []);
      [reflexivity|by vm_compute|by vm_compute|vm_compute; reflexivity|exact et_c_index_written].
  - split; [reflexivity|]. split; [by vm_compute|]. split; [|exact I]. intros _.
    exists (zeros 472 ++ dir_data et_c_blocks). split; [split; [by vm_compute|vm_compute; reflexivity]|].
    apply Packs_head1. apply (Coded_lz4_padded _ _ _ 472 x0e (tail (dir_data et_c_blocks)));
      [reflexivity|done|discriminate|vm_compute; reflexivity].
  - by rewrite <- (app_nil_r (dir_data et_c_blocks)) at 1.
  - by vm_compute.
Qed.

Lemma et_c_holds : erofs_tree et_b (cx_verifier et_cx) 14 (TDir [(bytes_of "z", TFile w_content)]).
Proof.
  apply (Ero_dir _ _ _ et_c_blocks); [exact et_c_node|by vm_compute|apply et_blocks_ok; vm_compute; reflexivity|by vm_compute|].
  apply Forall2_cons; split; [|apply Forall2_nil_2]. split; [reflexivity|]. split; [reflexivity|].
  apply Ero_file; [exact et_z_node|exact et_z_accepted].
Qed.

Lemma et_holds : erofs_tree et_b (cx_verifier et_cx) (er_root_nid et_b) et_tree.
Proof.
  apply (Ero_dir _ _ _ et_root_blocks).
  - apply (et_node 0 et_root); [et_wnode_at|reflexivity|reflexivity|by vm_compute|]. right.
    apply Written_flat; [reflexivity|]. apply (Holds_inline _ _ _ 0); [reflexivity|vm_compute; reflexivity|vm_compute; discriminate|vm_compute; discriminate|vm_compute; reflexivity].
  - vm_compute. discriminate.
  - apply et_blocks_ok. vm_compute. reflexivity.
  - vm_compute. discriminate.
  - apply Forall2_cons; split; [split; [reflexivity|]; split; [reflexivity|exact et_c_holds]|].
    apply Forall2_cons; split; [split; [reflexivity|]; split; [reflexivity|exact et_d_holds]|].
    apply Forall2_cons; split; [split; [reflexivity|]; split; [reflexivity|apply Ero_file; [exact et_file_node|exact et_file_accepted]]|].
    apply Forall2_cons; split; [|apply Forall2_nil_2]. split; [reflexivity|]. split; [reflexivity|].
    apply Ero_link; [exact et_link_node|]. vm_compute. discriminate.
Qed.

Lemma erofs_refines_tree_witness :
  exists fs, erofs_open et_src = Ok fs /\ session (F := Erofs Image) (S := Image) et_ops (fs, et_cx)
    = [Ok (AList [(bytes_of "c", Directory); (bytes_of "d", Directory); (bytes_of "f", Regular); (bytes_of "l", Symlink)]); Ok (AStat Regular 0);
       Ok (ABytes w_content); Err NotDirectory; Err NotDirectory; Ok (ABytes []);
       Ok (AList [(bytes_of "z", Regular)]); Ok (ABytes w_content)].
Proof.
  destruct (erofs_refines_tree et_src et_valid et_b et_tree et_cx et_ops) as (fs&Ho&Hs);
    [exact et_volume|exact et_holds|reflexivity|].
  exists fs. split; [exact Ho|]. rewrite Hs. vm_compute. reflexivity.
Defined.
