(* ===== verification/RockRidge.v ===== *)
(** * Rock Ridge over SUSP ([crates/lamfold-iso/src/rock_ridge.rs])

    The tagged entries of a directory record's System Use area and of its
    continuation areas: names ([NM]), modes ([PX]), link targets ([SL]), zisofs
    parameters ([ZF]) and continuations ([CE]).  Everything is in memory; slices and
    indexes are the panicking ones of the code. *)
From S2P Require Import Prelude Text.
Open Scope Z_scope.

Record Zisofs : Type := mkZisofs { uncompressed_size : Z; block_size_log2 : Z }.

Record RrInfo : Type := mkRrInfo {
  rr_name : option name;
  rr_mode : option Z;
  rr_symlink_target : option (list byte);
  rr_zisofs : option Zisofs;
}.

(** The entry at [p]: its signature, its data and where the next one starts, or
    [None] where the walk ends. *)
Definition susp_entry (su : list byte) (p : Z) : Res (option (list byte * list byte * Z)) :=
  if negb (p + 4 <=? zlen su) then Ok None
  else
    let! b := at_ su (p + 2) in
    let len := u8 b in
    if (len <? 4) || (p + len >? zlen su) then Ok None
    else
      let! sig := slice su p (p + 2) in
      let! data := slice su (p + 4) (p + len) in
      Ok (Some (sig, data, p + len)).

Definition sig_is (sig : list byte) (s : string) : bool := bool_decide (sig = bytes_of s).

Definition detect_round (su : list byte) (p : Z) : Res (Z + option Z) :=
  let! e := susp_entry su p in
  match e with
  | None => Ok (inr None)
  | Some (sig, data, next) =>
      let! found :=
        if sig_is sig "SP" && (next - p >=? 7) then
          let! a := at_ su (p + 4) in
          if negb (u8 a =? 0xBE) then Ok None
          else
            let! b := at_ su (p + 5) in
            if negb (u8 b =? 0xEF) then Ok None
            else let! skip := at_ su (p + 6) in Ok (Some (u8 skip))
        else Ok None in
      match found with
      | Some skip => Ok (inr (Some skip))
      | None => Ok (inl next)
      end
  end.
Definition detect_sp (su : list byte) : Res (option Z) := loop (detect_round su) 0.

Record Continuation : Type := mkCe { ce_block : Z; ce_offset : Z; ce_len : Z }.

Record RrParser : Type := mkParser {
  rp_info : RrInfo;
  rp_name : list byte;
  rp_have_nm : bool;
  rp_sl : list byte;
  rp_have_sl : bool;
  rp_sl_continues : bool;
}.
Definition parser_default : RrParser := mkParser (mkRrInfo None None None None) [] false [] false false.

(** One [SL] component: the body of [while comp.len() >= 2]; the state is the
    components left, the path so far and whether its last component goes on. *)
Definition sl_round (s : list byte * list byte * bool)
    : Res ((list byte * list byte * bool) + (list byte * bool)) :=
  let '(comp, out, continues) := s in
  if negb (zlen comp >=? 2) then Ok (inr (out, continues))
  else
    let! b0 := at_ comp 0 in
    let! b1 := at_ comp 1 in
    let flags := u8 b0 in
    let clen := u8 b1 in
    if 2 + clen >? zlen comp then Ok (inr (out, continues))
    else
      let! content := slice comp 2 (2 + clen) in
      let out :=
        if negb (Z.land flags 0x08 =? 0) then
          if bool_decide (out = []) then out ++ bytes_of "/" else out
        else
          let out :=
            if negb continues && negb (bool_decide (out = [])) && negb (bool_decide (last out = Some x2f))
            then out ++ bytes_of "/" else out in
          if negb (Z.land flags 0x02 =? 0) then out ++ bytes_of "."
          else if negb (Z.land flags 0x04 =? 0) then out ++ bytes_of ".."
          else out ++ content in
      let continues := negb (Z.land flags 0x01 =? 0) in
      let! comp := slice comp (2 + clen) (zlen comp) in
      Ok (inl (comp, out, continues)).
Definition parse_sl_components (comp out : list byte) (continues : bool) : Res (list byte * bool) :=
  loop sl_round (comp, out, continues).

(** One entry of [feed]; [None] for the [ST] that ends the area. *)
Definition feed_entry (sig data : list byte) (me : RrParser) (next : option Continuation)
    : Res (option (RrParser * option Continuation)) :=
  let info := rp_info me in
  let keep := Ok (Some (me, next)) in
  if sig_is sig "NM" then
    if negb (bool_decide (data = [])) then
      let! flags := at_ data 0 in
      if Z.land (u8 flags) 0x06 =? 0 then
        let! part := slice data 1 (zlen data) in
        Ok (Some (mkParser info (rp_name me ++ part) true (rp_sl me) (rp_have_sl me) (rp_sl_continues me), next))
      else keep
    else keep
  else if sig_is sig "PX" then
    if zlen data >=? 4 then
      let! m := slice data 0 4 in
      Ok (Some (mkParser (mkRrInfo (rr_name info) (Some (le_num m)) (rr_symlink_target info) (rr_zisofs info))
                  (rp_name me) (rp_have_nm me) (rp_sl me) (rp_have_sl me) (rp_sl_continues me), next))
    else keep
  else if sig_is sig "SL" then
    if negb (bool_decide (data = [])) then
      let! comp := slice data 1 (zlen data) in
      let! (sl, continues) := parse_sl_components comp (rp_sl me) (rp_sl_continues me) in
      Ok (Some (mkParser info (rp_name me) (rp_have_nm me) sl true continues, next))
    else Ok (Some (mkParser info (rp_name me) (rp_have_nm me) (rp_sl me) true (rp_sl_continues me), next))
  else if sig_is sig "ZF" then
    if zlen data >=? 8 then
      let! alg := slice data 0 2 in
      if sig_is alg "pz" then
        let! b3 := at_ data 3 in
        let! size := slice data 4 8 in
        Ok (Some (mkParser (mkRrInfo (rr_name info) (rr_mode info) (rr_symlink_target info)
                              (Some (mkZisofs (le_num size) (u8 b3))))
                    (rp_name me) (rp_have_nm me) (rp_sl me) (rp_have_sl me) (rp_sl_continues me), next))
      else keep
    else keep
  else if sig_is sig "CE" then
    if zlen data >=? 24 then
      let! block := slice data 0 4 in
      let! offset := slice data 8 12 in
      let! len := slice data 16 20 in
      Ok (Some (me, Some (mkCe (le_num block) (le_num offset) (le_num len))))
    else keep
  else if sig_is sig "ST" then Ok None
  else keep.

Definition feed_round (su : list byte) (s : Z * RrParser * option Continuation)
    : Res ((Z * RrParser * option Continuation) + (RrParser * option Continuation)) :=
  let '(p, me, next) := s in
  let! e := susp_entry su p in
  match e with
  | None => Ok (inr (me, next))
  | Some (sig, data, q) =>
      let! r := feed_entry sig data me next in
      match r with
      | None => Ok (inr (me, next))
      | Some (me, next) => Ok (inl (q, me, next))
      end
  end.
Definition feed (me : RrParser) (su : list byte) : Res (RrParser * option Continuation) :=
  loop (feed_round su) (0, me, None).

Definition finish (me : RrParser) : RrInfo :=
  let info := rp_info me in
  mkRrInfo
    (if rp_have_nm me && utf8_valid (rp_name me) && negb (bool_decide (rp_name me = []))
     then Some (rp_name me) else rr_name info)
    (rr_mode info)
    (if rp_have_sl me then Some (rp_sl me) else rr_symlink_target info)
    (rr_zisofs info).

(** ** Lemmas: the parser comes back on any bytes *)

Lemma susp_entry_wp {X : Prop} su p : 0 <= p ->
  wpx X (susp_entry su p) (fun e => match e with
    | Some (sig, data, q) => p + 4 <= q <= zlen su /\ zlen sig = 2 /\ zlen data = q - (p + 4)
    | None => True end).
Proof.
  intros Hp. unfold susp_entry. destruct (Z.leb_spec (p + 4) (zlen su)); cbn [negb]; [|done].
  apply wp_bind, wp_at; [lia|]. intros b _. pose proof (u8_range b).
  destruct (Z.ltb_spec (u8 b) 4); [done|]. rewrite Z.gtb_ltb. destruct (Z.ltb_spec (zlen su) (p + u8 b)); [done|].
  cbn [orb]. apply wp_bind, wp_slice; [lia|lia|]. apply wp_bind, wp_slice; [lia|lia|]. cbn [wpx].
  rewrite !zlen_sub by lia. lia.
Qed.

Lemma detect_sp_wp {X : Prop} su : zlen su < 2 ^ 63 ->
  wpx X (detect_sp su) (fun r => match r with Some skip => 0 <= skip < 256 | None => True end).
Proof.
  intros Hsu. pose proof (zlen_nonneg su).
  apply (wp_loop _ (fun p => 0 <= p <= zlen su) (fun p => zlen su - p)); [lia|lia|].
  intros p Hp. split; [lia|]. unfold detect_round. apply wp_bind.
  eapply wp_mono; [apply susp_entry_wp; lia|]. intros [[[sig data] q]|]; [|done]. intros (Hq&_&_).
  apply wp_bind, (wp_mono _ (fun r => match r with Some skip => 0 <= skip < 256 | None => True end)).
  { rewrite Z.geb_leb. destruct (sig_is sig "SP" && (7 <=? q - p)) eqn:E; [|done].
    apply andb_true_iff in E as [_ E%Z.leb_le]. apply wp_bind, wp_at; [lia|]. intros a _.
    destruct (negb _); [done|]. apply wp_bind, wp_at; [lia|]. intros b _. destruct (negb _); [done|].
    apply wp_bind, wp_at; [lia|]. intros c _. apply u8_range. }
  intros [skip|] Hs; cbn [wpx]; [done|lia].
Qed.

Lemma sl_loop_wp {X : Prop} comp out continues : zlen comp < 2 ^ 63 ->
  wpx X (parse_sl_components comp out continues) (fun _ => True).
Proof.
  intros Hc. apply (wp_loop _ (fun _ => True) (fun s => zlen s.1.1)); [done|cbn [fst]; lia|].
  intros [[c o] k] _. cbn [fst]. split; [apply zlen_nonneg|]. unfold sl_round.
  rewrite Z.geb_leb. destruct (Z.leb_spec 2 (zlen c)); cbn [negb]; [|done].
  apply wp_bind, wp_at; [lia|]. intros b0 _. apply wp_bind, wp_at; [lia|]. intros b1 _. pose proof (u8_range b1).
  rewrite Z.gtb_ltb. destruct (Z.ltb_spec (zlen c) (2 + u8 b1)); [done|].
  apply wp_bind, wp_slice; [lia|lia|]. apply wp_bind, wp_slice; [lia|lia|]. cbn [wpx fst].
  split; [done|]. rewrite zlen_sub by lia. lia.
Qed.

Definition ce_ok (next : option Continuation) : Prop :=
  match next with
  | Some ce => 0 <= ce_block ce < 2 ^ 32 /\ 0 <= ce_offset ce < 2 ^ 32 /\ 0 <= ce_len ce < 2 ^ 32
  | None => True
  end.
Definition zf_ok (z : option Zisofs) : Prop :=
  match z with
  | Some z => 0 <= uncompressed_size z < 2 ^ 32 /\ 0 <= block_size_log2 z < 256
  | None => True
  end.

(** What is collected is in range, and names are text. *)
Definition info_ok (i : RrInfo) : Prop :=
  zf_ok (rr_zisofs i) /\ match rr_name i with Some n => Chars n | None => True end.

Lemma finish_ok me : info_ok (rp_info me) -> info_ok (finish me).
Proof.
  intros [Hz Hn]. split; [done|]. cbn. destruct (rp_have_nm me && utf8_valid (rp_name me) && _) eqn:E; [|done].
  apply andb_true_iff in E as [[_ E]%andb_true_iff _]. by apply utf8_valid_Chars.
Qed.

Lemma wp_num4 {X : Prop} l lo hi (P : list byte -> Prop) : 0 <= lo -> hi = lo + 4 -> hi <= zlen l ->
  (forall b, 0 <= le_num b < 2 ^ 32 -> P b) -> wpx X (slice l lo hi) P.
Proof.
  intros Hl -> Hh HP. apply wp_slice; [lia|lia|]. apply HP.
  pose proof (le_num_range (sub l lo (lo + 4 - lo))) as Hr. rewrite zlen_sub in Hr by lia.
  by replace (lo + 4 - lo) with 4 in * by lia.
Qed.

Lemma feed_entry_wp {X : Prop} sig data me next : zlen data < 2 ^ 63 -> ce_ok next -> info_ok (rp_info me) ->
  wpx X (feed_entry sig data me next) (fun r => match r with
    | Some (me', next') => ce_ok next' /\ info_ok (rp_info me') | None => True end).
Proof.
  intros Hd Hce Hzf. pose proof (zlen_nonneg data). unfold feed_entry.
  assert (Hne : data <> [] -> 1 <= zlen data).
  { destruct data; [done|]. rewrite zlen_cons. pose proof (zlen_nonneg data). lia. }
  destruct (sig_is sig "NM").
  { destruct (bool_decide_reflect (data = [])); cbn [negb]; [split; [done|exact Hzf]|]. specialize (Hne ltac:(done)).
    apply wp_bind, wp_at; [lia|]. intros f _. destruct (_ =? 0); [|split; [done|exact Hzf]].
    apply wp_bind, wp_slice; [lia|lia|]. split; [done|exact Hzf]. }
  destruct (sig_is sig "PX").
  { rewrite Z.geb_leb. destruct (Z.leb_spec 4 (zlen data)); [|split; [done|exact Hzf]].
    apply wp_bind, wp_slice; [lia|lia|]. split; [done|exact Hzf]. }
  destruct (sig_is sig "SL").
  { destruct (bool_decide_reflect (data = [])); cbn [negb]; [split; [done|exact Hzf]|]. specialize (Hne ltac:(done)).
    apply wp_bind, wp_slice; [lia|lia|]. apply wp_bind. eapply wp_mono; [apply sl_loop_wp; rewrite zlen_sub; lia|].
    intros [sl k] _. split; [done|exact Hzf]. }
  destruct (sig_is sig "ZF").
  { rewrite Z.geb_leb. destruct (Z.leb_spec 8 (zlen data)); [|split; [done|exact Hzf]].
    apply wp_bind, wp_slice; [lia|lia|]. destruct (sig_is _ "pz"); [|split; [done|exact Hzf]].
    apply wp_bind, wp_at; [lia|]. intros b3 _. apply wp_bind, wp_num4; [lia|lia|lia|]. intros size Hs.
    split; [done|]. split; [|apply Hzf]. cbn. pose proof (u8_range b3). lia. }
  destruct (sig_is sig "CE").
  { rewrite Z.geb_leb. destruct (Z.leb_spec 24 (zlen data)); [|split; [done|exact Hzf]].
    apply wp_bind, wp_num4; [lia|lia|lia|]. intros ? ?. apply wp_bind, wp_num4; [lia|lia|lia|]. intros ? ?.
    apply wp_bind, wp_num4; [lia|lia|lia|]. intros ? ?. cbn [wpx ce_ok ce_block ce_offset ce_len]. split; [done|exact Hzf]. }
  destruct (sig_is sig "ST"); [done|split; [done|exact Hzf]].
Qed.

Lemma feed_wp {X : Prop} me su : zlen su < 2 ^ 63 -> info_ok (rp_info me) ->
  wpx X (feed me su) (fun '(me', next) => ce_ok next /\ info_ok (rp_info me')).
Proof.
  intros Hsu Hzf. pose proof (zlen_nonneg su).
  apply (wp_loop _ (fun s : Z * RrParser * option Continuation => 0 <= s.1.1 <= zlen su /\ ce_ok s.2 /\ info_ok (rp_info s.1.2))
    (fun s => zlen su - s.1.1)); cbn [fst snd]; [split; [lia|by split]|lia|].
  intros [[p m] next]. cbn [fst snd]. intros (Hp&Hce&Hz). split; [lia|]. unfold feed_round. apply wp_bind.
  eapply wp_mono; [apply susp_entry_wp; lia|]. intros [[[sig data] q]|]; [|by split]. intros (Hq&_&Hdl).
  apply wp_bind. eapply wp_mono; [apply feed_entry_wp; [lia|done|done]|].
  intros [[m' next']|] Hr; cbn [wpx fst snd]; [|by split]. destruct Hr. split; [split; [lia|by split]|lia].
Qed.

(** ** Written entries *)

(** A component of a link target: its flags and its text. *)
Record SlComp : Type := mkSlComp { sc_flags : Z; sc_text : list byte }.
Definition comp_ok (c : SlComp) : Prop := 0 <= sc_flags c < 256 /\ zlen (sc_text c) < 256.
Definition comp_bytes (c : SlComp) : list byte := to_u8 (sc_flags c) :: to_u8 (zlen (sc_text c)) :: sc_text c.

(** What a writer puts into System Use areas; [IOther] is any entry Rock Ridge
    readers skip. *)
Inductive Item : Type :=
| INm (more : bool) (part : list byte)
| IPx (mode : Z) (rest : list byte)
| ISl (more : bool) (comps : list SlComp)
| IZf (header : byte) (z : Zisofs)
| ICe (ce : Continuation) (g1 g2 g3 : list byte)
| IOther (sig data : list byte).

Definition known_sigs : list (list byte) := bytes_of <$> ["NM"; "PX"; "SL"; "ZF"; "CE"; "ST"]%string.
Definition flag (b : bool) : byte := if b then x01 else x00.

Definition item_sig (it : Item) : list byte :=
  match it with
  | INm _ _ => bytes_of "NM" | IPx _ _ => bytes_of "PX" | ISl _ _ => bytes_of "SL"
  | IZf _ _ => bytes_of "ZF" | ICe _ _ _ _ => bytes_of "CE" | IOther sig _ => sig
  end.
Definition item_data (it : Item) : list byte :=
  match it with
  | INm more part => flag more :: part
  | IPx mode rest => le_bytes 4 mode ++ rest
  | ISl more comps => flag more :: concat (comp_bytes <$> comps)
  | IZf h z => bytes_of "pz" ++ [h; to_u8 (block_size_log2 z)] ++ le_bytes 4 (uncompressed_size z)
  | ICe ce g1 g2 g3 =>
      le_bytes 4 (ce_block ce) ++ g1 ++ le_bytes 4 (ce_offset ce) ++ g2 ++ le_bytes 4 (ce_len ce) ++ g3
  | IOther _ data => data
  end.
Definition item_ok (it : Item) : Prop :=
  zlen (item_sig it) = 2 /\ zlen (item_data it) < 252 /\
  match it with
  | INm _ _ => True
  | IPx mode _ => 0 <= mode < 2 ^ 32
  | ISl _ comps => Forall comp_ok comps
  | IZf _ z => zf_ok (Some z)
  | ICe ce g1 g2 g3 => ce_ok (Some ce) /\ zlen g1 = 4 /\ zlen g2 = 4 /\ zlen g3 = 4
  | IOther sig _ => sig ∉ known_sigs
  end.
(** The length counts the four bytes before the data; the version is 1. *)
Definition item_bytes (it : Item) : list byte :=
  item_sig it ++ [to_u8 (4 + zlen (item_data it)); x01] ++ item_data it.
Definition area_bytes (items : list Item) : list byte := concat (item_bytes <$> items).

(** What one component does to the path so far. *)
Definition add_comp (s : list byte * bool) (c : SlComp) : list byte * bool :=
  let '(out, continues) := s in
  let out :=
    if negb (Z.land (sc_flags c) 0x08 =? 0) then
      if bool_decide (out = []) then out ++ bytes_of "/" else out
    else
      let out :=
        if negb continues && negb (bool_decide (out = [])) && negb (bool_decide (last out = Some x2f))
        then out ++ bytes_of "/" else out in
      if negb (Z.land (sc_flags c) 0x02 =? 0) then out ++ bytes_of "."
      else if negb (Z.land (sc_flags c) 0x04 =? 0) then out ++ bytes_of ".."
      else out ++ sc_text c in
  (out, negb (Z.land (sc_flags c) 0x01 =? 0)).

(** What one entry does to the parser, and the continuation it names. *)
Definition add_item (me : RrParser) (it : Item) : RrParser :=
  let info := rp_info me in
  match it with
  | INm _ part => mkParser info (rp_name me ++ part) true (rp_sl me) (rp_have_sl me) (rp_sl_continues me)
  | IPx mode _ =>
      mkParser (mkRrInfo (rr_name info) (Some mode) (rr_symlink_target info) (rr_zisofs info))
        (rp_name me) (rp_have_nm me) (rp_sl me) (rp_have_sl me) (rp_sl_continues me)
  | ISl _ comps =>
      let '(sl, k) := foldl add_comp (rp_sl me, rp_sl_continues me) comps in
      mkParser info (rp_name me) (rp_have_nm me) sl true k
  | IZf _ z =>
      mkParser (mkRrInfo (rr_name info) (rr_mode info) (rr_symlink_target info) (Some z))
        (rp_name me) (rp_have_nm me) (rp_sl me) (rp_have_sl me) (rp_sl_continues me)
  | ICe _ _ _ _ | IOther _ _ => me
  end.
Definition item_next (next : option Continuation) (it : Item) : option Continuation :=
  match it with ICe ce _ _ _ => Some ce | _ => next end.

Lemma zlen_comp_bytes c : zlen (comp_bytes c) = 2 + zlen (sc_text c).
Proof. unfold comp_bytes. rewrite !zlen_cons. lia. Qed.

Lemma sl_round_written c cs out k : comp_ok c ->
  sl_round (comp_bytes c ++ cs, out, k) = Ok (inl (cs, (add_comp (out, k) c).1, (add_comp (out, k) c).2)).
Proof.
  intros [Hf Ht]. pose proof (zlen_nonneg cs). pose proof (zlen_nonneg (sc_text c)). unfold sl_round.
  rewrite Z.geb_leb, (proj2 (Z.leb_le _ _)) by (rewrite zlen_app, zlen_comp_bytes; lia). cbn [negb].
  change (at_ (comp_bytes c ++ cs) 0) with (Ok (to_u8 (sc_flags c))).
  change (at_ (comp_bytes c ++ cs) 1) with (Ok (to_u8 (zlen (sc_text c)))). cbn [bindR].
  rewrite !u8_to_u8, !Z.mod_small by lia.
  rewrite Z.gtb_ltb, (proj2 (Z.ltb_ge _ _)) by (rewrite zlen_app, zlen_comp_bytes; lia).
  replace (slice (comp_bytes c ++ cs) 2 (2 + zlen (sc_text c))) with (Ok (sc_text c)).
  2:{ symmetry. apply (slice_app [_; _]); rewrite !zlen_cons, zlen_nil; lia. }
  rewrite (slice_app_end (comp_bytes c) cs) by (rewrite ?zlen_app, zlen_comp_bytes; lia).
  done.
Qed.

Lemma parse_sl_written cs : forall out k, Forall comp_ok cs -> zlen (concat (comp_bytes <$> cs)) < 2 ^ 63 ->
  parse_sl_components (concat (comp_bytes <$> cs)) out k = Ok (foldl add_comp (out, k) cs).
Proof.
  intros out k Hok Hlen. apply loop_eq; [by eapply wp_returns, sl_loop_wp|]. clear Hlen.
  revert out k. induction Hok as [|c cs Hc _ IH]; intros out k; cbn [fmap list_fmap concat foldl].
  { by apply LoopsTo_break. }
  eapply LoopsTo_round; [by apply sl_round_written|]. rewrite (surjective_pairing (add_comp _ _)). apply IH.
Qed.

Lemma sig_is_other sig s : sig ∉ known_sigs -> bytes_of s ∈ known_sigs -> sig_is sig s = false.
Proof. intros Hn Hs. apply bool_decide_eq_false_2. by intros ->. Qed.

(** Tags compare by evaluation. *)
Ltac sigs :=
  repeat match goal with |- context [sig_is (bytes_of ?a) ?b] =>
    let v := eval vm_compute in (sig_is (bytes_of a) b) in change (sig_is (bytes_of a) b) with v end; cbn iota.

Lemma feed_entry_written me next it : item_ok it ->
  feed_entry (item_sig it) (item_data it) me next = Ok (Some (add_item me it, item_next next it)).
Proof.
  intros (_&Hlen&Hit). pose proof (zlen_nonneg (item_data it)). destruct it as [more part|mode rest|more comps|h z|ce g1 g2 g3|sig data];
    cbn [item_sig item_data] in *.
  - change (feed_entry _ _ me next) with (
      let! flags := at_ (flag more :: part) 0 in
      if Z.land (u8 flags) 0x06 =? 0 then
        let! part' := slice (flag more :: part) 1 (zlen (flag more :: part)) in
        Ok (Some (mkParser (rp_info me) (rp_name me ++ part') true (rp_sl me) (rp_have_sl me) (rp_sl_continues me), next))
      else Ok (Some (me, next))).
    change (at_ (flag more :: part) 0) with (Ok (flag more)). cbn [bindR].
    rewrite (slice_app_end [flag more] part) by (rewrite ?zlen_cons, zlen_nil; lia). by destruct more.
  - unfold feed_entry. sigs.
    rewrite Z.geb_leb, (proj2 (Z.leb_le _ _)) by (rewrite zlen_app, zlen_le_bytes; pose proof (zlen_nonneg rest); lia).
    rewrite slice_front by (by rewrite zlen_le_bytes). cbn [bindR].
    rewrite le_num_le_bytes, Z.mod_small by done. done.
  - unfold feed_entry. sigs. cbn [negb].
    rewrite bool_decide_eq_false_2 by done. cbn [negb].
    rewrite zlen_cons in *. set (l := concat (comp_bytes <$> comps)) in *. pose proof (zlen_nonneg l).
    replace (slice (flag more :: l) 1 (1 + zlen l)) with (Ok l)
      by (symmetry; by apply (slice_app_end [flag more])).
    cbn [bindR]. unfold l. rewrite parse_sl_written by first [done|change (zlen l < 2 ^ 63); lia]. cbn [bindR add_item item_next]. by destruct (foldl _ _ _).
  - destruct Hit as [Hu Hb]. unfold feed_entry. sigs.
    set (data := bytes_of "pz" ++ _). change (zlen data >=? 8) with true. cbn iota.
    change (slice data 0 2) with (Ok (bytes_of "pz")). cbn [bindR]. sigs.
    change (at_ data 3) with (Ok (to_u8 (block_size_log2 z))). cbn [bindR].
    replace (slice data 4 8) with (Ok (le_bytes 4 (uncompressed_size z))).
    2:{ symmetry. by apply (slice_app_end (bytes_of "pz" ++ [h; to_u8 (block_size_log2 z)])). }
    cbn [bindR]. rewrite le_num_le_bytes, u8_to_u8, !Z.mod_small by done. by destruct z.
  - destruct Hit as ((Hb&Ho&Hl)&Z1&Z2&Z3). unfold feed_entry. sigs.
    rewrite Z.geb_leb, (proj2 (Z.leb_le _ _)) by (rewrite !zlen_app, !zlen_le_bytes; lia).
    rewrite slice_front by (by rewrite zlen_le_bytes). cbn [bindR].
    rewrite (app_assoc _ g1). rewrite (slice_app (le_bytes 4 (ce_block ce) ++ g1) (le_bytes 4 (ce_offset ce)))
      by (rewrite !zlen_app, ?zlen_le_bytes; lia). cbn [bindR].
    rewrite (app_assoc _ (le_bytes 4 (ce_offset ce))), (app_assoc _ g2).
    rewrite slice_app by (rewrite !zlen_app, ?zlen_le_bytes; lia). cbn [bindR].
    rewrite !le_num_le_bytes, !Z.mod_small by done. by destruct ce.
  - unfold feed_entry. rewrite !sig_is_other; [done|done|..]; unfold known_sigs; set_solver.
Qed.

Lemma zlen_item_bytes it : item_ok it -> zlen (item_bytes it) = 4 + zlen (item_data it).
Proof. intros (Hs&_). unfold item_bytes. rewrite !zlen_app, Hs, !zlen_cons, zlen_nil. lia. Qed.

Lemma susp_entry_written p it r : item_ok it ->
  susp_entry (p ++ item_bytes it ++ r) (zlen p) = Ok (Some (item_sig it, item_data it, zlen (p ++ item_bytes it))).
Proof.
  intros Hok. pose proof (zlen_item_bytes it Hok) as Hz. destruct Hok as (Hs&Hd&_).
  pose proof (zlen_nonneg (item_data it)). pose proof (zlen_nonneg p). pose proof (zlen_nonneg r). unfold susp_entry.
  rewrite (proj2 (Z.leb_le _ _)) by (rewrite !zlen_app, Hz; lia). cbn [negb].
  assert (Hat : at_ (p ++ item_bytes it ++ r) (zlen p + 2) = Ok (to_u8 (4 + zlen (item_data it)))).
  { apply at_Ok. rewrite get_app_r by lia. rewrite get_app_l by lia. unfold item_bytes.
    replace 2 with (zlen (item_sig it) + 0) by lia. by rewrite get_app_r by lia. }
  rewrite Hat. cbn [bindR]. rewrite u8_to_u8, Z.mod_small by lia.
  rewrite (proj2 (Z.ltb_ge _ _)) by lia. rewrite Z.gtb_ltb, (proj2 (Z.ltb_ge _ _)) by (rewrite !zlen_app, Hz; lia). cbn [orb].
  unfold item_bytes at 1 2. rewrite <- !app_assoc. rewrite slice_app by lia. cbn [bindR].
  rewrite (app_assoc (item_sig it)), (app_assoc p). rewrite slice_app by (rewrite !zlen_app, !zlen_cons, zlen_nil; lia).
  cbn [bindR]. by rewrite zlen_app, Hz.
Qed.

(** Zeros may follow the entries of an area. *)
Definition area_end (tail : list byte) : Prop := exists n, tail = zeros n.

Lemma susp_entry_end p tail : area_end tail -> susp_entry (p ++ tail) (zlen p) = Ok None.
Proof.
  intros [n ->]. pose proof (zlen_nonneg p). unfold susp_entry.
  destruct (Z.leb_spec (zlen p + 4) (zlen (p ++ zeros n))) as [Hle|]; cbn [negb]; [|done].
  rewrite zlen_app in Hle. assert (Hat : at_ (p ++ zeros n) (zlen p + 2) = Ok x00).
  { apply at_Ok. rewrite get_app_r by lia. unfold zeros, zlen in *. rewrite length_replicate in Hle.
    apply get_Some. split; [lia|]. apply lookup_replicate_2. lia. }
  by rewrite Hat.
Qed.

Lemma feed_LoopsTo items : forall p tail me next, Forall item_ok items -> area_end tail ->
  LoopsTo (feed_round (p ++ area_bytes items ++ tail)) (zlen p, me, next)
    (Ok (foldl add_item me items, foldl item_next next items)).
Proof.
  induction items as [|it items IH]; intros p tail me next Hok Ht; cbn [foldl].
  - apply LoopsTo_break. unfold feed_round, area_bytes. cbn [fmap list_fmap concat app].
    by rewrite susp_entry_end.
  - apply Forall_cons in Hok as [Hit Hok]. unfold area_bytes. cbn [fmap list_fmap concat].
    fold (area_bytes items). rewrite <- app_assoc. eapply LoopsTo_round.
    { unfold feed_round. rewrite susp_entry_written by done. cbn [bindR]. rewrite feed_entry_written by done.
      cbn [bindR]. reflexivity. }
    rewrite app_assoc. by apply IH.
Qed.

(** Feeding a written area: every entry has had its effect, and the last [CE] is the
    continuation. *)
Lemma feed_written items tail me : Forall item_ok items -> area_end tail -> info_ok (rp_info me) ->
  zlen (area_bytes items ++ tail) < 2 ^ 63 ->
  feed me (area_bytes items ++ tail) = Ok (foldl add_item me items, foldl item_next None items).
Proof.
  intros Hok Ht Hz Hlen. apply loop_eq; [by eapply wp_returns, (feed_wp (X := False) me)|].
  exact (feed_LoopsTo items [] tail me None Hok Ht).
Qed.

(** ** What written entries say *)

(** The SP entry: the bytes 0xBE 0xEF and the skip. *)
Definition sp_skip (it : Item) : option Z :=
  match it with
  | IOther sig (b1 :: b2 :: skip :: _) => if sig_is sig "SP" && (u8 b1 =? 0xBE) && (u8 b2 =? 0xEF) then Some (u8 skip) else None
  | _ => None
  end.
Definition sp_of (items : list Item) : option Z := head (omap sp_skip items).

Lemma at_item_data p it r k b : item_ok it -> item_data it !! k = Some b ->
  at_ (p ++ item_bytes it ++ r) (zlen p + 4 + Z.of_nat k) = Ok b.
Proof.
  intros (Hs&_) Hk. apply at_Ok. rewrite <- Z.add_assoc, get_app_r by lia. unfold item_bytes.
  rewrite app_assoc, <- app_assoc.
  replace (4 + Z.of_nat k) with (zlen (item_sig it ++ [to_u8 (4 + zlen (item_data it)); x01]) + Z.of_nat k)
    by (rewrite zlen_app, !zlen_cons, zlen_nil; lia).
  rewrite get_app_r by lia. apply lookup_lt_Some in Hk as Hlt. rewrite get_app_l by (unfold zlen; lia).
  apply get_Some. split; [lia|]. by rewrite Nat2Z.id.
Qed.

Lemma detect_round_written p it r : item_ok it ->
  detect_round (p ++ item_bytes it ++ r) (zlen p)
  = Ok (match sp_skip it with Some skip => inr (Some skip) | None => inl (zlen (p ++ item_bytes it)) end).
Proof.
  intros Hok. unfold detect_round. rewrite susp_entry_written by done. cbn [bindR].
  rewrite zlen_app, zlen_item_bytes by done. replace (zlen p + _ - zlen p) with (4 + zlen (item_data it)) by lia.
  destruct (sig_is (item_sig it) "SP") eqn:Esig; cbn [andb].
  2:{ replace (sp_skip it) with (@None Z); [done|]. destruct it as [| | | | |sig [|b1 [|b2 [|skip data]]]]; try done.
      cbn [item_sig] in Esig. cbn [sp_skip]. by rewrite Esig. }
  destruct it as [| | | | |sig data]; try done. cbn [item_sig] in Esig. cbn [item_data]. rewrite Z.geb_leb.
  destruct (Z.leb_spec 7 (4 + zlen data)) as [Hl|Hl].
  2:{ cbn [bindR]. destruct data as [|b1 [|b2 [|skip data]]]; try done. rewrite !zlen_cons in Hl. pose proof (zlen_nonneg data). lia. }
  destruct data as [|b1 [|b2 [|skip data]]]; try done. cbn [sp_skip]. rewrite Esig. cbn [andb].
  pose proof (at_item_data p _ r 0 b1 Hok eq_refl) as E0. pose proof (at_item_data p _ r 1 b2 Hok eq_refl) as E1.
  pose proof (at_item_data p _ r 2 skip Hok eq_refl) as E2. rewrite Z.add_0_r in E0.
  replace (zlen p + 4 + Z.of_nat 1) with (zlen p + 5) in E1 by lia. replace (zlen p + 4 + Z.of_nat 2) with (zlen p + 6) in E2 by lia.
  rewrite E0. cbn [bindR]. destruct (u8 b1 =? 190); cbn [negb andb bindR]; [|done].
  rewrite E1. cbn [bindR]. destruct (u8 b2 =? 239); cbn [negb andb bindR]; [|done]. by rewrite E2.
Qed.

(** Detection finds the first SP entry. *)
Lemma detect_sp_written items tail : Forall item_ok items -> area_end tail -> zlen (area_bytes items ++ tail) < 2 ^ 63 ->
  detect_sp (area_bytes items ++ tail) = Ok (sp_of items).
Proof.
  intros Hok Ht Hlen. apply loop_eq; [by eapply wp_returns, (detect_sp_wp (X := False))|].
  enough (Hl : forall p, LoopsTo (detect_round (p ++ area_bytes items ++ tail)) (zlen p) (Ok (sp_of items))) by exact (Hl []).
  clear Hlen. induction items as [|it items IH]; intros p.
  - apply LoopsTo_break. unfold detect_round, area_bytes. cbn [fmap list_fmap concat app]. by rewrite susp_entry_end.
  - apply Forall_cons in Hok as [Hit Hok]. unfold area_bytes. cbn [fmap list_fmap concat].
    fold (area_bytes items). rewrite <- app_assoc. pose proof (detect_round_written p it (area_bytes items ++ tail) Hit) as Hr.
    unfold sp_of. cbn [omap list_omap]. destruct (sp_skip it) as [skip|]; [by apply LoopsTo_break|].
    eapply LoopsTo_round; [exact Hr|]. rewrite app_assoc. by apply IH.
Qed.

Definition has_nm (items : list Item) : bool := existsb (fun it => match it with INm _ _ => true | _ => false end) items.
Definition has_sl (items : list Item) : bool := existsb (fun it => match it with ISl _ _ => true | _ => false end) items.
Definition nm_text (items : list Item) : list byte :=
  items ≫= fun it => match it with INm _ part => part | _ => [] end.
Definition sl_comps (items : list Item) : list SlComp :=
  items ≫= fun it => match it with ISl _ comps => comps | _ => [] end.
Definition last_zf (items : list Item) (z : option Zisofs) : option Zisofs :=
  foldl (fun z it => match it with IZf _ z' => Some z' | _ => z end) z items.
Definition last_px (items : list Item) (m : option Z) : option Z :=
  foldl (fun m it => match it with IPx m' _ => Some m' | _ => m end) m items.

Lemma add_items_eq items : forall me, foldl add_item me items =
  let s := foldl add_comp (rp_sl me, rp_sl_continues me) (sl_comps items) in
  mkParser (mkRrInfo (rr_name (rp_info me)) (last_px items (rr_mode (rp_info me)))
              (rr_symlink_target (rp_info me)) (last_zf items (rr_zisofs (rp_info me))))
    (rp_name me ++ nm_text items) (rp_have_nm me || has_nm items) s.1 (rp_have_sl me || has_sl items) s.2.
Proof.
  induction items as [|it items IH]; intros me.
  { cbn. rewrite app_nil_r, !orb_false_r. by destruct me as [[]]. }
  cbn [foldl]. rewrite IH. unfold nm_text, sl_comps. destruct it; cbn; rewrite ?orb_true_r, ?foldl_app, <- ?app_assoc; try done.
  by destruct (foldl add_comp _ _).
Qed.

(** A link target as a writer takes it apart: [.], [..] and names, a name in one
    component or several. *)
Inductive PathPart : Type := Cur | Par | Txt (frags : list (list byte)).
Definition part_text (p : PathPart) : list byte :=
  match p with Cur => bytes_of "." | Par => bytes_of ".." | Txt frags => concat frags end.
Fixpoint frag_comps (frags : list (list byte)) : list SlComp :=
  match frags with
  | [] => []
  | [f] => [mkSlComp 0 f]
  | f :: fs => mkSlComp 1 f :: frag_comps fs
  end.
Definition part_comps (p : PathPart) : list SlComp :=
  match p with Cur => [mkSlComp 2 []] | Par => [mkSlComp 4 []] | Txt frags => frag_comps frags end.
Definition part_ok (p : PathPart) : Prop :=
  match p with Txt frags => concat frags <> [] /\ x2f ∉ concat frags | _ => True end.
Definition path_comps (absolute : bool) (parts : list PathPart) : list SlComp :=
  (if absolute then [mkSlComp 8 []] else []) ++ (parts ≫= part_comps).
(** The path itself. *)
Definition join_slash (l : list (list byte)) : list byte :=
  match l with [] => [] | w :: ws => w ++ concat (cons x2f <$> ws) end.
Definition posix_path (absolute : bool) (parts : list PathPart) : list byte :=
  (if absolute then [x2f] else []) ++ join_slash (part_text <$> parts).

(** The separator a new part needs behind [out]. *)
Definition sep (out : list byte) : list byte :=
  if negb (bool_decide (out = [])) && negb (bool_decide (last out = Some x2f)) then [x2f] else [].

Lemma add_frags fs : forall out, fs <> [] ->
  foldl add_comp (out, true) (frag_comps fs) = (out ++ concat fs, false) /\
  foldl add_comp (out, false) (frag_comps fs) = (out ++ sep out ++ concat fs, false).
Proof.
  assert (Hone : forall out k n f, n = 0 \/ n = 1 -> add_comp (out, k) (mkSlComp n f) =
    ((if k then out else out ++ sep out) ++ f, negb (n =? 0))).
  { intros out k n f Hn. unfold add_comp, sep. cbn [sc_flags sc_text].
    destruct Hn as [-> | ->], k; cbn [negb andb]; try done; by destruct (_ && _); rewrite ?app_nil_r. }
  induction fs as [|f [|g fs] IH]; intros out Hne; [done|..].
  - cbn [frag_comps foldl concat]. rewrite !Hone by auto. rewrite app_nil_r, <- !app_assoc. done.
  - change (frag_comps (f :: g :: fs)) with (mkSlComp 1 f :: frag_comps (g :: fs)). cbn [foldl].
    rewrite !Hone by auto. destruct (IH (out ++ f) ltac:(done)) as [IH1 _].
    destruct (IH ((out ++ sep out) ++ f) ltac:(done)) as [IH2 _]. change (negb (1 =? 0)) with true.
    rewrite IH1, IH2. cbn [concat]. by rewrite <- !app_assoc.
Qed.

Lemma add_part p out : part_ok p ->
  foldl add_comp (out, false) (part_comps p) = (out ++ sep out ++ part_text p, false).
Proof.
  destruct p as [| |fs]; cbn [part_comps part_text].
  1, 2: intros _; unfold sep; cbn; destruct (_ && _); by rewrite <- ?app_assoc.
  intros [Hne _]. apply add_frags. by intros ->.
Qed.

Lemma part_text_end p out : part_ok p -> sep (out ++ part_text p) = [x2f].
Proof.
  intros Hp. unfold sep. assert (Hl : exists b, last (part_text p) = Some b /\ b <> x2f).
  { destruct p as [| |fs]; cbn [part_text]; [by exists x2e|by exists x2e|]. destruct Hp as [Hne Hs].
    destruct (last (concat fs)) as [b|] eqn:E; [|by apply last_None in E].
    exists b. split; [done|]. intros ->. apply Hs. by apply last_Some_elem_of. }
  destruct Hl as (b&Hb&Hne). rewrite last_app, Hb. rewrite !bool_decide_eq_false_2; [done| |].
  - intros E. by injection E.
  - intros [_ E]%app_eq_nil. by rewrite E in Hb.
Qed.

Lemma add_parts parts : forall out, Forall part_ok parts -> sep out = [x2f] ->
  foldl add_comp (out, false) (parts ≫= part_comps) = (out ++ concat (cons x2f <$> (part_text <$> parts)), false).
Proof.
  induction parts as [|p parts IH]; intros out Hok Hsep; [by rewrite app_nil_r|].
  apply Forall_cons in Hok as [Hp Hok]. cbn [mbind list_bind fmap list_fmap concat].
  rewrite foldl_app, add_part, Hsep, app_assoc, IH by (done || by apply part_text_end). by rewrite <- !app_assoc.
Qed.

(** The components of a path give the path. *)
Lemma add_path absolute parts : Forall part_ok parts ->
  foldl add_comp ([], false) (path_comps absolute parts) = (posix_path absolute parts, false).
Proof.
  intros Hok. unfold path_comps, posix_path. rewrite foldl_app.
  assert (Hgo : forall out, sep out = [] -> foldl add_comp (out, false) (parts ≫= part_comps) =
    (out ++ join_slash (part_text <$> parts), false)).
  { intros out Hs. destruct parts as [|p parts]; [by rewrite app_nil_r|]. apply Forall_cons in Hok as [Hp Hok].
    cbn [mbind list_bind fmap list_fmap join_slash]. rewrite foldl_app, add_part, Hs by done. cbn [app].
    rewrite add_parts by (done || by apply part_text_end). by rewrite <- app_assoc. }
  destruct absolute; cbn [foldl]; by apply Hgo.
Qed.

Lemma items_next_ok items next : Forall item_ok items -> ce_ok next -> ce_ok (foldl item_next next items).
Proof.
  intros Hok. revert next. induction Hok as [|it items Hit _ IH]; intros next Hn; [done|]. apply IH.
  destruct Hit as (_&_&Hit). destruct it; try done. apply Hit.
Qed.

Lemma items_info_ok items me : Forall item_ok items -> info_ok (rp_info me) ->
  info_ok (rp_info (foldl add_item me items)).
Proof.
  intros Hok. revert me. induction Hok as [|it items Hit _ IH]; intros me Hz; [done|]. apply IH.
  destruct Hit as (_&_&Hit). destruct it; try done.
  - cbn. by destruct (foldl _ _ _).
  - split; [exact Hit|apply Hz].
Qed.

(** What the entries of a record and its continuation areas together say. *)
Definition says (items : list Item) (info : RrInfo) : Prop :=
  rr_mode info = last_px items None /\ rr_zisofs info = last_zf items None /\
  (has_nm items = false -> rr_name info = None) /\
  (has_nm items = true -> utf8_valid (nm_text items) = true -> nm_text items <> [] ->
     rr_name info = Some (nm_text items)) /\
  (has_sl items = false -> rr_symlink_target info = None) /\
  (forall absolute parts, has_sl items = true -> Forall part_ok parts ->
     sl_comps items = path_comps absolute parts -> rr_symlink_target info = Some (posix_path absolute parts)).

Lemma finish_says items : says items (finish (foldl add_item parser_default items)).
Proof.
  rewrite add_items_eq. unfold says, finish, parser_default. cbn zeta.
  cbn [rp_info rp_name rp_have_nm rp_sl rp_have_sl rp_sl_continues rr_name rr_mode rr_symlink_target rr_zisofs app orb].
  split_and!; try done.
  - by intros ->.
  - intros -> -> Hne. by rewrite bool_decide_eq_false_2.
  - by intros ->.
  - intros absolute parts -> Hok ->. by rewrite add_path.
Qed.
