(* ===== verification/ElTorito.v ===== *)
(** * El Torito boot catalogs ([crates/lamfold-iso/src/el_torito.rs])

    The boot catalog of an optical disc and the search for its first UEFI image,
    and the size of a FAT image from its boot sector.  Everything is in memory. *)
From S2P Require Import Prelude Text.
Open Scope Z_scope.

Definition PLATFORM_UEFI : Z := 0xEF.
Definition BOOTABLE : Z := 0x88.

Record UefiImage : Type := mkUefi { ui_lba : Z; ui_sectors : Z }.

(** [None] for an entry of fewer than 12 bytes or one that is not bootable. *)
Definition parse_entry (e : list byte) : Res (option UefiImage) :=
  if zlen e <? 12 then Ok None
  else
    let! boot := at_ e 0 in
    if negb (u8 boot =? BOOTABLE) then Ok None
    else
      let! sectors := slice e 6 8 in
      let! lba := slice e 8 12 in
      Ok (Some (mkUefi (le_num lba) (le_num sectors))).

(** [for _ in 0..n_entries] over the entries of a UEFI section from [off]: the image
    found, or where the walk stands after them. *)
Fixpoint section_entries (n : nat) (cat : list byte) (off : Z) : Res (UefiImage + Z) :=
  match n with
  | O => Ok (inr off)
  | S n' =>
      if off + 32 >? zlen cat then Ok (inr off)
      else
        let! e := slice cat off (off + 32) in
        let! img := parse_entry e in
        match img with
        | Some img => Ok (inl img)
        | None => section_entries n' cat (off + 32)
        end
  end.

Definition saturating_add (a b : Z) : Z := Z.min (2 ^ 64 - 1) (a + b).
Definition saturating_mul (a b : Z) : Z := Z.min (2 ^ 64 - 1) (a * b).

(** One section header: the body of [while off + 32 <= cat.len()]. *)
Definition section_round (cat : list byte) (off : Z) : Res (Z + option UefiImage) :=
  if negb (off + 32 <=? zlen cat) then Ok (inr None)
  else
    let! hdr := slice cat off (off + 32) in
    let! indicator := at_ hdr 0 in
    let indicator := u8 indicator in
    if negb (indicator =? 0x90) && negb (indicator =? 0x91) then Ok (inr None)
    else
      let! platform := at_ hdr 1 in
      let! n := slice hdr 2 4 in
      let n_entries := le_num n in
      let off := off + 32 in
      let! found :=
        if u8 platform =? PLATFORM_UEFI then section_entries (Z.to_nat n_entries) cat off
        else Ok (inr (saturating_add off (saturating_mul n_entries 32))) in
      match found with
      | inl img => Ok (inr (Some img))
      | inr off => if indicator =? 0x91 then Ok (inr None) else Ok (inl off)
      end.

Definition parse_catalog (cat : list byte) : Res (option UefiImage) :=
  if zlen cat <? 64 then Ok None
  else
    let! id := at_ cat 0 in
    let! k0 := at_ cat 30 in
    let! k1 := at_ cat 31 in
    if negb (u8 id =? 1) || negb (u8 k0 =? 0x55) || negb (u8 k1 =? 0xAA) then Ok None
    else
      let! platform := at_ cat 1 in
      if u8 platform =? PLATFORM_UEFI then
        let! e := slice cat 32 64 in
        parse_entry e
      else loop (section_round cat) 64.

Definition fat_image_sectors (boot : list byte) : option Z :=
  sig ← get_range boot 510 512;
  if negb (bool_decide (sig = [x55; xaa])) then None
  else
    b11 ← get boot 11;
    b12 ← get boot 12;
    let bytes_per_sector := le_num [b11; b12] in
    if negb (existsb (Z.eqb bytes_per_sector) [512; 1024; 2048; 4096]) then None
    else
      b19 ← get boot 19;
      b20 ← get boot 20;
      let total16 := le_num [b19; b20] in
      t ← get_range boot 32 36;
      let total32 := le_num t in
      let total := if negb (total16 =? 0) then total16 else total32 in
      if total =? 0 then None else checked_mul 32 total (bytes_per_sector / 512).

(** ** Lemmas *)

Definition image_ok (i : UefiImage) : Prop := 0 <= ui_lba i < 2 ^ 32 /\ 0 <= ui_sectors i < 2 ^ 32.

Lemma parse_entry_wp {X : Prop} e : wpx X (parse_entry e) (fun r => match r with Some i => image_ok i | None => True end).
Proof.
  unfold parse_entry. destruct (Z.ltb_spec (zlen e) 12); [done|].
  apply wp_bind, wp_at; [lia|]. intros b _. destruct (negb _); [done|].
  apply wp_bind, wp_slice; [lia|lia|]. apply wp_bind, wp_slice; [lia|lia|]. cbn [wpx].
  pose proof (le_num_range (sub e 6 (8 - 6))) as Hs. pose proof (le_num_range (sub e 8 (12 - 8))) as Hl.
  rewrite zlen_sub in Hs, Hl by lia. change (256 ^ (8 - 6)) with (2 ^ 16) in Hs.
  change (256 ^ (12 - 8)) with (2 ^ 32) in Hl. split; cbn; lia.
Qed.

Lemma section_entries_wp {X : Prop} n cat : forall off, 0 <= off ->
  wpx X (section_entries n cat off) (fun r => match r with inl i => image_ok i | inr off' => off <= off' end).
Proof.
  induction n as [|n IH]; intros off Ho; cbn [section_entries]; [cbn; lia|].
  rewrite Z.gtb_ltb. destruct (Z.ltb_spec (zlen cat) (off + 32)); [cbn; lia|].
  apply wp_bind, wp_slice; [lia|lia|]. apply wp_bind. eapply wp_mono; [apply parse_entry_wp|].
  intros [i|]; [done|]. intros _. eapply wp_mono; [apply IH; lia|]. intros [i|off']; [done|lia].
Qed.

Lemma parse_catalog_wp {X : Prop} cat : zlen cat < 2 ^ 63 ->
  wpx X (parse_catalog cat) (fun r => match r with Some i => image_ok i | None => True end).
Proof.
  intros Hc. unfold parse_catalog. destruct (Z.ltb_spec (zlen cat) 64); [done|].
  apply wp_bind, wp_at; [lia|]. intros id _. apply wp_bind, wp_at; [lia|]. intros k0 _.
  apply wp_bind, wp_at; [lia|]. intros k1 _. destruct (_ || _); [done|].
  apply wp_bind, wp_at; [lia|]. intros platform _. destruct (_ =? _).
  { apply wp_bind, wp_slice; [lia|lia|]. apply parse_entry_wp. }
  apply (wp_loop _ (fun off => 0 <= off) (fun off => Z.max 0 (zlen cat - off))); [done|lia|].
  intros off Ho. split; [lia|]. unfold section_round.
  destruct (Z.leb_spec (off + 32) (zlen cat)); cbn [negb]; [|done].
  apply wp_bind, wp_slice; [lia|lia|]. set (hdr := sub cat off _).
  assert (Hh : zlen hdr = 32) by (unfold hdr; rewrite zlen_sub; lia).
  apply wp_bind, wp_at; [lia|]. intros ind _. destruct (_ && _); [done|].
  apply wp_bind, wp_at; [lia|]. intros pl _. apply wp_bind, wp_slice; [lia|lia|].
  pose proof (le_num_range (sub hdr 2 (4 - 2))). set (n := le_num _) in *.
  apply wp_bind, (wp_mono _ (fun r => match r with inl i => image_ok i | inr off' => off + 32 <= off' end)).
  - destruct (_ =? _); [apply section_entries_wp; lia|]. cbn [wpx]. unfold saturating_add, saturating_mul. lia.
  - intros [i|off']; [done|]. intros Hoff. destruct (_ =? _); [done|]. cbn [wpx]. lia.
Qed.

(** ** Written catalogs *)

(** An entry: its indicator, what lies between the fields, the image it names. *)
Record Entry : Type := mkEntry { en_boot : byte; en_mid : list byte; en_sectors : Z; en_lba : Z; en_tail : list byte }.
Definition entry_ok (e : Entry) : Prop :=
  zlen (en_mid e) = 5 /\ zlen (en_tail e) = 20 /\ 0 <= en_sectors e < 2 ^ 16 /\ 0 <= en_lba e < 2 ^ 32.
Definition entry_bytes (e : Entry) : list byte :=
  en_boot e :: en_mid e ++ le_bytes 2 (en_sectors e) ++ le_bytes 4 (en_lba e) ++ en_tail e.
(** The image of an entry, if it is bootable. *)
Definition entry_image (e : Entry) : option UefiImage :=
  if u8 (en_boot e) =? BOOTABLE then Some (mkUefi (en_lba e) (en_sectors e)) else None.

Record SectionOf : Type := mkSection { sec_platform : byte; sec_id : list byte; sec_entries : list Entry }.
Definition section_ok (s : SectionOf) : Prop :=
  zlen (sec_id s) = 28 /\ zlen (sec_entries s) < 2 ^ 16 /\ Forall entry_ok (sec_entries s).
Definition section_bytes (indicator : byte) (s : SectionOf) : list byte :=
  indicator :: sec_platform s :: le_bytes 2 (zlen (sec_entries s)) ++ sec_id s ++ concat (entry_bytes <$> sec_entries s).
(** Every header but the last says that more follow. *)
Fixpoint sections_bytes (ss : list SectionOf) : list byte :=
  match ss with
  | [] => []
  | [s] => section_bytes x91 s
  | s :: ss => section_bytes x90 s ++ sections_bytes ss
  end.
Definition is_uefi (s : SectionOf) : bool := u8 (sec_platform s) =? PLATFORM_UEFI.

Record Catalog : Type := mkCatalog { ct_platform : byte; ct_id : list byte; ct_default : Entry; ct_sections : list SectionOf }.
Definition catalog_ok (c : Catalog) : Prop :=
  zlen (ct_id c) = 28 /\ entry_ok (ct_default c) /\ Forall section_ok (ct_sections c).
Definition catalog_bytes (c : Catalog) : list byte :=
  x01 :: ct_platform c :: ct_id c ++ [x55; xaa] ++ entry_bytes (ct_default c) ++ sections_bytes (ct_sections c).
(** All the entries of a catalog in their order, each with the platform it is for: the
    default entry with that of the validation entry, the others with their section's. *)
Definition catalog_entries (c : Catalog) : list (byte * Entry) :=
  (ct_platform c, ct_default c) :: (ct_sections c ≫= fun s => (fun e => (sec_platform s, e)) <$> sec_entries s).
(** The images that are there for UEFI, in their order. *)
Definition uefi_images (c : Catalog) : list UefiImage :=
  omap (fun pe => if u8 pe.1 =? 0xEF then entry_image pe.2 else None) (catalog_entries c).
(** A UEFI catalog whose default entry is not bootable. *)
Definition shadowed (c : Catalog) : bool :=
  (u8 (ct_platform c) =? 0xEF) && negb (u8 (en_boot (ct_default c)) =? 0x88).

Lemma zlen_et_entry e : entry_ok e -> zlen (entry_bytes e) = 32.
Proof. intros (?&?&_). unfold entry_bytes. rewrite zlen_cons, !zlen_app, !zlen_le_bytes. lia. Qed.

Lemma parse_entry_written e : entry_ok e -> parse_entry (entry_bytes e) = Ok (entry_image e).
Proof.
  intros Hok. pose proof (zlen_et_entry e Hok) as Hz. destruct Hok as (Hm&Ht&Hs&Hl).
  unfold parse_entry. rewrite Hz. cbn [Z.ltb Z.compare Pos.compare Pos.compare_cont].
  assert (H0 : at_ (entry_bytes e) 0 = Ok (en_boot e)) by done. rewrite H0. cbn [bindR]. unfold entry_image.
  destruct (_ =? _); cbn [negb]; [|done].
  assert (H6 : slice (entry_bytes e) 6 8 = Ok (le_bytes 2 (en_sectors e))).
  { unfold slice. replace (entry_bytes e) with ((en_boot e :: en_mid e) ++ le_bytes 2 (en_sectors e) ++
      le_bytes 4 (en_lba e) ++ en_tail e) by done. rewrite get_range_app; [done|..];
      rewrite zlen_cons, ?zlen_le_bytes; lia. }
  assert (H8 : slice (entry_bytes e) 8 12 = Ok (le_bytes 4 (en_lba e))).
  { unfold slice. replace (entry_bytes e) with (((en_boot e :: en_mid e) ++ le_bytes 2 (en_sectors e)) ++
      le_bytes 4 (en_lba e) ++ en_tail e) by by rewrite <- app_assoc. rewrite get_range_app; [done|..];
      rewrite zlen_app, zlen_cons, ?zlen_le_bytes; lia. }
  rewrite H6. cbn [bindR]. rewrite H8. cbn [bindR]. rewrite !le_num_le_bytes, !Z.mod_small; done.
Qed.

Lemma section_entries_written es : forall p r, Forall entry_ok es ->
  section_entries (length es) (p ++ concat (entry_bytes <$> es) ++ r) (zlen p) =
  Ok (match head (omap entry_image es) with
      | Some i => inl i | None => inr (zlen (p ++ concat (entry_bytes <$> es))) end).
Proof.
  induction es as [|e es IH]; intros p r Hok; cbn [length section_entries fmap list_fmap concat].
  { by rewrite app_nil_r. }
  apply Forall_cons in Hok as [He Hes]. pose proof (zlen_et_entry e He) as Hz.
  rewrite <- app_assoc. rewrite Z.gtb_ltb, (proj2 (Z.ltb_ge _ _)).
  2:{ rewrite !zlen_app. pose proof (zlen_nonneg (concat (entry_bytes <$> es))). pose proof (zlen_nonneg r). lia. }
  rewrite slice_app by lia. cbn [bindR]. rewrite parse_entry_written by done. cbn [bindR omap list_omap].
  destruct (entry_image e); [done|]. rewrite app_assoc. replace (zlen p + 32) with (zlen (p ++ entry_bytes e))
    by (rewrite zlen_app; lia).
  rewrite IH, <- app_assoc by done. done.
Qed.

Lemma zlen_entries es : Forall entry_ok es -> zlen (concat (entry_bytes <$> es)) = zlen es * 32.
Proof.
  induction 1 as [|e es He _ IH]; [done|]. cbn [fmap list_fmap concat].
  rewrite zlen_app, IH, zlen_cons, (zlen_et_entry e He). lia.
Qed.

(** One written section: the first image of a UEFI one, else on to what follows. *)
Lemma section_round_written ind p s r : section_ok s -> zlen (p ++ section_bytes ind s ++ r) < 2 ^ 63 ->
  (ind = x90 \/ ind = x91) ->
  section_round (p ++ section_bytes ind s ++ r) (zlen p) =
  Ok (match if is_uefi s then head (omap entry_image (sec_entries s)) else None with
      | Some i => inr (Some i)
      | None => if u8 ind =? 0x91 then inr None else inl (zlen (p ++ section_bytes ind s))
      end).
Proof.
  intros (Hid&Hn&Hes) Hlen Hind. pose proof (zlen_entries _ Hes) as Hze. pose proof (zlen_nonneg (sec_entries s)) as Hn0.
  set (hdr := ind :: sec_platform s :: le_bytes 2 (zlen (sec_entries s)) ++ sec_id s).
  set (body := concat (entry_bytes <$> sec_entries s)) in *.
  assert (Hsec : section_bytes ind s = hdr ++ body) by (unfold hdr; by rewrite !app_comm_cons, <- app_assoc).
  assert (Hh : zlen hdr = 32) by (unfold hdr; rewrite !zlen_cons, zlen_app, zlen_le_bytes; lia).
  rewrite Hsec, <- app_assoc, !zlen_app in *. pose proof (zlen_nonneg r). pose proof (zlen_nonneg p).
  unfold section_round. rewrite (proj2 (Z.leb_le _ _)) by (rewrite !zlen_app; lia). cbn [negb].
  rewrite slice_app by lia. cbn [bindR]. assert (Ha0 : at_ hdr 0 = Ok ind) by done. rewrite Ha0. cbn [bindR].
  replace (negb (u8 ind =? 0x90) && negb (u8 ind =? 0x91)) with false by (by destruct Hind as [-> | ->]).
  assert (Ha1 : at_ hdr 1 = Ok (sec_platform s)) by done. rewrite Ha1. cbn [bindR].
  assert (Ha2 : slice hdr 2 4 = Ok (le_bytes 2 (zlen (sec_entries s)))).
  { apply (slice_app [ind; sec_platform s]); [done|]. by rewrite zlen_le_bytes. }
  rewrite Ha2. cbn [bindR]. rewrite le_num_le_bytes. change (256 ^ Z.of_nat 2) with (2 ^ 16).
  rewrite Z.mod_small by lia. fold (is_uefi s).
  assert (Hoff : zlen p + 32 = zlen (p ++ hdr)) by (rewrite zlen_app; lia).
  destruct (is_uefi s).
  - rewrite Hoff, (app_assoc p hdr). unfold zlen at 1. rewrite Nat2Z.id. unfold body.
    rewrite section_entries_written by done. cbn [bindR]. destruct (head _); [done|].
    rewrite !zlen_app. rewrite Z.add_assoc. by destruct (_ =? _).
  - cbn [bindR]. unfold saturating_add, saturating_mul.
    replace (Z.min _ (zlen (sec_entries s) * 32)) with (zlen (sec_entries s) * 32) by lia.
    replace (Z.min _ _) with (zlen p + (zlen hdr + zlen body)) by lia. by destruct (_ =? _).
Qed.

Lemma sections_LoopsTo ss : forall p r, Forall section_ok ss -> ss <> [] ->
  zlen (p ++ sections_bytes ss ++ r) < 2 ^ 63 ->
  LoopsTo (section_round (p ++ sections_bytes ss ++ r)) (zlen p)
    (Ok (head (omap entry_image (List.filter is_uefi ss ≫= sec_entries)))).
Proof.
  induction ss as [|s [|s2 ss] IH]; intros p r Hok Hne Hlen; [done|..]; apply Forall_cons in Hok as [Hs Hss].
  - apply LoopsTo_break. cbn [sections_bytes] in *. rewrite section_round_written by auto. cbn [List.filter].
    destruct (is_uefi s); cbn [mbind list_bind]; [rewrite app_nil_r|done].
    by destruct (head (omap entry_image (sec_entries s))).
  - change (sections_bytes (s :: s2 :: ss)) with (section_bytes x90 s ++ sections_bytes (s2 :: ss)) in *.
    rewrite <- app_assoc in *. pose proof (section_round_written x90 p s _ Hs Hlen ltac:(by left)) as Hr.
    replace (List.filter is_uefi (s :: s2 :: ss)) with
      ((if is_uefi s then [s] else []) ++ List.filter is_uefi (s2 :: ss))
      by (cbn [List.filter]; by destruct (is_uefi s)).
    destruct (is_uefi s); cbn [app] in Hr |- *; cbn [mbind list_bind].
    + rewrite omap_app. destruct (omap entry_image (sec_entries s)) as [|i l]; cbn [head app] in *.
      * eapply LoopsTo_round; [exact Hr|]. rewrite app_assoc in *. by apply IH.
      * by apply LoopsTo_break.
    + eapply LoopsTo_round; [exact Hr|]. rewrite app_assoc in *. by apply IH.
Qed.

Lemma uefi_sections ss :
  omap (fun pe => if u8 pe.1 =? 0xEF then entry_image pe.2 else None)
    (ss ≫= fun s => (fun e => (sec_platform s, e)) <$> sec_entries s)
  = omap entry_image (List.filter is_uefi ss ≫= sec_entries).
Proof.
  induction ss as [|s ss IH]; [done|]. cbn [mbind list_bind List.filter]. rewrite omap_app, IH.
  unfold is_uefi at 2. change PLATFORM_UEFI with 0xEF.
  assert (He : omap (fun pe => if u8 pe.1 =? 0xEF then entry_image pe.2 else None)
    ((fun e => (sec_platform s, e)) <$> sec_entries s) = if u8 (sec_platform s) =? 0xEF then omap entry_image (sec_entries s) else []).
  { induction (sec_entries s) as [|e es IHe]; [by destruct (_ =? _)|]. cbn [fmap list_fmap omap list_omap fst snd]. rewrite IHe.
    by destruct (u8 (sec_platform s) =? 0xEF). }
  rewrite He. destruct (u8 (sec_platform s) =? 0xEF); [|done]. cbn [mbind list_bind]. by rewrite omap_app.
Qed.

(** C40.  A boot catalog written as the El Torito specification lays it out, with any
    sections for any platforms, gives the first of the images it has for UEFI, in the
    catalog's order, entries for other platforms and entries that are not bootable
    passed over, and none if it has none; but for one kind of catalog.  Where the
    validation entry itself is for UEFI and the default entry is not bootable, the
    answer is none, whatever bootable UEFI entries the sections have, although the
    comments of [parse_catalog] and [el_torito_uefi_image] have none only if there is
    no UEFI entry. *)
Theorem et_catalog_roundtrip (c : Catalog) (n : Z) :
  catalog_ok c -> 0 <= n -> zlen (catalog_bytes c) + n < 2 ^ 63 ->
  parse_catalog (catalog_bytes c ++ zeros n) = Ok (if shadowed c then None else head (uefi_images c)).
Proof.
  intros (Hid&Hd&Hss) Hn Hlen. pose proof (zlen_et_entry _ Hd) as Hz. pose proof (zlen_zeros n Hn) as Hzn.
  set (v := x01 :: ct_platform c :: ct_id c ++ [x55; xaa]). set (d := entry_bytes (ct_default c)) in *.
  assert (Hc : catalog_bytes c = v ++ d ++ sections_bytes (ct_sections c))
    by (unfold catalog_bytes, v; by rewrite <- !app_comm_cons, <- !app_assoc).
  assert (Hv : zlen v = 32) by (unfold v; rewrite !zlen_cons, zlen_app, !zlen_cons, zlen_nil; lia).
  rewrite Hc in *. rewrite <- !app_assoc. rewrite !zlen_app in Hlen.
  pose proof (zlen_nonneg (sections_bytes (ct_sections c))). set (rest := sections_bytes _ ++ zeros n) in *.
  assert (Hzr : zlen (v ++ d ++ rest) = 64 + zlen (sections_bytes (ct_sections c)) + n)
    by (unfold rest; rewrite !zlen_app; lia).
  assert (Hw : wp (parse_catalog (v ++ d ++ rest)) (fun _ => True))
    by (eapply wp_mono; [apply parse_catalog_wp; lia|done]).
  assert (Hspec : (if shadowed c then None else head (uefi_images c)) =
    if u8 (ct_platform c) =? PLATFORM_UEFI then entry_image (ct_default c)
    else head (omap entry_image (List.filter is_uefi (ct_sections c) ≫= sec_entries))).
  { rewrite <- uefi_sections. unfold shadowed, uefi_images, catalog_entries. cbn [omap list_omap fst snd]. unfold entry_image at 1 4.
    change PLATFORM_UEFI with 0xEF. change BOOTABLE with 0x88.
    by destruct (u8 (ct_platform c) =? 0xEF), (u8 (en_boot (ct_default c)) =? 0x88). }
  rewrite Hspec. revert Hw. unfold parse_catalog. rewrite (proj2 (Z.ltb_ge _ _)) by lia.
  assert (Hb : forall i b, get v i = Some b -> at_ (v ++ d ++ rest) i = Ok b).
  { intros i b Hi. apply at_Ok. rewrite get_app_l; [done|]. apply get_is_Some. by eexists. }
  rewrite (Hb 0 x01 eq_refl), (Hb 1 (ct_platform c) eq_refl). cbn [bindR].
  assert (Hkey : get v 30 = Some x55 /\ get v 31 = Some xaa).
  { assert (Hp : zlen (x01 :: ct_platform c :: ct_id c) = 30) by (rewrite !zlen_cons; lia).
    change v with ((x01 :: ct_platform c :: ct_id c) ++ [x55; xaa]). set (q := _ :: _ :: ct_id c) in *.
    replace 30 with (zlen q + 0) by lia. replace 31 with (zlen q + 1) by lia. by rewrite !get_app_r by lia. }
  destruct Hkey as [Hk0 Hk1]. rewrite (Hb 30 _ Hk0), (Hb 31 _ Hk1). cbn [bindR].
  change (negb (u8 x01 =? 1) || negb (u8 x55 =? 0x55) || negb (u8 xaa =? 0xAA)) with false. cbn iota.
  destruct (_ =? PLATFORM_UEFI); intros Hw.
  { rewrite slice_app by lia. cbn [bindR]. by apply parse_entry_written. }
  apply loop_eq; [by eapply wp_returns|]. clear Hw Hb. revert Hzr. unfold rest.
  destruct (decide (ct_sections c = [])) as [->|Hne]; intros Hzr.
  - apply LoopsTo_break. unfold section_round. rewrite Hzr. cbn [sections_bytes app]. cbn [sections_bytes] in *.
    rewrite zlen_nil in *.
    destruct (Z.leb_spec (64 + 32) (64 + 0 + n)); cbn [negb]; [|done].
    rewrite slice_eq by (rewrite ?zlen_app; lia). cbn [bindR].
    rewrite app_assoc, sub_app_r by (rewrite zlen_app; lia).
    rewrite sub_zeros by (rewrite ?zlen_app; lia). done.
  - rewrite app_assoc. replace 64 with (zlen (v ++ d)) by (rewrite zlen_app; lia).
    apply sections_LoopsTo; [done|done|]. rewrite <- app_assoc, Hzr. lia.
Qed.

(** A BIOS disc with two sections: the second is for UEFI, its first entry is not
    bootable. *)
Definition w_entry (boot : byte) (lba : Z) : Entry := mkEntry boot (zeros 5) 4 lba (zeros 20).
Definition w_catalog : Catalog :=
  mkCatalog x00 (zeros 28) (w_entry x88 20)
    [mkSection x00 (zeros 28) [w_entry x88 30]; mkSection xef (zeros 28) [w_entry x00 40; w_entry x88 50]].

Lemma w_catalog_ok : catalog_ok w_catalog.
Proof. unfold catalog_ok, section_ok, entry_ok. split; [done|]. split; [done|]. repeat constructor; done. Qed.

(** A UEFI disc whose default entry is not bootable, with a bootable UEFI section. *)
Definition w_shadowed : Catalog :=
  mkCatalog xef (zeros 28) (w_entry x00 20) [mkSection xef (zeros 28) [w_entry x88 50]].

Lemma w_shadowed_ok : catalog_ok w_shadowed.
Proof. unfold catalog_ok, section_ok, entry_ok. split; [done|]. split; [done|]. repeat constructor; done. Qed.

Lemma et_catalog_roundtrip_witness :
  (uefi_images w_catalog = [mkUefi 50 4] /\
   parse_catalog (catalog_bytes w_catalog ++ zeros 1792) = Ok (Some (mkUefi 50 4))) /\
  (uefi_images w_shadowed = [mkUefi 50 4] /\
   parse_catalog (catalog_bytes w_shadowed ++ zeros 1920) = Ok None).
Proof.
  split; (split; [reflexivity|]).
  - exact (et_catalog_roundtrip w_catalog 1792 w_catalog_ok ltac:(lia) ltac:(done)).
  - exact (et_catalog_roundtrip w_shadowed 1920 w_shadowed_ok ltac:(lia) ltac:(done)).
Defined.
