(* ===== verification/Iso.v ===== *)
(** * ISO 9660 frontend ([crates/lamfold-iso/src/iso9660.rs])

    Volume descriptors, directory records (multi-extent files included), base,
    Joliet and Rock Ridge names, continuation areas, zisofs files and the El Torito
    side channel.  A volume interns the inodes it meets by the position of their
    directory record. *)
From S2P Require Import Prelude Text Cache Substrate Codec Nodes RockRidge ElTorito.
Open Scope Z_scope.

Definition VD_REGION_OFFSET : Z := 16 * 2048.
Definition VD_SIZE : Z := 2048.
Definition VD_TYPE_BOOT_RECORD : Z := 0.
Definition VD_TYPE_PRIMARY : Z := 1.
Definition VD_TYPE_SUPPLEMENTARY : Z := 2.
Definition VD_TYPE_TERMINATOR : Z := 255.
Definition STANDARD_ID : list byte := bytes_of "CD001".
Definition JOLIET_ESCAPE_PREFIX : list byte := [x25; x2f].
Definition JOLIET_ESCAPE_OFFSET : Z := 88.
Definition EL_TORITO_ID : list byte := bytes_of "EL TORITO SPECIFICATION".
Definition ET_CATALOG_PTR_OFFSET : Z := 71.
Definition ZISOFS_MAGIC : list byte := [x37; xe4; x53; x96; xc9; xdb; xd6; x07].
Definition MAX_VD_SCAN : Z := 64.
Definition MAX_CONTINUATIONS : Z := 16.
Definition ROOT_KEY : Z * Z := (2 ^ 32 - 1, 2 ^ 32 - 1).
Definition EXTENT_LBA_LE : Z := 2.
Definition DATA_LEN_LE : Z := 10.
Definition FILE_FLAGS : Z := 25.
Definition LEN_FI : Z := 32.
Definition FILE_ID : Z := 33.
Definition FLAG_DIRECTORY : Z := 0x02.
Definition FLAG_MULTI_EXTENT : Z := 0x80.
Definition MAX_EXTENTS : Z := 4096.

Record Inode : Type := mkInode {
  in_key : Z * Z;
  in_lba : Z;
  in_size : Z;
  in_extents : list (Z * Z);
  in_kind : FileKind;
  in_link_target : option (list byte);
  in_zisofs : option Zisofs;
}.

Definition le_u16 : list byte -> Z -> Res Z := le_field 2 "iso: truncated u16 field".
Definition le_u32 : list byte -> Z -> Res Z := le_field 4 "iso: truncated u32 field".

(** The [;version] of a file name, and a trailing dot, go. *)
Definition strip_version (nm : name) : name := strip_suffix_char x2e (until x3b nm).

Definition decode_name (fi : list byte) (is_dir : bool) : Res name :=
  if negb (utf8_valid fi) then Err (InvalidPath "iso: non-utf8 file id")
  else Ok (if is_dir then fi else strip_version fi).

Definition decode_name_joliet (fi : list byte) (is_dir : bool) : Res name :=
  let! s := ok_or (string_of_utf16 (be_units fi)) (InvalidPath "iso: bad UTF-16 in joliet name") in
  Ok (if is_dir then s else strip_version s).

(** The file identifier of the directory record at [pos]. *)
Definition first_fi (buf : list byte) (pos : Z) : Res (list byte) :=
  let! b := ok_or (get buf pos) (Corrupt "iso: short record") in
  let! rec_ := ok_or (get_range buf pos (pos + u8 b)) (Corrupt "iso: directory record overruns extent") in
  let! n := ok_or (get rec_ LEN_FI) (Corrupt "iso: short record") in
  ok_or (get_range rec_ FILE_ID (FILE_ID + u8 n)) (Corrupt "iso: file id overruns record").

Definition root_record (vd : list byte) : Res Inode :=
  let! rdr := ok_or (get_range vd 156 (156 + 34)) (Corrupt "iso: short root directory record") in
  let! lba := le_u32 rdr EXTENT_LBA_LE in
  let! size := le_u32 rdr DATA_LEN_LE in
  Ok (mkInode ROOT_KEY lba size [(lba, size)] Directory None None).

(** Where a record's System Use area starts: behind the file identifier and the pad
    byte of one of even length. *)
Definition su_start (fi_len : Z) : Z := FILE_ID + fi_len + (if fi_len mod 2 =? 0 then 1 else 0).

Section Iso.
Context {D : Decoders} {S : Type} `{BlockSource S}.

Record Iso9660 : Type := mkIso {
  is_src : S;
  is_block_size : Z;
  is_nodes : list Inode;
  is_by_record : gmap (Z * Z) NodeId;
  is_rock_ridge : bool;
  is_susp_skip : Z;
  is_joliet : bool;
  is_el_torito : option Z;
}.
Implicit Types me : Iso9660.

Definition with_tables me (t : list Inode * gmap (Z * Z) NodeId) : Iso9660 :=
  mkIso (is_src me) (is_block_size me) t.1 t.2 (is_rock_ridge me) (is_susp_skip me) (is_joliet me) (is_el_torito me).

Definition intern (i : Inode) : ST Iso9660 NodeId := fun me =>
  let (id, t) := intern_in (is_nodes me) (is_by_record me) (in_key i) i in (Ok id, with_tables me t).
Definition inode me (node : NodeId) : Res Inode := node_in (is_nodes me) node.

Definition read_dir_extent me (i : Inode) : Res (list byte) :=
  let! len := checked_full_read_len (in_size i) in
  let! off := mulw 64 (in_lba i) (is_block_size me) in
  src_read_at (is_src me) off len.

Definition detect_susp me (root : Inode) : Res (option Z) :=
  let! buf := read_dir_extent me root in
  if bool_decide (buf = []) then Ok None
  else
    let! b := at_ buf 0 in
    let! rec_ := ok_or (get_range buf 0 (u8 b)) (Corrupt "iso: short root record") in
    let! fi_len := ok_or (get rec_ LEN_FI) (Corrupt "iso: short root record") in
    detect_sp (default [] (get_from rec_ (su_start (u8 fi_len)))).

(** One turn of [while let Some(ce) = next]. *)
Definition ce_round me (s : RrParser * option Continuation * Z)
    : Res ((RrParser * option Continuation * Z) + RrInfo) :=
  let '(parser, next, hops) := s in
  match next with
  | None => Ok (inr (finish parser))
  | Some ce =>
      let hops := hops + 1 in
      if (hops >? MAX_CONTINUATIONS) || (ce_len ce =? 0) || (ce_len ce >? is_block_size me)
      then Err (Corrupt "iso: bad Rock Ridge continuation area")
      else
        let! base := mulw 64 (ce_block ce) (is_block_size me) in
        let! at_ := addw 64 base (ce_offset ce) in
        let! end_ := addw 64 at_ (ce_len ce) in
        if end_ >? src_len (is_src me) then Err (Corrupt "iso: Rock Ridge continuation past the volume")
        else
          let! area := src_read_at (is_src me) at_ (ce_len ce) in
          let! (parser, next) := feed parser area in
          Ok (inl (parser, next, hops))
  end.
Definition parse_rock_ridge me (su : list byte) : Res RrInfo :=
  let! (parser, next) := feed parser_default su in
  loop (ce_round me) (parser, next, 0).

(** The record at [pos] of a directory: an inode and its name, as the first record
    of a file has them. *)
Definition entry_of me (dir_lba pos : Z) (rec_ fi : list byte) (is_dir : bool) (lba size : Z)
    : Res (name * Inode) :=
  let fi_len := zlen fi in
  let! nm := if is_joliet me then decode_name_joliet fi is_dir else decode_name fi is_dir in
  let kind := if is_dir then Directory else Regular in
  let! (nm, kind, link_target, zisofs) :=
    if is_rock_ridge me then
      match get_from rec_ (su_start fi_len) with
      | Some su =>
          let su := default [] (get_from su (is_susp_skip me)) in
          let! rr := parse_rock_ridge me su in
          let nm := match rr_name rr with Some n => n | None => nm end in
          let kind := match rr_symlink_target rr with Some _ => Symlink | None => kind end in
          Ok (nm, kind, rr_symlink_target rr, rr_zisofs rr)
      | None => Ok (nm, kind, None, None)
      end
    else Ok (nm, kind, None, None) in
  Ok (nm, mkInode (dir_lba, pos mod 2 ^ 32) lba size [(lba, size)] kind link_target zisofs).

(** The state of [for_each_entry]: the position, the first record and the extents so
    far of a multi-extent file, and what the callback was given. *)
Record Walk : Type := mkWalk {
  wk_pos : Z; wk_pending : option (name * Inode); wk_out : list (name * Inode)
}.

(** A later record of a multi-extent file. *)
Definition add_extent (buf fi : list byte) (is_dir more : bool) (lba size next : Z)
    (first : name) (i : Inode) (out : list (name * Inode)) : Res Walk :=
  let! broken := if is_dir then Ok true else let! f := first_fi buf (in_key i).2 in Ok (negb (bool_decide (fi = f))) in
  if (broken : bool) then Err (Corrupt "iso: broken multi-extent chain")
  else if zlen (in_extents i) >=? MAX_EXTENTS then Err (Corrupt "iso: too many extents")
  else
    let! total := addw 64 (in_size i) size in
    let i := mkInode (in_key i) (in_lba i) total (in_extents i ++ [(lba, size)]) (in_kind i)
               (in_link_target i) (in_zisofs i) in
    Ok (if more then mkWalk next (Some (first, i)) out else mkWalk next None (out ++ [(first, i)])).

(** One turn of [while pos < buf.len()]. *)
Definition entry_round me (dir_lba : Z) (buf : list byte) (w : Walk) : Res (Walk + Walk) :=
  let pos := wk_pos w in
  if negb (pos <? zlen buf) then Ok (inr w)
  else
    let! b := at_ buf pos in
    let len := u8 b in
    if len =? 0 then
      let next := (pos / is_block_size me + 1) * is_block_size me in
      if next <=? pos then Ok (inr w) else Ok (inl (mkWalk next (wk_pending w) (wk_out w)))
    else
      let! rec_ := ok_or (get_range buf pos (pos + len)) (Corrupt "iso: directory record overruns extent") in
      let! n := ok_or (get rec_ LEN_FI) (Corrupt "iso: short record") in
      let fi_len := u8 n in
      let! fi := ok_or (get_range rec_ FILE_ID (FILE_ID + fi_len)) (Corrupt "iso: file id overruns record") in
      let! is_dot := if fi_len =? 1 then let! f := at_ fi 0 in Ok ((u8 f =? 0) || (u8 f =? 1)) else Ok false in
      if (is_dot : bool) then Ok (inl (mkWalk (pos + len) (wk_pending w) (wk_out w)))
      else
        let! flags := ok_or (get rec_ FILE_FLAGS) (Corrupt "iso: short flags") in
        let is_dir := negb (Z.land (u8 flags) FLAG_DIRECTORY =? 0) in
        let! lba := le_u32 rec_ EXTENT_LBA_LE in
        let! size := le_u32 rec_ DATA_LEN_LE in
        let more := negb (Z.land (u8 flags) FLAG_MULTI_EXTENT =? 0) in
        match wk_pending w with
        | Some (first, i) =>
            let! w := add_extent buf fi is_dir more lba size (pos + len) first i (wk_out w) in Ok (inl w)
        | None =>
            let! e := entry_of me dir_lba pos rec_ fi is_dir lba size in
            Ok (inl (if more && negb is_dir then mkWalk (pos + len) (Some e) (wk_out w)
                     else mkWalk (pos + len) None (wk_out w ++ [e])))
        end.

(** What the callback of [for_each_entry] is given, in order; both callers drop it
    when the walk fails. *)
Definition for_each_entry me (dir : Inode) : Res (list (name * Inode)) :=
  let! buf := read_dir_extent me dir in
  let! w := loop (entry_round me (in_lba dir) buf) (mkWalk 0 None []) in
  match wk_pending w with
  | Some _ => Err (Corrupt "iso: multi-extent file without its last record")
  | None => Ok (wk_out w)
  end.

Definition el_torito_uefi_image me : Res (option UefiImage) :=
  match is_el_torito me with
  | None => Ok None
  | Some cat_lba =>
      let! off := mulw 64 cat_lba (is_block_size me) in
      let! end_ := addw 64 off VD_SIZE in
      if end_ >? src_len (is_src me) then Ok None
      else
        let! cat := src_read_at (is_src me) off VD_SIZE in
        let! image := parse_catalog cat in
        match image with
        | None => Ok None
        | Some image =>
            if ui_sectors image <=? 1 then
              let! at_ := mulw 64 (ui_lba image) (is_block_size me) in
              let! end_ := addw 64 at_ 512 in
              if end_ <=? src_len (is_src me) then
                let! boot := src_read_at (is_src me) at_ 512 in
                Ok (Some (match fat_image_sectors boot with
                          | Some sectors => mkUefi (ui_lba image) sectors
                          | None => image
                          end))
              else Ok (Some image)
            else Ok (Some image)
        end
  end.

(** [ptr(i)] of the block table behind the 16-byte header. *)
Definition zisofs_ptr (head : list byte) (i : Z) : Res Z :=
  let o := 16 + i * 4 in let! b := slice head o (o + 4) in Ok (le_num b).

(** One block of a zisofs read: the body of [while produced < want]; the state is
    [produced], [cur] and the buffer. *)
Definition zisofs_round me (head : list byte) (extent_off block_size uncompressed want : Z)
    (s : Z * Z * list byte) : Res ((Z * Z * list byte) + (Z * list byte)) :=
  let '(produced, cur, buf) := s in
  if negb (produced <? want) then Ok (inr (produced, buf))
  else
    let blk := cur / block_size in
    let blk_base := blk * block_size in
    let this_uncomp := Z.min block_size (uncompressed - blk_base) in
    let! cstart := zisofs_ptr head blk in
    let! cend := zisofs_ptr head (blk + 1) in
    let! decompressed :=
      if cend <=? cstart then Ok (zeros this_uncomp)
      else
        let! clen := checked_full_read_len (cend - cstart) in
        let! at_ := addw 64 extent_off cstart in
        let! cbuf := src_read_at (is_src me) at_ clen in
        decode Zlib cbuf this_uncomp in
    let in_blk := cur - blk_base in
    let avail := saturating_sub (zlen decompressed) in_blk in
    let take := Z.min avail (want - produced) in
    if take =? 0 then Ok (inr (produced, buf))
    else
      let! piece := slice decompressed in_blk (in_blk + take) in
      let! buf := write_at buf produced piece in
      Ok (inl (produced + take, cur + take, buf)).

Definition read_zisofs me (i : Inode) (zi : Zisofs) (off : Z) (buf : list byte) : Res (Z * list byte) :=
  let uncompressed := uncompressed_size zi in
  if off >=? uncompressed then Ok (0, buf)
  else if block_size_log2 zi >=? 31 then Err (Corrupt "zisofs: implausible block size")
  else
    let! block_size := shl_one (block_size_log2 zi) in
    let n_blocks := div_ceil uncompressed block_size in
    let! table_bytes := ok_or (checked_mul 64 (n_blocks + 1) 4) (Corrupt "zisofs: block table overflow") in
    let! head_size := addw 64 16 table_bytes in
    let! head_len := checked_full_read_len head_size in
    let! extent_off := mulw 64 (in_lba i) (is_block_size me) in
    let! head := src_read_at (is_src me) extent_off head_len in
    let! magic := slice head 0 8 in
    if negb (bool_decide (magic = ZISOFS_MAGIC)) then Err (Corrupt "zisofs: bad magic")
    else
      let want := Z.min (zlen buf) (uncompressed - off) in
      loop (zisofs_round me head extent_off block_size uncompressed want) (0, off, buf).

Definition iso_probe (src : S) : Res bool :=
  if src_len src <? VD_REGION_OFFSET + 8 then Ok false
  else
    let! hdr := src_read_at src VD_REGION_OFFSET 8 in
    let! id := slice hdr 1 6 in
    Ok (bool_decide (id = STANDARD_ID)).

(** What the scan of the volume descriptors has found: the block size, the boot
    catalog and the two roots. *)
Record Scan : Type := mkScan {
  sc_block_size : Z; sc_el_torito : option Z; sc_pvd_root : option Inode; sc_joliet_root : option Inode
}.

(** One volume descriptor: the [match vd[0]]; [None] at the terminator. *)
Definition descriptor (vd : list byte) (sc : Scan) : Res (option Scan) :=
  let! id := slice vd 1 6 in
  if negb (bool_decide (id = STANDARD_ID)) then Err (Corrupt "iso: missing CD001 standard id")
  else
    let! ty := at_ vd 0 in
    let ty := u8 ty in
    if ty =? VD_TYPE_PRIMARY then
      let! bs := le_u16 vd 128 in
      if bs =? 0 then Err (Corrupt "iso: zero logical block size")
      else
        let! root := root_record vd in
        Ok (Some (mkScan bs (sc_el_torito sc) (Some root) (sc_joliet_root sc)))
    else if ty =? VD_TYPE_BOOT_RECORD then
      if bool_decide (get_range vd 7 (7 + zlen EL_TORITO_ID) = Some EL_TORITO_ID) then
        let! cat := le_u32 vd ET_CATALOG_PTR_OFFSET in
        Ok (Some (mkScan (sc_block_size sc) (Some cat) (sc_pvd_root sc) (sc_joliet_root sc)))
      else Ok (Some sc)
    else if ty =? VD_TYPE_SUPPLEMENTARY then
      let! esc := slice vd JOLIET_ESCAPE_OFFSET (JOLIET_ESCAPE_OFFSET + 3) in
      let! prefix := slice esc 0 2 in
      let! level := at_ esc 2 in
      if bool_decide (prefix = JOLIET_ESCAPE_PREFIX) && existsb (Z.eqb (u8 level)) [0x40; 0x43; 0x45] then
        let! root := root_record vd in
        Ok (Some (mkScan (sc_block_size sc) (sc_el_torito sc) (sc_pvd_root sc) (Some root)))
      else Ok (Some sc)
    else if ty =? VD_TYPE_TERMINATOR then Ok None
    else Ok (Some sc).

(** [for i in 0..MAX_VD_SCAN]. *)
Definition scan_round (src : S) (s : Z * Scan) : Res ((Z * Scan) + Scan) :=
  let '(i, sc) := s in
  if negb (i <? MAX_VD_SCAN) then Ok (inr sc)
  else
    let off := VD_REGION_OFFSET + i * VD_SIZE in
    if off + VD_SIZE >? src_len src then Ok (inr sc)
    else
      let! vd := src_read_at src off VD_SIZE in
      let! r := descriptor vd sc in
      match r with
      | Some sc => Ok (inl (i + 1, sc))
      | None => Ok (inr sc)
      end.

Definition iso_open (src : S) : Res Iso9660 :=
  let! sc := loop (scan_round src) (0, mkScan 2048 None None None) in
  let! pvd_root := ok_or (sc_pvd_root sc) (Corrupt "iso: no primary volume descriptor") in
  let vol rr skip joliet := mkIso src (sc_block_size sc) [] ∅ rr skip joliet (sc_el_torito sc) in
  let! susp := detect_susp (vol false 0 false) pvd_root in
  let (me, root) :=
    match susp, sc_joliet_root sc with
    | Some skip, _ => (vol true skip false, pvd_root)
    | None, Some jr => (vol false 0 true, jr)
    | None, None => (vol false 0 false, pvd_root)
    end in
  let (r, me) := intern root me in
  let! _ := r in
  Ok me.

(** [lookup]'s callback keeps the first entry of the name. *)
Definition iso_lookup (dir : NodeId) (nm : name) : ST Iso9660 (option NodeId) :=
  let* me := getST in
  let* dir_inode := liftR (inode me dir) in
  if negb (bool_decide (in_kind dir_inode = Directory)) then errST NotDirectory
  else
    let* es := liftR (for_each_entry me dir_inode) in
    match snd <$> list_find (fun e => e.1 = nm) es with
    | Some e => let* id := intern e.2 in retST (Some id)
    | None => retST None
    end.

(** [for (name, inode) in collected]. *)
Fixpoint intern_collected (es : list (name * Inode)) (out : list DirEntry) : ST Iso9660 (list DirEntry) :=
  match es with
  | [] => retST out
  | (nm, i) :: rest =>
      let* node := intern i in
      intern_collected rest (out ++ [mkDirEntry nm node (in_kind i)])
  end.

Definition iso_read_dir (dir : NodeId) : ST Iso9660 (list DirEntry) :=
  let* me := getST in
  let* dir_inode := liftR (inode me dir) in
  if negb (bool_decide (in_kind dir_inode = Directory)) then errST NotDirectory
  else
    let* collected := liftR (for_each_entry me dir_inode) in
    intern_collected collected [].

Definition iso_metadata me (node : NodeId) : Res Metadata :=
  let! i := inode me node in
  let size := match in_zisofs i with Some z => uncompressed_size z | None => in_size i end in
  Ok (mkMetadata (in_kind i) size 0).

(** [for &(lba, len) in &inode.extents]. *)
Fixpoint read_extents me (off n : Z) (ex : list (Z * Z)) (start done : Z) (buf : list byte)
    : Res (Z * list byte) :=
  match ex with
  | [] => Ok (done, buf)
  | (lba, len) :: rest =>
      let! pos := addw 64 off done in
      if done =? n then Ok (done, buf)
      else
        let! stop := addw 64 start len in
        if pos <? stop then
          let! within := subw pos start in
          let! avail := subw len within in
          let take := Z.min (n - done) avail in
          let! base := mulw 64 lba (is_block_size me) in
          let! at_ := addw 64 base within in
          let! buf := read_into (is_src me) at_ buf done (done + take) in
          read_extents me off n rest stop (done + take) buf
        else read_extents me off n rest stop done buf
  end.

Definition iso_read_at me (node : NodeId) (off : Z) (buf : list byte) : Res (Z * list byte) :=
  let! i := inode me node in
  if bool_decide (in_kind i = Directory) then Err IsDirectory
  else
    match in_zisofs i with
    | Some zi => read_zisofs me i zi off buf
    | None =>
        if off >=? in_size i then Ok (0, buf)
        else
          let n := Z.min (zlen buf) (in_size i - off) in
          read_extents me off n (in_extents i) 0 0 buf
    end.

Definition iso_read_link me (node : NodeId) : Res (option (list byte)) :=
  let! i := inode me node in Ok (in_link_target i).
End Iso.
Arguments Iso9660 S : clear implicits.

#[export] Instance Iso_Frontend {D : Decoders} {S} `{BlockSource S} : FoldFrontend (Iso9660 S) S := {
  TAG := "iso9660";
  probe := iso_probe;
  open_ src cx := (iso_open src, cx);
  root _ := 0;
  lookup_ d nm := on_frontend (iso_lookup d nm);
  read_dir d := on_frontend (iso_read_dir d);
  metadata n := on_self (fun me => iso_metadata me n);
  read_at n off buf := on_self (fun me => iso_read_at me n off buf);
  read_link n := on_self (fun me => iso_read_link me n);
}.

(** ** Lemmas: every call comes back *)

Definition extents_len (ex : list (Z * Z)) : Z := foldr (fun e n => e.2 + n) 0 ex.
Definition extent_ok (e : Z * Z) : Prop := 0 <= e.1 < 2 ^ 32 /\ 0 <= e.2 < 2 ^ 32.

Record inode_ok (i : Inode) : Prop := mkInodeOk {
  io_lba : 0 <= in_lba i < 2 ^ 32;
  io_extents : Forall extent_ok (in_extents i);
  io_count : zlen (in_extents i) <= MAX_EXTENTS;
  io_size : in_size i = extents_len (in_extents i);
  io_zisofs : zf_ok (in_zisofs i);
}.
Definition found_ok (e : name * Inode) : Prop := inode_ok e.2 /\ Chars e.1.

Lemma extents_len_range ex : Forall extent_ok ex -> 0 <= extents_len ex <= zlen ex * 2 ^ 32.
Proof.
  induction 1 as [|e ex [? ?] _ IH]; [done|]. change (extents_len (e :: ex)) with (e.2 + extents_len ex).
  rewrite zlen_cons. lia.
Qed.
Lemma extents_len_app ex ex' : extents_len (ex ++ ex') = extents_len ex + extents_len ex'.
Proof.
  induction ex as [|e ex IH]; [done|]. cbn [app].
  change (extents_len (e :: ?l)) with (e.2 + extents_len l). rewrite IH. lia.
Qed.
Lemma inode_size i : inode_ok i -> 0 <= in_size i <= 2 ^ 44.
Proof.
  intros []. rewrite io_size0. pose proof (extents_len_range _ io_extents0). unfold MAX_EXTENTS in *. lia.
Qed.

Lemma strip_version_Chars nm : Chars nm -> Chars (strip_version nm).
Proof. intros. by apply strip_suffix_char_Chars, until_Chars. Qed.
Lemma decode_name_wp {X : Prop} fi d : wpx X (decode_name fi d) Chars.
Proof.
  unfold decode_name. destruct (utf8_valid fi) eqn:E; cbn [negb]; [|done]. apply utf8_valid_Chars in E.
  destruct d; [done|by apply strip_version_Chars].
Qed.
Lemma decode_name_joliet_wp {X : Prop} fi d : wpx X (decode_name_joliet fi d) Chars.
Proof.
  unfold decode_name_joliet. apply wp_bind, wp_ok_or. intros s E%string_of_utf16_Chars.
  destruct d; [done|by apply strip_version_Chars].
Qed.
Lemma first_fi_wp {X : Prop} buf pos : wpx X (first_fi buf pos) (fun _ => True).
Proof. unfold first_fi. do 3 (apply wp_bind, wp_ok_or; intros ? _). by apply wp_ok_or. Qed.

Lemma wp_le_u32 {X : Prop} b o P : (forall v, 0 <= v < 2 ^ 32 -> P v) -> wpx X (le_u32 b o) P.
Proof. intros HP. apply wp_le_field. intros v Hv _. by apply HP. Qed.

Lemma root_record_wp {X : Prop} vd : wpx X (root_record vd) inode_ok.
Proof.
  unfold root_record. apply wp_bind, wp_ok_or. intros rdr _. apply wp_bind, wp_le_u32. intros lba Hl.
  apply wp_bind, wp_le_u32. intros size Hs. cbn [wpx].
  constructor; cbn; [done|by apply Forall_singleton|by vm_compute|lia|done].
Qed.

Lemma get_from_le {A} (l r : list A) lo : get_from l lo = Some r -> zlen r <= zlen l.
Proof. intros (?&?&->)%get_range_Some. rewrite zlen_sub by lia. lia. Qed.
Lemma get_from_default_le {A} (l : list A) lo : zlen (default [] (get_from l lo)) <= zlen l.
Proof.
  destruct (get_from l lo) as [r|] eqn:E; [by eapply get_from_le|]. apply zlen_nonneg.
Qed.

Section Laws.
Context {D : Decoders} {DL : DecoderLaws D} {S : Type} `{SourceLaws S}.
Implicit Types me : Iso9660 S.

(** The invariant of a mounted volume. *)
Record iso_ok me : Prop := mkIsoOk {
  ok_src : src_valid (is_src me);
  ok_bs : 0 < is_block_size me < 2 ^ 16;
  ok_et : match is_el_torito me with Some lba => 0 <= lba < 2 ^ 32 | None => True end;
  ok_nodes : Forall inode_ok (is_nodes me);
  ok_table : table_ok (fun k i => in_key i = k) (is_nodes me) (is_by_record me);
}.
(** What the volume descriptors alone give. *)
Definition vol_ok me : Prop := src_valid (is_src me) /\ 0 < is_block_size me < 2 ^ 16.

Lemma block_at lba me : 0 <= lba < 2 ^ 32 -> 0 < is_block_size me < 2 ^ 16 ->
  0 <= lba * is_block_size me < 2 ^ 48.
Proof. change (2 ^ 48) with (2 ^ 32 * 2 ^ 16). nia. Qed.

Lemma read_dir_extent_wp {X : Prop} me i : vol_ok me -> inode_ok i ->
  wpx X (read_dir_extent me i) (fun buf => zlen buf = in_size i /\ zlen buf < 2 ^ 32 /\
    buf = region (src_byte (is_src me)) (in_lba i * is_block_size me) (in_size i)).
Proof.
  intros [Hv Hbs] Hi. pose proof (inode_size i Hi). pose proof (block_at _ _ (io_lba i Hi) Hbs).
  unfold read_dir_extent. apply wp_bind, wp_checked_full. intros Hcap. unfold MAX_BOOT_FILE_BYTES in Hcap.
  apply wp_bind, wp_mulw; [lia|]. apply wp_read; [done|lia|lia|]. intros b Hb Hz _. split_and!; [done|lia|done].
Qed.

Lemma detect_susp_wp {X : Prop} me root : vol_ok me -> inode_ok root ->
  wpx X (detect_susp me root) (fun _ => True).
Proof.
  intros Hv Hi. unfold detect_susp. apply wp_bind. eapply wp_mono; [by apply read_dir_extent_wp|].
  intros buf (_&Hz&_). case_bool_decide as Hne; [done|]. pose proof (zlen_nonneg buf).
  assert (zlen buf <> 0) by (intros E; by apply Hne, zlen_0_nil).
  apply wp_bind, wp_at; [lia|]. intros b _. pose proof (u8_range b).
  apply wp_bind, wp_ok_or. intros rec_ Hr%get_range_zlen. apply wp_bind, wp_ok_or. intros n _.
  eapply wp_mono; [apply detect_sp_wp|done].
  pose proof (get_from_default_le rec_ (su_start (u8 n))). lia.
Qed.

Lemma ce_round_wp {X : Prop} me parser next hops : vol_ok me -> ce_ok next -> info_ok (rp_info parser) ->
  wpx X (ce_round me (parser, next, hops)) (fun r => match r with
    | inl (parser', next', hops') => ce_ok next' /\ info_ok (rp_info parser') /\
        hops' = hops + 1 /\ hops < MAX_CONTINUATIONS
    | inr info => info_ok info end).
Proof.
  intros [Hv Hbs] Hce Hz. unfold ce_round. destruct next as [ce|]; [|by apply finish_ok]. destruct Hce as (Hb&Ho&Hl).
  rewrite !Z.gtb_ltb. destruct (Z.ltb_spec MAX_CONTINUATIONS (hops + 1)); [done|].
  destruct (Z.eqb_spec (ce_len ce) 0); [done|]. destruct (Z.ltb_spec (is_block_size me) (ce_len ce)); [done|].
  cbn [orb]. pose proof (block_at _ _ Hb Hbs). apply wp_bind, wp_mulw; [lia|]. apply wp_bind, wp_addw; [lia|].
  apply wp_bind, wp_addw; [lia|]. rewrite Z.gtb_ltb. destruct (_ <? _); [done|].
  apply wp_bind, wp_read; [done|lia|lia|]. intros area _ Ha _.
  apply wp_bind. eapply wp_mono; [apply feed_wp; [lia|done]|]. intros [p' n'] [? ?]. cbn [wpx].
  split; [done|]. split; [done|]. lia.
Qed.

Lemma parse_rock_ridge_wp {X : Prop} me su : vol_ok me -> zlen su < 2 ^ 63 ->
  wpx X (parse_rock_ridge me su) info_ok.
Proof.
  intros Hv Hsu. unfold parse_rock_ridge. apply wp_bind. eapply wp_mono; [apply feed_wp; [done|by split]|].
  intros [p n] [Hn Hp].
  apply (wp_loop _ (fun '(p, n, h) => ce_ok n /\ info_ok (rp_info p) /\ 0 <= h <= MAX_CONTINUATIONS)
    (fun s => MAX_CONTINUATIONS - s.2)); [by split_and!|done|].
  intros [[p1 n1] h1] (Hn1&Hp1&Hh). cbn [snd]. split; [lia|].
  eapply wp_mono; [by apply ce_round_wp|]. intros [[[p2 n2] h2]|info]; [|done].
  intros (?&?&->&?). cbn [snd]. split; [split_and!; [done|done|lia|lia]|lia].
Qed.

Lemma entry_of_wp {X : Prop} me dir_lba pos rec_ fi is_dir lba size :
  vol_ok me -> zlen rec_ < 2 ^ 32 -> 0 <= lba < 2 ^ 32 -> 0 <= size < 2 ^ 32 ->
  wpx X (entry_of me dir_lba pos rec_ fi is_dir lba size) found_ok.
Proof.
  intros Hv Hr Hl Hs. unfold entry_of. apply wp_bind, (wp_mono _ Chars).
  { destruct (is_joliet me); [apply decode_name_joliet_wp|apply decode_name_wp]. }
  intros nm Hnm. apply wp_bind, (wp_mono _ (fun r => Chars r.1.1.1 /\ zf_ok r.2)).
  - destruct (is_rock_ridge me); [|done]. destruct (get_from rec_ _) as [su|] eqn:Esu; [|done].
    apply wp_bind. eapply wp_mono; [apply parse_rock_ridge_wp; [done|]|].
    + apply get_from_le in Esu. pose proof (get_from_default_le su (is_susp_skip me)). lia.
    + intros info [Hz Hn]. cbn [wpx fst snd]. split; [|done]. by destruct (rr_name info).
  - intros [[[nm' kind] link] zi] [Hn Hz]. cbn [wpx]. split; [|exact Hn]. constructor; cbn; [done|by apply Forall_singleton|by vm_compute|lia|done].
Qed.

Lemma add_extent_wp {X : Prop} buf fi is_dir more lba size next first i out :
  inode_ok i -> Chars first -> Forall found_ok out -> 0 <= lba < 2 ^ 32 -> 0 <= size < 2 ^ 32 ->
  wpx X (add_extent buf fi is_dir more lba size next first i out) (fun w =>
    wk_pos w = next /\ Forall found_ok (wk_out w) /\
    match wk_pending w with Some e => found_ok e | None => True end).
Proof.
  intros Hi Hnm Hout Hl Hs. unfold add_extent. apply wp_bind, (wp_mono _ (fun _ => True)).
  { destruct is_dir; [done|]. apply wp_bind. eapply wp_mono; [apply first_fi_wp|done]. }
  intros broken _. destruct broken; [done|]. rewrite Z.geb_leb.
  destruct (Z.leb_spec MAX_EXTENTS (zlen (in_extents i))); [done|]. pose proof (inode_size i Hi).
  apply wp_bind, wp_addw; [lia|]. destruct Hi. set (i' := mkInode _ _ _ _ _ _ _).
  assert (Hok : inode_ok i').
  { constructor; cbn; [done| | | |done].
    - apply Forall_app. split; [done|]. by apply Forall_singleton.
    - rewrite zlen_app. change (zlen [_]) with 1. lia.
    - rewrite extents_len_app, <- io_size0. cbn. lia. }
  destruct more; cbn [wpx wk_pos wk_out wk_pending]; split_and!; try done.
  apply Forall_app. split; [done|]. by apply Forall_singleton.
Qed.

Definition walk_ok (w : Walk) : Prop :=
  0 <= wk_pos w /\ Forall found_ok (wk_out w) /\ match wk_pending w with Some e => found_ok e | None => True end.

Lemma iso_entry_round_wp {X : Prop} me dir_lba buf w : vol_ok me -> zlen buf < 2 ^ 32 -> walk_ok w ->
  wpx X (entry_round me dir_lba buf w) (fun r => match r with
    | inl w' => walk_ok w' /\ wk_pos w < wk_pos w' /\ wk_pos w < zlen buf
    | inr w' => walk_ok w' end).
Proof.
  intros Hv Hbuf Hok. pose proof Hok as (Hpos&Hout&Hpend). unfold entry_round.
  destruct (Z.ltb_spec (wk_pos w) (zlen buf)); cbn [negb]; [|done].
  apply wp_bind, wp_at; [lia|]. intros b _. pose proof (u8_range b). destruct (Z.eqb_spec (u8 b) 0) as [|Hb0].
  { destruct (Z.leb_spec ((wk_pos w / is_block_size me + 1) * is_block_size me) (wk_pos w)); [done|].
    cbn [wpx wk_pos]. split; [|lia]. split; [cbn; lia|done]. }
  apply wp_bind, wp_ok_or. intros rec_ Hr%get_range_zlen. apply wp_bind, wp_ok_or. intros n _.
  apply wp_bind, wp_ok_or. intros fi Hfi%get_range_zlen. apply wp_bind, (wp_mono _ (fun _ => True)).
  { destruct (Z.eqb_spec (u8 n) 1); [|done]. by apply wp_bind, wp_at; [lia|]. }
  intros is_dot _. destruct is_dot. { cbn [wpx wk_pos]. split; [|lia]. split; [cbn; lia|done]. }
  apply wp_bind, wp_ok_or. intros flags _. apply wp_bind, wp_le_u32. intros lba Hl.
  apply wp_bind, wp_le_u32. intros size Hs. destruct (wk_pending w) as [[first i]|].
  - apply wp_bind. eapply wp_mono; [by apply add_extent_wp; [apply Hpend|apply Hpend|..]|]. cbn [wpx]. intros w' (Hp&?&?).
    split; [split_and!; [lia|done|done]|lia].
  - apply wp_bind. eapply wp_mono; [apply entry_of_wp; [done|lia|done|done]|]. intros e He.
    destruct (_ && _); cbn [wpx wk_pos]; (split; [split_and!; cbn; [lia| |]|lia]); try done.
    apply Forall_app. split; [done|]. by apply Forall_singleton.
Qed.

Lemma for_each_entry_wp {X : Prop} me dir : vol_ok me -> inode_ok dir ->
  wpx X (for_each_entry me dir) (Forall found_ok).
Proof.
  intros Hv Hi. unfold for_each_entry. apply wp_bind. eapply wp_mono; [by apply read_dir_extent_wp|].
  intros buf (_&Hz&_). pose proof (zlen_nonneg buf). apply wp_bind, (wp_mono _ walk_ok).
  - apply (wp_loop _ walk_ok (fun w => Z.max 0 (zlen buf - wk_pos w))); [by split_and!|cbn; lia|].
    intros w Hw. split; [lia|]. eapply wp_mono; [by apply iso_entry_round_wp|].
    intros [w'|w']; [|done]. intros (?&?&?). split; [done|lia].
  - intros w (_&Hout&_). by destruct (wk_pending w).
Qed.

Lemma el_torito_wp {X : Prop} me : iso_ok me -> wpx X (el_torito_uefi_image me) (fun _ => True).
Proof.
  intros [Hv Hbs Het _ _]. unfold el_torito_uefi_image. destruct (is_el_torito me) as [lba|]; [|done].
  pose proof (block_at lba me Het Hbs). apply wp_bind, wp_mulw; [lia|].
  apply wp_bind, wp_addw; [unfold VD_SIZE; lia|]. destruct (_ >? _); [done|].
  apply wp_bind, wp_read; [done|lia|done|]. intros cat _ Hz _.
  apply wp_bind. eapply wp_mono; [apply parse_catalog_wp; by rewrite Hz|].
  intros [img|]; [|done]. intros [Hl _]. destruct (_ <=? 1); [|done].
  pose proof (block_at (ui_lba img) me Hl Hbs). apply wp_bind, wp_mulw; [lia|]. apply wp_bind, wp_addw; [lia|].
  destruct (_ <=? _); [|done]. by apply wp_bind, wp_read; [done|lia|done|].
Qed.

(** *** zisofs *)

Lemma zisofs_ptr_wp {X : Prop} head i : 0 <= i -> 16 + i * 4 + 4 <= zlen head ->
  wpx X (zisofs_ptr head i) (fun p => 0 <= p < 2 ^ 32).
Proof. intros. unfold zisofs_ptr. apply wp_bind, wp_num4; [lia|lia|lia|]. by intros. Qed.

(** The blocks of a file of [uncompressed] bytes, and the one [cur] is in. *)
Lemma zisofs_block_of bs uncompressed cur : 0 < bs -> 0 <= cur < uncompressed ->
  let blk := cur / bs in
  0 <= blk < div_ceil uncompressed bs /\ 0 <= cur - blk * bs < Z.min bs (uncompressed - blk * bs).
Proof.
  intros Hbs Hc blk. pose proof (Z.div_mod cur bs ltac:(lia)). pose proof (Z.mod_pos_bound cur bs Hbs).
  pose proof (Z.div_pos cur bs ltac:(lia) Hbs). pose proof (div_ceil_ge uncompressed bs Hbs).
  unfold blk. split; [split; [done|nia]|lia].
Qed.

Lemma zisofs_round_wp {X : Prop} me head extent_off bs uncompressed want off produced buf :
  vol_ok me -> 0 <= extent_off < 2 ^ 48 -> 0 < bs <= 2 ^ 30 -> 0 <= uncompressed < 2 ^ 32 ->
  zlen head = 16 + (div_ceil uncompressed bs + 1) * 4 ->
  0 <= off -> 0 <= produced <= want -> want <= zlen buf -> off + want <= uncompressed -> zlen buf < 2 ^ 63 ->
  wpx X (zisofs_round me head extent_off bs uncompressed want (produced, off + produced, buf)) (fun r => match r with
    | inl (p', c', b') => produced < p' <= want /\ c' = off + p' /\ zlen b' = zlen buf
    | inr (p', b') => p' = produced /\ b' = buf end).
Proof.
  intros [Hv _] He Hbs Hu Hh Ho Hp Hw Hlim Hbuf. unfold zisofs_round.
  destruct (Z.ltb_spec produced want); cbn [negb]; [|done]. set (cur := off + produced).
  destruct (zisofs_block_of bs uncompressed cur ltac:(lia) ltac:(lia)) as [Hblk Hin]. cbn zeta in Hblk, Hin.
  set (blk := cur / bs) in *. set (ub := Z.min bs _) in *.
  apply wp_bind. eapply wp_mono; [apply zisofs_ptr_wp; lia|]. intros cstart Hcs. cbn beta in Hcs.
  apply wp_bind. eapply wp_mono; [apply zisofs_ptr_wp; lia|]. intros cend Hce. cbn beta in Hce.
  apply wp_bind, (wp_mono _ (fun _ => True)).
  { destruct (Z.leb_spec cend cstart); [done|]. apply wp_bind, wp_checked_full. intros _.
    apply wp_bind, wp_addw; [lia|]. apply wp_bind, wp_read; [done|lia|lia|]. intros cbuf _ _ _.
    apply wpx_weaken, returns_wp, decode_returns. lia. }
  intros d _. unfold saturating_sub. set (tk := Z.min _ _).
  pose proof (zlen_nonneg d). destruct (Z.eqb_spec tk 0); [done|].
  apply wp_bind, wp_slice; [lia|lia|]. replace (_ + tk - _) with tk by lia.
  assert (Hz : zlen (sub d (cur - blk * bs) tk) = tk) by (apply zlen_sub; lia).
  apply wp_bind, wp_write_at; [lia|lia|]. intros b' _ Hb'. cbn [wpx]. split; [lia|]. split; [lia|done].
Qed.

Lemma read_zisofs_wp {X : Prop} me i zi off buf : vol_ok me -> inode_ok i -> zf_ok (Some zi) ->
  0 <= off -> zlen buf < 2 ^ 63 ->
  wpx X (read_zisofs me i zi off buf) (fun '(n, b) => 0 <= n <= zlen buf /\ zlen b = zlen buf).
Proof.
  intros Hv Hi [Hu Hl2] Ho Hbuf. pose proof (zlen_nonneg buf). unfold read_zisofs. rewrite !Z.geb_leb.
  destruct (Z.leb_spec (uncompressed_size zi) off); [cbn; lia|].
  destruct (Z.leb_spec 31 (block_size_log2 zi)); [done|]. set (u := uncompressed_size zi) in *.
  assert (Hbs : shl_one (block_size_log2 zi) = Ok (2 ^ block_size_log2 zi)) by (apply shl_one_Ok; lia).
  rewrite Hbs. cbn [bindR]. set (bs := 2 ^ block_size_log2 zi).
  assert (Hb : 0 < bs <= 2 ^ 30) by (unfold bs; split; [lia|apply Z.pow_le_mono_r; lia]).
  assert (Hn : 0 <= div_ceil u bs <= u).
  { split; [apply div_ceil_nonneg; lia|]. destruct (div_ceil_spec u bs ltac:(lia) ltac:(lia)) as [?|[-> ->]]; nia. }
  apply wp_bind, wp_ok_or. intros tb [_ ->]%checked_mul_Some. apply wp_bind, wp_addw; [lia|].
  apply wp_bind, wp_checked_full. intros _. pose proof (block_at _ _ (io_lba i Hi) (proj2 Hv)).
  apply wp_bind, wp_mulw; [lia|]. apply wp_bind, wp_read; [apply Hv|lia|lia|]. intros head _ Hh _.
  apply wp_bind, wp_slice; [lia|lia|]. destruct (negb _); [done|]. set (want := Z.min _ _).
  apply (wp_loop _ (fun '(p, c, b) => 0 <= p <= want /\ c = off + p /\ zlen b = zlen buf) (fun s => want - s.1.1)).
  - cbn. split_and!; [lia|lia|lia|done].
  - cbn. lia.
  - intros [[p c] b] (Hp&->&Hb'). cbn [fst snd]. split; [lia|].
    eapply wp_mono; [apply (zisofs_round_wp me head _ bs u want off p b Hv); lia|].
    intros [[[p' c'] b']|[p' b']].
    + intros (?&->&?). cbn [fst snd]. split; [split_and!; [lia|lia|done|congruence]|lia].
    + intros [-> ->]. split; [lia|done].
Qed.

(** *** Extents *)

(** The bytes of a file: its extents, one behind the other. *)
Definition extent_bytes me (e : Z * Z) : list byte :=
  region (src_byte (is_src me)) (e.1 * is_block_size me) e.2.
Definition extents_bytes me (ex : list (Z * Z)) : list byte := concat (extent_bytes me <$> ex).

Lemma zlen_extents_bytes me ex : Forall extent_ok ex -> zlen (extents_bytes me ex) = extents_len ex.
Proof.
  induction 1 as [|e ex [_ ?] _ IH]; [done|]. change (extents_len (e :: ex)) with (e.2 + extents_len ex).
  unfold extents_bytes in *. cbn [fmap list_fmap concat]. rewrite zlen_app, IH. unfold extent_bytes.
  by rewrite zlen_region by lia.
Qed.

Lemma iso_read_extents_wp {X : Prop} me off n ex : vol_ok me -> Forall extent_ok ex ->
  forall start done_ buf, 0 <= off -> 0 <= done_ <= n -> n <= zlen buf -> zlen buf < 2 ^ 63 ->
  0 <= start -> off + n < 2 ^ 63 -> start + extents_len ex < 2 ^ 63 ->
  (done_ < n -> start <= off + done_) -> off + n <= start + extents_len ex ->
  wpx X (read_extents me off n ex start done_ buf) (fun '(r, b) =>
    r = n /\ zlen b = zlen buf /\ drop (Z.to_nat n) b = drop (Z.to_nat n) buf /\
    sub b 0 n = sub buf 0 done_ ++ sub (extents_bytes me ex) (off + done_ - start) (n - done_)).
Proof.
  intros [Hv Hbs] Hex. induction Hex as [|[lba len] ex He Hex IH];
    intros start done_ buf Ho Hd Hn Hbuf Hs Hlim Hlim2 Hcur Hfit; cbn [read_extents].
  { change (extents_len []) with 0 in Hfit. cbn [wpx].
    destruct (decide (done_ = n)) as [->|]; [|lia]. by rewrite Z.sub_diag, sub_nil, app_nil_r. }
  change (extents_len ((lba, len) :: ex)) with (len + extents_len ex) in *.
  destruct (He) as [Hlba Hlen]. cbn [fst snd] in Hlba, Hlen. pose proof (extents_len_range ex Hex) as Hxl.
  apply wp_bind, wp_addw; [lia|]. destruct (Z.eqb_spec done_ n) as [->|Hne].
  { cbn [wpx]. by rewrite Z.sub_diag, sub_nil, app_nil_r. }
  apply wp_bind, wp_addw; [lia|].
  assert (Hcons : extents_bytes me ((lba, len) :: ex) = extent_bytes me (lba, len) ++ extents_bytes me ex) by done.
  assert (Hez : zlen (extent_bytes me (lba, len)) = len) by (unfold extent_bytes; cbn; apply zlen_region; lia).
  rewrite Hcons. destruct (Z.ltb_spec (off + done_) (start + len)).
  - apply wp_bind, wp_subw; [lia|]. apply wp_bind, wp_subw; [lia|]. set (within := off + done_ - start).
    set (tk := Z.min _ _). pose proof (block_at lba me Hlba Hbs). apply wp_bind, wp_mulw; [lia|].
    apply wp_bind, wp_addw; [lia|]. apply wp_bind, wp_read_into; [done|lia|lia|lia|done|].
    intros b1 _ Hz1 _ Hb1. replace (done_ + tk - done_) with tk in Hb1 by lia.
    set (piece := region _ _ tk) in *. assert (Hp : zlen piece = tk) by (apply zlen_region; lia).
    assert (Hb1s : sub b1 0 (done_ + tk) = sub buf 0 done_ ++ piece /\
      drop (Z.to_nat (done_ + tk)) b1 = drop (Z.to_nat (done_ + tk)) buf).
    {
      assert (Hzz : zlen (sub buf 0 done_ ++ piece) = done_ + tk) by (rewrite zlen_app, zlen_sub by lia; lia).
      rewrite Hb1, app_assoc. set (tail := drop _ buf). rewrite <- Hzz. by rewrite sub_0_app, drop_zlen_app. }
    destruct Hb1s as [Hs1 Hd1].
    eapply wp_mono; [apply (IH (start + len) (done_ + tk) b1); lia|]. intros [r b] (->&Hz&Hd2&Hs2).
    split; [done|]. split; [congruence|]. split.
    + rewrite Hd2. replace n with (done_ + tk + (n - done_ - tk)) by lia.
      rewrite Z2Nat.inj_add, <- !drop_drop, Hd1 by lia. done.
    + rewrite Hs2, Hs1, <- app_assoc. f_equal. replace (n - done_) with (tk + (n - (done_ + tk))) by lia.
      rewrite <- sub_app_split by lia. f_equal.
      * rewrite sub_app_l by lia. unfold piece, extent_bytes. cbn [fst snd]. by rewrite sub_region by lia.
      * destruct (decide (n = done_ + tk)) as [E|];
          [replace (n - (done_ + tk)) with 0 by lia; by rewrite !sub_nil|].
        rewrite sub_app_r by lia. f_equal. lia.
  - eapply wp_mono; [apply (IH (start + len) done_ buf); lia|]. intros [r b] (->&Hz&Hd2&Hs2).
    split_and!; [done|done|done|]. rewrite Hs2. f_equal. rewrite sub_app_r by lia. f_equal. lia.
Qed.

(** On a reliable medium that has the extents, the read succeeds. *)
Lemma read_extents_Ok `{!ReliableSource S} me off n ex : vol_ok me -> Forall extent_ok ex ->
  Forall (fun e => e.1 * is_block_size me + e.2 <= src_len (is_src me)) ex ->
  forall start done_ buf, 0 <= off -> 0 <= done_ <= n -> n <= zlen buf ->
  0 <= start -> off + n < 2 ^ 63 -> start + extents_len ex < 2 ^ 63 ->
  (done_ < n -> start <= off + done_) ->
  exists r, read_extents me off n ex start done_ buf = Ok r.
Proof.
  intros [Hv Hbs] Hex. induction Hex as [|[lba len] ex He Hex IH];
    intros Hin start done_ buf Ho Hd Hn Hs Hlim Hlim2 Hcur; cbn [read_extents]; [by eexists|].
  apply Forall_cons in Hin as [Hie Hin]. cbn [fst snd] in Hie. destruct (He) as [Hlba Hlen]. cbn [fst snd] in Hlba, Hlen.
  change (extents_len ((lba, len) :: ex)) with (len + extents_len ex) in *.
  pose proof (extents_len_range ex Hex). rewrite addw_eq by lia. cbn [bindR].
  destruct (Z.eqb_spec done_ n); [by eexists|]. rewrite addw_eq by lia. cbn [bindR].
  destruct (Z.ltb_spec (off + done_) (start + len)); [|apply IH; done || lia].
  rewrite !subw_eq by lia. cbn [bindR]. rewrite subw_eq by lia. cbn [bindR]. set (tk := Z.min _ _).
  pose proof (block_at lba me Hlba Hbs). rewrite mulw_eq by lia. cbn [bindR]. rewrite addw_eq by lia. cbn [bindR].
  rewrite read_into_eq by (done || lia).
  destruct (write_at buf done_ (region (src_byte (is_src me)) (lba * is_block_size me + (off + done_ - start))
    (done_ + tk - done_))) as [b1|e| | |] eqn:Hw.
  { apply write_at_zlen in Hw as Hz. cbn [bindR]. apply IH; done || lia. }
  all: rewrite write_at_eq in Hw by (rewrite ?zlen_region; lia); done.
Qed.

(** Reading a file that is not a zisofs one, inside its size. *)
Lemma iso_read_at_wp {X : Prop} me node off buf i : iso_ok me -> inode me node = Ok i ->
  in_kind i <> Directory -> in_zisofs i = None -> 0 <= off < in_size i -> zlen buf < 2 ^ 63 ->
  let n := Z.min (zlen buf) (in_size i - off) in
  wpx X (iso_read_at me node off buf) (fun '(r, b) => r = n /\ zlen b = zlen buf /\
    sub b 0 n = sub (extents_bytes me (in_extents i)) off n /\ drop (Z.to_nat n) b = drop (Z.to_nat n) buf).
Proof.
  intros Hok Hi Hk Hz Ho Hbuf n. pose proof (node_in_Forall _ _ _ _ (ok_nodes _ Hok) Hi) as Hio.
  pose proof (inode_size i Hio). pose proof (zlen_nonneg buf). unfold iso_read_at. rewrite Hi. cbn [bindR].
  rewrite bool_decide_eq_false_2, Hz by done. rewrite Z.geb_leb, (proj2 (Z.leb_gt _ _)) by lia. fold n.
  eapply wp_mono; [apply iso_read_extents_wp; [by destruct Hok|apply Hio|rewrite <- ?(io_size i Hio); lia..]|].
  intros [r b] (->&Hzb&Hd&Hs). split_and!; [done|done| |done].
  rewrite Hs, sub_nil. cbn [app]. f_equal; lia.
Qed.

(** *** Mounting *)

Definition scan_ok (sc : Scan) : Prop :=
  0 < sc_block_size sc < 2 ^ 16 /\
  match sc_el_torito sc with Some lba => 0 <= lba < 2 ^ 32 | None => True end /\
  match sc_pvd_root sc with Some i => inode_ok i | None => True end /\
  match sc_joliet_root sc with Some i => inode_ok i | None => True end.

Lemma descriptor_wp {X : Prop} vd sc : zlen vd = 2048 -> scan_ok sc ->
  wpx X (descriptor vd sc) (fun r => match r with Some sc => scan_ok sc | None => True end).
Proof.
  intros Hvd Hok. pose proof Hok as (Hbs&Het&Hp&Hj). unfold descriptor, JOLIET_ESCAPE_OFFSET.
  apply wp_bind, wp_slice; [lia|lia|]. destruct (negb _); [done|].
  apply wp_bind, wp_at; [lia|]. intros ty _. destruct (_ =? VD_TYPE_PRIMARY).
  { apply wp_bind, wp_le_field. intros bs Hb _. change (256 ^ 2) with (2 ^ 16) in Hb.
    destruct (Z.eqb_spec bs 0); [done|]. apply wp_bind. eapply wp_mono; [apply root_record_wp|].
    intros i Hi. cbn [wpx]. split; [cbn; lia|done]. }
  destruct (_ =? VD_TYPE_BOOT_RECORD).
  { case_bool_decide; [|done]. apply wp_bind, wp_le_u32. intros lba Hl. cbn [wpx]. by split. }
  destruct (_ =? VD_TYPE_SUPPLEMENTARY).
  { apply wp_bind, wp_slice; [lia|lia|]. assert (Hz : zlen (sub vd 88 (88 + 3 - 88)) = 3) by (apply zlen_sub; lia).
    apply wp_bind, wp_slice; [lia|lia|]. apply wp_bind, wp_at; [lia|]. intros level _.
    destruct (_ && _); [|done]. apply wp_bind. eapply wp_mono; [apply root_record_wp|].
    intros i Hi. cbn [wpx]. split; [cbn; lia|done]. }
  by destruct (_ =? _).
Qed.

Lemma scan_wp {X : Prop} (src : S) : src_valid src ->
  wpx X (loop (scan_round src) (0, mkScan 2048 None None None)) scan_ok.
Proof.
  intros Hv. apply (wp_loop _ (fun '(i, sc) => 0 <= i <= MAX_VD_SCAN /\ scan_ok sc) (fun s => MAX_VD_SCAN - s.1)); [done|done|].
  intros [i sc] [Hi Hok]. cbn [fst]. split; [lia|]. unfold scan_round.
  destruct (Z.ltb_spec i MAX_VD_SCAN); cbn [negb]; [|done].
  assert (Hoff : 0 <= VD_REGION_OFFSET + i * VD_SIZE < 2 ^ 64) by (unfold VD_REGION_OFFSET, VD_SIZE, MAX_VD_SCAN in *; lia).
  destruct (_ >? _); [done|]. apply wp_bind, wp_read; [done|done|done|]. intros vd _ Hz _.
  apply wp_bind. eapply wp_mono; [by apply descriptor_wp|]. intros [sc'|]; [|done]. cbn [wpx fst].
  intros Hsc. split; [split; [lia|done]|lia].
Qed.

(** What a call may do to the volume: more nodes, every handle kept. *)
Record extends me me' : Prop := mkExtends {
  ex_with : exists t, me' = with_tables me t;
  ex_nodes : is_nodes me `prefix_of` is_nodes me';
  ex_keys : is_by_record me ⊆ is_by_record me';
}.

Lemma iso_extends_refl me : extends me me.
Proof. constructor; [|done|done]. exists (is_nodes me, is_by_record me). by destruct me. Qed.
Lemma iso_extends_trans me1 me2 me3 : extends me1 me2 -> extends me2 me3 -> extends me1 me3.
Proof.
  intros [[t ->] ? ?] [[t' ->] ? ?]. constructor; [by exists t'|by etrans|by etrans].
Qed.
Lemma iso_extends_inode me me' node i : extends me me' -> inode me node = Ok i -> inode me' node = Ok i.
Proof. intros Hx. apply node_in_prefix, Hx. Qed.
Lemma iso_extends_src me me' : extends me me' -> is_src me' = is_src me.
Proof. by intros [[t ->] _ _]. Qed.

(** [id] is the handle of the directory record of [i], and stands for an inode that
    came from it. *)
Definition handle_of me (i : Inode) (id : NodeId) : Prop :=
  is_by_record me !! in_key i = Some id /\ exists i', inode me id = Ok i' /\ in_key i' = in_key i /\ inode_ok i'.

Lemma handle_of_extends me me' i id : extends me me' -> handle_of me i id -> handle_of me' i id.
Proof.
  intros Hx (Hk&i'&Hi&?). split; [by eapply lookup_weaken, Hx|]. exists i'. split; [by eapply iso_extends_inode|done].
Qed.

Lemma iso_intern_ok me i : iso_ok me -> inode_ok i ->
  exists id me', intern i me = (Ok id, me') /\ iso_ok me' /\ extends me me' /\ handle_of me' i id /\
    (is_by_record me !! in_key i = None -> inode me' id = Ok i) /\
    (forall k, k <> in_key i -> is_by_record me' !! k = is_by_record me !! k).
Proof.
  intros [Hv Hbs Het Hn Ht] Hi. pose proof (intern_in_ok _ _ _ (in_key i) i Ht eq_refl) as Hin. unfold intern.
  assert (Hnew : is_by_record me !! in_key i = None ->
    intern_in (is_nodes me) (is_by_record me) (in_key i) i =
    (zlen (is_nodes me), (is_nodes me ++ [i], <[in_key i := zlen (is_nodes me)]> (is_by_record me))))
    by (intros E; unfold intern_in; by rewrite E).
  assert (Hother : forall k, k <> in_key i ->
    (intern_in (is_nodes me) (is_by_record me) (in_key i) i).2.2 !! k = is_by_record me !! k).
  { intros k Hk. unfold intern_in. destruct (_ !! in_key i); [done|]. by apply lookup_insert_ne. }
  destruct (intern_in _ _ _ _) as [id [nodes keys]]. destruct Hin as (Htab&Hpre&Hsub&Hr&HF).
  exists id, (with_tables me (nodes, keys)). split; [done|]. split.
  { constructor; cbn; try done. by apply HF. }
  split. { constructor; [by eexists|done|done]. }
  destruct (tb_known _ _ _ Htab _ _ Hr) as (i'&Hi'&Hk). split; [|split; [|exact Hother]].
  - split; [done|]. exists i'. split; [done|]. split; [done|]. eapply node_in_Forall; [|exact Hi']. by apply HF.
  - intros E. specialize (Hnew E). injection Hnew as -> -> ->. unfold inode. cbn. apply ok_or_Ok, get_Some.
    split; [apply zlen_nonneg|]. apply list_lookup_middle. unfold zlen. lia.
Qed.

Lemma iso_open_wp {X : Prop} (src : S) : src_valid src ->
  wpx X (iso_open src) (fun me => iso_ok me /\ is_src me = src).
Proof.
  intros Hv. unfold iso_open. apply wp_bind. eapply wp_mono; [by apply scan_wp|].
  intros sc (Hbs&Het&Hp&Hj). apply wp_bind, wp_ok_or. intros root Hroot. rewrite Hroot in Hp.
  apply wp_bind. eapply wp_mono; [apply detect_susp_wp; [by split|done]|]. intros susp _.
  assert (Hin : forall rr skip joliet r, inode_ok r ->
    wpx X (let (id, me) := intern r (mkIso src (sc_block_size sc) [] ∅ rr skip joliet (sc_el_torito sc)) in
           let! _ := id in Ok me) (fun me => iso_ok me /\ is_src me = src)).
  { intros rr skip joliet r Hr. set (me := mkIso _ _ _ _ _ _ _ _).
    assert (Hok : iso_ok me) by (constructor; [done|done|done|constructor|apply table_ok_empty]).
    destruct (iso_intern_ok me r Hok Hr) as (id&me'&->&Hok'&Hx&_). cbn [bindR wpx].
    split; [done|]. by rewrite (iso_extends_src _ _ Hx). }
  destruct susp; [by apply Hin|]. destruct (sc_joliet_root sc); by apply Hin.
Qed.

(** *** Listing *)

(** Entry [e] of a listing stands for the directory record [x] came from. *)
Definition listed_as me (x : name * Inode) (e : DirEntry) : Prop :=
  de_name e = x.1 /\ de_kind e = in_kind x.2 /\ handle_of me x.2 (de_node e).

Lemma intern_collected_ok es : forall me out, iso_ok me -> Forall found_ok es ->
  exists es' me', intern_collected es out me = (Ok (out ++ es'), me') /\ iso_ok me' /\ extends me me' /\
    Forall2 (listed_as me') es es'.
Proof.
  induction es as [|[nm i] es IH]; intros me out Hok Hes; cbn [intern_collected].
  { exists [], me. rewrite app_nil_r. split; [done|]. split; [done|]. split; [apply iso_extends_refl|done]. }
  apply Forall_cons in Hes as [[Hi _] Hes]. destruct (iso_intern_ok me i Hok Hi) as (id&me1&E&Hok1&Hx1&Hh&_).
  unfold bindST at 1. rewrite E.
  destruct (IH me1 (out ++ [mkDirEntry nm id (in_kind i)]) Hok1 Hes) as (es'&me2&->&Hok2&Hx2&HF).
  exists (mkDirEntry nm id (in_kind i) :: es'), me2. split; [by rewrite <- app_assoc|]. split; [done|].
  split; [by eapply iso_extends_trans|]. constructor; [|done]. split; [done|]. split; [done|].
  by eapply handle_of_extends.
Qed.

(** A call that fails or finds nothing leaves the volume as it is. *)
Lemma iso_stays {A} me (r : Res A) (P : Iso9660 S -> A -> Prop) : iso_ok me -> wpx False r (P me) ->
  exists r' me', (r, me) = (r', me') /\ iso_ok me' /\ extends me me' /\ wpx False r' (P me').
Proof. intros Hok Hr. exists r, me. split; [done|]. split; [done|]. split; [apply iso_extends_refl|done]. Qed.

(** A record met for the first time gets its own inode. *)
Lemma intern_collected_fresh es : forall me out r me', iso_ok me -> Forall found_ok es ->
  NoDup (in_key <$> (snd <$> es)) -> intern_collected es out me = (Ok (out ++ r), me') ->
  Forall2 (fun x e => is_by_record me !! in_key x.2 = None -> inode me' (de_node e) = Ok x.2) es r.
Proof.
  induction es as [|[nm i] es IH]; intros me out r me' Hok Hes Hnd; cbn [intern_collected].
  { intros [= E _]. rewrite <- (app_nil_r out) in E at 1. apply app_inv_head in E. by subst. }
  apply Forall_cons in Hes as [[Hi _] Hes]. cbn [fmap list_fmap snd] in Hnd. apply NoDup_cons in Hnd as [Hni Hnd].
  destruct (iso_intern_ok me i Hok Hi) as (id&me1&E&Hok1&Hx1&Hh&Hnew&Hother).
  unfold bindST at 1. rewrite E.
  destruct (intern_collected_ok es me1 (out ++ [mkDirEntry nm id (in_kind i)]) Hok1 Hes) as (es'&me2&E2&_&Hx2&_).
  intros Hr. pose proof Hr as Hr'. rewrite E2 in Hr'. injection Hr' as Hout ->. rewrite <- app_assoc in Hout.
  apply app_inv_head in Hout. subst r. constructor.
  - cbn [snd de_node]. intros Hf. eapply iso_extends_inode; [done|]. by apply Hnew.
  - pose proof (IH me1 _ es' me' Hok1 Hes Hnd E2) as HF. apply Forall2_same_length_lookup_2; [by eapply Forall2_length|].
    intros j x e Hx He Hf. apply (Forall2_lookup_lr _ _ _ _ _ _ HF Hx He). rewrite Hother; [done|].
    intros Ek. apply Hni. rewrite <- Ek. apply list_elem_of_fmap. exists x.2. split; [done|].
    apply list_elem_of_fmap. exists x. split; [done|]. by eapply list_elem_of_lookup_2.
Qed.

Lemma iso_read_dir_ok me dir : iso_ok me ->
  exists r me', iso_read_dir dir me = (r, me') /\ iso_ok me' /\ extends me me' /\
    wpx False r (fun es => exists i l, inode me dir = Ok i /\ in_kind i = Directory /\
      for_each_entry me i = Ok l /\ Forall2 (listed_as me') l es).
Proof.
  intros Hok. unfold iso_read_dir. unfold bindST at 1, getST. unfold bindST at 1, liftR at 1.
  pose proof (node_in_wp (X := False) inode_ok _ dir (ok_nodes _ Hok)) as Hi. fold (inode me dir) in Hi.
  destruct (inode me dir) as [i|e| | |] eqn:Ei; try done; [|by apply iso_stays].
  case_bool_decide as Hk; cbn [negb]; [|by apply iso_stays].
  assert (Hv : vol_ok me) by (by destruct Hok). pose proof (for_each_entry_wp (X := False) me i Hv Hi) as Hl.
  unfold bindST, liftR. destruct (for_each_entry me i) as [l|e| | |] eqn:El; try done; [|by apply iso_stays].
  destruct (intern_collected_ok l me [] Hok Hl) as (es&me'&E&Hok'&Hx&HF). exists (Ok es), me'.
  split; [done|]. split; [done|]. split; [done|]. by exists i, l.
Qed.

Lemma iso_lookup_ok me dir nm : iso_ok me ->
  exists r me', iso_lookup dir nm me = (r, me') /\ iso_ok me' /\ extends me me' /\
    wpx False r (fun o => exists i l, inode me dir = Ok i /\ in_kind i = Directory /\
      for_each_entry me i = Ok l /\
      match o with
      | Some id => exists e, snd <$> list_find (fun e => e.1 = nm) l = Some e /\ handle_of me' e.2 id
      | None => snd <$> list_find (fun e => e.1 = nm) l = None
      end).
Proof.
  intros Hok. unfold iso_lookup. unfold bindST at 1, getST. unfold bindST at 1, liftR at 1.
  pose proof (node_in_wp (X := False) inode_ok _ dir (ok_nodes _ Hok)) as Hi. fold (inode me dir) in Hi.
  destruct (inode me dir) as [i|e| | |] eqn:Ei; try done; [|by apply iso_stays].
  case_bool_decide as Hk; cbn [negb]; [|by apply iso_stays].
  assert (Hv : vol_ok me) by (by destruct Hok). pose proof (for_each_entry_wp (X := False) me i Hv Hi) as Hl.
  unfold bindST, liftR. destruct (for_each_entry me i) as [l|e| | |] eqn:El; try done; [|by apply iso_stays].
  destruct (list_find _ l) as [[j e]|] eqn:Ef; cbn [fmap option_fmap option_map snd].
  - apply list_find_Some in Ef as Hf. destruct Hf as (Hj&_&_).
    destruct (iso_intern_ok me e.2 Hok (proj1 (Forall_lookup_1 _ _ _ _ Hl Hj))) as (id&me'&->&Hok'&Hx&Hh&_).
    exists (Ok (Some id)), me'. split; [done|]. split; [done|]. split; [done|]. exists i, l.
    split; [done|]. split; [done|]. split; [done|]. exists e. by rewrite Ef.
  - apply iso_stays; [done|]. exists i, l. by rewrite Ef.
Qed.
End Laws.

(** ** States *)

(** The states a volume over [src] goes through: mounted, then listed and searched
    any number of times. *)
Inductive Mounted {D : Decoders} {S} `{BlockSource S} (src : S) : Iso9660 S -> Prop :=
| Mounted_open me : iso_open src = Ok me -> Mounted src me
| Mounted_read_dir me dir : Mounted src me -> Mounted src (iso_read_dir dir me).2
| Mounted_lookup me dir nm : Mounted src me -> Mounted src (iso_lookup dir nm me).2.

Section Reached.
Context {D : Decoders} {DL : DecoderLaws D} {S : Type} `{SourceLaws S}.
Implicit Types (src : S) (me : Iso9660 S).

Lemma iso_mounted_ok src me : src_valid src -> Mounted src me -> iso_ok me /\ is_src me = src.
Proof.
  intros Hv. induction 1 as [me Ho|me dir _ [Hok Hsrc]|me dir nm _ [Hok Hsrc]].
  - by apply (wp_Ok _ _ _ (iso_open_wp (X := False) src Hv)).
  - destruct (iso_read_dir_ok me dir Hok) as (r&me'&->&?&Hx&_). cbn [snd]. by rewrite (iso_extends_src _ _ Hx).
  - destruct (iso_lookup_ok me dir nm Hok) as (r&me'&->&?&Hx&_). cbn [snd]. by rewrite (iso_extends_src _ _ Hx).
Qed.
End Reached.
