(* ===== verification/IsoSpec.v ===== *)
(** * What an ISO 9660 volume holds

    The on-disk formats from the writer's side: Rock Ridge entries over chained
    areas, zisofs files and packed directories; and that the frontend of [Iso.v]
    reads them back, with its totality and the contents of files. *)
From S2P Require Import Prelude Text Cache Substrate Path Codec Nodes RockRidge ElTorito Iso.
Open Scope Z_scope.

(** ** Any medium *)

Section Properties.
Context {D : Decoders} {DL : DecoderLaws D} {S : Type} `{SourceLaws S}.
Implicit Types (src : S) (me : Iso9660 S).

(** The operations a path goes through come back. *)
Lemma walk_ops_return me node nm : iso_ok me ->
  returns (iso_read_dir node me).1 /\ returns (iso_lookup node nm me).1 /\
  returns (iso_metadata me node) /\ returns (iso_read_link me node).
Proof.
  intros Hok. split_and!.
  - destruct (iso_read_dir_ok me node Hok) as (r&me'&->&_&_&Hw). by eapply wp_returns.
  - destruct (iso_lookup_ok me node nm Hok) as (r&me'&->&_&_&Hw). by eapply wp_returns.
  - apply returns_bindR; [apply returns_ok_or|done].
  - apply returns_bindR; [apply returns_ok_or|done].
Qed.

(** At any handle and offset a read comes back and moves at most a buffer. *)
Lemma iso_read_moves {X : Prop} me node off buf : iso_ok me -> 0 <= off -> zlen buf < 2 ^ 63 ->
  wpx X (iso_read_at me node off buf) (fun '(n, b) => 0 <= n <= zlen buf /\ zlen b = zlen buf).
Proof.
  intros Hok Hoff Hbuf. pose proof (zlen_nonneg buf). destruct (inode me node) as [i|e| | |] eqn:Ei;
    [|unfold iso_read_at; rewrite Ei; done|unfold inode, node_in in Ei; by destruct (get _ _)..].
  pose proof (node_in_Forall _ _ _ _ (ok_nodes _ Hok) Ei) as Hio.
  destruct (decide (in_kind i = Directory)) as [Hk|Hk].
  { unfold iso_read_at. rewrite Ei. cbn [bindR]. by rewrite bool_decide_eq_true_2. }
  destruct (in_zisofs i) as [zi|] eqn:Ez.
  { unfold iso_read_at. rewrite Ei. cbn [bindR]. rewrite bool_decide_eq_false_2, Ez by done.
    apply read_zisofs_wp; try done; [by destruct Hok|]. rewrite <- Ez. apply Hio. }
  destruct (Z.le_gt_cases (in_size i) off) as [Hge|Hlt].
  { unfold iso_read_at. rewrite Ei. cbn [bindR].
    rewrite bool_decide_eq_false_2, Ez, Z.geb_leb, (proj2 (Z.leb_le _ _)) by done. cbn [wpx]. lia. }
  eapply wp_mono; [by apply (iso_read_at_wp me node off buf i)|]. intros [n b] (->&?&_). lia.
Qed.

(** C28.  On any medium, with any decompressor that keeps to its output limit,
    probing, mounting an ISO 9660 volume and listing, searching, asking for metadata,
    link targets and the UEFI boot image and reading, in any order and at any handle
    and offset, comes back: nothing panics, no sum or product of on-disk fields
    leaves its type, and every loop over on-disk structures ends. *)
Theorem iso_total src : src_valid src ->
  returns (iso_probe src) /\ returns (iso_open src) /\
  forall me, Mounted src me -> forall node off buf nm, 0 <= off -> zlen buf < 2 ^ 63 ->
    returns (iso_read_dir node me).1 /\ returns (iso_lookup node nm me).1 /\
    returns (iso_metadata me node) /\ returns (iso_read_link me node) /\
    returns (el_torito_uefi_image me) /\ returns (iso_read_at me node off buf).
Proof.
  intros Hv. split; [|split; [by eapply wp_returns, iso_open_wp|]].
  { apply (wp_returns _ (fun _ => True)). unfold iso_probe. destruct (Z.ltb_spec (src_len src) (VD_REGION_OFFSET + 8)); [done|].
    apply wp_bind, wp_read; [done|done|done|]. intros b _ Hz _. by apply wp_bind, wp_slice; [lia|lia|]. }
  intros me Hm node off buf nm Hoff Hbuf. apply (iso_mounted_ok src me Hv) in Hm as [Hok _].
  destruct (walk_ops_return me node nm Hok) as (?&?&?&?). split_and!; try done.
  - by eapply wp_returns, el_torito_wp.
  - by eapply wp_returns, iso_read_moves.
Qed.

(** On a medium that has the extents the read succeeds. *)
Lemma iso_read_in_range `{!ReliableSource S} me node off buf i :
  iso_ok me -> inode me node = Ok i -> in_kind i <> Directory -> in_zisofs i = None ->
  0 <= off < in_size i -> zlen buf < 2 ^ 63 ->
  Forall (fun e => e.1 * is_block_size me + e.2 <= src_len (is_src me)) (in_extents i) ->
  let n := Z.min (zlen buf) (in_size i - off) in
  exists b, iso_read_at me node off buf = Ok (n, b) /\ zlen b = zlen buf /\
    sub b 0 n = sub (extents_bytes me (in_extents i)) off n /\
    drop (Z.to_nat n) b = drop (Z.to_nat n) buf.
Proof.
  intros Hok Hi Hk Hz Ho Hbuf Hin n. pose proof (node_in_Forall _ _ _ _ (ok_nodes _ Hok) Hi) as Hio.
  pose proof (iso_read_at_wp (X := False) me node off buf i Hok Hi Hk Hz Ho Hbuf) as Hw. cbn zeta in Hw. fold n in Hw.
  pose proof (inode_size i Hio). pose proof (zlen_nonneg buf).
  destruct (read_extents_Ok me off n (in_extents i) ltac:(by destruct Hok) (io_extents i Hio) Hin 0 0 buf)
    as [[r b] Hr]; try lia.
  { rewrite <- (io_size i Hio). lia. }
  exists b. revert Hw. unfold iso_read_at. rewrite Hi. cbn [bindR]. rewrite bool_decide_eq_false_2, Hz by done.
  rewrite Z.geb_leb, (proj2 (Z.leb_gt _ _)) by lia. fold n. rewrite Hr. by intros (->&?&?&?).
Qed.

(** C24.  Reading a file at an offset inside its size fills the buffer, up to the end
    of the file, with its bytes from there on: its extents, one or thousands, one
    behind the other, whichever of them the window starts, ends and crosses in; the
    rest of the buffer is untouched.  On a medium that has the extents and no device
    errors it succeeds. *)
Theorem iso_read_at_content src me node off buf i :
  src_valid src -> Mounted src me -> inode me node = Ok i -> in_kind i <> Directory -> in_zisofs i = None ->
  0 <= off < in_size i -> zlen buf < 2 ^ 63 ->
  let c := extents_bytes me (in_extents i) in
  let n := Z.min (zlen buf) (in_size i - off) in
  zlen c = in_size i /\ returns (iso_read_at me node off buf) /\
  (forall r b, iso_read_at me node off buf = Ok (r, b) ->
     r = n /\ sub b 0 n = sub c off n /\ drop (Z.to_nat n) b = drop (Z.to_nat n) buf) /\
  (ReliableSource S ->
   Forall (fun e => e.1 * is_block_size me + e.2 <= src_len src) (in_extents i) ->
   exists b, iso_read_at me node off buf = Ok (n, b)).
Proof.
  intros Hv Hm Hi Hk Hz Ho Hbuf c n. apply (iso_mounted_ok src me Hv) in Hm as [Hok Hsrc].
  pose proof (node_in_Forall _ _ _ _ (ok_nodes _ Hok) Hi) as Hio.
  pose proof (iso_read_at_wp (X := False) me node off buf i Hok Hi Hk Hz Ho Hbuf) as Hw. cbn zeta in Hw. fold n in Hw.
  split; [unfold c; rewrite zlen_extents_bytes by apply Hio; symmetry; apply Hio|].
  split; [by eapply wp_returns|]. split.
  { intros r b Hb. destruct (wp_Ok _ _ _ Hw Hb) as (?&_&?&?). done. }
  intros HR Hin. rewrite <- Hsrc in Hin.
  destruct (iso_read_in_range me node off buf i Hok Hi Hk Hz Ho Hbuf Hin) as (b&Hr&_). by exists b.
Qed.
End Properties.

(** ** Rock Ridge areas on the medium *)

Section Chain.
Context {S : Type} `{SourceLaws S}.
Implicit Types me : Iso9660 S.

(** The entries [items] of a record, and the continuation areas [rest], each where
    the [CE] of the area before it says. *)
Fixpoint chained me (items : list Item) (rest : list (list Item)) : Prop :=
  Forall item_ok items /\
  match rest with
  | [] => foldl item_next None items = None
  | area :: rest' => exists ce tail, foldl item_next None items = Some ce /\ area_end tail /\
      0 < ce_len ce <= is_block_size me /\
      ce_block ce * is_block_size me + ce_offset ce + ce_len ce <= src_len (is_src me) /\
      region (src_byte (is_src me)) (ce_block ce * is_block_size me + ce_offset ce) (ce_len ce) = area_bytes area ++ tail /\
      chained me area rest'
  end.

Lemma chained_items me items rest : chained me items rest -> Forall item_ok items.
Proof. by destruct rest; intros [? _]. Qed.

Lemma chained_LoopsTo `{!ReliableSource S} me rest : vol_ok me -> forall items p hops,
  chained me items rest -> info_ok (rp_info p) -> 0 <= hops -> hops + zlen rest <= MAX_CONTINUATIONS ->
  LoopsTo (ce_round me) (foldl add_item p items, foldl item_next None items, hops)
    (Ok (finish (foldl add_item p (items ++ concat rest)))).
Proof.
  intros [Hv Hbs]. induction rest as [|area rest IH]; intros items p hops [Hok Hc] Hz Hh Hlim; cbn [concat].
  - apply LoopsTo_break. rewrite app_nil_r. unfold ce_round. by rewrite Hc.
  - destruct Hc as (ce&tail&Hce&Ht&Hlen&Hin&Hreg&Hc). pose proof (items_next_ok items None Hok I) as Hceok.
    rewrite zlen_cons in Hlim. pose proof (zlen_nonneg rest).
    rewrite foldl_app. set (q := foldl add_item p items).
    assert (Hq : info_ok (rp_info q)) by (by apply items_info_ok).
    eapply LoopsTo_round; [|apply (IH area q (hops + 1)); done || lia].
    unfold ce_round. rewrite Hce in *. destruct Hceok as (Hb&Ho&Hl). pose proof (block_at _ me Hb Hbs).
    rewrite !Z.gtb_ltb, !(proj2 (Z.ltb_ge _ _)), (proj2 (Z.eqb_neq _ _)) by lia. cbn [orb].
    rewrite mulw_eq by lia. cbn [bindR]. rewrite addw_eq by lia. cbn [bindR]. rewrite addw_eq by lia. cbn [bindR].
    rewrite Z.gtb_ltb, (proj2 (Z.ltb_ge _ _)) by lia.
    rewrite src_read_in_range by (done || lia). cbn [bindR]. rewrite Hreg.
    rewrite feed_written; [done|by eapply chained_items|done|done|]. rewrite <- Hreg, zlen_region by lia. lia.
Qed.
End Chain.

Section Properties.
Context {D : Decoders} {DL : DecoderLaws D} {S : Type} `{SourceLaws S}.
Implicit Types (src : S) (me : Iso9660 S).

(** C20.  Rock Ridge entries written as SUSP lays them out, over a record and up to
    sixteen chained continuation areas, are read back: the name is the parts of
    [NM] entries joined, wherever they were split and whichever areas they are in;
    the link target is the path, with [.], [..] and a leading [/] from their flags
    and names split over components and entries joined without a separator; the
    zisofs parameters are the last [ZF]'s.  Entries of other systems in between
    change nothing. *)
Theorem rr_entries_roundtrip src me items rest tail :
  src_valid src -> ReliableSource S -> Mounted src me ->
  chained me items rest -> zlen rest <= MAX_CONTINUATIONS -> area_end tail ->
  zlen (area_bytes items ++ tail) < 2 ^ 63 ->
  exists info, parse_rock_ridge me (area_bytes items ++ tail) = Ok info /\ says (items ++ concat rest) info.
Proof.
  intros Hv HR Hm Hc Hlim Ht Hlen. apply (iso_mounted_ok src me Hv) in Hm as [Hok _].
  assert (Hvol : vol_ok me) by (by destruct Hok).
  exists (finish (foldl add_item parser_default (items ++ concat rest))). split; [|apply finish_says].
  pose proof (parse_rock_ridge_wp (X := False) me _ Hvol Hlen) as Hw. revert Hw. unfold parse_rock_ridge.
  rewrite feed_written by (done || by eapply chained_items). cbn [bindR]. intros Hw.
  apply loop_eq; [by eapply wp_returns|]. by apply chained_LoopsTo.
Qed.
End Properties.

(** ** zisofs files on the medium *)

Section ZisofsContent.
Context {D : Decoders} {DL : DecoderLaws D} {S : Type} `{SourceLaws S} `{!ReliableSource S}.
Implicit Types me : Iso9660 S.

(** The [k]th pointer of the block table of the file at byte [eo]. *)
Definition table_ptr me (eo k : Z) : Z := le_num (region (src_byte (is_src me)) (eo + (16 + k * 4)) 4).

(** The medium has a zisofs file of [content] at byte [eo]: header, table, and each
    block either a hole, all zeros, or a zlib stream of its part of the content. *)
Record zisofs_holds me (eo : Z) (zi : Zisofs) (content : list byte) : Prop := mkHolds {
  zh_len : zlen content = uncompressed_size zi;
  zh_log2 : block_size_log2 zi < 31;
  zh_magic : region (src_byte (is_src me)) eo 8 = ZISOFS_MAGIC;
  zh_table : let n := div_ceil (uncompressed_size zi) (2 ^ block_size_log2 zi) in
    16 + (n + 1) * 4 <= MAX_BOOT_FILE_BYTES /\ eo + (16 + (n + 1) * 4) <= src_len (is_src me);
  zh_blocks : forall k, 0 <= k < div_ceil (uncompressed_size zi) (2 ^ block_size_log2 zi) ->
    let bs := 2 ^ block_size_log2 zi in
    let size := Z.min bs (uncompressed_size zi - k * bs) in
    let plain := sub content (k * bs) size in
    let from := table_ptr me eo k in
    let to := table_ptr me eo (k + 1) in
    (to <= from -> plain = zeros size) /\
    (from < to -> size <= MAX_DECOMPRESSED_BLOCK_BYTES /\ to - from <= MAX_BOOT_FILE_BYTES /\
       eo + to <= src_len (is_src me) /\
       miniz_zlib (region (src_byte (is_src me)) (eo + from) (to - from)) size = Some plain);
}.

Lemma zisofs_holds_src me me' eo zi content : is_src me = is_src me' ->
  zisofs_holds me eo zi content -> zisofs_holds me' eo zi content.
Proof. destruct me, me'. cbn. intros <- []. by constructor. Qed.

Lemma zisofs_ptr_eq me eo size k : 0 <= k -> 16 + k * 4 + 4 <= size ->
  zisofs_ptr (region (src_byte (is_src me)) eo size) k = Ok (table_ptr me eo k).
Proof.
  intros Hk Hs. unfold zisofs_ptr, table_ptr. rewrite slice_eq by (rewrite ?zlen_region; lia). cbn [bindR].
  replace (16 + k * 4 + 4 - (16 + k * 4)) with 4 by lia. by rewrite sub_region by lia.
Qed.
Lemma table_ptr_range me eo k : 0 <= table_ptr me eo k < 2 ^ 32.
Proof.
  unfold table_ptr. pose proof (le_num_range (region (src_byte (is_src me)) (eo + (16 + k * 4)) 4)) as Hr.
  by rewrite zlen_region in Hr by lia.
Qed.

(** One round: the rest of the block [cur] is in, or what is left to read of it. *)
Lemma zisofs_round_eq me zi eo content want off produced buf :
  vol_ok me -> 0 <= eo < 2 ^ 48 -> zf_ok (Some zi) -> zisofs_holds me eo zi content ->
  0 <= off -> 0 <= produced < want -> want <= zlen buf -> off + want <= uncompressed_size zi ->
  let bs := 2 ^ block_size_log2 zi in
  let head := region (src_byte (is_src me)) eo (16 + (div_ceil (uncompressed_size zi) bs + 1) * 4) in
  exists tk b, zisofs_round me head eo bs (uncompressed_size zi) want (produced, off + produced, buf)
      = Ok (inl (produced + tk, off + (produced + tk), b)) /\
    0 < tk /\ produced + tk <= want /\ zlen b = zlen buf /\
    sub b 0 (produced + tk) = sub buf 0 produced ++ sub content (off + produced) tk /\
    drop (Z.to_nat (produced + tk)) b = drop (Z.to_nat (produced + tk)) buf.
Proof.
  intros [Hv _] Heo [Hu Hl2] [Hlen Hlog Hmagic Htab Hblocks] Ho Hp Hw Hlim bs head. fold bs in Htab, Hblocks. cbn zeta in Htab.
  assert (Hb : 0 < bs) by (unfold bs; lia). set (u := uncompressed_size zi) in *. set (cur := off + produced).
  destruct (zisofs_block_of bs u cur Hb ltac:(lia)) as [Hblk Hin]. cbn zeta in Hblk, Hin.
  unfold zisofs_round. rewrite (proj2 (Z.ltb_lt _ _)) by lia. cbn [negb]. fold cur. set (blk := cur / bs) in *.
  set (ub := Z.min bs _) in *. unfold head. rewrite !zisofs_ptr_eq by lia. cbn [bindR].
  specialize (Hblocks blk Hblk). cbn zeta in Hblocks. fold ub in Hblocks. destruct Hblocks as [Hhole Hdata].
  pose proof (table_ptr_range me eo blk). pose proof (table_ptr_range me eo (blk + 1)).
  set (from := table_ptr me eo blk) in *. set (to := table_ptr me eo (blk + 1)) in *.
  set (plain := sub content (blk * bs) ub) in *.
  assert (Hd : (if to <=? from then Ok (zeros ub) else
      let! clen := checked_full_read_len (to - from) in
      let! at_ := addw 64 eo from in
      let! cbuf := src_read_at (is_src me) at_ clen in decode Zlib cbuf ub) = Ok plain).
  { destruct (Z.leb_spec to from) as [Hle|Hlt]; [by rewrite Hhole|]. destruct (Hdata Hlt) as (Hcap&Hc&Hend&Hz).
    rewrite (proj2 (checked_full_Ok (to - from) (to - from))) by done. cbn [bindR].
    rewrite addw_eq by lia. cbn [bindR]. rewrite src_read_in_range by (done || lia). cbn [bindR].
    unfold decode. rewrite (proj2 (checked_block_Ok ub ub)) by done. cbn [bindR]. unfold inflate_zlib. by rewrite Hz. }
  rewrite Hd. cbn [bindR]. clear Hd Hhole Hdata.
  assert (Hpz : zlen plain = ub) by (apply zlen_sub; lia). rewrite Hpz. unfold saturating_sub. set (tk := Z.min _ _).
  rewrite (proj2 (Z.eqb_neq tk 0)) by lia. rewrite slice_eq by lia. cbn [bindR].
  replace (cur - blk * bs + tk - (cur - blk * bs)) with tk by lia.
  assert (Hpiece : sub plain (cur - blk * bs) tk = sub content cur tk).
  { unfold plain. rewrite sub_sub by lia. f_equal. lia. }
  rewrite Hpiece. assert (Hz : zlen (sub content cur tk) = tk) by (apply zlen_sub; lia).
  destruct (write_at buf produced (sub content cur tk)) as [b|e| | |] eqn:Hwr;
    [|rewrite write_at_eq in Hwr by lia; done..].
  cbn [bindR]. exists tk, b. pose proof (write_at_zlen _ _ _ _ Hwr). apply write_at_front in Hwr as [Hs Hdr].
  rewrite Hz in Hs, Hdr. split; [unfold cur; do 3 f_equal; f_equal; lia|]. split; [lia|]. split; [lia|]. done.
Qed.

Lemma read_zisofs_content me i zi content off buf :
  vol_ok me -> inode_ok i -> zf_ok (Some zi) -> zisofs_holds me (in_lba i * is_block_size me) zi content ->
  0 <= off < uncompressed_size zi -> zlen buf < 2 ^ 63 ->
  let n := Z.min (zlen buf) (uncompressed_size zi - off) in
  exists b, read_zisofs me i zi off buf = Ok (n, b) /\ zlen b = zlen buf /\
    sub b 0 n = sub content off n /\ drop (Z.to_nat n) b = drop (Z.to_nat n) buf.
Proof.
  intros Hv Hi Hz Hh Ho Hbuf n. pose proof Hz as [Hu Hl2]. pose proof Hh as [Hlen Hlog Hmagic Htab _]. cbn zeta in Htab.
  pose proof (zlen_nonneg buf). pose proof (block_at _ me (io_lba i Hi) (proj2 Hv)) as Heo.
  set (eo := in_lba i * is_block_size me) in *. unfold read_zisofs. set (u := uncompressed_size zi) in *.
  rewrite !Z.geb_leb, !(proj2 (Z.leb_gt _ _)) by lia.
  rewrite (proj2 (shl_one_Ok (block_size_log2 zi) (2 ^ block_size_log2 zi) ltac:(lia))) by lia. cbn [bindR].
  set (bs := 2 ^ block_size_log2 zi) in *. assert (Hb : 0 < bs) by (unfold bs; lia).
  pose proof (div_ceil_nonneg u bs Hb ltac:(lia)). unfold MAX_BOOT_FILE_BYTES in Htab.
  unfold checked_mul. rewrite (proj2 (Z.ltb_lt _ _)) by lia. cbn [ok_or bindR]. rewrite addw_eq by lia. cbn [bindR].
  set (hl := 16 + (div_ceil u bs + 1) * 4) in *.
  rewrite (proj2 (checked_full_Ok hl hl)) by (unfold MAX_BOOT_FILE_BYTES; lia). cbn [bindR].
  rewrite mulw_eq by (fold eo; lia). cbn [bindR]. fold eo. rewrite src_read_in_range by (apply Hv || lia). cbn [bindR].
  rewrite slice_eq by (rewrite ?zlen_region; lia). cbn [bindR]. rewrite sub_region, Z.add_0_r by lia.
  change (8 - 0) with 8. rewrite Hmagic, bool_decide_eq_true_2 by done. cbn [negb]. fold n.
  destruct (loop_succeeds (zisofs_round me (region (src_byte (is_src me)) eo hl) eo bs u n)
    (fun '(p, c, b) => 0 <= p <= n /\ c = off + p /\ zlen b = zlen buf /\
       sub b 0 p = sub content off p /\ drop (Z.to_nat p) b = drop (Z.to_nat p) buf)
    (fun s => n - s.1.1) (0, off, buf)
    (fun '(r, b) => r = n /\ zlen b = zlen buf /\ sub b 0 n = sub content off n /\
       drop (Z.to_nat n) b = drop (Z.to_nat n) buf)) as ([r b]&Hr&->&?&?&?).
  - split; [lia|]. split; [lia|]. done.
  - cbn. lia.
  - intros [[p c] b] (Hp&->&Hbz&Hs&Hd). cbn [fst]. split; [lia|].
    destruct (Z.leb_spec n p) as [Hge|Hlt].
    { exists (inr (p, b)). unfold zisofs_round. rewrite (proj2 (Z.ltb_ge _ _)) by lia. cbn [negb].
      split; [done|]. assert (p = n) as -> by lia. done. }
    destruct (zisofs_round_eq me zi eo content n off p b Hv Heo Hz Hh) as (tk&b'&Hround&Ht&Hpt&Hz'&Hs'&Hd'); [lia..|].
    exists (inl (p + tk, off + (p + tk), b')). split; [exact Hround|]. cbn [fst]. split; [|lia].
    split; [lia|]. split; [done|]. split; [congruence|]. split.
    + rewrite Hs', Hs. replace off with (off + 0) at 1 by lia. rewrite Z.add_0_r. by apply sub_app_split; lia.
    + rewrite Hd', !Z2Nat.inj_add, <- !drop_drop, Hd by lia. done.
  - exists b. done.
Qed.

Lemma zisofs_read_at me node i zi content off buf :
  iso_ok me -> inode me node = Ok i -> in_kind i <> Directory -> in_zisofs i = Some zi ->
  zisofs_holds me (in_lba i * is_block_size me) zi content ->
  0 <= off -> zlen buf < 2 ^ 63 ->
  let n := Z.max 0 (Z.min (zlen buf) (zlen content - off)) in
  exists b, iso_read_at me node off buf = Ok (n, b) /\ zlen b = zlen buf /\
    sub b 0 n = sub content off n /\ drop (Z.to_nat n) b = drop (Z.to_nat n) buf.
Proof.
  intros Hok Hi Hk Hzi Hh Ho Hbuf n. pose proof (zlen_nonneg buf).
  pose proof (node_in_Forall _ _ _ _ (ok_nodes _ Hok) Hi) as Hio. pose proof (zh_len _ _ _ _ Hh) as Hlen.
  pose proof (io_zisofs i Hio) as Hz. rewrite Hzi in Hz.
  unfold iso_read_at. rewrite Hi. cbn [bindR]. rewrite bool_decide_eq_false_2, Hzi by done.
  destruct (Z.le_gt_cases (uncompressed_size zi) off) as [Hge|Hlt].
  - exists buf. unfold read_zisofs. rewrite Z.geb_leb, (proj2 (Z.leb_le _ _)) by done.
    assert (n = 0) as -> by lia. done.
  - assert (n = Z.min (zlen buf) (uncompressed_size zi - off)) as -> by lia.
    apply read_zisofs_content; try done. by destruct Hok.
Qed.

(** C25.  A zisofs file the medium has reads as its content: at any offset the buffer
    is filled, up to the end of the file, with the content from there on, whatever
    blocks the window starts, ends and crosses in, holes being zeros; and metadata
    gives the uncompressed size. *)
Theorem iso_zisofs_content (src : S) me node i zi content off buf :
  src_valid src -> Mounted src me -> inode me node = Ok i -> in_kind i <> Directory -> in_zisofs i = Some zi ->
  zisofs_holds me (in_lba i * is_block_size me) zi content ->
  0 <= off -> zlen buf < 2 ^ 63 ->
  let n := Z.max 0 (Z.min (zlen buf) (zlen content - off)) in
  iso_metadata me node = Ok (mkMetadata (in_kind i) (zlen content) 0) /\
  exists b, iso_read_at me node off buf = Ok (n, b) /\ zlen b = zlen buf /\
    sub b 0 n = sub content off n /\ drop (Z.to_nat n) b = drop (Z.to_nat n) buf.
Proof.
  intros Hv Hm Hi Hk Hzi Hh Ho Hbuf n. pose proof (iso_mounted_ok src me Hv Hm) as [Hok _].
  split; [|by apply (zisofs_read_at me node i zi)].
  unfold iso_metadata. rewrite Hi. cbn [bindR]. by rewrite Hzi, (zh_len _ _ _ _ Hh).
Qed.
End ZisofsContent.

(** ** Written directories *)

(** A directory record: ECMA-119's fields, the System Use area behind them. *)
Record DirRec : Type := mkDirRec {
  dr_lba : Z; dr_size : Z; dr_flags : Z; dr_fi : list byte; dr_su : list byte;
  dr_date : list byte; dr_unit : list byte;
}.
Definition rec_is_dir (r : DirRec) : bool := negb (Z.land (dr_flags r) FLAG_DIRECTORY =? 0).
Definition rec_more (r : DirRec) : bool := negb (Z.land (dr_flags r) FLAG_MULTI_EXTENT =? 0).

Definition rec_head (r : DirRec) : list byte :=
  le_bytes 4 (dr_lba r) ++ be_bytes 4 (dr_lba r) ++ le_bytes 4 (dr_size r) ++ be_bytes 4 (dr_size r) ++
  dr_date r ++ [to_u8 (dr_flags r)] ++ dr_unit r ++ [to_u8 (zlen (dr_fi r))].
Definition rec_tail (r : DirRec) : list byte :=
  zeros (if zlen (dr_fi r) mod 2 =? 0 then 1 else 0) ++ dr_su r.
(** The length byte and the (empty) extended attribute's come first. *)
Definition rec_len (r : DirRec) : Z := su_start (zlen (dr_fi r)) + zlen (dr_su r).
Definition rec_bytes (r : DirRec) : list byte :=
  to_u8 (rec_len r) :: x00 :: rec_head r ++ dr_fi r ++ rec_tail r.
Definition rec_ok (r : DirRec) : Prop :=
  0 <= dr_lba r < 2 ^ 32 /\ 0 <= dr_size r < 2 ^ 32 /\ 0 <= dr_flags r < 256 /\
  zlen (dr_date r) = 7 /\ zlen (dr_unit r) = 6 /\ rec_len r < 256.

(** The self or parent record, or one of them for each extent of a file: the first
    names it, [df_base] is what the identifier says and [df_info] what the System
    Use area does. *)
Record DirFile : Type := mkDirFile {
  df_first : DirRec; df_rest : list DirRec; df_base : name; df_info : RrInfo
}.
Inductive DirItem : Type := DotItem (r : DirRec) | FileItem (f : DirFile).
Definition no_info : RrInfo := mkRrInfo None None None None.
Definition is_dot_fi (fi : list byte) : bool := bool_decide (fi = [x00]) || bool_decide (fi = [x01]).

(** All records of a file but the last say that more follow. *)
Fixpoint more_chain (rs : list DirRec) : Prop :=
  match rs with
  | [] => True
  | [r] => rec_more r = false
  | r :: rs => rec_more r = true /\ more_chain rs
  end.
Definition file_ok (f : DirFile) : Prop :=
  let r := df_first f in
  rec_ok r /\ is_dot_fi (dr_fi r) = false /\ zlen (df_rest f) < MAX_EXTENTS /\
  (if rec_is_dir r then df_rest f = [] else more_chain (r :: df_rest f)) /\
  Forall (fun r' => rec_ok r' /\ rec_is_dir r' = false /\ dr_fi r' = dr_fi r) (df_rest f).
Definition item_recs (it : DirItem) : list DirRec :=
  match it with DotItem r => [r] | FileItem f => df_first f :: df_rest f end.

(** A record that does not fit in its block starts the next one. *)
Definition gap (bs pos n : Z) : list byte := if pos mod bs + n <=? bs then [] else zeros (bs - pos mod bs).
Definition place (bs : Z) (out : list byte) (r : DirRec) : list byte :=
  out ++ gap bs (zlen out) (rec_len r) ++ rec_bytes r.
Definition write_items (bs : Z) (out : list byte) (items : list DirItem) : list byte :=
  foldl (place bs) out (items ≫= item_recs).
(** The extent of a directory: whole blocks. *)
Definition dir_bytes (bs : Z) (items : list DirItem) : list byte :=
  let l := write_items bs [] items in l ++ zeros ((- zlen l) mod bs).

(** The entry of a file whose first record is at [pos]. *)
Definition file_entry (dir_lba pos : Z) (f : DirFile) : name * Inode :=
  let r := df_first f in
  let info := df_info f in
  let extents := (fun r => (dr_lba r, dr_size r)) <$> (r :: df_rest f) in
  (default (df_base f) (rr_name info),
   mkInode (dir_lba, pos) (dr_lba r) (extents_len extents) extents
     (match rr_symlink_target info with Some _ => Symlink | None => if rec_is_dir r then Directory else Regular end)
     (rr_symlink_target info) (rr_zisofs info)).
(** What a directory lists: its files, in order. *)
Fixpoint listing (bs dir_lba : Z) (out : list byte) (items : list DirItem) : list (name * Inode) :=
  match items with
  | [] => []
  | DotItem r :: items => listing bs dir_lba (place bs out r) items
  | FileItem f :: items =>
      file_entry dir_lba (zlen (out ++ gap bs (zlen out) (rec_len (df_first f)))) f ::
      listing bs dir_lba (foldl (place bs) out (df_first f :: df_rest f)) items
  end.

Lemma zlen_rec_head r : rec_ok r -> zlen (rec_head r) = 31.
Proof.
  intros (_&_&_&?&?&_). unfold rec_head. rewrite !zlen_app, !zlen_le_bytes, !zlen_be_bytes, !zlen_cons, !zlen_nil. lia.
Qed.
Lemma zlen_rec_bytes r : rec_ok r -> zlen (rec_bytes r) = rec_len r.
Proof.
  intros Hok. pose proof (zlen_rec_head r Hok). unfold rec_bytes, rec_tail, rec_len, su_start, FILE_ID.
  rewrite !zlen_cons, !zlen_app, zlen_zeros by (destruct (_ =? 0); lia). lia.
Qed.
Lemma rec_len_ge r : 33 <= rec_len r.
Proof.
  unfold rec_len, su_start, FILE_ID. pose proof (zlen_nonneg (dr_fi r)). pose proof (zlen_nonneg (dr_su r)).
  destruct (_ =? 0); lia.
Qed.
Lemma rec_fi_len r : rec_ok r -> 0 <= zlen (dr_fi r) < 256.
Proof.
  intros (_&_&_&_&_&Hl). unfold rec_len, su_start, FILE_ID in Hl. pose proof (zlen_nonneg (dr_fi r)).
  pose proof (zlen_nonneg (dr_su r)). destruct (_ =? 0); lia.
Qed.

(** The fields of a written record, read back. *)
Lemma rec_fields r : rec_ok r ->
  get (rec_bytes r) LEN_FI = Some (to_u8 (zlen (dr_fi r))) /\
  get_range (rec_bytes r) FILE_ID (FILE_ID + zlen (dr_fi r)) = Some (dr_fi r) /\
  get (rec_bytes r) FILE_FLAGS = Some (to_u8 (dr_flags r)) /\
  le_u32 (rec_bytes r) EXTENT_LBA_LE = Ok (dr_lba r) /\ le_u32 (rec_bytes r) DATA_LEN_LE = Ok (dr_size r) /\
  get_from (rec_bytes r) (su_start (zlen (dr_fi r))) = Some (dr_su r).
Proof.
  intros Hok. pose proof (zlen_rec_head r Hok) as Hh. destruct Hok as (Hl&Hs&_&Hd&Hu&_).
  set (p := [to_u8 (rec_len r); x00]). set (lens := le_bytes 4 (dr_lba r)) in *.
  assert (Hr : rec_bytes r = (p ++ rec_head r) ++ dr_fi r ++ rec_tail r) by (unfold p; by rewrite <- app_assoc).
  assert (Hp : zlen (p ++ rec_head r) = 33) by (rewrite zlen_app, Hh; done).
  assert (Hget : forall a b c i, p ++ rec_head r = a ++ b :: c -> i = zlen a -> get (rec_bytes r) i = Some b).
  { intros a b c i E ->. rewrite Hr, E. rewrite <- app_assoc. replace (zlen a) with (zlen a + 0) by lia.
    by rewrite get_app_r by lia. }
  split_and!.
  - apply (Hget (p ++ le_bytes 4 (dr_lba r) ++ be_bytes 4 (dr_lba r) ++ le_bytes 4 (dr_size r) ++
      be_bytes 4 (dr_size r) ++ dr_date r ++ [to_u8 (dr_flags r)] ++ dr_unit r) _ []).
    + unfold rec_head. by rewrite <- !app_assoc.
    + rewrite !zlen_app, !zlen_le_bytes, !zlen_be_bytes, Hd, Hu. done.
  - rewrite Hr. by apply get_range_app; rewrite Hp.
  - apply (Hget (p ++ le_bytes 4 (dr_lba r) ++ be_bytes 4 (dr_lba r) ++ le_bytes 4 (dr_size r) ++
      be_bytes 4 (dr_size r) ++ dr_date r) _ (dr_unit r ++ [to_u8 (zlen (dr_fi r))])).
    + unfold rec_head. by rewrite <- !app_assoc.
    + rewrite !zlen_app, !zlen_le_bytes, !zlen_be_bytes, Hd. done.
  - rewrite Hr. unfold rec_head. rewrite <- !app_assoc. by apply (le_field_app _ p 4).
  - rewrite Hr. unfold rec_head. rewrite <- !app_assoc. rewrite (app_assoc _ (le_bytes 4 (dr_lba r))), (app_assoc _ (be_bytes _ _)).
    apply (le_field_app _ _ 4); [|done|done]. rewrite !zlen_app, zlen_le_bytes, zlen_be_bytes. done.
  - rewrite Hr. unfold rec_tail. rewrite !app_assoc. apply get_from_app.
    rewrite !zlen_app, Hh, zlen_zeros by (destruct (_ =? 0); lia). unfold su_start, FILE_ID, p.
    rewrite !zlen_cons, zlen_nil. lia.
Qed.

Section Walks.
Context {S : Type} `{SourceLaws S}.
Implicit Types me : Iso9660 S.

(** What the decoders say of a file's first record. *)
Definition named me (f : DirFile) : Prop :=
  let r := df_first f in
  (if is_joliet me then decode_name_joliet (dr_fi r) (rec_is_dir r) else decode_name (dr_fi r) (rec_is_dir r))
    = Ok (df_base f) /\
  if is_rock_ridge me then parse_rock_ridge me (default [] (get_from (dr_su r) (is_susp_skip me))) = Ok (df_info f)
  else df_info f = no_info.

(** The inode of a file after its first record. *)
Definition first_inode (dir_lba pos : Z) (f : DirFile) : Inode :=
  let r := df_first f in
  let i := (file_entry dir_lba pos f).2 in
  mkInode (in_key i) (dr_lba r) (dr_size r) [(dr_lba r, dr_size r)] (in_kind i) (in_link_target i) (in_zisofs i).

Lemma entry_of_written me dir_lba pos f : rec_ok (df_first f) -> named me f -> 0 <= pos < 2 ^ 32 ->
  let r := df_first f in
  entry_of me dir_lba pos (rec_bytes r) (dr_fi r) (rec_is_dir r) (dr_lba r) (dr_size r) =
  Ok ((file_entry dir_lba pos f).1, first_inode dir_lba pos f).
Proof.
  intros Hr [Hname Hinfo] Hpos r. destruct (rec_fields r Hr) as (_&_&_&_&_&Hsu). unfold entry_of. fold r in Hname, Hinfo.
  rewrite Hname. cbn [bindR]. unfold first_inode, file_entry. cbn [fst snd in_key in_kind in_link_target in_zisofs]. fold r.
  rewrite Z.mod_small by done. destruct (is_rock_ridge me); [|by rewrite Hinfo].
  rewrite Hsu, Hinfo. cbn [bindR]. by destruct (rr_name (df_info f)), (rr_symlink_target (df_info f)).
Qed.

(** *** One turn of the walk at a written record *)

Lemma round_at me dir_lba p r q pend out : rec_ok r ->
  entry_round me dir_lba (p ++ rec_bytes r ++ q) (mkWalk (zlen p) pend out) =
  let next := zlen (p ++ rec_bytes r) in
  if is_dot_fi (dr_fi r) then Ok (inl (mkWalk next pend out))
  else match pend with
  | Some (first, i) =>
      let! w := add_extent (p ++ rec_bytes r ++ q) (dr_fi r) (rec_is_dir r) (rec_more r) (dr_lba r) (dr_size r) next first i out in
      Ok (inl w)
  | None =>
      let! e := entry_of me dir_lba (zlen p) (rec_bytes r) (dr_fi r) (rec_is_dir r) (dr_lba r) (dr_size r) in
      Ok (inl (if rec_more r && negb (rec_is_dir r) then mkWalk next (Some e) out else mkWalk next None (out ++ [e])))
  end.
Proof.
  intros Hok. destruct (rec_fields r Hok) as (Hfi&Hid&Hfl&Hlba&Hsize&_). pose proof (zlen_rec_bytes r Hok) as Hz.
  pose proof (rec_len_ge r). pose proof (rec_fi_len r Hok). pose proof Hok as (_&_&Hflags&_&_&Hlen).
  pose proof (zlen_nonneg p). pose proof (zlen_nonneg q). unfold entry_round. cbn [wk_pos wk_pending wk_out].
  rewrite (proj2 (Z.ltb_lt _ _)) by (rewrite !zlen_app; lia). cbn [negb].
  assert (Hat : at_ (p ++ rec_bytes r ++ q) (zlen p) = Ok (to_u8 (rec_len r))).
  { apply at_Ok. replace (zlen p) with (zlen p + 0) by lia. by rewrite get_app_r by lia. }
  rewrite Hat. cbn [bindR]. rewrite u8_to_u8, Z.mod_small by lia. rewrite (proj2 (Z.eqb_neq _ _)) by lia.
  rewrite get_range_app by lia. cbn [ok_or bindR]. rewrite Hfi. cbn [ok_or bindR].
  rewrite u8_to_u8, Z.mod_small by lia. rewrite Hid. cbn [ok_or bindR]. rewrite zlen_app, Hz.
  assert (Hdot : (if zlen (dr_fi r) =? 1 then let! f := at_ (dr_fi r) 0 in Ok ((u8 f =? 0) || (u8 f =? 1)) else Ok false)
    = Ok (is_dot_fi (dr_fi r))).
  { unfold is_dot_fi. destruct (dr_fi r) as [|b [|c l]] eqn:E.
    - done.
    - change (zlen [b] =? 1) with true. cbn iota. change (at_ [b] 0) with (Ok b). cbn [bindR]. f_equal.
      assert (Hb : forall c, (u8 b =? u8 c) = bool_decide ([b] = [c])).
      { intros c. destruct (Z.eqb_spec (u8 b) (u8 c)) as [Ec|Ec].
        - by rewrite (u8_inj _ _ Ec), bool_decide_eq_true_2.
        - rewrite bool_decide_eq_false_2; [done|]. intros [= ->]. done. }
      by rewrite <- (Hb x00), <- (Hb x01).
    - rewrite (proj2 (Z.eqb_neq _ _)) by (rewrite !zlen_cons; pose proof (zlen_nonneg l); lia).
      by rewrite !bool_decide_eq_false_2. }
  rewrite Hdot. cbn [bindR]. destruct (is_dot_fi _); [done|]. rewrite Hfl. cbn [ok_or bindR].
  rewrite u8_to_u8, Z.mod_small by lia. rewrite Hlba. cbn [bindR]. rewrite Hsize. cbn [bindR]. done.
Qed.

Lemma round_pad me dir_lba p n q w : 0 < is_block_size me -> wk_pos w = zlen p ->
  n = is_block_size me - zlen p mod is_block_size me ->
  entry_round me dir_lba (p ++ zeros n ++ q) w =
  Ok (inl (mkWalk (zlen (p ++ zeros n)) (wk_pending w) (wk_out w))).
Proof.
  intros Hbs Hw Hn. pose proof (Z.div_mod (zlen p) (is_block_size me) ltac:(lia)).
  pose proof (Z.mod_pos_bound (zlen p) (is_block_size me) Hbs). pose proof (zlen_nonneg p). pose proof (zlen_nonneg q).
  unfold entry_round. rewrite Hw, (proj2 (Z.ltb_lt _ _)) by (rewrite !zlen_app, zlen_zeros; lia). cbn [negb].
  assert (Hat : at_ (p ++ zeros n ++ q) (zlen p) = Ok x00).
  { apply at_Ok. replace (zlen p) with (zlen p + 0) by lia. rewrite get_app_r by lia.
    rewrite get_app_l by (rewrite zlen_zeros; lia). apply get_Some. split; [lia|]. apply lookup_replicate_2. lia. }
  rewrite Hat. cbn [bindR]. change (u8 x00 =? 0) with true. cbn iota. rewrite (proj2 (Z.leb_gt _ _)) by nia.
  rewrite zlen_app, zlen_zeros by lia. do 3 f_equal. nia.
Qed.

Definition rec_start (bs : Z) (out : list byte) (r : DirRec) : list byte := out ++ gap bs (zlen out) (rec_len r).

(** A placed record: over the gap, if there is one, to the record. *)
Lemma place_LoopsTo me dir_lba p r q pend out w' o : vol_ok me ->
  let bs := is_block_size me in
  let buf := place bs p r ++ q in
  entry_round me dir_lba buf (mkWalk (zlen (rec_start bs p r)) pend out) = Ok (inl w') ->
  LoopsTo (entry_round me dir_lba buf) w' o ->
  LoopsTo (entry_round me dir_lba buf) (mkWalk (zlen p) pend out) o.
Proof.
  intros [_ Hbs] bs buf Hround Ho. unfold rec_start in Hround. unfold gap in Hround, buf.
  assert (Hrec : LoopsTo (entry_round me dir_lba buf)
    (mkWalk (zlen (p ++ (if zlen p mod bs + rec_len r <=? bs then [] else zeros (bs - zlen p mod bs)))) pend out) o)
    by (by eapply LoopsTo_round).
  unfold place, gap in buf. destruct (_ <=? bs); [by rewrite app_nil_r in Hrec|].
  eapply LoopsTo_round; [|exact Hrec]. unfold buf. rewrite <- !app_assoc.
  by apply round_pad; [lia|..].
Qed.

Lemma place_app bs p r : place bs p r = rec_start bs p r ++ rec_bytes r.
Proof. unfold place, rec_start. by rewrite app_assoc. Qed.
Lemma place_prefix bs rs p : exists q, foldl (place bs) p rs = p ++ q.
Proof.
  revert p. induction rs as [|r rs IH]; intros p; [exists []; by rewrite app_nil_r|].
  destruct (IH (place bs p r)) as [q Hq]. cbn [foldl]. rewrite Hq. unfold place. rewrite <- !app_assoc. by eexists.
Qed.

(** The later records of a file. *)
Lemma rest_LoopsTo me dir_lba rs : forall p q nm i out o,
  vol_ok me -> rs <> [] -> let buf := foldl (place (is_block_size me)) p rs ++ q in
  more_chain rs ->
  (forall r, r ∈ rs -> rec_ok r /\ rec_is_dir r = false /\ is_dot_fi (dr_fi r) = false /\
     first_fi buf (in_key i).2 = Ok (dr_fi r)) ->
  zlen (in_extents i) + zlen rs <= MAX_EXTENTS ->
  let ex := (fun r => (dr_lba r, dr_size r)) <$> rs in
  0 <= in_size i -> in_size i + extents_len ex < 2 ^ 64 ->
  LoopsTo (entry_round me dir_lba buf) (mkWalk (zlen (foldl (place (is_block_size me)) p rs)) None
    (out ++ [(nm, mkInode (in_key i) (in_lba i) (in_size i + extents_len ex) (in_extents i ++ ex) (in_kind i) (in_link_target i) (in_zisofs i))])) o ->
  LoopsTo (entry_round me dir_lba buf) (mkWalk (zlen p) (Some (nm, i)) out) o.
Proof.
  induction rs as [|r rs IH]; intros p q nm i out o Hv Hne buf Hmore Hrs Hcap ex Hsize Hsum Ho; [done|].
  destruct (Hrs r ltac:(left)) as (Hr&Hdir&Hdot&Hfi). rewrite zlen_cons in Hcap. pose proof (zlen_nonneg rs).
  pose proof Hr as (_&Hs&_).
  assert (Hex : ex = (dr_lba r, dr_size r) :: ((fun r => (dr_lba r, dr_size r)) <$> rs)) by done.
  assert (Hexs : Forall extent_ok ((fun r => (dr_lba r, dr_size r)) <$> rs)).
  { apply Forall_fmap, Forall_forall. intros r' Hr'. destruct (Hrs r' ltac:(by right)) as ((?&?&_)&_). by split. }
  pose proof (extents_len_range _ Hexs) as Hxl. clear Hexs.
  rewrite Hex in *. change (extents_len ((dr_lba r, dr_size r) :: ?l)) with (dr_size r + extents_len l) in *.
  set (bs := is_block_size me) in *.
  destruct (place_prefix bs rs (place bs p r)) as [q' Hq']. cbn [foldl] in *.
  assert (Hbuf : buf = place bs p r ++ (q' ++ q)) by (unfold buf; by rewrite Hq', app_assoc).
  set (i' := mkInode (in_key i) (in_lba i) (in_size i + dr_size r) (in_extents i ++ [(dr_lba r, dr_size r)])
    (in_kind i) (in_link_target i) (in_zisofs i)).
  assert (Hadd : add_extent buf (dr_fi r) (rec_is_dir r) (rec_more r) (dr_lba r) (dr_size r) (zlen (place bs p r)) nm i out =
    Ok (if rec_more r then mkWalk (zlen (place bs p r)) (Some (nm, i')) out
        else mkWalk (zlen (place bs p r)) None (out ++ [(nm, i')]))).
  { unfold add_extent. rewrite Hdir, Hfi. cbn [bindR]. rewrite bool_decide_eq_true_2 by done. cbn [negb].
    rewrite Z.geb_leb, (proj2 (Z.leb_gt _ _)) by lia. by rewrite addw_eq by lia. }
  assert (Hgo : forall o', LoopsTo (entry_round me dir_lba buf)
      (if rec_more r then mkWalk (zlen (place bs p r)) (Some (nm, i')) out
       else mkWalk (zlen (place bs p r)) None (out ++ [(nm, i')])) o' ->
    LoopsTo (entry_round me dir_lba buf) (mkWalk (zlen p) (Some (nm, i)) out) o').
  { intros o' Ho'. revert Ho' Hadd. rewrite Hbuf. intros Ho' Hadd.
    eapply place_LoopsTo; [done| |exact Ho']. fold bs. rewrite place_app in *. rewrite <- (app_assoc _ (rec_bytes r)) in *.
    rewrite round_at, Hdot by done. cbn zeta. by rewrite Hadd. }
  destruct rs as [|r2 rs].
  - cbn [more_chain] in Hmore. rewrite Hmore in Hgo. apply Hgo.
    cbn [fmap list_fmap] in Ho. change (extents_len []) with 0 in Ho. by rewrite Z.add_0_r in Ho.
  - destruct Hmore as [Hm Hmore]. rewrite Hm in Hgo. apply Hgo.
    apply IH; try done; cbn [in_extents in_size i'].
    + intros r' Hr'. apply Hrs. by right.
    + rewrite zlen_app. change (zlen [_]) with 1. lia.
    + lia.
    + lia.
    + by rewrite <- (app_assoc (in_extents i)), <- Z.add_assoc.
Qed.
End Walks.

Section Directories.
Context {D : Decoders} {DL : DecoderLaws D} {S : Type} `{SourceLaws S}.
Implicit Types me : Iso9660 S.

Lemma first_fi_written p r q : rec_ok r -> first_fi (p ++ rec_bytes r ++ q) (zlen p) = Ok (dr_fi r).
Proof.
  intros Hok. destruct (rec_fields r Hok) as (Hfi&Hid&_). pose proof (zlen_rec_bytes r Hok).
  pose proof (rec_fi_len r Hok). pose proof (rec_len_ge r). pose proof Hok as (_&_&_&_&_&Hlen). unfold first_fi.
  assert (Hat : get (p ++ rec_bytes r ++ q) (zlen p) = Some (to_u8 (rec_len r))).
  { replace (zlen p) with (zlen p + 0) by lia. by rewrite get_app_r by lia. }
  rewrite Hat. cbn [ok_or bindR]. rewrite u8_to_u8, Z.mod_small by lia. rewrite get_range_app by lia.
  cbn [ok_or bindR]. rewrite Hfi. cbn [ok_or bindR]. rewrite u8_to_u8, Z.mod_small by lia. by rewrite Hid.
Qed.

Lemma file_LoopsTo me dir_lba p q f out o : vol_ok me -> file_ok f -> named me f ->
  let bs := is_block_size me in
  let rs := df_first f :: df_rest f in
  let buf := foldl (place bs) p rs ++ q in
  zlen buf < 2 ^ 32 ->
  LoopsTo (entry_round me dir_lba buf)
    (mkWalk (zlen (foldl (place bs) p rs)) None (out ++ [file_entry dir_lba (zlen (rec_start bs p (df_first f))) f])) o ->
  LoopsTo (entry_round me dir_lba buf) (mkWalk (zlen p) None out) o.
Proof.
  intros Hv (Hr&Hdot&Hcap&Hchain&Hrest) Hname bs rs buf Hlen Ho. cbn [foldl] in *. subst rs. cbn [foldl] in *.
  set (r := df_first f) in *. destruct (place_prefix bs (df_rest f) (place bs p r)) as [q' Hq'].
  assert (Hbuf : buf = place bs p r ++ (q' ++ q)) by (unfold buf; cbn [foldl]; by rewrite Hq', app_assoc).
  set (start := rec_start bs p r) in *. set (pos := zlen start).
  assert (Hbuf2 : buf = start ++ rec_bytes r ++ (q' ++ q)) by (by rewrite Hbuf, place_app, <- app_assoc).
  assert (Hpos : 0 <= pos < 2 ^ 32).
  { unfold pos. pose proof (zlen_nonneg start). rewrite Hbuf2, zlen_app in Hlen.
    pose proof (zlen_nonneg (rec_bytes r ++ q' ++ q)). lia. }
  pose proof (round_at me dir_lba start r (q' ++ q) None out Hr) as Hround. rewrite Hdot in Hround.
  pose proof (entry_of_written me dir_lba pos f Hr Hname Hpos) as He. cbn zeta in He. fold r in He. fold pos in Hround.
  rewrite He in Hround. clear He. cbn [bindR] in Hround. cbn zeta in Hround.
  rewrite <- Hbuf2 in Hround. change (start ++ rec_bytes r) with (rec_start bs p r ++ rec_bytes r) in Hround.
  rewrite <- place_app in Hround.
  assert (Hgo : forall w' o', entry_round me dir_lba buf (mkWalk pos None out) = Ok (inl w') ->
    LoopsTo (entry_round me dir_lba buf) w' o' -> LoopsTo (entry_round me dir_lba buf) (mkWalk (zlen p) None out) o').
  { intros w' o' Hw Ho'. rewrite Hbuf in *. by eapply place_LoopsTo. }
  eapply Hgo; [exact Hround|]. clear Hgo Hround.
  assert (Hsingle : df_rest f = [] -> (file_entry dir_lba pos f).2 = first_inode dir_lba pos f).
  { intros E. unfold file_entry, first_inode. cbn. rewrite E. cbn. by rewrite Z.add_0_r. }
  assert (Hone : df_rest f = [] -> LoopsTo (entry_round me dir_lba buf)
    (mkWalk (zlen (place bs p r)) None (out ++ [((file_entry dir_lba pos f).1, first_inode dir_lba pos f)])) o).
  { intros E. rewrite <- Hsingle, <- surjective_pairing by done. rewrite E in Ho. exact Ho. }
  destruct (rec_is_dir r) eqn:Edir; [rewrite andb_false_r; by apply Hone|]. rewrite andb_true_r.
  destruct (df_rest f) as [|r2 rest] eqn:Erest; [cbn [more_chain] in Hchain; rewrite Hchain; by apply Hone|].
  destruct Hchain as [-> Hchain]. clear Hone Hsingle.
  apply (rest_LoopsTo me dir_lba (r2 :: rest) (place bs p r) q); try done.
  - fold bs. fold buf. intros r' Hr'. rewrite Forall_forall in Hrest. destruct (Hrest r' Hr') as (?&?&Hfi).
    rewrite Hfi. split; [done|]. split; [done|]. split; [done|]. rewrite Hbuf2. by apply first_fi_written.
  - cbn [first_inode in_extents]. change (zlen [_]) with 1. lia.
  - destruct Hr as (_&?&_). cbn. fold r. lia.
  - destruct Hr as (Hl&Hs&_). cbn [first_inode in_size]. fold r.
    assert (Hexs : Forall extent_ok ((fun r => (dr_lba r, dr_size r)) <$> (r2 :: rest))).
    { apply Forall_fmap. eapply Forall_impl; [exact Hrest|]. intros r' ((?&?&_)&_). by split. }
    pose proof (extents_len_range _ Hexs) as Hxl. rewrite zlen_fmap in Hxl. unfold MAX_EXTENTS in Hcap. lia.
  - fold bs. fold buf. revert Ho. unfold file_entry. cbn zeta. fold r. rewrite Erest. exact id.
Qed.

Lemma items_LoopsTo me dir_lba items : forall p q out o, vol_ok me ->
  Forall (fun it => match it with DotItem r => rec_ok r /\ is_dot_fi (dr_fi r) = true
                    | FileItem f => file_ok f /\ named me f end) items ->
  let bs := is_block_size me in
  let buf := write_items bs p items ++ q in
  zlen buf < 2 ^ 32 ->
  LoopsTo (entry_round me dir_lba buf) (mkWalk (zlen (write_items bs p items)) None (out ++ listing bs dir_lba p items)) o ->
  LoopsTo (entry_round me dir_lba buf) (mkWalk (zlen p) None out) o.
Proof.
  induction items as [|it items IH]; intros p q out o Hv Hok bs buf Hlen Ho.
  { by rewrite app_nil_r in Ho. }
  apply Forall_cons in Hok as [Hit Hok].
  assert (Hw : write_items bs p (it :: items) = write_items bs (foldl (place bs) p (item_recs it)) items)
    by (unfold write_items; cbn [mbind list_bind]; by rewrite foldl_app).
  revert Hlen Ho. unfold buf. rewrite Hw. clear buf. intros Hlen Ho.
  assert (Hpre : exists q', write_items bs (foldl (place bs) p (item_recs it)) items = foldl (place bs) p (item_recs it) ++ q')
    by apply place_prefix.
  destruct Hpre as [q' Hq']. destruct it as [r|f]; cbn [item_recs listing] in *.
  - destruct Hit as [Hr Hdot]. cbn [foldl] in *.
    rewrite Hq' in *. rewrite <- (app_assoc _ q') in *. eapply place_LoopsTo; [done| |].
    + fold bs. rewrite place_app, <- (app_assoc _ (rec_bytes r)), round_at by done. rewrite Hdot. reflexivity.
    + fold bs. rewrite <- place_app, (app_assoc _ q'), <- Hq'. rewrite <- Hq' in Ho. rewrite (app_assoc _ q'), <- Hq' in Ho, Hlen.
      by apply IH.
  - destruct Hit as [Hf Hname]. rewrite Hq' in *. rewrite <- (app_assoc _ q') in *.
    eapply file_LoopsTo; [done|done|done|done|]. fold bs. rewrite (app_assoc _ q'), <- Hq' in *.
    apply IH; [done|done|done|]. by rewrite <- (app_assoc out).
Qed.

(** The walk over a written directory lists its files. *)
Lemma for_each_entry_written `{!ReliableSource S} me dir items : vol_ok me -> inode_ok dir ->
  let bs := is_block_size me in
  Forall (fun it => match it with DotItem r => rec_ok r /\ is_dot_fi (dr_fi r) = true
                    | FileItem f => file_ok f /\ named me f end) items ->
  in_size dir <= MAX_BOOT_FILE_BYTES -> in_lba dir * bs + in_size dir <= src_len (is_src me) ->
  region (src_byte (is_src me)) (in_lba dir * bs) (in_size dir) = dir_bytes bs items ->
  for_each_entry me dir = Ok (listing bs (in_lba dir) [] items).
Proof.
  intros Hv Hdir bs Hitems Hcap Hin Hreg. pose proof (inode_size dir Hdir). pose proof Hv as [Hsv Hbs].
  pose proof (block_at _ me (io_lba dir Hdir) Hbs). unfold MAX_BOOT_FILE_BYTES in Hcap.
  pose proof (for_each_entry_wp (X := False) me dir Hv Hdir) as Hw. revert Hw. unfold for_each_entry.
  assert (Hread : read_dir_extent me dir = Ok (dir_bytes bs items)).
  { unfold read_dir_extent. rewrite (proj2 (checked_full_Ok (in_size dir) (in_size dir))) by (unfold MAX_BOOT_FILE_BYTES; lia).
    cbn [bindR]. rewrite mulw_eq by lia. cbn [bindR]. rewrite src_read_in_range by (done || lia). by rewrite <- Hreg. }
  rewrite Hread. cbn [bindR].
  assert (Hz : zlen (dir_bytes bs items) < 2 ^ 32) by (rewrite <- Hreg, zlen_region; lia).
  assert (Hl : LoopsTo (entry_round me (in_lba dir) (dir_bytes bs items)) (mkWalk 0 None [])
    (Ok (mkWalk (zlen (dir_bytes bs items)) None (listing bs (in_lba dir) [] items)))).
  { unfold dir_bytes in *. set (l := write_items bs [] items) in *. set (n := (- zlen l) mod bs) in *.
    assert (Hn : 0 <= n < bs) by (apply Z.mod_pos_bound; unfold bs; lia).
    pose proof (items_LoopsTo me (in_lba dir) items [] (zeros n) []) as Hit. cbn zeta in Hit. fold bs l in Hit.
    apply Hit; [done|done|done|]. clear Hit. cbn [app]. rewrite zlen_app, zlen_zeros by lia.
    assert (Hend : forall out, LoopsTo (entry_round me (in_lba dir) (l ++ zeros n)) (mkWalk (zlen l + n) None out)
      (Ok (mkWalk (zlen l + n) None out))).
    { intros out. apply LoopsTo_break. unfold entry_round. cbn [wk_pos].
      by rewrite (proj2 (Z.ltb_ge _ _)) by (rewrite zlen_app, zlen_zeros; lia). }
    destruct (decide (n = 0)) as [E|Hne]; [rewrite E, Z.add_0_r in *; apply Hend|].
    eapply LoopsTo_round; [|apply Hend]. rewrite <- (app_nil_r (zeros n)). rewrite round_pad; [|lia|done|].
    - cbn [wk_pending wk_out]. by rewrite zlen_app, zlen_zeros by lia.
    - unfold n. fold bs. apply Z.mod_opp_l_nz; [unfold bs; lia|]. intros Hmod. apply Hne. unfold n.
      by apply Z.mod_opp_l_z; [unfold bs; lia|]. }
  intros Hw. assert (Hret : returns (loop (entry_round me (in_lba dir) (dir_bytes bs items)) (mkWalk 0 None []))).
  { destruct (loop _ _); [done|done|exact Hw..]. }
  by rewrite (loop_eq _ _ _ Hret Hl).
Qed.

(** No two files of a directory have their first record at one place. *)
Lemma listing_keys bs dir_lba items : forall out,
  Forall (fun x : name * Inode => zlen out <= (in_key x.2).2) (listing bs dir_lba out items) /\
  NoDup (in_key <$> (snd <$> listing bs dir_lba out items)).
Proof.
  assert (Hplace : forall rs out, zlen out <= zlen (foldl (place bs) out rs)).
  { intros rs out. destruct (place_prefix bs rs out) as [q ->]. rewrite zlen_app. pose proof (zlen_nonneg q). lia. }
  assert (Hstart : forall out r, zlen out <= zlen (out ++ gap bs (zlen out) (rec_len r)) < zlen (place bs out r)).
  { intros out r. unfold place. rewrite !zlen_app. pose proof (zlen_nonneg (gap bs (zlen out) (rec_len r))).
    unfold rec_bytes. rewrite !zlen_cons. pose proof (zlen_nonneg (rec_head r ++ dr_fi r ++ rec_tail r)). lia. }
  induction items as [|[r|f] items IH]; intros out; cbn [listing].
  - split; constructor.
  - destruct (IH (place bs out r)) as [HF Hnd]. split; [|done]. eapply Forall_impl; [exact HF|].
    cbn beta. intros x Hx. pose proof (Hstart out r). lia.
  - destruct (IH (foldl (place bs) out (df_first f :: df_rest f))) as [HF Hnd].
    pose proof (Hstart out (df_first f)) as Hs. pose proof (Hplace (df_rest f) (place bs out (df_first f))) as Hp.
    cbn [foldl] in HF, Hnd |- *. split.
    + constructor; [cbn; lia|]. eapply Forall_impl; [exact HF|]. cbn beta. intros x Hx. lia.
    + cbn [fmap list_fmap snd]. apply NoDup_cons. split; [|done]. rewrite list_elem_of_fmap. intros (i&Ek&Hi).
      apply list_elem_of_fmap in Hi as (x&->&Hx). rewrite Forall_forall in HF. specialize (HF x Hx).
      rewrite <- Ek in HF. cbn in HF. lia.
Qed.

(** A directory written as ECMA-119 lays it out, records packed into blocks and
    none across two, the self and parent records anywhere, a file of several extents
    as a chain of records, lists exactly its files in order: the decoded identifier
    or the Rock Ridge name, the kind, and an inode with every extent, one handle per
    record; records met for the first time get the inode written.  Searching it
    finds the first file of the name, or none. *)
Theorem iso_read_dir_lists `{!ReliableSource S} (src : S) me node dir items :
  src_valid src -> Mounted src me -> inode me node = Ok dir -> in_kind dir = Directory ->
  let bs := is_block_size me in
  Forall (fun it => match it with DotItem r => rec_ok r /\ is_dot_fi (dr_fi r) = true
                    | FileItem f => file_ok f /\ named me f end) items ->
  in_size dir <= MAX_BOOT_FILE_BYTES -> in_lba dir * bs + in_size dir <= src_len src ->
  region (src_byte src) (in_lba dir * bs) (in_size dir) = dir_bytes bs items ->
  let files := listing bs (in_lba dir) [] items in
  (exists es me', iso_read_dir node me = (Ok es, me') /\ Forall2 (listed_as me') files es /\
     Forall2 (fun x e => is_by_record me !! in_key x.2 = None -> inode me' (de_node e) = Ok x.2) files es) /\
  (forall nm, exists o me', iso_lookup node nm me = (Ok o, me') /\
     match snd <$> list_find (fun x => x.1 = nm) files, o with
     | Some x, Some id => handle_of me' x.2 id /\ (is_by_record me !! in_key x.2 = None -> inode me' id = Ok x.2)
     | None, None => True
     | _, _ => False
     end).
Proof.
  intros Hv Hm Hi Hk bs Hitems Hcap Hin Hreg files. apply (iso_mounted_ok src me Hv) in Hm as [Hok Hsrc].
  rewrite <- Hsrc in Hin, Hreg. assert (Hvol : vol_ok me) by (by destruct Hok).
  pose proof (node_in_Forall _ _ _ _ (ok_nodes _ Hok) Hi) as Hdir.
  pose proof (for_each_entry_written me dir items Hvol Hdir Hitems Hcap Hin Hreg) as Hl. fold bs in Hl. fold files in Hl.
  pose proof (for_each_entry_wp (X := False) me dir Hvol Hdir) as Hfound. rewrite Hl in Hfound. cbn [wpx] in Hfound.
  destruct (listing_keys bs (in_lba dir) items []) as [_ Hnd]. fold files in Hnd. split.
  - destruct (intern_collected_ok files me [] Hok Hfound) as (es&me'&E&_&_&HF). exists es, me'.
    split; [|split; [done|by eapply intern_collected_fresh]].
    unfold iso_read_dir, bindST, getST, liftR. rewrite Hi, bool_decide_eq_true_2 by done. cbn [negb]. by rewrite Hl.
  - intros nm. unfold iso_lookup, bindST, getST, liftR. rewrite Hi, bool_decide_eq_true_2 by done. cbn [negb]. rewrite Hl.
    destruct (list_find _ files) as [[j x]|] eqn:Ef; cbn [fmap option_fmap option_map snd]; [|by exists None, me].
    apply list_find_Some in Ef as (Hj&_&_).
    destruct (iso_intern_ok me x.2 Hok (proj1 (Forall_lookup_1 _ _ _ _ Hfound Hj))) as (id&me'&->&_&_&Hh&Hnew&_).
    by exists (Some id), me'.
Qed.

(** The name in an identifier with a version. *)
Lemma decode_name_written nm ver : utf8_valid (nm ++ x3b :: ver) = true -> x3b ∉ nm -> last nm <> Some x2e ->
  decode_name (nm ++ x3b :: ver) false = Ok nm.
Proof.
  intros Hu Hs Hl. unfold decode_name. rewrite Hu. cbn [negb]. f_equal. unfold strip_version.
  assert (Hun : until x3b (nm ++ x3b :: ver) = nm).
  { clear Hu Hl. induction nm as [|b nm IH]; [done|]. apply not_elem_of_cons in Hs as [Hb Hs].
    cbn [app until]. rewrite decide_False by done. by rewrite IH. }
  rewrite Hun. unfold strip_suffix_char. destruct (rev nm) as [|b l] eqn:E; [done|].
  destruct (decide (b = x2e)) as [->|]; [|done]. exfalso. apply Hl.
  assert (En : nm = rev l ++ [x2e]) by (rewrite <- (rev_involutive nm), E; done).
  rewrite En. apply last_snoc.
Qed.
End Directories.

(** ** Through paths *)

Section Paths.
Context {D : Decoders} {DL : DecoderLaws D} {S : Type} `{SourceLaws S}.
Implicit Types (src : S) (me : Iso9660 S) (cx : SubstrateCtx).

(** C39.  What a listing hands out is well typed: every name is well-formed UTF-8,
    whether it came from an identifier, from UTF-16 or from Rock Ridge, and every
    handle is one of the node table's, whose inode satisfies the invariant of the
    volume's inodes; handles given out before keep their inodes. *)
Theorem iso_listing_typed src me node es me' :
  src_valid src -> Mounted src me -> iso_read_dir node me = (Ok es, me') ->
  Forall (fun e => utf8_valid (de_name e) = true /\ exists i, inode me' (de_node e) = Ok i /\ inode_ok i) es /\
  (forall id i, inode me id = Ok i -> inode me' id = Ok i /\ inode_ok i).
Proof.
  intros Hv Hm Hr. apply (iso_mounted_ok src me Hv) in Hm as [Hok _].
  destruct (iso_read_dir_ok me node Hok) as (r&me2&E&Hok'&Hx&Hw). rewrite E in Hr. injection Hr as -> ->.
  destruct Hw as (i&l&Hi&_&Hl&HF). assert (Hvol : vol_ok me) by (by destruct Hok).
  pose proof (node_in_Forall _ _ _ _ (ok_nodes _ Hok) Hi) as Hio.
  pose proof (for_each_entry_wp (X := False) me i Hvol Hio) as Hf. rewrite Hl in Hf. cbn [wpx] in Hf. split.
  - apply Forall_lookup_2. intros j e He. destruct (Forall2_lookup_r _ _ _ _ _ HF He) as (x&Hxj&Hn&_&_&i'&Hi'&_&?).
    split; [|by exists i']. apply utf8_valid_Chars. rewrite Hn. apply (Forall_lookup_1 _ _ _ _ Hf Hxj).
  - intros id i2 Hi2. split; [by eapply iso_extends_inode|]. exact (node_in_Forall _ _ _ _ (ok_nodes _ Hok) Hi2).
Qed.

(** The content of a file, on a medium that has all of it. *)
Definition file_holds me (i : Inode) (c : list byte) : Prop :=
  match in_zisofs i with
  | Some zi => zisofs_holds me (in_lba i * is_block_size me) zi c
  | None => c = extents_bytes me (in_extents i) /\
      Forall (fun e => e.1 * is_block_size me + e.2 <= src_len (is_src me)) (in_extents i)
  end.

Lemma iso_serves `{!ReliableSource S} me cx node i c : iso_ok me ->
  inode me node = Ok i -> in_kind i <> Directory -> file_holds me i c ->
  iso_metadata me node = Ok (mkMetadata (in_kind i) (zlen c) 0) /\
  serves (F := Iso9660 S) (S := S) (fun s => s = (me, cx)) node c.
Proof.
  intros Hok Hi Hk Hc. pose proof (node_in_Forall _ _ _ _ (ok_nodes _ Hok) Hi) as Hio.
  assert (Hread : forall off buf, 0 <= off <= zlen c -> zlen buf < 2 ^ 63 -> exists b,
    iso_read_at me node off buf = Ok (Z.min (zlen buf) (zlen c - off), b) /\ zlen b = zlen buf /\
    sub b 0 (Z.min (zlen buf) (zlen c - off)) = sub c off (Z.min (zlen buf) (zlen c - off))).
  { intros off buf Ho Hbuf. pose proof (zlen_nonneg buf). unfold file_holds in Hc.
    destruct (in_zisofs i) as [zi|] eqn:Ez.
    - destruct (zisofs_read_at me node i zi c off buf Hok Hi Hk Ez Hc ltac:(lia) Hbuf) as (b&Hr&Hz&Hs&_).
      rewrite Z.max_r in Hr, Hs by lia. by exists b.
    - destruct Hc as [-> Hin].
      pose proof (zlen_extents_bytes me _ (io_extents i Hio)) as Hz. rewrite <- (io_size i Hio) in Hz. rewrite Hz in *.
      destruct (decide (off = in_size i)) as [->|Hne].
      + exists buf. rewrite Z.sub_diag, Z.min_r, !sub_nil by lia. split; [|done]. unfold iso_read_at. rewrite Hi. cbn [bindR].
        by rewrite bool_decide_eq_false_2, Ez, Z.geb_leb, (proj2 (Z.leb_le _ _)) by done.
      + destruct (iso_read_in_range me node off buf i Hok Hi Hk Ez ltac:(lia) Hbuf Hin) as (b&?&?&?&_). by exists b. }
  split.
  - unfold iso_metadata. rewrite Hi. cbn [bindR]. unfold file_holds in Hc. destruct (in_zisofs i) as [zi|].
    + by rewrite (zh_len _ _ _ _ Hc).
    + destruct Hc as [-> _]. by rewrite zlen_extents_bytes, <- (io_size i Hio) by apply Hio.
  - intros off buf s -> Ho Hbuf. destruct (Hread off buf Ho Hbuf) as (b&Hr&Hz&Hs). pose proof (zlen_nonneg buf).
    eexists _, b, (me, cx). split; [cbn [read_at Iso_Frontend]; unfold on_self; rewrite Hr; reflexivity|].
    split; [done|]. split; [done|]. split; [lia|]. split; [lia|]. split; [lia|done].
Qed.

(** Reading by path delivers whole files.  On any mounted ISO volume resolving a
    path comes back, whatever links the medium has; where it leads to a file, in
    however many directories and through however many links, and the medium has no
    device errors and all of the file, [read_path] returns its content, every byte
    of its extents or of its zisofs blocks. *)
Theorem iso_read_path_delivers `{!ReliableSource S} src me cx path :
  src_valid src -> Mounted src me ->
  returns (resolve (F := Iso9660 S) (S := S) path (me, cx)).1 /\
  forall node me' cx', resolve (F := Iso9660 S) (S := S) path (me, cx) = (Ok node, (me', cx')) ->
    Mounted src me' /\
    forall i c, inode me' node = Ok i -> in_kind i <> Directory -> file_holds me' i c ->
      zlen c <= MAX_BOOT_FILE_BYTES ->
      exists s, read_path (F := Iso9660 S) (S := S) path (me, cx) = (Ok c, s).
Proof.
  intros Hv Hm. set (V := fun (s : Iso9660 S * SubstrateCtx) (n : Z) => Mounted src s.1).
  assert (HV : ops_return (F := Iso9660 S) (S := S) V).
  { constructor; unfold V; cbn [fst].
    - done.
    - intros [f c] n nm Hf. cbn [fst] in Hf. cbn [lookup_ Iso_Frontend]. unfold on_frontend.
      destruct (walk_ops_return f n nm (proj1 (iso_mounted_ok src f Hv Hf))) as (_&Hl&_).
      pose proof (Mounted_lookup src f n nm Hf) as Hf'.
      destruct (iso_lookup n nm f) as [r f']. cbn [fst snd] in *. by split.
    - intros [f c] n Hf. cbn [fst] in Hf. cbn [metadata Iso_Frontend]. unfold on_self. cbn [fst snd].
      destruct (walk_ops_return f n [] (proj1 (iso_mounted_ok src f Hv Hf))) as (_&_&?&_). by split.
    - intros [f c] n Hf. cbn [fst] in Hf. cbn [read_link Iso_Frontend]. unfold on_self. cbn [fst snd].
      destruct (walk_ops_return f n [] (proj1 (iso_mounted_ok src f Hv Hf))) as (_&_&_&?). by split. }
  split. { unfold resolve, bindST, getST. by apply (resolve_loop_returns V). }
  intros node me' cx' Hres.
  assert (Hm' : Mounted src me').
  { pose proof (resolve_keeps (F := Iso9660 S) (S := S) (fun s => Mounted src s.1) path (me, cx)) as Hkeep.
    rewrite Hres in Hkeep. cbn [fst snd] in Hkeep. apply Hkeep; [..|done].
    - intros n nm [f c]. cbn [lookup_ Iso_Frontend fst]. unfold on_frontend. intros Hf.
      pose proof (Mounted_lookup src f n nm Hf) as Hf'. by destruct (iso_lookup n nm f).
    - by intros n [f c].
    - by intros n [f c]. }
  split; [done|]. intros i c Hi Hk Hc Hcap. destruct (iso_serves me' cx' node i c (proj1 (iso_mounted_ok src me' Hv Hm')) Hi Hk Hc) as [Hmeta Hsv].
  pose proof (zlen_nonneg c). unfold read_path, bindST. rewrite Hres.
  assert (E : metadata (F := Iso9660 S) (S := S) node (me', cx') = (Ok (mkMetadata (in_kind i) (zlen c) 0), (me', cx')))
    by (cbn [metadata Iso_Frontend]; unfold on_self; by rewrite Hmeta).
  rewrite E. cbn [md_kind md_size]. rewrite decide_False by done. unfold liftR.
  rewrite (proj2 (checked_full_Ok (zlen c) (zlen c))) by done. unfold MAX_BOOT_FILE_BYTES in Hcap.
  destruct (read_loop_serves _ node c (zlen c) Hsv ltac:(lia) (Datatypes.S (Z.to_nat (zlen c))) 0 (zeros (zlen c)) (me', cx'))
    as (s'&->&_); try done; try lia.
  - apply zlen_zeros. lia.
  - exists s'. by rewrite Z.min_id, sub_all.
Qed.
End Paths.

(** ** A small Rock Ridge volume, and the properties there

    One directory with a file of two extents, a symlink whose entries go on in a
    continuation area, and a zisofs file of a stored block and a hole. *)

Definition w_rec (lba size flags : Z) (fi su : list byte) : DirRec :=
  mkDirRec lba size flags fi su (zeros 7) (zeros 6).
Definition w_sp : list byte := bytes_of "SP" ++ [x07; x01; xbe; xef; x00].
Definition w_big_rr : list Item := [INm false (bytes_of "big.data"); IPx 0x81A4 []].
Definition w_link_rr : list Item :=
  [INm true (bytes_of "li"); ISl true [mkSlComp 8 []; mkSlComp 1 (bytes_of "us")];
   ICe (mkCe 92 16 16) (zeros 4) (zeros 4) (zeros 4)].
Definition w_link_rest : list Item := [INm false (bytes_of "nk"); ISl false [mkSlComp 0 (bytes_of "r")]].
Definition w_z_rr : list Item := [IOther (bytes_of "TF") (zeros 1); IZf x04 (mkZisofs 7 2)].

Definition w_big : DirFile :=
  mkDirFile (w_rec 84 512 0x80 (bytes_of "BIG.DAT;1") (area_bytes w_big_rr))
    [w_rec 88 100 0 (bytes_of "BIG.DAT;1") []] (bytes_of "BIG.DAT")
    (mkRrInfo (Some (bytes_of "big.data")) (Some 0x81A4) None None).
Definition w_link : DirFile :=
  mkDirFile (w_rec 0 0 0 (bytes_of "LINK.;1") (area_bytes w_link_rr)) [] (bytes_of "LINK")
    (mkRrInfo (Some (bytes_of "link")) None (Some (bytes_of "/usr")) None).
Definition w_z : DirFile :=
  mkDirFile (w_rec 96 32 0 (bytes_of "Z.;1") (area_bytes w_z_rr)) [] (bytes_of "Z")
    (mkRrInfo None None None (Some (mkZisofs 7 2))).
Definition w_items : list DirItem :=
  [DotItem (w_rec 80 512 2 [x00] w_sp); DotItem (w_rec 80 512 2 [x01] []); FileItem w_big; FileItem w_link; FileItem w_z].

(** The zisofs file: header, three pointers, the first block stored, the second a
    hole. *)
Definition w_zfile : list byte :=
  ZISOFS_MAGIC ++ le_bytes 4 7 ++ [x04; x02; x00; x00] ++ le_bytes 4 28 ++ le_bytes 4 32 ++ le_bytes 4 32 ++ bytes_of "zisO".
Definition w_pvd : list byte :=
  x01 :: bytes_of "CD001" ++ zeros 122 ++ le_bytes 2 512 ++ zeros 26 ++ rec_bytes (w_rec 80 512 2 [x00] []).
Definition w_img : Image := mkImage 61440 [
  (32768, w_pvd); (34816, xff :: bytes_of "CD001"); (40960, dir_bytes 512 w_items);
  (43008, bytes_of "first"); (45056, bytes_of "second"); (47120, area_bytes w_link_rest); (49152, w_zfile)].

Definition w_iso0 : Iso9660 Image :=
  match iso_open w_img with Ok me => me | _ => mkIso w_img 512 [] ∅ false 0 false None end.
Definition w_iso : Iso9660 Image := (iso_read_dir 0 w_iso0).2.

Lemma w_img_valid : src_valid w_img.
Proof. by vm_compute. Qed.
Lemma w_iso_mounted0 : Mounted w_img w_iso0.
Proof. constructor. vm_compute. reflexivity. Qed.
Lemma w_iso_mounted : Mounted w_img w_iso.
Proof. apply Mounted_read_dir, w_iso_mounted0. Qed.
Definition w_root_dir : Inode := mkInode ROOT_KEY 80 512 [(80, 512)] Directory None None.
Lemma w_iso_root : inode w_iso0 0 = Ok w_root_dir.
Proof. vm_compute. reflexivity. Qed.
Lemma w_iso_names : (de_name <$> match (iso_read_dir 0 w_iso0).1 with Ok es => es | _ => [] end)
  = [bytes_of "big.data"; bytes_of "link"; bytes_of "Z"].
Proof. vm_compute. reflexivity. Qed.
Lemma w_iso_flags : is_block_size w_iso0 = 512 /\ is_rock_ridge w_iso0 = true /\ is_joliet w_iso0 = false /\
  is_susp_skip w_iso0 = 0 /\ is_by_record w_iso0 = {[ROOT_KEY := 0]}.
Proof. repeat split; vm_compute; reflexivity. Qed.

Lemma iso_total_witness :
  src_valid w_img /\ returns (iso_open w_img) /\ returns (iso_read_at w_iso 1 510 (zeros 8)).
Proof.
  split; [exact w_img_valid|]. destruct (iso_total w_img w_img_valid) as (_&Ho&Hops). split; [exact Ho|].
  destruct (Hops w_iso w_iso_mounted 1 510 (zeros 8) []) as (_&_&_&_&_&Hr); [lia|vm_compute; reflexivity|exact Hr].
Defined.

Definition w_big_inode : Inode := (file_entry 80 75 w_big).2.
Lemma w_iso_big : inode w_iso 1 = Ok w_big_inode.
Proof. vm_compute. reflexivity. Qed.
Lemma w_iso_big_bytes : sub (extents_bytes w_iso (in_extents w_big_inode)) 510 8 = zeros 2 ++ bytes_of "second".
Proof. vm_compute. reflexivity. Qed.
Lemma w_iso_big_in : Forall (fun e => e.1 * is_block_size w_iso + e.2 <= src_len w_img) (in_extents w_big_inode).
Proof.
  assert (is_block_size w_iso = 512) as -> by (vm_compute; reflexivity). by repeat constructor.
Qed.

Lemma iso_read_at_content_witness :
  exists b, iso_read_at w_iso 1 510 (zeros 8) = Ok (8, b) /\ sub b 0 8 = zeros 2 ++ bytes_of "second".
Proof.
  destruct (iso_read_at_content w_img w_iso 1 510 (zeros 8) w_big_inode) as (_&_&Hb&Hok);
    [exact w_img_valid|exact w_iso_mounted|exact w_iso_big|discriminate|reflexivity|vm_compute; split; [discriminate|reflexivity]|reflexivity|].
  destruct (Hok _ w_iso_big_in) as [b Hr]. exists b. split; [exact Hr|].
  destruct (Hb _ _ Hr) as (_&Hs&_). rewrite <- w_iso_big_bytes. exact Hs.
Defined.

Lemma w_items_ok : Forall item_ok w_link_rr /\ Forall item_ok w_link_rest.
Proof.
  split; repeat (apply List.Forall_cons; [split; [reflexivity|split; [reflexivity|]]|]); try apply List.Forall_nil.
  all: repeat first [exact I | apply List.Forall_cons | apply List.Forall_nil | by vm_compute].
Qed.
Lemma w_chained : chained w_iso0 w_link_rr [w_link_rest].
Proof.
  destruct w_items_ok as [H1 H2]. split; [exact H1|]. exists (mkCe 92 16 16), (zeros 1). split; [reflexivity|].
  split; [by exists 1|]. split; [by vm_compute|]. split; [by vm_compute|]. split; [by vm_compute|].
  split; [exact H2|reflexivity].
Qed.

Lemma rr_entries_roundtrip_witness :
  exists info, parse_rock_ridge w_iso0 (area_bytes w_link_rr) = Ok info /\
    rr_name info = Some (bytes_of "link") /\ rr_symlink_target info = Some (bytes_of "/usr").
Proof.
  destruct (rr_entries_roundtrip w_img w_iso0 w_link_rr [w_link_rest] []) as (info&Hp&_&_&_&Hn&_&Hs);
    [exact w_img_valid|exact _|exact w_iso_mounted0|exact w_chained|discriminate|by exists 0|reflexivity|].
  rewrite app_nil_r in Hp. exists info. split; [exact Hp|]. split.
  - apply Hn; [reflexivity|vm_compute; reflexivity|discriminate].
  - apply (Hs true [Txt [bytes_of "us"; bytes_of "r"]]); [reflexivity| |reflexivity].
    apply List.Forall_cons; [|apply List.Forall_nil]. split; [discriminate|by apply (bool_decide_unpack _)].
Defined.

Definition w_z_node : Inode :=
  match inode w_iso 3 with Ok i => i | _ => w_root_dir end.
Lemma w_iso_z : inode w_iso 3 = Ok w_z_node /\ in_kind w_z_node = Regular /\
  in_zisofs w_z_node = Some (mkZisofs 7 2) /\ in_lba w_z_node * is_block_size w_iso = 49152.
Proof. vm_compute. repeat split. Qed.
Lemma w_zisofs_holds : zisofs_holds w_iso 49152 (mkZisofs 7 2) (bytes_of "zisO" ++ zeros 3).
Proof.
  constructor; [reflexivity|reflexivity|vm_compute; reflexivity|vm_compute; by split|].
  change (div_ceil (uncompressed_size (mkZisofs 7 2)) (2 ^ block_size_log2 (mkZisofs 7 2))) with 2.
  intros k Hk. assert (k = 0 \/ k = 1) as [-> | ->] by lia; vm_compute; split; done.
Qed.

Lemma iso_zisofs_content_witness :
  exists b, iso_read_at w_iso 3 2 (zeros 9) = Ok (5, b) /\ sub b 0 5 = bytes_of "sO" ++ zeros 3.
Proof.
  destruct w_iso_z as (Hi&Hk&Hz&Hat).
  destruct (iso_zisofs_content w_img w_iso 3 w_z_node (mkZisofs 7 2) (bytes_of "zisO" ++ zeros 3) 2 (zeros 9)) as (_&b&Hr&_&Hs&_);
    [exact w_img_valid|exact w_iso_mounted|exact Hi|rewrite Hk; discriminate|exact Hz|rewrite Hat; exact w_zisofs_holds|lia|reflexivity|].
  exists b. split; [exact Hr|exact Hs].
Defined.

Lemma w_single_ok f : rec_ok (df_first f) -> is_dot_fi (dr_fi (df_first f)) = false ->
  rec_is_dir (df_first f) = false -> rec_more (df_first f) = false -> df_rest f = [] -> file_ok f.
Proof.
  intros Hr Hdot Hdir Hmore Hrest. unfold file_ok. rewrite Hdir, Hrest. by repeat (split; [done|]).
Qed.
Lemma w_big_ok : file_ok w_big.
Proof.
  split; [by vm_compute|]. split; [by vm_compute|]. split; [by vm_compute|]. split; [vm_compute; done|].
  apply List.Forall_cons; [|apply List.Forall_nil]. split; [by vm_compute|by split].
Qed.
Lemma w_recs_ok : rec_ok (w_rec 80 512 2 [x00] w_sp) /\ rec_ok (w_rec 80 512 2 [x01] []) /\
  rec_ok (df_first w_link) /\ rec_ok (df_first w_z).
Proof. by vm_compute. Qed.
Lemma w_named : named w_iso0 w_big /\ named w_iso0 w_link /\ named w_iso0 w_z.
Proof. split; [|split]; (split; vm_compute; reflexivity). Qed.
Lemma w_items_written :
  Forall (fun it => match it with DotItem r => rec_ok r /\ is_dot_fi (dr_fi r) = true
                    | FileItem f => file_ok f /\ named w_iso0 f end) w_items.
Proof.
  destruct w_named as (Hb&Hl&Hz). destruct w_recs_ok as (Hself&Hparent&Hlr&Hzr).
  apply List.Forall_cons; [by split|]. apply List.Forall_cons; [by split|].
  apply List.Forall_cons; [split; [exact w_big_ok|exact Hb]|].
  apply List.Forall_cons; [split; [by apply w_single_ok|exact Hl]|].
  apply List.Forall_cons; [split; [by apply w_single_ok|exact Hz]|]. apply List.Forall_nil.
Qed.

Lemma iso_read_dir_lists_witness :
  exists es me', iso_read_dir 0 w_iso0 = (Ok es, me') /\
    Forall2 (fun x e => de_name e = x.1 /\ inode me' (de_node e) = Ok x.2) (listing 512 80 [] w_items) es.
Proof.
  destruct w_iso_flags as (Hbs&_&_&_&Hk).
  destruct (iso_read_dir_lists w_img w_iso0 0 w_root_dir w_items) as [(es&me'&He&HF&Hnew) _];
    [exact w_img_valid|exact w_iso_mounted0|exact w_iso_root|reflexivity|exact w_items_written|discriminate
    |rewrite Hbs; discriminate|rewrite Hbs; vm_compute; reflexivity|].
  exists es, me'. split; [exact He|]. rewrite Hbs, Hk in *. clear He.
  assert (Hfresh : Forall (fun x => ({[ROOT_KEY := 0]} : gmap (Z * Z) Z) !! in_key x.2 = None) (listing 512 80 [] w_items)).
  { repeat (apply List.Forall_cons; [vm_compute; reflexivity|]). apply List.Forall_nil. }
  change (in_lba w_root_dir) with 80 in *.
  revert es HF Hnew. generalize dependent (listing 512 80 [] w_items). intros l Hfresh es HF Hnew.
  apply Forall2_same_length_lookup_2; [by eapply Forall2_length|]. intros j x e Hx He.
  split; [apply (Forall2_lookup_lr _ _ _ _ _ _ HF Hx He)|].
  apply (Forall2_lookup_lr _ _ _ _ _ _ Hnew Hx He). exact (Forall_lookup_1 _ _ _ _ Hfresh Hx).
Defined.

Definition w_es : list DirEntry := match (iso_read_dir 0 w_iso0).1 with Ok es => es | _ => [] end.
Lemma w_es_eq : (iso_read_dir 0 w_iso0).1 = Ok w_es.
Proof. vm_compute. reflexivity. Qed.
Lemma w_listed : iso_read_dir 0 w_iso0 = (Ok w_es, w_iso).
Proof. rewrite (surjective_pairing (iso_read_dir 0 w_iso0)), w_es_eq. reflexivity. Qed.
Lemma iso_listing_typed_witness :
  Forall (fun e => utf8_valid (de_name e) = true /\ exists i, inode w_iso (de_node e) = Ok i /\ inode_ok i) w_es.
Proof. exact (proj1 (iso_listing_typed w_img w_iso0 0 w_es w_iso w_img_valid w_iso_mounted0 w_listed)). Defined.

(** The volume after looking for the zisofs file. *)
Definition w_iso_found : Iso9660 Image := (iso_lookup 0 (bytes_of "Z") w_iso0).2.
Lemma w_resolve : resolve (F := Iso9660 Image) (S := Image) (bytes_of "/./Z") (w_iso0, mock_ctx) = (Ok 1, (w_iso_found, mock_ctx)).
Proof. vm_compute. reflexivity. Qed.
Definition w_found_node : Inode := match inode w_iso_found 1 with Ok i => i | _ => w_root_dir end.
Lemma w_found : inode w_iso_found 1 = Ok w_found_node /\ in_kind w_found_node = Regular /\
  in_zisofs w_found_node = Some (mkZisofs 7 2) /\ in_lba w_found_node * is_block_size w_iso_found = 49152.
Proof. vm_compute. repeat split. Qed.
Lemma w_found_holds : file_holds w_iso_found w_found_node (bytes_of "zisO" ++ zeros 3).
Proof.
  destruct w_found as (_&_&Hz&Hat). unfold file_holds. rewrite Hz, Hat.
  apply (zisofs_holds_src w_iso); [vm_compute; reflexivity|exact w_zisofs_holds].
Qed.

Lemma iso_read_path_delivers_witness :
  exists s, read_path (F := Iso9660 Image) (S := Image) (bytes_of "/./Z") (w_iso0, mock_ctx) = (Ok (bytes_of "zisO" ++ zeros 3), s).
Proof.
  destruct (iso_read_path_delivers w_img w_iso0 mock_ctx (bytes_of "/./Z") w_img_valid w_iso_mounted0) as [_ Hp].
  destruct (Hp 1 w_iso_found mock_ctx w_resolve) as [_ Hc]. destruct w_found as (Hi&Hk&_&_).
  apply (Hc w_found_node); [exact Hi|rewrite Hk; discriminate|exact w_found_holds|discriminate].
Defined.
