(* ===== verification/IsoTree.v ===== *)
(** * A written ISO 9660 volume is the tree that was written

    The format from the writer's side: the volume descriptors, the root record that
    says whether Rock Ridge is in use, and the directories, files and links below the
    root; mounted and used by path such a volume is its tree, with the names of the
    name space that is in use. *)
From S2P Require Import Prelude Text Cache Substrate Path Codec Nodes RockRidge Iso IsoSpec Tree.
Open Scope Z_scope.

(** ** Volume descriptors *)

(** The descriptors up to the last field that is read; [gap]s are of any value. *)
Inductive VDesc : Type :=
| VPrimary (gap : list byte) (block_size : Z) (gap' : list byte) (root : DirRec)
| VJoliet (gap : list byte) (level : byte) (gap' : list byte) (root : DirRec)
| VBoot (version : byte) (gap : list byte) (catalog : Z)
| VOther (ty : byte) (body : list byte).
Definition vdesc_bytes (d : VDesc) : list byte :=
  match d with
  | VPrimary gap block_size gap' root => x01 :: STANDARD_ID ++ gap ++ le_bytes 2 block_size ++ gap' ++ rec_bytes root
  | VJoliet gap level gap' root => x02 :: STANDARD_ID ++ gap ++ (JOLIET_ESCAPE_PREFIX ++ [level]) ++ gap' ++ rec_bytes root
  | VBoot version gap catalog => x00 :: STANDARD_ID ++ [version] ++ EL_TORITO_ID ++ gap ++ le_bytes 4 catalog
  | VOther ty body => ty :: STANDARD_ID ++ body
  end.
Definition joliet_escape (esc : list byte) : Prop := exists level, esc = JOLIET_ESCAPE_PREFIX ++ [level] /\ u8 level ∈ [0x40; 0x43; 0x45].
Definition root_ok (r : DirRec) : Prop := rec_ok r /\ zlen (dr_fi r) = 1 /\ dr_su r = [].
(** A descriptor of another kind: no El Torito boot record, no Joliet. *)
Definition vdesc_ok (d : VDesc) : Prop :=
  match d with
  | VPrimary gap block_size gap' root => zlen gap = 122 /\ 0 < block_size < 2 ^ 16 /\ zlen gap' = 26 /\ root_ok root
  | VJoliet gap level gap' root => zlen gap = 82 /\ u8 level ∈ [0x40; 0x43; 0x45] /\ zlen gap' = 65 /\ root_ok root
  | VBoot _ gap catalog => zlen gap = 41 /\ 0 <= catalog < 2 ^ 32
  | VOther ty body => zlen body = 85 /\ u8 ty ∉ [VD_TYPE_PRIMARY; VD_TYPE_TERMINATOR] /\
      (u8 ty = VD_TYPE_BOOT_RECORD -> sub body 1 23 <> EL_TORITO_ID) /\
      (u8 ty = VD_TYPE_SUPPLEMENTARY -> ~ joliet_escape (sub body 82 3))
  end.

Definition root_inode (r : DirRec) : Inode :=
  mkInode ROOT_KEY (dr_lba r) (dr_size r) [(dr_lba r, dr_size r)] Directory None None.
(** The last descriptor of a kind counts. *)
Definition take_vdesc (sc : Scan) (d : VDesc) : Scan :=
  match d with
  | VPrimary _ block_size _ root => mkScan block_size (sc_el_torito sc) (Some (root_inode root)) (sc_joliet_root sc)
  | VJoliet _ _ _ root => mkScan (sc_block_size sc) (sc_el_torito sc) (sc_pvd_root sc) (Some (root_inode root))
  | VBoot _ _ catalog => mkScan (sc_block_size sc) (Some catalog) (sc_pvd_root sc) (sc_joliet_root sc)
  | VOther _ _ => sc
  end.

(** *** Read back *)

Lemma root_record_written p r q : zlen p = 156 -> root_ok r -> root_record (p ++ rec_bytes r ++ q) = Ok (root_inode r).
Proof.
  intros Hp (Hr&Hfi&Hsu). destruct (rec_fields r Hr) as (_&_&_&Hl&Hs&_). unfold root_record.
  assert (Hz : zlen (rec_bytes r) = 34) by (rewrite zlen_rec_bytes by done; unfold rec_len; by rewrite Hfi, Hsu).
  rewrite get_range_app by lia. cbn [ok_or bindR]. rewrite Hl. cbn [bindR]. by rewrite Hs.
Qed.

Lemma standard_id ty rest : slice (ty :: STANDARD_ID ++ rest) 1 6 = Ok STANDARD_ID.
Proof. by apply (slice_app [ty] STANDARD_ID rest). Qed.

Lemma descriptor_other ty body sc rest : vdesc_ok (VOther ty body) ->
  descriptor (ty :: STANDARD_ID ++ body ++ rest) sc = Ok (Some sc).
Proof.
  intros Hd. unfold descriptor. rewrite standard_id. cbn [bindR]. rewrite bool_decide_eq_true_2 by done. cbn [negb].
  change (at_ (ty :: _) 0) with (@Ok byte ty). cbn [bindR].
  destruct Hd as (Hb&Hty&Hboot&Hsupp).
  rewrite (proj2 (Z.eqb_neq (u8 ty) VD_TYPE_PRIMARY)), (proj2 (Z.eqb_neq (u8 ty) VD_TYPE_TERMINATOR)) by set_solver.
  assert (Hsub : forall k n, 0 <= k -> 0 <= n -> k + n <= 85 -> get_range (ty :: STANDARD_ID ++ body ++ rest) (6 + k) (6 + k + n) = Some (sub body k n)).
  { intros k n ? ? ?. apply get_range_Some. rewrite zlen_cons, !zlen_app, Hb. pose proof (zlen_nonneg rest). split; [lia|].
    split; [change (zlen STANDARD_ID) with 5; lia|]. replace (6 + k + n - (6 + k)) with n by lia.
    change (ty :: STANDARD_ID ++ body ++ rest) with ((ty :: STANDARD_ID) ++ body ++ rest).
    rewrite sub_app_r, sub_app_l by (change (zlen (ty :: STANDARD_ID)) with 6; lia). f_equal. change (zlen (ty :: STANDARD_ID)) with 6. lia. }
  destruct (Z.eqb_spec (u8 ty) VD_TYPE_BOOT_RECORD) as [E|_].
  { change (zlen EL_TORITO_ID) with 23. pose proof (Hsub 1 23 ltac:(lia) ltac:(lia) ltac:(lia)) as E1. change (6 + 1) with 7 in E1. rewrite E1, bool_decide_eq_false_2; [done|].
    intros [= E']. by apply Hboot. }
  destruct (Z.eqb_spec (u8 ty) VD_TYPE_SUPPLEMENTARY) as [E|_]; [|done].
  unfold slice at 1. change JOLIET_ESCAPE_OFFSET with (6 + 82). rewrite (Hsub 82 3) by lia. cbn [bindR].
  assert (He : zlen (sub body 82 3) = 3) by (apply zlen_sub; lia).
  destruct (sub body 82 3) as [|a [|b [|level [|]]]] eqn:Eb; try (by vm_compute in He); [|rewrite !zlen_cons in He; pose proof (zlen_nonneg l); lia].
  change (slice [a; b; level] 0 2) with (Ok [a; b]). change (at_ [a; b; level] 2) with (Ok level). cbn [bindR].
  destruct (_ && _) eqn:Ej; [|done]. exfalso. apply andb_true_iff in Ej as [Ep%bool_decide_eq_true El].
  apply Hsupp; [done|]. exists level. split; [by rewrite <- Ep|]. apply existsb_exists in El as (v&Hv%list_elem_of_In&->%Z.eqb_eq). done.
Qed.

Lemma descriptor_written d sc rest : vdesc_ok d ->
  descriptor (vdesc_bytes d ++ rest) sc = Ok (Some (take_vdesc sc d)).
Proof.
  intros Hd. destruct d as [gap bs gap' r|gap level gap' r|ver gap cat|ty body];
    [| | |cbn [vdesc_bytes take_vdesc]; rewrite <- app_comm_cons, <- app_assoc; by apply descriptor_other];
    unfold descriptor; cbn [vdesc_bytes vdesc_ok take_vdesc] in *; do 3 (cbn [app] in *; rewrite <- ?app_assoc in * ); rewrite standard_id; cbn [bindR];
    (rewrite bool_decide_eq_true_2 by done); cbn [negb];
    match goal with |- context [at_ (?b :: _) 0] => change (at_ (b :: _) 0) with (@Ok byte b); cbn [bindR] end.
  - destruct Hd as (Hg&Hb&Hg'&Hr).
    assert (E : le_u16 (x01 :: STANDARD_ID ++ gap ++ le_bytes 2 bs ++ gap' ++ rec_bytes r ++ rest) 128 = Ok bs).
    { rewrite (app_assoc STANDARD_ID gap). apply (le_field_app _ (x01 :: STANDARD_ID ++ gap) 2); [|done|change (0 <= bs < 2 ^ 16); lia].
      rewrite zlen_cons, zlen_app, Hg. done. }
    change (u8 x01 =? VD_TYPE_PRIMARY) with true. cbn iota.
    rewrite E. cbn [bindR]. rewrite (proj2 (Z.eqb_neq _ _)) by lia.
    pose proof (root_record_written (x01 :: STANDARD_ID ++ gap ++ le_bytes 2 bs ++ gap') r rest) as Er.
    cbn [app] in Er. rewrite <- !app_assoc in Er. rewrite Er; [done| |done].
    rewrite zlen_cons, !zlen_app, zlen_le_bytes, Hg, Hg'. done.
  - destruct Hd as (Hg&Hl&Hg'&Hr). change (u8 x02 =? VD_TYPE_PRIMARY) with false. change (u8 x02 =? VD_TYPE_BOOT_RECORD) with false.
    change (u8 x02 =? VD_TYPE_SUPPLEMENTARY) with true. cbn iota.
    assert (E : slice (x02 :: STANDARD_ID ++ gap ++ JOLIET_ESCAPE_PREFIX ++ level :: gap' ++ rec_bytes r ++ rest)
      JOLIET_ESCAPE_OFFSET (JOLIET_ESCAPE_OFFSET + 3) = Ok (JOLIET_ESCAPE_PREFIX ++ [level])).
    { pose proof (slice_app (x02 :: STANDARD_ID ++ gap) (JOLIET_ESCAPE_PREFIX ++ [level]) (gap' ++ rec_bytes r ++ rest)
        JOLIET_ESCAPE_OFFSET (JOLIET_ESCAPE_OFFSET + 3)) as E. do 2 (cbn [app] in E; rewrite <- ?app_assoc in E). apply E;
        rewrite zlen_cons, zlen_app, Hg; done. }
    rewrite E. cbn [bindR]. change (slice (JOLIET_ESCAPE_PREFIX ++ [level]) 0 2) with (Ok JOLIET_ESCAPE_PREFIX).
    change (at_ (JOLIET_ESCAPE_PREFIX ++ [level]) 2) with (Ok level). cbn [bindR].
    rewrite bool_decide_eq_true_2 by done. cbn [andb].
    assert (existsb (Z.eqb (u8 level)) [0x40; 0x43; 0x45] = true) as ->.
    { apply existsb_exists. exists (u8 level). split; [by apply list_elem_of_In|apply Z.eqb_refl]. }
    pose proof (root_record_written (x02 :: STANDARD_ID ++ gap ++ JOLIET_ESCAPE_PREFIX ++ [level] ++ gap') r rest) as Er.
    do 3 (cbn [app] in Er; rewrite <- ?app_assoc in Er). rewrite Er; [done| |done].
    rewrite zlen_cons, !zlen_app, zlen_cons, Hg, Hg'. done.
  - destruct Hd as (Hg&Hc). change (u8 x00 =? VD_TYPE_PRIMARY) with false. change (u8 x00 =? VD_TYPE_BOOT_RECORD) with true. cbn iota.
    assert (E : get_range (x00 :: STANDARD_ID ++ ver :: EL_TORITO_ID ++ gap ++ le_bytes 4 cat ++ rest) 7 (7 + zlen EL_TORITO_ID) = Some EL_TORITO_ID)
      by (by apply (get_range_app (x00 :: STANDARD_ID ++ [ver]))).
    rewrite E, bool_decide_eq_true_2 by done.
    pose proof (le_field_app "iso: truncated u32 field" (x00 :: STANDARD_ID ++ ver :: EL_TORITO_ID ++ gap) 4 cat rest 71 4) as Ec.
    do 3 (cbn [app] in Ec; rewrite <- ?app_assoc in Ec).
    unfold le_u32, ET_CATALOG_PTR_OFFSET. rewrite Ec; [done| |done|done].
    rewrite zlen_cons, zlen_app, zlen_cons, zlen_app, Hg. done.
Qed.

Section Mount.
Context {D : Decoders} {DL : DecoderLaws D} {S : Type} `{ReliableSource S}.
Context (src : S).

(** Descriptor sector [i] begins with [bytes]. *)
Definition sector_has (i : Z) (bytes : list byte) : Prop :=
  zlen bytes <= VD_SIZE /\ VD_REGION_OFFSET + i * VD_SIZE + VD_SIZE <= src_len src /\
  has src (VD_REGION_OFFSET + i * VD_SIZE) bytes.

(** The descriptors, up to the terminator, the end of the medium or the last that is
    looked at. *)
Definition descriptors_at (sc : Scan) : Prop :=
  exists ds, Forall vdesc_ok ds /\ (forall i d, ds !! i = Some d -> sector_has (Z.of_nat i) (vdesc_bytes d)) /\
    zlen ds <= MAX_VD_SCAN /\
    (zlen ds = MAX_VD_SCAN \/ src_len src < VD_REGION_OFFSET + zlen ds * VD_SIZE + VD_SIZE \/
     sector_has (zlen ds) (xff :: STANDARD_ID)) /\
    foldl take_vdesc (mkScan 2048 None None None) ds = sc.

(** The directory of [size] bytes at [off]: its own record has an SP entry, which says
    how many bytes of a System Use area to skip, or there is none. *)
Definition says_susp (off size : Z) (susp : option Z) : Prop :=
  size = 0 /\ susp = None \/
  exists r items tail, rec_ok r /\ rec_len r <= size /\ has src off (rec_bytes r) /\
    dr_su r = area_bytes items ++ tail /\ Forall item_ok items /\ area_end tail /\ susp = sp_of items.
Definition susp_at (sc : Scan) (susp : option Z) : Prop :=
  exists root, sc_pvd_root sc = Some root /\ in_size root <= MAX_BOOT_FILE_BYTES /\
    in_lba root * sc_block_size sc + in_size root <= src_len src /\
    says_susp (in_lba root * sc_block_size sc) (in_size root) susp.

(** Rock Ridge goes before Joliet, and Joliet before the base names. *)
Definition shown (susp : option Z) (sc : Scan) : Iso9660 S * option Inode :=
  let volume rock_ridge skip joliet := mkIso src (sc_block_size sc) [] ∅ rock_ridge skip joliet (sc_el_torito sc) in
  match susp, sc_joliet_root sc with
  | Some skip, _ => (volume true skip false, sc_pvd_root sc)
  | None, Some root => (volume false 0 true, Some root)
  | None, None => (volume false 0 false, sc_pvd_root sc)
  end.

Definition volume_at (base : Iso9660 S) (root : Inode) : Prop :=
  exists sc susp, descriptors_at sc /\ susp_at sc susp /\ shown susp sc = (base, Some root).

Context (Hv : src_valid src).

Lemma sector_read i bytes : 0 <= i -> sector_has i bytes ->
  exists rest, src_read_at src (VD_REGION_OFFSET + i * VD_SIZE) VD_SIZE = Ok (bytes ++ rest).
Proof.
  intros Hi (Hz&Hin&Ho&_&Hreg). pose proof (zlen_nonneg bytes). rewrite src_read_in_range by (done || lia).
  exists (region (src_byte src) (VD_REGION_OFFSET + i * VD_SIZE + zlen bytes) (VD_SIZE - zlen bytes)).
  f_equal. rewrite <- Hreg at 1. rewrite <- region_split by lia. f_equal. lia.
Qed.

Lemma scan_LoopsTo ds : Forall vdesc_ok ds -> forall i sc, 0 <= i -> i + zlen ds <= MAX_VD_SCAN ->
  (forall j d, ds !! j = Some d -> sector_has (i + Z.of_nat j) (vdesc_bytes d)) ->
  (i + zlen ds = MAX_VD_SCAN \/ src_len src < VD_REGION_OFFSET + (i + zlen ds) * VD_SIZE + VD_SIZE \/
   sector_has (i + zlen ds) (xff :: STANDARD_ID)) ->
  LoopsTo (scan_round src) (i, sc) (Ok (foldl take_vdesc sc ds)).
Proof.
  induction 1 as [|d ds Hd Hds IH]; intros i sc Hi Hlim Hat Hend; cbn [foldl].
  - rewrite zlen_nil, Z.add_0_r in *. apply LoopsTo_break. unfold scan_round.
    destruct (Z.ltb_spec i MAX_VD_SCAN); cbn [negb]; [|done]. destruct Hend as [|[Hlt|Hs]]; [lia| |].
    + by rewrite Z.gtb_ltb, (proj2 (Z.ltb_lt _ _)) by lia.
    + destruct (sector_read i _ Hi Hs) as [rest Hr]. destruct Hs as (_&Hin&_).
      rewrite Z.gtb_ltb, (proj2 (Z.ltb_ge _ _)), Hr by lia. cbn [bindR]. unfold descriptor.
      rewrite <- app_comm_cons, standard_id. cbn [bindR]. by rewrite bool_decide_eq_true_2.
  - rewrite zlen_cons in *. pose proof (zlen_nonneg ds). pose proof (Hat 0%nat d eq_refl) as Hs. rewrite Z.add_0_r in Hs.
    eapply LoopsTo_round; [|apply (IH (i + 1)); [lia|lia| |]].
    + unfold scan_round. rewrite (proj2 (Z.ltb_lt _ _)) by lia. cbn [negb].
      destruct (sector_read i _ Hi Hs) as [rest Hr]. destruct Hs as (_&Hin&_).
      rewrite Z.gtb_ltb, (proj2 (Z.ltb_ge _ _)), Hr by lia. cbn [bindR]. by rewrite descriptor_written.
    + intros j x Hj. replace (i + 1 + Z.of_nat j) with (i + Z.of_nat (Datatypes.S j)) by lia. by apply Hat.
    + by replace (i + 1 + zlen ds) with (i + (1 + zlen ds)) by lia.
Qed.

Lemma root_inode_ok r : root_ok r -> inode_ok (root_inode r).
Proof. intros ((Hl&Hs&_)&_). constructor; cbn; [done|by apply Forall_singleton|by vm_compute|lia|done]. Qed.

Lemma take_vdesc_ok ds : Forall vdesc_ok ds -> forall sc, scan_ok sc -> scan_ok (foldl take_vdesc sc ds).
Proof.
  induction 1 as [|d ds Hd _ IH]; intros sc Hok; [done|]. cbn [foldl]. apply IH. destruct Hok as (?&?&?&?).
  destruct d as [gap bs gap' r|gap level gap' r|ver gap cat|ty body]; cbn [vdesc_ok take_vdesc] in *; [..|done];
    destruct_and! Hd; (split; [cbn; lia|]); (split; [done|]); split; try done; by apply root_inode_ok.
Qed.

Lemma take_vdesc_keys ds : forall sc,
  (forall i, sc_pvd_root sc = Some i \/ sc_joliet_root sc = Some i -> in_key i = ROOT_KEY) ->
  let sc' := foldl take_vdesc sc ds in
  forall i, sc_pvd_root sc' = Some i \/ sc_joliet_root sc' = Some i -> in_key i = ROOT_KEY.
Proof.
  induction ds as [|d ds IH]; intros sc Hk; [done|]. apply IH. intros i Hi. destruct d; cbn in Hi;
    destruct Hi as [Hi|Hi]; try (by apply Hk; auto); by injection Hi as <-.
Qed.

Lemma scan_written sc : descriptors_at sc -> loop (scan_round src) (0, mkScan 2048 None None None) = Ok sc /\ scan_ok sc.
Proof.
  intros (ds&Hds&Hat&Hlim&Hend&<-). split; [|by apply take_vdesc_ok].
  apply loop_Ok; [|by apply scan_LoopsTo]. intros E. pose proof (scan_wp (X := False) src Hv) as Hw. by rewrite E in Hw.
Qed.

Lemma detect_susp_written me root susp : is_src me = src -> 0 < is_block_size me < 2 ^ 16 -> inode_ok root ->
  in_size root <= MAX_BOOT_FILE_BYTES -> in_lba root * is_block_size me + in_size root <= src_len src ->
  says_susp (in_lba root * is_block_size me) (in_size root) susp ->
  detect_susp me root = Ok susp.
Proof.
  intros Hsrc Hbs Hok Hcap Hin Hrec. pose proof (block_at _ me (io_lba root Hok) Hbs). pose proof (inode_size root Hok) as Hsz.
  unfold detect_susp, read_dir_extent. rewrite (proj2 (checked_full_Ok (in_size root) (in_size root))) by (split; [lia|done]).
  cbn [bindR]. unfold MAX_BOOT_FILE_BYTES in Hcap. rewrite mulw_eq by lia. cbn [bindR]. rewrite Hsrc, src_read_in_range by (done || lia). cbn [bindR].
  destruct Hrec as [[-> ->]|(r&items&tail&Hr&Hlen&(_&_&Hreg)&Hsu&Hitems&Ht&->)]; [done|].
  pose proof (rec_len_ge r) as Hge. pose proof (zlen_rec_bytes r Hr) as Hz. destruct (rec_fields r Hr) as (Hfi&_&_&_&_&Hgf).
  assert (exists rest, region (src_byte src) (in_lba root * is_block_size me) (in_size root) = rec_bytes r ++ rest) as [rest ->].
  { exists (region (src_byte src) (in_lba root * is_block_size me + zlen (rec_bytes r)) (in_size root - zlen (rec_bytes r))).
    rewrite <- Hreg at 1. rewrite <- region_split by lia. f_equal. lia. }
  rewrite bool_decide_eq_false_2 by done. change (at_ (rec_bytes r ++ rest) 0) with (@Ok byte (to_u8 (rec_len r))). cbn [bindR].
  assert (rec_len r < 256) by apply Hr. rewrite u8_to_u8, Z.mod_small by lia.
  rewrite (get_range_app [] (rec_bytes r) rest) by (rewrite ?Hz; lia || done). cbn [ok_or bindR]. rewrite Hfi. cbn [ok_or bindR].
  pose proof (rec_fi_len r Hr). rewrite u8_to_u8, Z.mod_small, Hgf by lia. cbn [default]. rewrite Hsu.
  apply detect_sp_written; [done|done|]. rewrite <- Hsu. unfold rec_len, su_start, FILE_ID in *. destruct (_ =? 0); lia.
Qed.
End Mount.

(** ** Directories, files and links *)

Lemma listing_at bs dir_lba items : forall out,
  Forall (fun x => (in_key x.2).1 = dir_lba /\ (in_key x.2).2 < zlen (write_items bs out items)) (listing bs dir_lba out items).
Proof.
  assert (Hw : forall it out items, write_items bs out (it :: items) = write_items bs (foldl (place bs) out (item_recs it)) items).
  { intros. unfold write_items. cbn [mbind list_bind]. by rewrite foldl_app. }
  induction items as [|[r|f] items IH]; intros out; cbn [listing]; [constructor|rewrite Hw; apply IH|].
  constructor; [|rewrite Hw; apply IH]. split; [done|]. rewrite Hw. cbn [item_recs foldl file_entry snd in_key].
  destruct (place_prefix bs (df_rest f) (place bs out (df_first f))) as [q ->].
  destruct (place_prefix bs (items ≫= item_recs) (place bs out (df_first f) ++ q)) as [q' Hq]. unfold write_items. rewrite Hq.
  unfold place, rec_bytes. rewrite !zlen_app, !zlen_cons, !zlen_app. pose proof (zlen_nonneg q). pose proof (zlen_nonneg q').
  pose proof (zlen_nonneg (rec_head (df_first f))). pose proof (zlen_nonneg (dr_fi (df_first f))).
  pose proof (zlen_nonneg (rec_tail (df_first f))). lia.
Qed.

Section Written.
Context {D : Decoders} {DL : DecoderLaws D} {S : Type} `{ReliableSource S}.
Context (base : Iso9660 S) (root : Inode).
(** The directories of the volume, by the block they are at. *)
Context (dirs : Z -> list DirItem).
Abbreviation bs := (is_block_size base).
Abbreviation src := (is_src base).
Abbreviation files lba := (listing bs lba [] (dirs lba)).

Definition dir_at (lba size : Z) : Prop :=
  Forall (fun it => match it with DotItem r => rec_ok r /\ is_dot_fi (dr_fi r) = true
                    | FileItem f => file_ok f /\ named base f end) (dirs lba) /\
  size = zlen (dir_bytes bs (dirs lba)) /\ size <= MAX_BOOT_FILE_BYTES /\ has src (lba * bs) (dir_bytes bs (dirs lba)).

(** The tree at a record. *)
Inductive iso_tree : Inode -> Tree -> Prop :=
| Iso_file i c : in_kind i = Regular -> file_holds base i c -> iso_tree i (TFile c)
| Iso_link i target : in_kind i = Symlink -> in_link_target i = Some target -> iso_tree i (TLink target)
| Iso_dir i es : in_kind i = Directory -> dir_at (in_lba i) (in_size i) ->
    Forall2 (fun x e => x.1 = e.1 /\ iso_tree x.2 e.2) (files (in_lba i)) es -> iso_tree i (TDir es).

Lemma iso_tree_kind i t : iso_tree i t -> in_kind i = tree_kind t.
Proof. by destruct 1. Qed.

(** *** Records and their handles *)

(** The inodes the volume can meet: a record's position determines it. *)
Definition recorded (i : Inode) : Prop :=
  i = root \/ exists lba size, dir_at lba size /\ i ∈ (files lba).*2.

Context (root_key : in_key root = ROOT_KEY).

Lemma recorded_root i lba size : dir_at lba size -> i ∈ (files lba).*2 -> in_key i <> ROOT_KEY.
Proof.
  intros (_&->&Hcap&_) (x&->&Hx)%list_elem_of_fmap E.
  destruct (proj1 (Forall_forall _ _) (listing_at bs lba (dirs lba) []) x Hx) as [_ Hk]. rewrite E in Hk. cbn [ROOT_KEY snd] in Hk.
  unfold dir_bytes, MAX_BOOT_FILE_BYTES in Hcap. rewrite zlen_app in Hcap. pose proof (zlen_nonneg (zeros ((- zlen (write_items bs [] (dirs lba))) mod bs))).
  lia.
Qed.

Lemma recorded_key i j : recorded i -> recorded j -> in_key i = in_key j -> i = j.
Proof.
  intros [->|(l1&n1&Hd1&H1')] [->|(l2&n2&Hd2&H2')] E; [done|..].
  - destruct (recorded_root j l2 n2 Hd2 H2'). congruence.
  - destruct (recorded_root i l1 n1 Hd1 H1'). congruence.
  - apply list_elem_of_fmap in H1' as (x&->&Hx). apply list_elem_of_fmap in H2' as (y&->&Hy).
    destruct (proj1 (Forall_forall _ _) (listing_at bs l1 (dirs l1) []) x Hx) as [Hk1 _].
    destruct (proj1 (Forall_forall _ _) (listing_at bs l2 (dirs l2) []) y Hy) as [Hk2 _].
    assert (l2 = l1) as -> by congruence. destruct (listing_keys bs l1 (dirs l1) []) as [_ Hnd].
    apply list_elem_of_lookup in Hx as [jx Hx]. apply list_elem_of_lookup in Hy as [jy Hy].
    assert (jx = jy) as ->; [|congruence]. eapply NoDup_lookup; [exact Hnd|rewrite !list_lookup_fmap, Hx; reflexivity|].
    rewrite !list_lookup_fmap, Hy. cbn. by rewrite E.
Qed.

Implicit Types (me : Iso9660 S) (s : Iso9660 S * SubstrateCtx).
(** The volume is [base] with inodes of records. *)
Definition over me : Prop := (exists t, me = with_tables base t) /\ iso_ok me /\ Forall recorded (is_nodes me).
Definition iso_stands s (n : NodeId) (t : Tree) : Prop :=
  over s.1 /\ exists i, recorded i /\ iso_tree i t /\ inode s.1 n = Ok i.

Lemma iso_keeps me me' cx : over me' -> extends me me' -> keeps iso_stands (me, cx) (me', cx).
Proof.
  intros Ho Hx. split; [done|]. intros n t (_&i&Hr&Ht&Hi). split; [done|]. exists i.
  split; [done|]. split; [done|]. by eapply iso_extends_inode.
Qed.

Lemma intern_recorded i me id me' : intern i me = (Ok id, me') -> Forall recorded (is_nodes me) -> recorded i ->
  Forall recorded (is_nodes me').
Proof.
  unfold intern, intern_in. destruct (_ !! _); intros [= <- <-] Hn Hi; [done|]. cbn. apply Forall_app. split; [done|].
  by apply Forall_singleton.
Qed.

(** A record, interned. *)
Lemma iso_intern_stands me cx i t : over me -> recorded i -> inode_ok i -> iso_tree i t ->
  exists id me', intern i me = (Ok id, me') /\ over me' /\ extends me me' /\ iso_stands (me', cx) id t.
Proof.
  intros ([tb ->]&Hok&Hn) Hr Hio Ht. destruct (iso_intern_ok _ i Hok Hio) as (id&me'&Hin&Hok'&Hx&(Hk&i'&Hi'&Hkey&_)&_).
  assert (Ho : over me').
  { split; [|split; [done|by eapply intern_recorded]]. destruct Hx as [[tb' ->] _ _]. by exists tb'. }
  exists id, me'. split; [done|]. split; [done|]. split; [done|]. split; [done|].
  assert (recorded i') as Hr' by (eapply node_in_Forall; [apply Ho|exact Hi']).
  rewrite (recorded_key i' i Hr' Hr Hkey) in Hi'. by exists i.
Qed.

Lemma iso_walk me i es : over me -> recorded i -> inode_ok i -> iso_tree i (TDir es) ->
  for_each_entry me i = Ok (files (in_lba i)) /\
  Forall (fun x => recorded x.2 /\ inode_ok x.2) (files (in_lba i)) /\
  Forall2 (fun x e => x.1 = e.1 /\ iso_tree x.2 e.2) (files (in_lba i)) es.
Proof.
  intros ([tb ->]&Hok&_) Hr Hio Ht. inversion Ht as [| |? ? Hk Hd HF]; subst. pose proof Hd as (Hit&Hsz&Hcap&_&Hin&Hreg).
  assert (Hvol : vol_ok (with_tables base tb)) by (by destruct Hok).
  assert (Hl : for_each_entry (with_tables base tb) i = Ok (files (in_lba i))).
  { apply (for_each_entry_written (with_tables base tb) i (dirs (in_lba i)) Hvol Hio Hit); [done|cbn; lia|].
    cbn [is_src with_tables is_block_size]. by rewrite Hsz. }
  split; [done|]. split; [|done].
  pose proof (for_each_entry_wp (X := False) _ i Hvol Hio) as Hw. rewrite Hl in Hw. cbn [wpx] in Hw.
  apply Forall_forall. intros x Hx. split; [|apply (proj1 (Forall_forall _ _) Hw x Hx)].
  right. exists (in_lba i), (in_size i). split; [done|]. by apply list_elem_of_fmap_2.
Qed.

(** *** The operations *)

Lemma intern_collected_stands entries es : Forall (fun x => recorded x.2 /\ inode_ok x.2) entries ->
  Forall2 (fun x e => x.1 = e.1 /\ iso_tree x.2 e.2) entries es -> forall me out cx, over me ->
  exists out' me', intern_collected entries out me = (Ok (out ++ out'), me') /\ over me' /\ extends me me' /\
    Forall2 (lists iso_stands (me', cx)) out' es.
Proof.
  intros Hrec. induction 1 as [|[nm i] e entries es [Hn Ht] _ IH]; intros me out cx Ho; cbn [intern_collected].
  { exists [], me. rewrite app_nil_r. split; [done|]. split; [done|]. split; [apply iso_extends_refl|constructor]. }
  apply Forall_cons in Hrec as [[Hr Hi] Hrec]. cbn [fst snd] in *.
  destruct (iso_intern_stands me cx i _ Ho Hr Hi Ht) as (id&me1&Hin&Ho1&Hx1&Hs). unfold bindST at 1. rewrite Hin.
  destruct (IH Hrec me1 (out ++ [mkDirEntry nm id (in_kind i)]) cx Ho1) as (out'&me'&->&Ho'&Hx'&HF).
  exists (mkDirEntry nm id (in_kind i) :: out'), me'. rewrite <- app_assoc. split; [done|]. split; [done|].
  split; [by eapply iso_extends_trans|]. constructor; [|done]. split; [done|]. split; [by apply iso_tree_kind|].
  by apply (iso_keeps me1 me' cx Ho' Hx').
Qed.

Lemma stands_inode me cx n t : iso_stands (me, cx) n t ->
  over me /\ exists i, recorded i /\ inode_ok i /\ iso_tree i t /\ inode me n = Ok i /\ in_kind i = tree_kind t.
Proof.
  intros [Ho (i&Hr&Ht&Hi)]. split; [done|]. exists i. split; [done|]. split; [eapply node_in_Forall; [apply Ho|exact Hi]|].
  split; [done|]. split; [done|by apply iso_tree_kind].
Qed.

(** What reads and metadata of a file rest on. *)
Lemma stands_holds me i c : over me -> iso_tree i (TFile c) -> file_holds me i c.
Proof.
  intros ([tb ->]&_&_) Ht. inversion Ht as [? ? _ Hh| |]; subst. unfold file_holds in *. destruct (in_zisofs i); [|done].
  by apply (zisofs_holds_src base).
Qed.

(** At a node that is no directory. *)
Ltac not_a_directory :=
  rewrite bool_decide_eq_false_2 by done; cbn [negb]; eexists _, _; by (split; [reflexivity|split; [apply keeps_refl|]]).

Lemma iso_implements_read_dir s n t : iso_stands s n t ->
  implements iso_stands (fun s' => Forall2 (lists iso_stands s')) (read_dir (S := S) n)
    (match t with TDir es => Ok es | _ => Err NotDirectory end) s.
Proof.
  destruct s as [me cx]. intros Hs. destruct (stands_inode _ _ _ _ Hs) as (Ho&i&Hr&Hio&Ht&Hi&Hkind). unfold implements.
  cbn [read_dir Iso_Frontend on_frontend]. unfold iso_read_dir, bindST, getST, liftR. rewrite Hi, Hkind.
  destruct t as [c|es|target|c]; cbn [tree_kind]; [not_a_directory| |not_a_directory..].
  rewrite bool_decide_eq_true_2 by done. cbn [negb]. destruct (iso_walk me i es Ho Hr Hio Ht) as (->&Hrec&HF).
  destruct (intern_collected_stands _ es Hrec HF me [] cx Ho) as (out&me'&->&Ho'&Hx&HL).
  eexists _, _. split; [reflexivity|]. split; [by apply iso_keeps|]. by exists out.
Qed.

(** Only the entry that is found gets a node. *)
Lemma iso_implements_lookup s n t nm : iso_stands s n t ->
  implements iso_stands (fun s' m o => match m, o with
                                       | Some m, Some c => iso_stands s' m c
                                       | None, None => True
                                       | _, _ => False end)
    (lookup_ (S := S) n nm) (match t with TDir es => Ok (find_child nm es) | _ => Err NotDirectory end) s.
Proof.
  destruct s as [me cx]. intros Hs. destruct (stands_inode _ _ _ _ Hs) as (Ho&i&Hr&Hio&Ht&Hi&Hkind). unfold implements.
  cbn [lookup_ Iso_Frontend on_frontend]. unfold iso_lookup, bindST, getST, liftR. rewrite Hi, Hkind.
  destruct t as [c|es|target|c]; cbn [tree_kind]; [not_a_directory| |not_a_directory..].
  rewrite bool_decide_eq_true_2 by done. cbn [negb]. destruct (iso_walk me i es Ho Hr Hio Ht) as (->&Hrec&HF).
  pose proof (find_child_Forall2 iso_tree nm _ _ HF) as Hf. pose proof (find_child_elem nm (files (in_lba i))) as Hin. unfold find_child in Hf at 1, Hin.
  destruct (snd <$> list_find (fun e => e.1 = nm) (files (in_lba i))) as [e|]; cbn [fmap option_fmap option_map] in Hf, Hin;
    destruct (find_child nm es) as [t'|]; try done.
  - destruct (proj1 (Forall_forall _ _) Hrec _ (Hin _ eq_refl)) as [Hrx Hix].
    destruct (iso_intern_stands me cx e.2 t' Ho Hrx Hix Hf) as (id&me'&->&Ho'&Hx&Hst).
    eexists _, _. split; [reflexivity|]. split; [by apply iso_keeps|]. by eexists.
  - eexists _, _. split; [reflexivity|]. split; [apply keeps_refl|by eexists].
Qed.

#[export] Instance IsoTree : TreeFs (Iso9660 S) S iso_stands.
Proof.
  split; [exact iso_implements_lookup|exact iso_implements_read_dir|..].
  - intros [me cx] n t Hs. destruct (stands_inode _ _ _ _ Hs) as (Ho&i&Hr&Hio&Ht&Hi&Hkind).
    apply (implements_here _ _ _ (iso_metadata me n)); [reflexivity|]. destruct (content_of t) as [c|] eqn:Ec.
    + destruct t as [c'| | |c']; try done; [|by inversion Ht]. injection Ec as ->.
      destruct (iso_serves me cx n i c (proj1 (proj2 Ho)) Hi ltac:(by rewrite Hkind) (stands_holds me i c Ho Ht)) as [-> _].
      eexists. split; [reflexivity|]. split; [done|]. by intros c' [= ->].
    + unfold iso_metadata. rewrite Hi. eexists. split; [reflexivity|]. split; [done|]. intros c. by rewrite Ec.
  - intros [me cx] n target Hs. destruct (stands_inode _ _ _ _ Hs) as (Ho&i&Hr&Hio&Ht&Hi&Hkind).
    apply (implements_here _ _ _ (iso_read_link me n)); [reflexivity|]. unfold iso_read_link. rewrite Hi.
    inversion Ht; subst. cbn [bindR]. by eexists.
  - intros [me cx] n t c off buf Hs Hc Hz Hoff Hb. destruct (stands_inode _ _ _ _ Hs) as (Ho&i&Hr&Hio&Ht&Hi&Hkind).
    destruct t as [c'| | |c']; try done; [|by inversion Ht]. injection Hc as ->.
    destruct (iso_serves me cx n i c (proj1 (proj2 Ho)) Hi ltac:(by rewrite Hkind) (stands_holds me i c Ho Ht)) as [_ Hsv].
    destruct (Hsv off buf (me, cx) eq_refl Hoff Hb) as (k&b&s'&E&->&Hp). exists (Ok (k, b)), (me, cx).
    split; [exact E|]. split; [apply keeps_refl|]. by exists (k, b).
Qed.
End Written.

(** ** Mounted *)

Section Refines.
Context {D : Decoders} {DL : DecoderLaws D} {S : Type} `{ReliableSource S}.

Lemma iso_open_written (src : S) base root : src_valid src -> volume_at src base root ->
  is_src base = src /\ in_key root = ROOT_KEY /\ inode_ok root /\ iso_ok base /\ is_nodes base = [] /\ is_by_record base = ∅ /\
  iso_open src = (let (r, me) := intern root base in let! _ := r in Ok me).
Proof.
  intros Hv (sc&susp&Hscan&(pvd&Hpvd&Hcap&Hin&Hsusp)&Hshown). destruct (scan_written src Hv sc Hscan) as (Hl&Hbs&Het&Hp&Hj).
  rewrite Hpvd in Hp. unfold iso_open. rewrite Hl. cbn [bindR]. rewrite Hpvd. cbn [ok_or bindR].
  rewrite (detect_susp_written src Hv _ pvd susp) by done. cbn [bindR].
  assert (Hkeys : forall i, sc_pvd_root sc = Some i \/ sc_joliet_root sc = Some i -> in_key i = ROOT_KEY).
  { destruct Hscan as (ds&_&_&_&_&<-). apply (take_vdesc_keys ds). by intros i [|]. }
  assert (Hok : forall rr skip joliet, iso_ok (mkIso src (sc_block_size sc) [] ∅ rr skip joliet (sc_el_torito sc)))
    by (intros; constructor; [done|done|done|constructor|apply table_ok_empty]).
  unfold shown in Hshown. rewrite Hpvd in Hshown. destruct susp; [|destruct (sc_joliet_root sc)]; injection Hshown as <- <-;
    split_and!; try done; apply Hkeys; auto.
Qed.

(** C6.  An ISO 9660 volume is the tree written on it.  On a medium with volume
    descriptors and, below the root that Rock Ridge, Joliet or the base names show,
    packed directories, files of one or many extents or in zisofs, and Rock Ridge
    links, whatever session of reads, listings and queries by path, the mounted volume
    gives the answers of the abstract file system, errors included: which records were
    met before, by [lookup] or by a listing, makes no difference. *)
Theorem iso_refines_tree (src : S) base root dirs top cx ops :
  src_valid src -> volume_at src base root -> iso_tree base dirs root top -> tree_kind top = Directory ->
  exists me, iso_open src = Ok me /\ session (F := Iso9660 S) (S := S) ops (me, cx) = tree_op top <$> ops.
Proof.
  intros Hv Hvol Ht Hd. destruct (iso_open_written src base root Hv Hvol) as (Hsrc&Hkey&Hio&Hok&Hnodes&Hkeys&->).
  assert (Ho : over base root dirs base).
  { split; [|split; [done|by rewrite Hnodes]]. exists (is_nodes base, is_by_record base). by destruct base. }
  destruct (iso_intern_stands base root dirs Hkey base cx root top Ho ltac:(by left) Hio Ht) as (id&me&Hin&_&_&Hs).
  rewrite Hin. cbn [bindR]. exists me. split; [done|]. pose proof (IsoTree base root dirs Hkey).
  apply (session_refines (stands := iso_stands base root dirs) top Hd).
  assert (id = 0) as ->; [|exact Hs]. revert Hin. unfold intern, intern_in. rewrite Hkeys, lookup_empty, Hnodes. by intros [= <- _].
Qed.
End Refines.

(** ** Witness: a Rock Ridge volume

    Under the root a directory with a zisofs file, a file of two extents, and a link to
    the directory whose path goes on in a continuation area. *)

Definition it_root : DirRec := w_rec 80 512 2 [x00] [].
Definition it_usr : DirFile :=
  mkDirFile (w_rec 98 512 2 (bytes_of "USR") (area_bytes [INm false (bytes_of "usr")])) [] (bytes_of "USR")
    (mkRrInfo (Some (bytes_of "usr")) None None None).
Definition it_root_items : list DirItem :=
  [DotItem (w_rec 80 512 2 [x00] w_sp); DotItem (w_rec 80 512 2 [x01] []); FileItem it_usr; FileItem w_big; FileItem w_link].
Definition it_usr_items : list DirItem :=
  [DotItem (w_rec 98 512 2 [x00] []); DotItem (w_rec 80 512 2 [x01] []); FileItem w_z].
Definition it_dirs (lba : Z) : list DirItem := if lba =? 80 then it_root_items else it_usr_items.
Definition it_vds : list VDesc :=
  [VPrimary (zeros 122) 512 (zeros 26) it_root; VBoot x01 (zeros 41) 90; VOther x02 (zeros 85)].
Definition it_src : Image := mkImage 61440 [
  (32768, vdesc_bytes (VPrimary (zeros 122) 512 (zeros 26) it_root)); (34816, vdesc_bytes (VBoot x01 (zeros 41) 90));
  (36864, vdesc_bytes (VOther x02 (zeros 85))); (38912, xff :: STANDARD_ID); (40960, dir_bytes 512 it_root_items);
  (43008, bytes_of "first"); (45056, bytes_of "second"); (47120, area_bytes w_link_rest); (49152, w_zfile);
  (50176, dir_bytes 512 it_usr_items)].
Definition it_base : Iso9660 Image := mkIso it_src 512 [] ∅ true 0 false (Some 90).
Definition it_big : list byte := bytes_of "first" ++ zeros 507 ++ bytes_of "second" ++ zeros 94.
Definition it_tree : Tree :=
  TDir [(bytes_of "usr", TDir [(bytes_of "Z", TFile (bytes_of "zisO" ++ zeros 3))]); (bytes_of "big.data", TFile it_big);
        (bytes_of "link", TLink (bytes_of "/usr"))].
Definition it_ops : list PathOp :=
  [OpRead (bytes_of "link/Z"); OpList (bytes_of "/link"); OpStat (bytes_of "big.data"); OpRead (bytes_of "usr/../Z");
   OpRead (bytes_of "usr"); OpList (bytes_of "nope")].

Lemma it_valid : src_valid it_src.
Proof. by vm_compute. Qed.

Lemma it_has off bytes : bool_decide (0 <= off /\ off + zlen bytes <= src_len it_src /\ region (src_byte it_src) off (zlen bytes) = bytes) = true ->
  has it_src off bytes.
Proof. apply bool_decide_eq_true. Qed.

Lemma it_root_ok : root_ok it_root.
Proof. split; [by vm_compute|by split]. Qed.

Lemma it_vds_ok : Forall vdesc_ok it_vds.
Proof.
  apply List.Forall_cons; [split; [reflexivity|]; split; [by vm_compute|]; split; [reflexivity|exact it_root_ok]|].
  apply List.Forall_cons; [by split|]. apply List.Forall_cons; [|apply List.Forall_nil]. split; [reflexivity|].
  split; [apply (bool_decide_unpack _); by vm_compute|]. split; [by vm_compute|]. intros _ (level&E&_). by vm_compute in E.
Qed.

Lemma it_volume : volume_at it_src it_base (root_inode it_root).
Proof.
  exists (mkScan 512 (Some 90) (Some (root_inode it_root)) None), (Some 0). split; [|split; [|reflexivity]].
  - exists it_vds. split; [exact it_vds_ok|]. split; [|split; [discriminate|split; [right; right|reflexivity]]].
    + intros [|[|[|i]]] d; [intros [= <-]; (split; [by vm_compute|split; [by vm_compute|apply it_has; vm_compute; reflexivity]])..|discriminate].
    + split; [by vm_compute|]. split; [by vm_compute|apply it_has; vm_compute; reflexivity].
  - exists (root_inode it_root). split; [reflexivity|]. split; [discriminate|]. split; [by vm_compute|]. right.
    exists (w_rec 80 512 2 [x00] w_sp), [IOther (bytes_of "SP") [xbe; xef; x00]], []. split; [apply w_recs_ok|].
    split; [discriminate|]. split; [apply it_has; vm_compute; reflexivity|]. split; [reflexivity|].
    split; [|split; [by exists 0|reflexivity]]. apply List.Forall_cons; [|apply List.Forall_nil].
    split; [reflexivity|]. split; [reflexivity|]. apply (bool_decide_unpack _). by vm_compute.
Qed.

Lemma it_dir_ok f : rec_ok (df_first f) -> is_dot_fi (dr_fi (df_first f)) = false ->
  rec_is_dir (df_first f) = true -> df_rest f = [] -> file_ok f.
Proof. intros Hr Hdot Hdir Hrest. unfold file_ok. rewrite Hdir, Hrest. by repeat (split; [done|]). Qed.

Lemma it_named : named it_base it_usr /\ named it_base w_big /\ named it_base w_link /\ named it_base w_z.
Proof. split; [|split; [|split]]; (split; vm_compute; reflexivity). Qed.

Lemma it_dirs_at : dir_at it_base it_dirs 80 512 /\ dir_at it_base it_dirs 98 512.
Proof.
  destruct it_named as (Hu&Hb&Hl&Hz). destruct w_recs_ok as (Hself&Hparent&Hlr&Hzr).
  split; (split; [|split; [vm_compute; reflexivity|split; [discriminate|apply it_has; vm_compute; reflexivity]]]).
  - apply List.Forall_cons; [by split|]. apply List.Forall_cons; [by split|].
    apply List.Forall_cons; [split; [apply it_dir_ok; by vm_compute|exact Hu]|].
    apply List.Forall_cons; [split; [exact w_big_ok|exact Hb]|].
    apply List.Forall_cons; [split; [by apply w_single_ok|exact Hl]|apply List.Forall_nil].
  - apply List.Forall_cons; [split; [by vm_compute|reflexivity]|]. apply List.Forall_cons; [by split|].
    apply List.Forall_cons; [split; [by apply w_single_ok|exact Hz]|apply List.Forall_nil].
Qed.

Lemma it_zisofs : zisofs_holds it_base 49152 (mkZisofs 7 2) (bytes_of "zisO" ++ zeros 3).
Proof.
  constructor; [reflexivity|reflexivity|vm_compute; reflexivity|vm_compute; by split|].
  change (div_ceil (uncompressed_size (mkZisofs 7 2)) (2 ^ block_size_log2 (mkZisofs 7 2))) with 2.
  intros k Hk. assert (k = 0 \/ k = 1) as [-> | ->] by lia; vm_compute; split; done.
Qed.

Lemma it_holds : iso_tree it_base it_dirs (root_inode it_root) it_tree.
Proof.
  apply Iso_dir; [reflexivity|apply it_dirs_at|]. apply Forall2_cons; split; [split; [reflexivity|]|].
  { apply Iso_dir; [reflexivity|apply it_dirs_at|]. apply Forall2_cons; split; [split; [reflexivity|]|apply Forall2_nil_2].
    apply Iso_file; [reflexivity|]. exact it_zisofs. }
  apply Forall2_cons; split; [split; [reflexivity|]|].
  { apply Iso_file; [reflexivity|]. split; [vm_compute; reflexivity|]. apply (bool_decide_unpack _). by vm_compute. }
  apply Forall2_cons; split; [split; [reflexivity|by apply Iso_link]|apply Forall2_nil_2].
Qed.

Lemma iso_refines_tree_witness :
  exists me, iso_open it_src = Ok me /\ session (F := Iso9660 Image) (S := Image) it_ops (me, mock_ctx)
    = [Ok (ABytes (bytes_of "zisO" ++ zeros 3)); Ok (AList [(bytes_of "Z", Regular)]); Ok (AStat Regular 612);
       Err (InvalidPath "'..' not supported"); Err IsDirectory; Err NotFound].
Proof.
  destruct (iso_refines_tree it_src it_base (root_inode it_root) it_dirs it_tree mock_ctx it_ops) as (me&Ho&Hs);
    [exact it_valid|exact it_volume|exact it_holds|reflexivity|].
  exists me. split; [exact Ho|]. rewrite Hs. vm_compute. reflexivity.
Defined.
