(* ===== verification/AnyMedium.v ===== *)
(** * Every frontend answers on any medium

    The seven frontends owe what [Safe] asks of a frontend, in the states their
    volumes go through: so a session by path on any medium, of any format, has an
    answer to every request. *)
From S2P Require Import Prelude Text Cache Codec Nodes Cpio Romfs Cramfs Squash Udf Erofs Iso IsoSpec.
From S2P Require Import Substrate Path Tree Safe.
Open Scope Z_scope.

Section AnyMedium.
Context {D : Decoders} {DL : DecoderLaws D} {S : Type} `{SourceLaws S} (src : S) (Hv : src_valid src).

(** ** Frontends without state *)

Definition romfs_in (s : Romfs.Romfs S * SubstrateCtx) : Prop :=
  Romfs.rf_src s.1 = src /\ 0 <= Romfs.rf_first_hdr s.1 < 2 ^ 64.
Definition u64_node (n : NodeId) : Prop := 0 <= n < 2 ^ 64.

#[export] Instance romfs_safe : SafeFs (Romfs.Romfs S) S False romfs_in u64_node (fun _ _ => True).
Proof.
  assert (Hs : forall s, romfs_in s -> src_valid (Romfs.rf_src s.1)) by (intros s [-> _]; done).
  split; try done.
  - by intros s [_ ?].
  - intros s n nm Hi Hn. apply safe_on_self; [done|]. unfold Romfs.romfs_lookup. apply wp_bind.
    eapply wp_mono; [apply Romfs.romfs_read_dir_wp; [by apply Hs|done]|]. intros es Hes c [= Hc]. by eapply Romfs.find_entry_ok.
  - intros s n Hi Hn. apply safe_on_self; [done|]. eapply wp_mono; [apply Romfs.romfs_read_dir_wp; [by apply Hs|done]|]. done.
  - intros s n Hi Hn. apply safe_on_self; [done|]. unfold Romfs.romfs_metadata. apply wp_bind.
    eapply wp_mono; [apply Romfs.resolved_header_wp; [by apply Hs|done]|]. by intros [t h].
  - intros s n Hi Hn. apply safe_on_self; [done|]. by apply Romfs.romfs_read_link_wp; [apply Hs|].
  - intros s n off buf Hi Hn _ Ho Hb. apply safe_on_self; [done|]. pose proof (zlen_nonneg buf).
    eapply wp_mono; [apply Romfs.romfs_read_at_wp; [by apply Hs|done|lia|lia]|].
    intros [k b] (Hz&t&h&_&_&->&_). split; [done|]. split; [lia|done].
Qed.

(** A read goes on where the last one ended, so it never meets the gap past the data
    of a file whose pages inflate to too little. *)
Definition cramfs_in (s : Cramfs.Cramfs S * SubstrateCtx) : Prop := Cramfs.cr_src s.1 = src.
Definition cramfs_reach (n : NodeId) (off : Z) : Prop :=
  off = 0 \/ forall inode data, Cramfs.parse_inode src n = Ok inode -> Cramfs.read_whole src inode = Ok data ->
    off <= zlen data \/ Cramfs.ci_size inode <= off.

#[export] Instance cramfs_safe : SafeFs (Cramfs.Cramfs S) S False cramfs_in u64_node cramfs_reach.
Proof.
  assert (Hs : forall s, cramfs_in s -> src_valid (Cramfs.cr_src s.1)) by (intros s ->; done).
  split; try done.
  - intros s n nm Hi Hn. apply safe_on_self; [done|]. unfold Cramfs.cramfs_lookup. apply wp_bind.
    eapply wp_mono; [apply Cramfs.cramfs_read_dir_wp; [by apply Hs|done]|]. intros es Hes c [= Hc].
    by apply (find_entry_Forall u64_node nm es).
  - intros s n Hi Hn. apply safe_on_self; [done|]. eapply wp_mono; [apply Cramfs.cramfs_read_dir_wp; [by apply Hs|done]|]. done.
  - intros s n Hi Hn. apply safe_on_self; [done|]. unfold Cramfs.cramfs_metadata. apply wp_bind.
    eapply wp_mono; [apply Cramfs.parse_inode_wp; [by apply Hs|done]|]. done.
  - intros s n Hi Hn. apply safe_on_self; [done|]. by apply Cramfs.cramfs_read_link_wp; [apply Hs|].
  - intros n _. by left.
  - intros s n off buf Hi Hn Hr Ho Hb. apply safe_on_self; [done|].
    eapply wp_mono; [apply Cramfs.cramfs_read_at_wp; [by apply Hs|done|lia|]|].
    + rewrite Hi. intros inode data Hin Hd. pose proof (zlen_nonneg data). destruct Hr as [->|Hr]; [lia|].
      destruct (Hr inode data Hin Hd); lia.
    + rewrite Hi. intros [k b] (Hz&Hk&Hg). split; [done|]. split; [done|].
      destruct (decide (k = 0)) as [->|]; [by rewrite Z.add_0_r|]. right. intros inode data Hin Hd.
      left. by destruct (Hg inode data Hin Hd).
Qed.

Definition any_node (_ : NodeId) : Prop := True.
Definition cpio_in (s : Cpio.Cpio * SubstrateCtx) : Prop := Cpio.cpio_wf s.1.

#[export] Instance cpio_safe {R : CpioReader} : SafeFs Cpio.Cpio S False cpio_in any_node (fun _ _ => True).
Proof.
  split; try done.
  - intros s n nm Hi _. apply safe_on_self; [done|]. unfold Cpio.cpio_lookup, Cpio.node. apply wp_bind, wp_ok_or.
    intros nd _. by destruct (negb _).
  - intros s n Hi _. apply safe_on_self; [done|]. by apply Cpio.cpio_read_dir_wp.
  - intros s n Hi _. apply safe_on_self; [done|]. unfold Cpio.cpio_metadata, Cpio.node. by apply wp_bind, wp_ok_or.
  - intros s n Hi _. apply safe_on_self; [done|]. by apply Cpio.cpio_read_link_wp.
  - intros s n off buf Hi _ _ Ho Hb. apply safe_on_self; [done|].
    eapply wp_mono; [by apply Cpio.cpio_read_at_wp|]. by intros [k b] [? ?].
Qed.

(** ** Frontends with a node table or memos *)

Definition squash_in (s : Squash.SquashFs S * SubstrateCtx) : Prop := Squash.Mounted src s.1.
Definition udf_in (s : Udf.Udf S * SubstrateCtx) : Prop := Udf.Mounted src s.1.
Definition iso_in (s : Iso.Iso9660 S * SubstrateCtx) : Prop := Iso.Mounted src s.1.

#[export] Instance squash_safe : SafeFs (Squash.SquashFs S) S True squash_in any_node (fun _ _ => True).
Proof.
  assert (Hok : forall s, squash_in s -> fs_ok Squash.geo_ok Squash.inode_ok s.1) by (intros s Hs; by apply (Squash.squash_mounted_ok src)).
  split; try done.
  - intros s n nm Hi _. apply safe_on_frontend; [by apply Squash.Mounted_lookup|].
    destruct (Squash.squash_lookup_ok s.1 n nm (Hok s Hi)) as [Hr _]. by destruct (Squash.squash_lookup n nm s.1).1.
  - intros s n Hi _. apply safe_on_frontend; [by apply Squash.Mounted_read_dir|].
    destruct (Squash.squash_read_dir_ok s.1 n (Hok s Hi)) as (r&fs'&->&_&_&Hw). by eapply wp_mono.
  - intros s n Hi _. apply safe_on_self; [done|]. unfold Squash.squash_metadata. by apply wp_bind, wp_ok_or.
  - intros s n Hi _. apply safe_on_self; [done|]. unfold Squash.squash_read_link. apply wp_bind, wp_ok_or.
    intros i _. by destruct (Squash.si_body i).
  - intros s n off buf Hi _ _ Ho Hb. apply safe_on_self; [done|]. pose proof (zlen_nonneg buf).
    eapply wp_mono; [apply Squash.squash_read_at_wp; [by apply Hok|lia]|]. by intros [k b] [? ?].
Qed.

#[export] Instance udf_safe : SafeFs (Udf.Udf S) S True udf_in any_node (fun _ _ => True).
Proof.
  assert (Hok : forall s, udf_in s -> fs_ok Udf.geo_ok Udf.inode_ok s.1) by (intros s Hs; by apply (Udf.udf_mounted_ok src)).
  split; try done.
  - intros s n nm Hi _. apply safe_on_frontend; [by apply Udf.Mounted_lookup|].
    destruct (Udf.udf_lookup_ok s.1 n nm (Hok s Hi)) as [Hr _]. by destruct (Udf.udf_lookup n nm s.1).1.
  - intros s n Hi _. apply safe_on_frontend; [by apply Udf.Mounted_read_dir|].
    destruct (Udf.udf_read_dir_ok s.1 n (Hok s Hi)) as (r&fs'&->&_&_&Hw). by eapply wp_mono.
  - intros s n Hi _. apply safe_on_self; [done|]. unfold Udf.udf_metadata. by apply wp_bind, wp_ok_or.
  - intros s n off buf Hi _ _ Ho Hb. apply safe_on_self; [done|].
    eapply wp_mono; [apply Udf.udf_read_moves; [by apply Hok|lia|lia]|]. by intros [k b] [? ?].
Qed.

#[export] Instance iso_safe : SafeFs (Iso.Iso9660 S) S False iso_in any_node (fun _ _ => True).
Proof.
  assert (Hok : forall s, iso_in s -> Iso.iso_ok s.1) by (intros s Hs; by apply (Iso.iso_mounted_ok src)).
  split; try done.
  - intros s n nm Hi _. apply safe_on_frontend; [by apply Iso.Mounted_lookup|].
    destruct (Iso.iso_lookup_ok s.1 n nm (Hok s Hi)) as (r&me'&->&_&_&Hw). by eapply wp_mono.
  - intros s n Hi _. apply safe_on_frontend; [by apply Iso.Mounted_read_dir|].
    destruct (Iso.iso_read_dir_ok s.1 n (Hok s Hi)) as (r&me'&->&_&_&Hw). by eapply wp_mono.
  - intros s n Hi _. apply safe_on_self; [done|]. unfold Iso.iso_metadata. by apply wp_bind, wp_ok_or.
  - intros s n Hi _. apply safe_on_self; [done|]. unfold Iso.iso_read_link. by apply wp_bind, wp_ok_or.
  - intros s n off buf Hi _ _ Ho Hb. apply safe_on_self; [done|].
    eapply wp_mono; [apply IsoSpec.iso_read_moves; [by apply Hok|lia|lia]|]. by intros [k b] [? ?].
Qed.

(** EROFS asks the verifier of the session about every block. *)
Definition verifier_answers (cx : SubstrateCtx) : Prop :=
  forall fs, Erofs.Mounted src fs -> Erofs.answers (cx_verifier cx) (Erofs.er_block_size fs).
Definition erofs_in (cx : SubstrateCtx) (s : Erofs.Erofs S * SubstrateCtx) : Prop := Erofs.Mounted src s.1 /\ s.2 = cx.
Definition nid_node (n : NodeId) : Prop := 0 <= n.

Lemma erofs_safe cx : verifier_answers cx -> SafeFs (Erofs.Erofs S) S True (erofs_in cx) nid_node (fun _ _ => True).
Proof.
  intros Ha. split; try done.
  - intros s [Hm _]. destruct (Erofs.erofs_mounted src s.1 Hv Hm) as (Hg&_). pose proof (Erofs.ok_root _ Hg) as Hr. apply Hr.
  - intros s n nm [Hm Hx] Hn. apply safe_on_frontend; [split; [by apply Erofs.Mounted_lookup|done]|].
    by apply (Erofs.erofs_lookup_wp src).
  - intros s n [Hm Hx] Hn. apply safe_on_frontend; [split; [by apply Erofs.Mounted_read_dir|done]|].
    eapply wp_mono; [by apply (Erofs.erofs_read_dir_wp src)|done].
  - intros s n [Hm Hx] Hn. apply safe_on_frontend; [split; [by apply Erofs.Mounted_metadata|done]|].
    by apply (Erofs.erofs_metadata_wp src).
  - intros s n [Hm Hx] Hn. apply safe_on_frontend; [split; [by apply Erofs.Mounted_read_link|done]|].
    by apply (Erofs.erofs_read_link_wp src).
  - intros [fs cx'] n off buf [Hm Hx] Hn _ Ho _. cbn [fst snd] in *. subst cx'.
    eapply (safe_ext True (erofs_in cx) _ (on_frontend (Erofs.erofs_read_at (cx_verifier cx) n off buf))); [reflexivity|].
    apply safe_on_frontend; cbn [fst snd].
    + split; [by apply Erofs.Mounted_read_at|done].
    + pose proof (Erofs.erofs_read_at_wp src fs (cx_verifier cx) n off buf Hv Hm Hn Ho (Ha fs Hm)) as Hw.
      eapply wp_mono; [exact Hw|]. by intros [k b] [? ?].
Qed.

(** ** Property *)

(** C3.  Every request is answered.  Whatever is on a medium, whichever of the seven
    formats it is mounted as and whatever operations by path are asked for, in any
    number and order, mounting comes back and so does each of them, with an error or
    an answer, a file no larger than the cap on whole-file reads: no corrupt field
    makes one panic or run for ever.  The one exception, where the code adds numbers
    off the medium unchecked (UDF, SquashFS, EROFS), is an arithmetic overflow.  A
    short cramfs page, which makes a read at some offsets panic, cannot do so here:
    [read_path] never asks for those. *)
Theorem every_request_answered {R : CpioReader} {RL : CpioReaderLaws R} cx :
  verifier_answers cx ->
  answered Cpio.Cpio False src cx /\ answered (Romfs.Romfs S) False src cx /\
  answered (Cramfs.Cramfs S) False src cx /\ answered (Iso.Iso9660 S) False src cx /\
  answered (Udf.Udf S) True src cx /\ answered (Squash.SquashFs S) True src cx /\
  answered (Erofs.Erofs S) True src cx.
Proof.
  intros Ha. pose proof (erofs_safe cx Ha).
  split_and!; (eapply answered_safe; [exact _|]); cbn [open_ fst snd].
  - apply wp_iff. apply (Cpio.cpio_open_spec src Hv).
  - by apply Romfs.romfs_open_wp.
  - by apply Cramfs.cramfs_open_wp.
  - eapply wp_mono; [by apply wp_eq, Iso.iso_open_wp|]. intros me [_ Ho]. by apply Iso.Mounted_open.
  - eapply wp_mono; [by apply wp_eq, Udf.udf_open_wp|]. intros me [_ Ho]. by apply Udf.Mounted_open.
  - eapply wp_mono; [by apply wp_eq, Squash.squash_open_wp|]. intros fs [_ Ho]. by apply Squash.Mounted_open.
  - change (open_ (F := Erofs.Erofs S) src cx) with (Erofs.erofs_open src, cx). cbn [fst snd].
    pose proof (Erofs.erofs_open_wp src Hv) as Hr. destruct (Erofs.erofs_open src) as [fs|e| | |] eqn:Ho; try done.
    split; [by apply Erofs.Mounted_open|done].
Qed.
End AnyMedium.

(** ** Witness: a cramfs volume whose file records ten bytes over a page of five *)

#[local] Instance NoOldArchives : CpioReader := { iter_files _ := [] }.
#[local] Instance NoOldArchives_laws : CpioReaderLaws NoOldArchives.
Proof. constructor. intros archive e He. inversion He. Qed.

Definition am_src : SliceSource := mkSlice (
  le_bytes 4 Cramfs.MAGIC ++ zeros 60 ++ Cramfs.inode_bytes 0x41ed 0 16 0 0 19 ++
  Cramfs.inode_bytes 0x81a4 0 10 0 1 23 ++ bytes_of "f" ++ zeros 3 ++ le_bytes 4 101 ++ bytes_of "hello").
Definition am_ctx : SubstrateCtx := mkCtx (BlockCache.new 0) NoVerifier.

Lemma every_request_answered_witness :
  answered (Cramfs.Cramfs SliceSource) False am_src am_ctx /\
  session (S := SliceSource) [OpStat (bytes_of "/f"); OpRead (bytes_of "/f"); OpRead (bytes_of "g")]
    (Cramfs.mkCramfs am_src, am_ctx)
  = [Ok (AStat Regular 10); Ok (ABytes (bytes_of "hello")); Err NotFound].
Proof.
  split; [|vm_compute; reflexivity].
  assert (Hv : src_valid am_src) by (vm_compute; reflexivity).
  destruct (every_request_answered am_src Hv am_ctx) as (_&_&Hc&_); [|exact Hc].
  intros fs _ node start d _ _. exact I.
Defined.
