(* ===== verification/FaultyFs.v ===== *)
(** * Every frontend on a device that fails

    The seven frontends owe what [Faulty] asks: an error of the device comes out of
    the call it happens in, and what comes out otherwise is what the medium says.
    EROFS is the exception at one place: [open] takes a failed read of the LZMA
    configuration for a volume that has none. *)
From S2P Require Import Prelude Text Cache Verity Codec Stream Nodes Cpio Romfs Cramfs Squash Udf ErofsIndex Erofs.
From S2P Require Import RockRidge ElTorito Iso Substrate Path Tree Faulty AnyMedium.
Open Scope Z_scope.

(** ** Node tables *)

Section Tables.
Context {S F F' K I : Type} `{SourceLaws S} `{Countable K} `{!NodeFs F K I} `{!NodeFs F' K I}.
Context (src : S) (J : F -> Prop) (good : F -> F').
Hypothesis J_with : forall f t, J f -> J (fs_with f t).
Hypothesis good_nodes : forall f, fs_nodes (good f) = fs_nodes f.
Hypothesis good_keys : forall f, fs_keys (good f) = fs_keys f.
Hypothesis good_with : forall f t, good (fs_with f t) = fs_with (good f) t.
Hypothesis good_kind : forall i, fs_kind (F := F') i = fs_kind (F := F) i.
Hypothesis good_parse : forall f k, J f -> or_error src (fs_parse f k) (fs_parse (good f) k).

Lemma intern_faulty k i f : J f -> follows src J good (Nodes.intern k i) (Nodes.intern k i) f.
Proof.
  intros HJ. right. unfold Nodes.intern. rewrite good_nodes, good_keys.
  destruct (intern_in _ _ k i) as [id t]. cbn [fst snd]. rewrite good_with. split; [done|by apply J_with].
Qed.

Lemma intern_entries_faulty entries : forall out f, J f ->
  follows src J good (intern_entries entries out) (intern_entries entries out) f.
Proof.
  induction entries as [|[nm k] entries IH]; intros out f HJ; cbn [intern_entries]; [by apply follows_ret|].
  apply follows_get, follows_bind; [by apply follows_liftR, good_parse|]. intros i f1 J1.
  apply follows_bind; [by apply intern_faulty|]. intros n f2 J2. rewrite good_kind. by apply IH.
Qed.
End Tables.

Section FaultyFs.
Context {D : Decoders} {R : CpioReader} {S : Type} `{SourceLaws S} (src : S).
Abbreviation ideal := (mkIdeal src).

(** ** romfs *)

Lemma romfs_read_header_faulty s off : or_error s (Romfs.read_header s off) (Romfs.read_header (mkIdeal s) off).
Proof. unfold Romfs.read_header. or_error. Qed.
#[local] Hint Resolve romfs_read_header_faulty : faulty.
Lemma resolve_hops_faulty s hops : forall off, or_error s (resolve_hops s hops off) (resolve_hops (mkIdeal s) hops off).
Proof. induction hops; intros; cbn [resolve_hops]; or_error. Qed.
#[local] Hint Resolve resolve_hops_faulty : faulty.
Lemma romfs_dir_round_faulty s t : or_error s (Romfs.dir_round s t) (Romfs.dir_round (mkIdeal s) t).
Proof. unfold Romfs.dir_round, resolved_header. or_error. Qed.
#[local] Hint Resolve romfs_dir_round_faulty : faulty.

Definition romfs_good (fs : Romfs S) : Romfs (Ideal S) := mkRomfs (mkIdeal (rf_src fs)) (rf_first_hdr fs).
Definition romfs_on (fs : Romfs S) : Prop := rf_src fs = src.

Lemma romfs_read_dir_faulty fs dir :
  or_error (rf_src fs) (romfs_read_dir fs dir) (romfs_read_dir (romfs_good fs) dir).
Proof. unfold romfs_read_dir, resolved_header, romfs_good. cbn [rf_src]. or_error. Qed.
#[local] Hint Resolve romfs_read_dir_faulty : faulty.

#[export] Instance romfs_faulty : FaultyFs S (Romfs S) (Romfs (Ideal S)) src romfs_on romfs_good.
Proof.
  split; [done|..]; intros [fs cx]; intros; apply follows_on_self; try done; cbn [fst] in *;
    match goal with Hs : romfs_on fs |- _ => rewrite <- Hs end;
    unfold romfs_lookup, romfs_metadata, romfs_read_link, romfs_read_at, resolved_header; or_error;
    cbn [rf_src romfs_good]; or_error.
Qed.

Lemma romfs_open_faulty : or_error_on src romfs_on romfs_good (romfs_open src) (romfs_open ideal).
Proof. unfold romfs_open. or_error. Qed.

(** ** cpio: the whole archive is read at [open] *)

#[export] Instance cpio_faulty : FaultyFs S Cpio Cpio src (fun _ => True) (fun fs => fs).
Proof. split; [done|..]; intros [fs cx]; intros; apply follows_on_self; try done; by left. Qed.

Lemma cpio_open_faulty : or_error_on src (fun _ => True) (fun fs => fs) (cpio_open src) (cpio_open ideal).
Proof. unfold cpio_open. or_error. Qed.

(** ** cramfs *)

Lemma parse_inode_faulty s off : or_error s (Cramfs.parse_inode s off) (Cramfs.parse_inode (mkIdeal s) off).
Proof. unfold Cramfs.parse_inode. or_error. Qed.
#[local] Hint Resolve parse_inode_faulty : faulty.
Lemma page_step_faulty s idx total i t : or_error s (page_step s idx total i t) (page_step (mkIdeal s) idx total i t).
Proof. unfold page_step. or_error. Qed.
#[local] Hint Resolve page_step_faulty : faulty.
Lemma read_whole_faulty s i : or_error s (read_whole s i) (read_whole (mkIdeal s) i).
Proof. unfold read_whole. or_error. Qed.
#[local] Hint Resolve read_whole_faulty : faulty.
Lemma cramfs_dir_round_faulty s e t : or_error s (Cramfs.dir_round s e t) (Cramfs.dir_round (mkIdeal s) e t).
Proof. unfold Cramfs.dir_round. or_error. Qed.
#[local] Hint Resolve cramfs_dir_round_faulty : faulty.

Definition cramfs_good (fs : Cramfs S) : Cramfs (Ideal S) := mkCramfs (mkIdeal (cr_src fs)).
Definition cramfs_on (fs : Cramfs S) : Prop := cr_src fs = src.

#[export] Instance cramfs_faulty : FaultyFs S (Cramfs S) (Cramfs (Ideal S)) src cramfs_on cramfs_good.
Proof.
  split; [done|..]; intros [fs cx]; intros; apply follows_on_self; try done; cbn [fst] in *;
    match goal with Hs : cramfs_on fs |- _ => rewrite <- Hs end;
    unfold cramfs_lookup, cramfs_read_dir, cramfs_metadata, cramfs_read_link, cramfs_read_at;
    cbn [cr_src cramfs_good]; or_error.
Qed.

Lemma cramfs_open_faulty : or_error_on src cramfs_on cramfs_good (cramfs_open src) (cramfs_open ideal).
Proof. unfold cramfs_open. or_error. Qed.
(** ** SquashFS *)

Definition squash_good (fs : SquashFs S) : SquashFs (Ideal S) :=
  mkSquash (mkIdeal (sq_src fs)) (sq_codec fs) (sq_block_size fs) (sq_inode_table_start fs)
    (sq_directory_table_start fs) (sq_fragment_table_start fs) (sq_nodes fs) (sq_by_ref fs).
Definition squash_on (fs : SquashFs S) : Prop := sq_src fs = src.
Ltac squash := cbn [squash_good sq_src sq_codec sq_block_size sq_inode_table_start
  sq_directory_table_start sq_fragment_table_start sq_nodes]; or_error.

Lemma read_meta_block_faulty fs a :
  or_error (sq_src fs) (read_meta_block fs a) (read_meta_block (squash_good fs) a).
Proof. unfold read_meta_block. squash. Qed.
#[local] Hint Resolve read_meta_block_faulty : faulty.
Lemma span_round_faulty fs n t : or_error (sq_src fs) (span_round fs n t) (span_round (squash_good fs) n t).
Proof. unfold span_round. squash. Qed.
#[local] Hint Resolve span_round_faulty : faulty.
Lemma read_meta_span_faulty fs a o n :
  or_error (sq_src fs) (read_meta_span fs a o n) (read_meta_span (squash_good fs) a o n).
Proof. unfold read_meta_span. squash. Qed.
#[local] Hint Resolve read_meta_span_faulty : faulty.
Lemma parse_file_faulty fs a o h b n i f :
  or_error (sq_src fs) (parse_file fs a o h b n i f) (parse_file (squash_good fs) a o h b n i f).
Proof. unfold parse_file, block_count. squash. Qed.
#[local] Hint Resolve parse_file_faulty : faulty.
Lemma squash_parse_inode_faulty fs r :
  or_error (sq_src fs) (Squash.parse_inode fs r) (Squash.parse_inode (squash_good fs) r).
Proof. unfold Squash.parse_inode. squash. Qed.
#[local] Hint Resolve squash_parse_inode_faulty : faulty.
Lemma squash_dir_entries_faulty fs a o n :
  or_error (sq_src fs) (Squash.dir_entries fs a o n) (Squash.dir_entries (squash_good fs) a o n).
Proof. unfold Squash.dir_entries. squash. Qed.
#[local] Hint Resolve squash_dir_entries_faulty : faulty.
Lemma read_data_block_faulty fs a n :
  or_error (sq_src fs) (read_data_block fs a n) (read_data_block (squash_good fs) a n).
Proof. unfold read_data_block. squash. Qed.
#[local] Hint Resolve read_data_block_faulty : faulty.
Lemma read_fragment_faulty fs i : or_error (sq_src fs) (read_fragment fs i) (read_fragment (squash_good fs) i).
Proof. unfold read_fragment. squash. Qed.
#[local] Hint Resolve read_fragment_faulty : faulty.
Lemma window_round_faulty fs bs offs fi fo n o e t :
  or_error (sq_src fs) (window_round fs bs offs fi fo n o e t) (window_round (squash_good fs) bs offs fi fo n o e t).
Proof. unfold window_round, block_window. squash. Qed.
#[local] Hint Resolve window_round_faulty : faulty.

Lemma squash_read_dir_faulty dir fs : squash_on fs ->
  follows src squash_on squash_good (squash_read_dir dir) (squash_read_dir dir) fs.
Proof.
  intros Hs. apply follows_get, follows_bind; [by apply follows_same|]. intros i f1 J1.
  destruct (si_body i); try by apply follows_err.
  apply follows_bind; [apply follows_liftR; [done|rewrite <- Hs; auto with faulty]|]. intros es f2 J2.
  apply (intern_entries_faulty src squash_on squash_good); cbn [fs_nodes fs_keys fs_kind Squash_Nodes]; try done.
  intros f k Hf. rewrite <- Hf. apply squash_parse_inode_faulty.
Qed.

#[export] Instance squash_faulty : FaultyFs S (SquashFs S) (SquashFs (Ideal S)) src squash_on squash_good.
Proof.
  split; [done|..]; intros [fs cx]; intros.
  - apply follows_on_frontend, follows_bind; [by apply squash_read_dir_faulty|].
    intros es f1 J1. by apply follows_ret.
  - by apply follows_on_frontend, squash_read_dir_faulty.
  - apply follows_on_self; [done|by left].
  - apply follows_on_self; [done|by left].
  - apply follows_on_self; [done|]. cbn [fst] in *.
    match goal with Hs : squash_on fs |- _ => rewrite <- Hs end.
    unfold squash_read_at. change (Nodes.inode (squash_good fs)) with (Nodes.inode fs). or_error.
Qed.
Lemma squash_superblock_faulty :
  or_error_on src (fun r => squash_on r.2) (fun '(r, fs) => (r, squash_good fs))
    (Squash.read_superblock src) (Squash.read_superblock ideal).
Proof. unfold Squash.read_superblock. or_error. Qed.

Lemma squash_open_faulty : or_error_on src squash_on squash_good (squash_open src) (squash_open ideal).
Proof.
  unfold squash_open. eapply or_error_on_bind_on; [apply squash_superblock_faulty|]. intros [r fs] <-.
  eapply or_error_on_bind; [apply squash_parse_inode_faulty|]. intros i.
  unfold Nodes.intern. cbn [fs_nodes fs_keys Squash_Nodes sq_nodes sq_by_ref squash_good].
  destruct (intern_in _ _ _ _). by apply or_error_on_Ok.
Qed.
(** ** UDF *)

Definition udf_good (me : Udf S) : Udf (Ideal S) :=
  mkUdf (mkIdeal (ud_src me)) (ud_block_size me) (ud_partition_start me) (ud_nodes me) (ud_by_lba me).
Definition udf_on (me : Udf S) : Prop := ud_src me = src.
Ltac udf := cbn [udf_good ud_src ud_block_size ud_partition_start ud_nodes]; or_error.

Lemma udf_read_block_faulty me lba :
  or_error (ud_src me) (Udf.read_block me lba) (Udf.read_block (udf_good me) lba).
Proof. unfold Udf.read_block. udf. Qed.
#[local] Hint Resolve udf_read_block_faulty : faulty.
Lemma read_fe_faulty me lba : or_error (ud_src me) (read_fe me lba) (read_fe (udf_good me) lba).
Proof. unfold read_fe. udf. Qed.
#[local] Hint Resolve read_fe_faulty : faulty.
Lemma udf_read_extents_faulty me total ex : forall out,
  or_error (ud_src me) (Udf.read_extents me total ex out) (Udf.read_extents (udf_good me) total ex out).
Proof. induction ex; intros; cbn [Udf.read_extents]; udf. Qed.
#[local] Hint Resolve udf_read_extents_faulty : faulty.
Lemma read_all_faulty me i : or_error (ud_src me) (read_all me i) (read_all (udf_good me) i).
Proof. unfold read_all. udf. Qed.
#[local] Hint Resolve read_all_faulty : faulty.
Lemma read_window_faulty me off want ex : forall pos n buf,
  or_error (ud_src me) (read_window me off want ex pos n buf) (read_window (udf_good me) off want ex pos n buf).
Proof. induction ex; intros; cbn [read_window]; udf. Qed.
#[local] Hint Resolve read_window_faulty : faulty.
Lemma vds_round_faulty me loc n t :
  or_error (ud_src me) (vds_round me loc n t) (vds_round (udf_good me) loc n t).
Proof. unfold vds_round. udf. Qed.
#[local] Hint Resolve vds_round_faulty : faulty.

Lemma udf_read_dir_faulty dir me : udf_on me ->
  follows src udf_on udf_good (udf_read_dir dir) (udf_read_dir dir) me.
Proof.
  intros Hs. apply follows_get, follows_bind; [by apply follows_same|]. intros i m1 J1.
  destruct (negb _); [by apply follows_err|].
  apply follows_bind; [apply follows_liftR; [done|rewrite <- Hs; auto with faulty]|]. intros data m2 J2.
  apply follows_bind; [by apply follows_same|]. intros fids m3 J3.
  apply (intern_entries_faulty src udf_on udf_good); cbn [fs_nodes fs_keys fs_kind Udf_Nodes]; try done.
  intros f k Hf. rewrite <- Hf. apply read_fe_faulty.
Qed.

#[export] Instance udf_faulty : FaultyFs S (Udf S) (Udf (Ideal S)) src udf_on udf_good.
Proof.
  split; [done|..]; intros [me cx]; intros.
  - apply follows_on_frontend, follows_bind; [by apply udf_read_dir_faulty|].
    intros es f1 J1. by apply follows_ret.
  - by apply follows_on_frontend, udf_read_dir_faulty.
  - apply follows_on_self; [done|by left].
  - by apply follows_ret.
  - apply follows_on_self; [done|]. cbn [fst] in *.
    match goal with Hs : udf_on me |- _ => rewrite <- Hs end.
    unfold udf_read_at. change (Nodes.inode (udf_good me)) with (Nodes.inode me). or_error.
Qed.

Lemma udf_volume_faulty : or_error_on src (fun r => udf_on r.1) (fun '(me, r) => (udf_good me, r))
  (read_volume src) (read_volume ideal).
Proof.
  assert (Hb : forall bs ps n m lba,
    or_error src (Udf.read_block (mkUdf src bs ps n m) lba) (Udf.read_block (mkUdf ideal bs ps n m) lba))
    by (intros; apply (udf_read_block_faulty (mkUdf src _ _ _ _))).
  assert (Hv : forall bs ps n m loc k t,
    or_error src (vds_round (mkUdf src bs ps n m) loc k t) (vds_round (mkUdf ideal bs ps n m) loc k t))
    by (intros; apply (vds_round_faulty (mkUdf src _ _ _ _))).
  unfold read_volume. or_error.
Qed.

Lemma udf_open_faulty : or_error_on src udf_on udf_good (udf_open src) (udf_open ideal).
Proof.
  unfold udf_open. eapply or_error_on_bind_on; [apply udf_volume_faulty|]. intros [me r] <-.
  eapply or_error_on_bind; [apply read_fe_faulty|]. intros i.
  unfold Nodes.intern. cbn [fs_nodes fs_keys Udf_Nodes ud_nodes ud_by_lba udf_good].
  destruct (intern_in _ _ _ _). by apply or_error_on_Ok.
Qed.
(** ** ISO 9660 *)

Definition iso_good (me : Iso9660 S) : Iso9660 (Ideal S) :=
  mkIso (mkIdeal (is_src me)) (is_block_size me) (is_nodes me) (is_by_record me) (is_rock_ridge me)
    (is_susp_skip me) (is_joliet me) (is_el_torito me).
Definition iso_on (me : Iso9660 S) : Prop := is_src me = src.
Ltac iso := cbn [iso_good is_src is_block_size is_nodes is_rock_ridge is_susp_skip is_joliet is_el_torito]; or_error.

Lemma read_dir_extent_faulty me i : or_error (is_src me) (read_dir_extent me i) (read_dir_extent (iso_good me) i).
Proof. unfold read_dir_extent. iso. Qed.
#[local] Hint Resolve read_dir_extent_faulty : faulty.
Lemma detect_susp_faulty me i : or_error (is_src me) (detect_susp me i) (detect_susp (iso_good me) i).
Proof. unfold detect_susp. iso. Qed.
#[local] Hint Resolve detect_susp_faulty : faulty.
Lemma ce_round_faulty me t : or_error (is_src me) (ce_round me t) (ce_round (iso_good me) t).
Proof. unfold ce_round. iso. Qed.
#[local] Hint Resolve ce_round_faulty : faulty.
Lemma parse_rock_ridge_faulty me su : or_error (is_src me) (parse_rock_ridge me su) (parse_rock_ridge (iso_good me) su).
Proof. unfold parse_rock_ridge. iso. Qed.
#[local] Hint Resolve parse_rock_ridge_faulty : faulty.
Lemma entry_of_faulty me d p rec_ fi b lba n :
  or_error (is_src me) (entry_of me d p rec_ fi b lba n) (entry_of (iso_good me) d p rec_ fi b lba n).
Proof. unfold entry_of. iso. Qed.
#[local] Hint Resolve entry_of_faulty : faulty.
Lemma iso_entry_round_faulty me d buf w :
  or_error (is_src me) (Iso.entry_round me d buf w) (Iso.entry_round (iso_good me) d buf w).
Proof. unfold Iso.entry_round. iso. Qed.
#[local] Hint Resolve iso_entry_round_faulty : faulty.
Lemma for_each_entry_faulty me i : or_error (is_src me) (for_each_entry me i) (for_each_entry (iso_good me) i).
Proof. unfold for_each_entry. iso. Qed.
#[local] Hint Resolve for_each_entry_faulty : faulty.
Lemma zisofs_round_faulty me h eo bs u w t :
  or_error (is_src me) (zisofs_round me h eo bs u w t) (zisofs_round (iso_good me) h eo bs u w t).
Proof. unfold zisofs_round. iso. Qed.
#[local] Hint Resolve zisofs_round_faulty : faulty.
Lemma read_zisofs_faulty me i z off buf :
  or_error (is_src me) (read_zisofs me i z off buf) (read_zisofs (iso_good me) i z off buf).
Proof. unfold read_zisofs. iso. Qed.
#[local] Hint Resolve read_zisofs_faulty : faulty.
Lemma iso_read_extents_faulty me off n ex : forall st k buf,
  or_error (is_src me) (Iso.read_extents me off n ex st k buf) (Iso.read_extents (iso_good me) off n ex st k buf).
Proof. induction ex; intros; cbn [Iso.read_extents]; iso. Qed.
#[local] Hint Resolve iso_read_extents_faulty : faulty.
Lemma scan_round_faulty t : or_error src (scan_round src t) (scan_round ideal t).
Proof. unfold scan_round. iso. Qed.
#[local] Hint Resolve scan_round_faulty : faulty.
(** The side channel is not a request by path. *)
Lemma el_torito_faulty me : or_error (is_src me) (el_torito_uefi_image me) (el_torito_uefi_image (iso_good me)).
Proof. unfold el_torito_uefi_image. iso. Qed.

Lemma iso_intern_faulty i me : iso_on me -> follows src iso_on iso_good (Iso.intern i) (Iso.intern i) me.
Proof.
  intros Hs. right. unfold Iso.intern. cbn [iso_good is_nodes is_by_record].
  by destruct (intern_in _ _ _ i) as [id t].
Qed.
Lemma intern_collected_faulty es : forall out me, iso_on me ->
  follows src iso_on iso_good (intern_collected es out) (intern_collected es out) me.
Proof.
  induction es as [|[nm i] es IH]; intros out me Hs; cbn [intern_collected]; [by apply follows_ret|].
  apply follows_bind; [by apply iso_intern_faulty|]. intros n m1 J1. by apply IH.
Qed.
Lemma entries_faulty {A} dir (k : list (name * Inode) -> ST (Iso9660 S) A) k' me : iso_on me ->
  (forall es m, iso_on m -> follows src iso_on iso_good (k es) (k' es) m) ->
  follows src iso_on iso_good
    (let* me := getST in let* i := liftR (Iso.inode me dir) in
     if negb (bool_decide (in_kind i = Directory)) then errST NotDirectory
     else let* es := liftR (for_each_entry me i) in k es)
    (let* me := getST in let* i := liftR (Iso.inode me dir) in
     if negb (bool_decide (in_kind i = Directory)) then errST NotDirectory
     else let* es := liftR (for_each_entry me i) in k' es) me.
Proof.
  intros Hs Hk. apply follows_get, follows_bind; [by apply follows_same|]. intros i m1 J1.
  destruct (negb _); [by apply follows_err|].
  apply follows_bind; [apply follows_liftR; [done|rewrite <- Hs; auto with faulty]|]. intros es m2 J2. by apply Hk.
Qed.

#[export] Instance iso_faulty : FaultyFs S (Iso9660 S) (Iso9660 (Ideal S)) src iso_on iso_good.
Proof.
  split; [done|..]; intros [me cx]; intros.
  - apply follows_on_frontend, entries_faulty; [done|]. intros es m1 J1.
    destruct (snd <$> _) as [e|]; [|by apply follows_ret].
    apply follows_bind; [by apply iso_intern_faulty|]. intros id m2 J2. by apply follows_ret.
  - apply follows_on_frontend, entries_faulty; [done|]. intros es m1 J1. by apply intern_collected_faulty.
  - apply follows_on_self; [done|by left].
  - apply follows_on_self; [done|by left].
  - apply follows_on_self; [done|]. cbn [fst] in *.
    match goal with Hs : iso_on me |- _ => rewrite <- Hs end.
    unfold iso_read_at. change (Iso.inode (iso_good me)) with (Iso.inode me). or_error.
Qed.

Lemma iso_open_faulty : or_error_on src iso_on iso_good (iso_open src) (iso_open ideal).
Proof.
  assert (Hd : forall bs n m rr sk jo et i,
    or_error src (detect_susp (mkIso src bs n m rr sk jo et) i) (detect_susp (mkIso ideal bs n m rr sk jo et) i))
    by (intros; apply (detect_susp_faulty (mkIso src _ _ _ _ _ _ _))).
  unfold iso_open. apply or_error_on_bind; [or_error|intros sc]. apply or_error_on_bind; [or_error|intros root].
  apply or_error_on_bind; [or_error|intros susp]. destruct susp, (sc_joliet_root sc); unfold Iso.intern; cbn [is_nodes is_by_record];
    destruct (intern_in _ _ _ _); by apply or_error_on_Ok.
Qed.
(** ** EROFS *)

Definition erofs_good (fs : Erofs S) : Erofs (Ideal S) :=
  mkErofs (mkIdeal (er_src fs)) (er_block_size fs) (er_blkszbits fs) (er_lz4_zero_padding fs) (er_meta_off fs)
    (er_root_nid fs) (er_inodes fs) (er_decoded fs) (er_lzma_dict_size fs) (er_compr_cfgs_off fs).
Definition erofs_on (fs : Erofs S) : Prop := er_src fs = src.
Ltac erofs := cbn [erofs_good er_src er_block_size er_blkszbits er_lz4_zero_padding er_meta_off er_root_nid
  er_inodes er_decoded er_lzma_dict_size]; or_error.

Lemma read_inode_faulty fs nid : or_error (er_src fs) (read_inode fs nid) (read_inode (erofs_good fs) nid).
Proof. unfold read_inode. erofs. Qed.
Lemma read_span_faulty fs b n : or_error (er_src fs) (read_span fs b n) (read_span (erofs_good fs) b n).
Proof. unfold read_span. erofs. Qed.
#[local] Hint Resolve read_span_faulty : faulty.
Lemma full_step_faulty fs i0 n i hs : or_error (er_src fs) (full_step fs i0 n i hs) (full_step (erofs_good fs) i0 n i hs).
Proof. unfold full_step. erofs. Qed.
#[local] Hint Resolve full_step_faulty : faulty.
Lemma build_heads_faulty fs l mh a lc n :
  or_error (er_src fs) (build_heads fs l mh a lc n) (build_heads (erofs_good fs) l mh a lc n).
Proof. unfold build_heads, build_heads_full, build_heads_compact. erofs. Qed.
#[local] Hint Resolve build_heads_faulty : faulty.
Lemma decode_heads_faulty fs n a1 a2 hs : forall out,
  or_error (er_src fs) (decode_heads fs n a1 a2 hs out) (decode_heads (erofs_good fs) n a1 a2 hs out).
Proof. induction hs; intros; cbn [decode_heads]; erofs. Qed.
#[local] Hint Resolve decode_heads_faulty : faulty.
Lemma read_map_header_faulty fs mh : or_error (er_src fs) (read_map_header fs mh) (read_map_header (erofs_good fs) mh).
Proof. unfold read_map_header. erofs. Qed.
#[local] Hint Resolve read_map_header_faulty : faulty.
Lemma decode_compressed_faulty fs i : or_error (er_src fs) (decode_compressed fs i) (decode_compressed (erofs_good fs) i).
Proof. unfold decode_compressed. erofs. Qed.
Lemma inline_round_faulty fs b io fb off e t :
  or_error (er_src fs) (inline_round fs b io fb off e t) (inline_round (erofs_good fs) b io fb off e t).
Proof. unfold inline_round. erofs. Qed.
#[local] Hint Resolve inline_round_faulty : faulty.
Lemma chunk_round_faulty fs c tb off e t :
  or_error (er_src fs) (chunk_round fs c tb off e t) (chunk_round (erofs_good fs) c tb off e t).
Proof. unfold chunk_round. erofs. Qed.
#[local] Hint Resolve chunk_round_faulty : faulty.
Lemma read_flat_faulty fs i off e buf :
  or_error (er_src fs) (read_flat fs i off e buf) (read_flat (erofs_good fs) i off e buf).
Proof. unfold read_flat, read_chunked. erofs. Qed.

Abbreviation erofs_follows := (follows src erofs_on erofs_good).

(** A memo is filled with what the medium gives, or not at all. *)
Lemma erofs_parse_inode_faulty nid fs : erofs_on fs -> erofs_follows (Erofs.parse_inode nid) (Erofs.parse_inode nid) fs.
Proof.
  intros Hs. unfold follows, Erofs.parse_inode. cbn [erofs_good er_inodes].
  destruct (er_inodes fs !! nid); [by right|].
  destruct (read_inode_faulty fs nid) as [E|(e&->&He)]; [|left; exists e; by rewrite <- Hs].
  right. rewrite <- E. by destruct (read_inode fs nid).
Qed.

Lemma materialize_faulty nid fs : erofs_on fs ->
  erofs_follows (materialize_compressed nid) (materialize_compressed nid) fs.
Proof.
  intros Hs. unfold follows, materialize_compressed. cbn [erofs_good er_decoded].
  destruct (er_decoded fs !! nid); [by right|]. change (Erofs.inode (erofs_good fs)) with (Erofs.inode fs).
  destruct (Erofs.inode fs nid) as [i|e| | |]; cbn [bindR]; try by right.
  destruct (decode_compressed_faulty fs i) as [E|(e&->&He)]; [|left; exists e; by rewrite <- Hs].
  right. rewrite <- E. by destruct (decode_compressed fs i).
Qed.

Lemma read_inode_data_faulty nid off buf fs : erofs_on fs ->
  erofs_follows (read_inode_data nid off buf) (read_inode_data nid off buf) fs.
Proof.
  intros Hs. apply follows_get, follows_bind; [by apply follows_same|]. intros i f1 J1.
  destruct (_ >=? _); [by apply follows_ret|].
  apply follows_bind; [by apply follows_same|]. intros lim f2 J2. destruct (is_compressed _).
  - apply follows_bind; [by apply materialize_faulty|]. intros _ f3 J3.
    apply follows_get, follows_bind; [by apply follows_same|]. intros d f4 J4. by apply follows_same.
  - apply follows_liftR; [done|]. rewrite <- Hs. apply read_flat_faulty.
Qed.

(** The operations start by looking their inode up. *)
Lemma with_inode_faulty {A} nid (k : Erofs S -> ErofsInode -> ST (Erofs S) A) k' fs : erofs_on fs ->
  (forall i f, erofs_on f -> erofs_follows (k f i) (k' (erofs_good f) i) f) ->
  erofs_follows
    (let* _ := Erofs.parse_inode nid in let* fs := getST in let* i := liftR (Erofs.inode fs nid) in k fs i)
    (let* _ := Erofs.parse_inode nid in let* fs := getST in let* i := liftR (Erofs.inode fs nid) in k' fs i) fs.
Proof.
  intros Hs Hk. apply follows_bind; [by apply erofs_parse_inode_faulty|]. intros _ f1 J1. apply follows_get.
  unfold follows, bindST, liftR. change (Erofs.inode (erofs_good f1)) with (Erofs.inode f1).
  destruct (Erofs.inode f1 nid) as [i|e| | |]; try by right. by apply Hk.
Qed.
Lemma erofs_read_dir_faulty dir fs : erofs_on fs ->
  erofs_follows (erofs_read_dir dir) (erofs_read_dir dir) fs.
Proof.
  intros Hs. apply with_inode_faulty; [done|]. intros i f J. destruct (negb _); [by apply follows_err|].
  apply follows_bind; [by apply follows_same|]. intros n f1 J1.
  apply follows_bind; [by apply read_inode_data_faulty|]. intros [k data] f2 J2.
  apply follows_bind; [by apply follows_same|]. intros raw f3 J3. by apply follows_ret.
Qed.

Lemma read_round_faulty v nid bs n off e t fs : erofs_on fs ->
  erofs_follows (read_round v nid bs n off e t) (read_round v nid bs n off e t) fs.
Proof.
  intros Hs. destruct t as [[[st block] k] buf]. unfold read_round. destruct (negb _); [by apply follows_ret|].
  apply follows_bind; [by apply follows_same|]. intros w f1 J1.
  apply follows_bind; [by apply read_inode_data_faulty|]. intros [m w'] f2 J2.
  apply follows_bind; [by apply follows_same|]. intros b f3 J3.
  apply follows_bind; [by apply follows_same|]. intros _ f4 J4.
  apply follows_bind; [by apply follows_same|]. intros [p buf'] f5 J5.
  apply follows_bind; [by apply follows_same|]. intros next f6 J6. by apply follows_ret.
Qed.

Lemma erofs_read_at_faulty v nid off buf fs : erofs_on fs ->
  erofs_follows (erofs_read_at v nid off buf) (erofs_read_at v nid off buf) fs.
Proof.
  intros Hs. apply with_inode_faulty; [done|]. intros i f J. destruct (bool_decide _); [by apply follows_err|].
  destruct (_ >=? _); [by apply follows_ret|].
  apply follows_bind; [by apply follows_same|]. intros lim f1 J1.
  apply follows_loop; [|done]. intros t g Jg. by apply read_round_faulty.
Qed.

#[export] Instance erofs_faulty : FaultyFs S (Erofs S) (Erofs (Ideal S)) src erofs_on erofs_good.
Proof.
  split; [done|..]; intros [fs cx]; intros;
    [apply follows_on_frontend|apply follows_on_frontend|apply follows_on_frontend|apply follows_on_frontend|].
  - apply follows_bind; [by apply erofs_read_dir_faulty|]. intros es f1 J1. by apply follows_ret.
  - by apply erofs_read_dir_faulty.
  - apply with_inode_faulty; [done|]. intros i f J. by apply follows_ret.
  - apply with_inode_faulty; [done|]. intros i f J. destruct (negb _); [by apply follows_ret|].
    apply follows_bind; [by apply follows_same|]. intros k f1 J1.
    apply follows_bind; [by apply read_inode_data_faulty|]. intros [m t] f2 J2. by apply follows_ret.
  - apply (follows_ext _ _ _ _ (on_frontend (erofs_read_at (cx_verifier cx) n off buf)) _
      (on_frontend (erofs_read_at (cx_verifier cx) n off buf))); [reflexivity|reflexivity|].
    by apply follows_on_frontend, erofs_read_at_faulty.
Qed.
(** [open] takes a failed read of the LZMA configuration for a volume without one. *)
Lemma attempt_faulty {A} (r r' : Res A) : or_error src r r' -> attempt r = attempt r' \/ attempt r = Ok None.
Proof. intros [->|(e&->&_)]; [by left|by right]. Qed.

Lemma lzma_cfg_walk_faulty fs algs l : erofs_on fs -> forall cur,
  lzma_cfg_walk fs algs cur l = lzma_cfg_walk (erofs_good fs) algs cur l \/ lzma_cfg_walk fs algs cur l = Ok None.
Proof.
  intros Hs. induction l as [|alg l IH]; intros cur; cbn [lzma_cfg_walk]; [by left|].
  destruct (_ =? 0); [apply IH|]. cbn [erofs_good er_src]. rewrite Hs.
  destruct (attempt_faulty _ _ (or_error_read src cur 2)) as [E1|E1]; rewrite E1; [|by right].
  destruct (attempt (src_read_at (mkIdeal src) cur 2)) as [[sz|]|e| | |]; cbn [bindR]; [|by left..].
  destruct (alg =? ALGO_LZMA); [|apply IH].
  destruct (attempt_faulty _ _ (or_error_read src (cur + 2) 6)) as [E2|E2]; rewrite E2; [by left|by right].
Qed.

Lemma parse_lzma_cfg_faulty fs : erofs_on fs ->
  parse_lzma_cfg fs = parse_lzma_cfg (erofs_good fs) \/ parse_lzma_cfg fs = Ok None.
Proof.
  intros Hs. unfold parse_lzma_cfg. cbn [erofs_good er_src]. rewrite Hs.
  destruct (attempt_faulty _ _ (or_error_read src COMPR_ALGS_OFF 2)) as [E1|E1]; rewrite E1; [|by right].
  destruct (attempt (src_read_at (mkIdeal src) COMPR_ALGS_OFF 2)) as [[a|]|e| | |]; cbn [bindR]; [|by left..].
  destruct (_ =? 0); [by left|]. by apply lzma_cfg_walk_faulty.
Qed.

Lemma erofs_superblock_faulty : or_error_on src (fun fs => erofs_on fs) erofs_good
  (Erofs.read_superblock src) (Erofs.read_superblock ideal).
Proof. unfold Erofs.read_superblock. or_error. Qed.
Lemma lzma_cfg_walk_no_Err {T} `{BlockSource T} (fs : Erofs T) algs l e : forall cur, lzma_cfg_walk fs algs cur l <> Err e.
Proof.
  induction l as [|alg l IH]; intros cur; cbn [lzma_cfg_walk]; [done|]. destruct (_ =? 0); [apply IH|].
  destruct (src_read_at _ cur 2); cbn [attempt bindR]; try done. destruct (alg =? ALGO_LZMA); [|apply IH].
  by destruct (src_read_at _ (cur + 2) 6).
Qed.
Lemma parse_lzma_cfg_Ok {T} `{SourceLaws T} (fs : Erofs T) : Erofs.geo_ok fs -> exists d, parse_lzma_cfg fs = Ok d.
Proof.
  intros Hg. pose proof (parse_lzma_cfg_wp (X := False) fs Hg) as Hw.
  destruct (parse_lzma_cfg fs) as [d|e| | |] eqn:E; try done; [by exists d|]. exfalso. revert E. unfold parse_lzma_cfg.
  destruct (src_read_at _ _ 2); cbn [attempt bindR]; try done. destruct (_ =? 0); [done|]. apply lzma_cfg_walk_no_Err.
Qed.
(** The volume before any memo is that of the good device, but for the dictionary. *)
Lemma open_bare_faulty : src_valid src ->
  (exists e, open_bare src = Err e /\ device_error src e) \/
  (exists b d, open_bare src = Ok b /\ erofs_on b /\ open_bare ideal = Ok (set_lzma (erofs_good b) d) /\
     (er_lzma_dict_size b = d \/ er_lzma_dict_size b = None)) \/
  (forall b, open_bare src <> Ok b) /\ open_bare ideal = (let! b := open_bare src in Ok (erofs_good b)).
Proof.
  intros Hv. pose proof (erofs_superblock_wp (X := True) ideal Hv) as Hw. revert Hw. unfold open_bare.
  destruct erofs_superblock_faulty as [[-> HI]|(e&->&He)]; [|intros _; left; by exists e].
  destruct (Erofs.read_superblock src) as [me|e| | |]; cbn [bindR]; intros Hw; right; try (right; by split).
  left. specialize (HI me eq_refl). destruct Hw as (Hg&_&_).
  destruct (parse_lzma_cfg_Ok _ Hg) as [d Hd]. rewrite Hd.
  destruct (parse_lzma_cfg_faulty me HI) as [->| ->]; [rewrite Hd|]; cbn [bindR];
    eexists _, d; (split; [reflexivity|]); split_and!; try done; [by left|by right].
Qed.
(** The dictionary that is there on the medium and not in the volume. *)
Definition dict_lost (fs : Erofs S) (fs' : Erofs (Ideal S)) : Prop :=
  er_lzma_dict_size fs = None /\ er_lzma_dict_size fs' <> None.

(** Without the dictionary the root is the same, so the volume mounts as it would. *)
Lemma erofs_mounts cx : src_valid src -> mounts (Erofs S) (Erofs (Ideal S)) dict_lost src cx.
Proof.
  intros Hv. unfold mounts. change (open_ (F := Erofs S) src cx) with (erofs_open src, cx).
  change (open_ (F := Erofs (Ideal S)) ideal cx) with (erofs_open ideal, cx).
  pose proof (open_bare_wp (X := True) src Hv) as Hb. pose proof (open_bare_wp (X := True) ideal Hv) as Hb'.
  destruct (open_bare_faulty Hv) as [(e&He&Hd)|[(b&d&Eb&Hs&Eb'&Hd)|[Hno Eb']]].
  - rewrite erofs_open_fails by (intros b; by rewrite He). rewrite He. by left.
  - rewrite Eb in Hb. rewrite Eb' in Hb'. destruct Hb as (_&Hb&_), Hb' as (_&Hb'&_).
    rewrite (erofs_open_eq src b Eb Hb), (erofs_open_eq ideal _ Eb' Hb').
    change (er_root_nid (set_lzma (erofs_good b) d)) with (er_root_nid b).
    change (read_inode (set_lzma (erofs_good b) d)) with (read_inode (erofs_good b)).
    destruct (read_inode_faulty b (er_root_nid b)) as [<-|(e&->&He)]; [|left; by rewrite <- Hs].
    destruct (read_inode b _) as [i|e| | |]; cbn [bindR]; try done; [|by right].
    eexists. split; [reflexivity|]. destruct (decide (er_lzma_dict_size b = d)) as [<-|Hne].
    + right. intros ops. apply (session_faulty src erofs_on erofs_good ops (set_inodes b _, cx)). exact Hs.
    + left. destruct Hd as [?|Hnone]; [done|]. split; [done|]. cbn. congruence.
  - rewrite (erofs_open_fails src Hno). rewrite erofs_open_fails; rewrite Eb'.
    + destruct (open_bare src) as [b|e| | |]; cbn [bindR]; try done; [by destruct (Hno b)|by right].
    + intros b. destruct (open_bare src) as [b'|e| | |]; try done. by destruct (Hno b').
Qed.
(** ** Property *)

Definition intact {A B} (_ : A) (_ : B) : Prop := False.

(** C4.  An error of the device is never taken for data.  A medium is mounted and
    used by path through a device where any read may fail, and through one where
    none does.  For each of the seven formats, probing, mounting and every request up
    to the first that ends with the device's error have the same outcome in both: a
    failed read is not a missing file, an empty directory, a short file or another
    volume.  There is one exception: an EROFS volume mounted while its LZMA
    configuration cannot be read has no dictionary, where the medium has one. *)
Theorem device_errors_reported cx : src_valid src ->
  reports Cpio Cpio intact src cx /\ reports (Romfs S) (Romfs (Ideal S)) intact src cx /\
  reports (Cramfs S) (Cramfs (Ideal S)) intact src cx /\ reports (SquashFs S) (SquashFs (Ideal S)) intact src cx /\
  reports (Udf S) (Udf (Ideal S)) intact src cx /\ reports (Iso9660 S) (Iso9660 (Ideal S)) intact src cx /\
  reports (Erofs S) (Erofs (Ideal S)) dict_lost src cx.
Proof.
  intros Hv. split_and!; (split; [cbn [probe Cpio_Frontend Romfs_Frontend Cramfs_Frontend SquashFs_Frontend Udf_Frontend
    Iso_Frontend Erofs_Frontend]|]).
  - unfold cpio_probe. or_error.
  - eapply mounts_faulty; [apply cpio_faulty|reflexivity..|apply cpio_open_faulty].
  - unfold romfs_probe. or_error.
  - eapply mounts_faulty; [apply romfs_faulty|reflexivity..|apply romfs_open_faulty].
  - unfold cramfs_probe. or_error.
  - eapply mounts_faulty; [apply cramfs_faulty|reflexivity..|apply cramfs_open_faulty].
  - unfold squash_probe. or_error.
  - eapply mounts_faulty; [apply squash_faulty|reflexivity..|apply squash_open_faulty].
  - unfold udf_probe. or_error.
  - eapply mounts_faulty; [apply udf_faulty|reflexivity..|apply udf_open_faulty].
  - unfold iso_probe. or_error.
  - eapply mounts_faulty; [apply iso_faulty|reflexivity..|apply iso_open_faulty].
  - unfold erofs_probe. or_error.
  - by apply erofs_mounts.
Qed.
End FaultyFs.

(** ** Witness: a cramfs volume with a scratch over the page of [/f] *)

Record Scratched : Type := mkScratched { sc_disc : SliceSource; sc_bad : Z * Z }.

#[local] Instance Scratched_BlockSource : BlockSource Scratched := {
  src_len s := src_len (sc_disc s);
  src_read_at s off n :=
    if (off <? (sc_bad s).2) && ((sc_bad s).1 <? off + n) then Err (Io "bad sector")
    else src_read_at (sc_disc s) off n;
}.
#[local] Program Instance Scratched_Laws : SourceLaws Scratched := {
  src_valid s := src_valid (sc_disc s);
  src_byte s := src_byte (sc_disc s);
}.
Next Obligation. intros s Hv. exact (src_len_range (sc_disc s) Hv). Qed.
Next Obligation.
  intros s off n b Hv Ho Hn. cbn [src_read_at Scratched_BlockSource]. destruct (_ && _); [done|].
  exact (src_read_ok (sc_disc s) off n b Hv Ho Hn).
Qed.
Next Obligation.
  intros s off n Hv Ho Hn. cbn [src_read_at Scratched_BlockSource]. destruct (_ && _); [done|].
  exact (src_read_returns (sc_disc s) off n Hv Ho Hn).
Qed.

Definition fw_src : Scratched := mkScratched am_src (96, 101).
Definition fw_ops : list PathOp := [OpStat (bytes_of "f"); OpRead (bytes_of "f"); OpRead (bytes_of "g")].

#[local] Existing Instance NoOldArchives.

Lemma device_errors_reported_witness :
  reports (Cramfs Scratched) (Cramfs (Ideal Scratched)) intact fw_src am_ctx /\
  exists fs, cramfs_open fw_src = Ok fs /\
    session (S := Scratched) fw_ops (fs, am_ctx) = [Ok (AStat Regular 10); Err (Io "bad sector"); Err NotFound].
Proof.
  split.
  - assert (Hv : src_valid fw_src) by (vm_compute; reflexivity).
    destruct (device_errors_reported fw_src am_ctx Hv) as (_&_&Hc&_). exact Hc.
  - eexists. split; [vm_compute; reflexivity|]. vm_compute. reflexivity.
Defined.
