(* ===== verification/ErofsTrust.v ===== *)
(** * Reading by path through a Merkle verifier

    The promise of the integrity stack as its caller meets it: [read_path] on an
    EROFS volume, any volume, with a [MerkleVerifier] over the trusted bytes of a
    file as the session's verifier. *)
From S2P Require Import Prelude Text Cache Codec Nodes Verity ErofsIndex Erofs Substrate Path Tree Safe AnyMedium.
Open Scope Z_scope.

Section Read.
Context {F S : Type} `{FoldFrontend F S}.

(** A copy loop whose first read fills the buffer ends with what that read gave. *)
Lemma read_loop_filled n total s c s' : 0 <= total ->
  (forall k b s1, read_at n 0 (zeros total) s = (Ok (k, b), s1) -> k = total /\ zlen b = total) ->
  read_loop (S := S) (Datatypes.S (Z.to_nat total)) n total 0 (zeros total) s = (Ok c, s') ->
  total = 0 /\ c = [] \/ 0 < total /\ exists s1, read_at n 0 (zeros total) s = (Ok (total, c), s1).
Proof.
  intros Ht Hr. cbn [read_loop]. destruct (Z.ltb_spec 0 total) as [Hlt|].
  2:{ intros [= <- _]. left. assert (total = 0) as -> by lia. done. }
  unfold bindST at 1, liftR at 1. rewrite slice_eq by (rewrite ?zlen_zeros by lia; lia).
  rewrite zlen_zeros, Z.sub_0_r by lia.
  assert (sub (zeros total) 0 total = zeros total) as ->
    by (rewrite <- (zlen_zeros total) at 2 by lia; apply sub_all).
  unfold bindST at 1. destruct (read_at n 0 (zeros total) s) as [[[k b]|e| | |] s1] eqn:E; try done.
  destruct (Hr k b s1 eq_refl) as [-> Hb]. rewrite sub_nil. cbn [app]. rewrite Z.add_0_l.
  destruct (Z.eqb_spec total 0); [lia|]. destruct (Z.to_nat total) as [|fuel] eqn:Ef; [lia|].
  cbn [read_loop]. rewrite Z.ltb_irrefl. intros [= <- <-]. right. split; [done|]. exists s1.
  by rewrite <- Hb, sub_all.
Qed.
End Read.

Section Trust.
Context {D : Decoders} {DL : DecoderLaws D} {S : Type} `{SourceLaws S}.
Context (sha256 : list byte -> list byte) (sha256_len : forall l, zlen (sha256 l) = HASH_LEN).
Context (src : S) (Hv : src_valid src) (data salt : list byte) (mv : MerkleVerifier).
Implicit Types fs : Erofs S.

(** A block [d] that the medium serves as block [m] of the file of [i], that the
    verifier accepts, and that is forged: what is hashed for it and for block [m] of
    the trusted data are different and have one hash. *)
Definition forged_block fs node i : Prop := exists m d,
  serves_block fs i m d /\ merkle_verify_block sha256 mv node (m * er_block_size fs) d = Ok tt /\
  forges sha256 data (er_blkszbits fs) salt m d.

Lemma forged_block_bare fs fs' node i : bare fs = bare fs' -> forged_block fs node i -> forged_block fs' node i.
Proof.
  intros Eb (m&d&Hs&Hv'&Hf). exists m, d. split; [by apply (serves_block_bare fs)|].
  change (er_block_size fs') with (er_block_size (bare fs')). change (er_blkszbits fs') with (er_blkszbits (bare fs')).
  by rewrite <- Eb.
Qed.

(** Byte [p] of the trusted data, which zeros go on. *)
Definition trusted (p : Z) (x : byte) : Prop := get (data ++ zeros (p + 1)) p = Some x.

Lemma trusted_prefix (C : Prop) c : (forall j x, get c j = Some x -> trusted j x \/ C) ->
  c `prefix_of` data ++ zeros (zlen c) \/ C.
Proof.
  intros Hc. pose proof (zlen_nonneg c). pose proof (zlen_nonneg data).
  destruct (get_ext_or C c (sub (data ++ zeros (zlen c)) 0 (zlen c))) as [E|?]; [| |left|by right].
  - rewrite zlen_sub; rewrite ?zlen_app, ?zlen_zeros; lia.
  - intros j x Hj Hx. assert (j < zlen c) by (assert (is_Some (get c j)) as Hs by (by exists x); apply get_is_Some in Hs; lia).
    destruct (Hc j x Hx) as [Ht|?]; [left|by right]. unfold trusted in Ht. rewrite get_front by lia.
    destruct (Z.lt_ge_cases j (zlen data)).
    + rewrite get_app_l in * by lia. done.
    + replace j with (zlen data + (j - zlen data)) in * by lia. rewrite get_app_r in * by lia.
      rewrite get_zeros in * by lia. done.
  - rewrite E at 1. exists (sub (data ++ zeros (zlen c)) (zlen c) (zlen data)).
    rewrite <- (Z.add_0_l (zlen c)) at 4. rewrite sub_app_split by lia.
    rewrite <- (sub_all (data ++ zeros (zlen c))) at 1. f_equal. rewrite zlen_app, zlen_zeros; lia.
Qed.

(** One read through the verifier. *)
Lemma read_at_trusted fs node buf n b fs' i : Mounted src fs -> over sha256 data (er_blkszbits fs) salt = Ok mv ->
  0 <= node -> erofs_read_at (MerkleVerifier_verifier sha256 mv) node 0 buf fs = (Ok (n, b), fs') ->
  read_inode fs node = Ok i -> n = span_of i 0 (zlen buf) /\
  served (fun p x => trusted p x \/ forged_block fs node i) 0 buf n b.
Proof.
  intros Hm Hov Hn Hr Hi. destruct (erofs_mounted src fs Hv Hm) as (Hg&_).
  pose proof (ok_bits _ Hg) as Hbits. change (er_blkszbits (bare fs)) with (er_blkszbits fs) in Hbits.
  pose proof (ok_bs _ Hg) as Hbs. change (er_blkszbits (bare fs)) with (er_blkszbits fs) in Hbs.
  change (er_block_size (bare fs)) with (er_block_size fs) in Hbs.
  pose proof (merkle_answers src fs sha256 data salt mv sha256_len Hv Hm Hov) as Ha.
  apply (read_at_served src fs _ node 0 buf n b fs' i _ Hv Hm Ha Hn (Z.le_refl 0) Hr Hi).
  intros m d Hsv Hvd k x Hk. pose proof Hsv as (Hm0&_&Hd&_).
  pose proof (Z.pow_le_mono_r 2 9 (er_blkszbits fs) ltac:(lia) ltac:(lia)).
  assert (0 <= k < zlen d) by (apply get_is_Some; by exists x). unfold trusted. rewrite Hbs in Hd |- *.
  destruct (accepted_byte sha256 sha256_len data (er_blkszbits fs) salt mv node m d k x) as [Hx|Hf];
    [lia|done|done|lia|by rewrite <- Hbs|done|by left|right; by exists m, d].
Qed.

(** Mounted states of one medium differ in their memos only. *)
Lemma mounted_bare fs fs' : Mounted src fs -> Mounted src fs' -> bare fs' = bare fs.
Proof.
  intros Hm Hm'. destruct (erofs_mounted src fs Hv Hm) as (_&_&_&Ho), (erofs_mounted src fs' Hv Hm') as (_&_&_&Ho').
  congruence.
Qed.

Lemma metadata_Ok fs node md fs' : Mounted src fs -> erofs_metadata node fs = (Ok md, fs') ->
  exists i, read_inode fs node = Ok i /\ md_size md = ei_size i.
Proof.
  intros Hm Hmd. destruct (erofs_mounted src fs Hv Hm) as (_&_&Hc&_).
  pose proof (computes_fst _ _ _ _ (metadata_computes (bare fs) node) Hc) as Hf. rewrite Hmd, read_inode_bare in Hf.
  destruct (read_inode fs node) as [i|e| | |]; try done. injection Hf as ->. by exists i.
Qed.

(** The whole-file copy loop. *)
Lemma read_loop_trusted fs cx n i c s' : Mounted src fs -> over sha256 data (er_blkszbits fs) salt = Ok mv ->
  cx_verifier cx = MerkleVerifier_verifier sha256 mv -> 0 <= n -> read_inode fs n = Ok i ->
  read_loop (F := Erofs S) (S := S) (Datatypes.S (Z.to_nat (ei_size i))) n (ei_size i) 0 (zeros (ei_size i)) (fs, cx)
    = (Ok c, s') ->
  zlen c = ei_size i /\ forall j x, get c j = Some x -> trusted j x \/ forged_block fs n i.
Proof.
  intros Hm Hov Hcx Hn Hi Hl. destruct (erofs_mounted src fs Hv Hm) as (Hg&_).
  pose proof (erofs_read_inode_wp (bare fs) n Hg Hn) as Hok. rewrite read_inode_bare, Hi in Hok. destruct Hok as [Hs _].
  assert (Hread : forall k b s1, read_at (F := Erofs S) (S := S) n 0 (zeros (ei_size i)) (fs, cx) = (Ok (k, b), s1) ->
    k = ei_size i /\ served (fun p x => trusted p x \/ forged_block fs n i) 0 (zeros (ei_size i)) k b).
  { intros k b s1 Hra. cbn [read_at Erofs_Frontend] in Hra. unfold on_frontend in Hra. rewrite Hcx in Hra.
    destruct (erofs_read_at _ _ _ _ fs) as [r fs'] eqn:E. injection Hra as -> _.
    destruct (read_at_trusted fs n _ k b fs' i Hm Hov Hn E Hi) as [Hk Hsv]. split; [|done].
    rewrite Hk. unfold span_of. rewrite zlen_zeros, Z.geb_leb by lia. destruct (Z.leb_spec (ei_size i) 0); lia. }
  apply read_loop_filled in Hl as [[Ez ->]|[Hpos (s1&Hra)]]; [| |lia|].
  - rewrite Ez. split; [done|]. intros j x Hj. apply get_Some in Hj as [_ Hj]. done.
  - destruct (Hread _ _ _ Hra) as [_ (Hz&_&Hb)]. rewrite zlen_zeros in Hz by lia. split; [done|].
    intros j x Hj. assert (0 <= j < zlen c) as Hr by (apply get_is_Some; by exists x).
    destruct (Hb j ltac:(lia)) as (y&Hy&Ht). rewrite Hj in Hy. by injection Hy as ->.
  - intros k b s2 Hra. destruct (Hread k b s2 Hra) as [? (Hz&_)]. by rewrite zlen_zeros in Hz by lia.
Qed.

(** C2.  A boot file read by path is the trusted file.  On whatever medium and after
    whatever was done on the volume, with a [MerkleVerifier] over the trusted data of
    a file, at the volume's block size, as the session's verifier: if [read_path]
    gives bytes for a path, links and directories of the medium leading wherever they
    lead, those are as many as the size the medium records for the file the path
    leads to, and they are the trusted data, but for being cut, or filled with zeros,
    to that size; with the data's own size they are the data.  The only other way is a
    block that the medium serves for that very file, that the verifier accepts, and
    that is forged: what is hashed for it and for the block of the trusted data it
    stands for is an SHA-256 collision. *)
Theorem read_path_trusted fs cx path c s' :
  Mounted src fs -> over sha256 data (er_blkszbits fs) salt = Ok mv ->
  cx_verifier cx = MerkleVerifier_verifier sha256 mv ->
  read_path (F := Erofs S) (S := S) path (fs, cx) = (Ok c, s') ->
  exists node i md, (resolve (F := Erofs S) (S := S) path (fs, cx)).1 = Ok node /\ read_inode fs node = Ok i /\
    (metadata_path (F := Erofs S) (S := S) path (fs, cx)).1 = Ok md /\
    md_size md = ei_size i /\ zlen c = ei_size i /\
    (c `prefix_of` data ++ zeros (zlen c) /\ (ei_size i = zlen data -> c = data) \/
     exists m d, serves_block fs i m d /\
       merkle_verify_block sha256 mv node (m * er_block_size fs) d = Ok tt /\
       forges sha256 data (er_blkszbits fs) salt m d).
Proof.
  intros Hm Hov Hcx Hr.
  assert (Ha : verifier_answers src cx).
  { intros fs1 Hm1. rewrite Hcx. apply (merkle_answers src fs1 sha256 data salt mv); try done.
    rewrite <- Hov. f_equal. change (er_blkszbits (bare fs1) = er_blkszbits (bare fs)). by rewrite (mounted_bare fs fs1). }
  pose proof (erofs_safe src Hv cx Ha) as Hsafe.
  unfold read_path in Hr. apply bindST_Ok in Hr as (n&s1&Hres&Hr).
  destruct (resolve_safe True (erofs_in src cx) nid_node _ path (fs, cx)) as [Hn [Hm1 Hcx1]]; [by split|].
  rewrite Hres in Hn, Hm1, Hcx1. cbn [fst snd wpx] in Hn, Hm1, Hcx1. destruct s1 as [fs1 cx1]. cbn [fst snd] in *. subst cx1.
  apply bindST_Ok in Hr as (md&s2&Hmd&Hr). cbn [metadata Erofs_Frontend] in Hmd. unfold on_frontend in Hmd.
  destruct (erofs_metadata n fs1) as [r fs2] eqn:Emd. injection Hmd as -> <-.
  assert (Hm2 : Mounted src fs2) by (pose proof (Mounted_metadata src fs1 n Hm1) as Hx; by rewrite Emd in Hx).
  destruct (metadata_Ok fs1 n md fs2 Hm1 Emd) as (i&Hi&Hsz).
  pose proof (mounted_bare fs fs1 Hm Hm1) as Eb1. pose proof (mounted_bare fs fs2 Hm Hm2) as Eb2.
  assert (Hi0 : read_inode fs n = Ok i) by (by rewrite <- read_inode_bare, <- Eb1, read_inode_bare).
  exists n, i, md. unfold metadata_path, bindST. rewrite Hres. cbn [metadata Erofs_Frontend]. unfold on_frontend.
  rewrite Emd. split; [done|]. split; [done|]. split; [done|]. split; [done|].
  destruct (decide (md_kind md = Directory)); [done|]. apply bindST_Ok in Hr as (total&s3&Ht&Hl).
  unfold liftR in Ht. injection Ht as Ht <-. apply checked_full_Ok in Ht as [_ ->]. rewrite Hsz in Hl.
  destruct (read_loop_trusted fs2 cx n i c s' Hm2) as [Hz Hb]; try done.
  { rewrite <- Hov. f_equal. change (er_blkszbits (bare fs2) = er_blkszbits (bare fs)). by rewrite (mounted_bare fs fs2). }
  { by rewrite <- read_inode_bare, Eb2, read_inode_bare. }
  split; [done|]. destruct (trusted_prefix _ c Hb) as [Hp|Hf];
    [left|right; exact (forged_block_bare fs2 fs n i Eb2 Hf)]. split; [done|]. intros Hd.
  destruct Hp as [t Ht]. apply app_inj_1 in Ht as [-> _]; [done|]. unfold zlen in *. lia.
Qed.
End Trust.

(** ** Witness: a file of a block and a tail, read by path *)

Definition et_ctx : SubstrateCtx := mkCtx (BlockCache.new 0) (MerkleVerifier_verifier toy_sha w_verifier).
Lemma et_read : exists s', read_path (F := Erofs Image) (S := Image) (bytes_of "/f") (w_fs0, et_ctx) = (Ok w_content, s').
Proof. eexists. vm_compute. reflexivity. Qed.

Lemma read_path_trusted_witness : exists node i,
  (resolve (F := Erofs Image) (S := Image) (bytes_of "/f") (w_fs0, et_ctx)).1 = Ok node /\
  (w_content `prefix_of` w_content ++ zeros 517 \/
   exists m d, serves_block w_fs0 i m d /\
     merkle_verify_block toy_sha w_verifier node (m * er_block_size w_fs0) d = Ok tt /\
     forges toy_sha w_content (er_blkszbits w_fs0) [] m d).
Proof.
  destruct et_read as [s' Hr].
  destruct (read_path_trusted toy_sha toy_sha_len w_image w_erofs_valid w_content [] w_verifier w_fs0 et_ctx
    (bytes_of "/f") w_content s' w_erofs_mounted0 w_over eq_refl Hr) as (node&i&md&Hn&_&_&_&_&[[Hp _]|Hc]);
    exists node, i; (split; [exact Hn|]); [left|right; exact Hc].
  rewrite w_content_len in Hp. exact Hp.
Defined.
